(** * SuperCAN bridge engine: a shallow embedding of
      [examples/device/supercan/src/main.c] and the properties of its
      natural-language specification.

    Integers are modelled as [Z] with the wrap-around of the C type written
    out ([wrap8], [wrap16], [wrap32]); C arrays are lists read with stdpp's
    lookup and written with stdpp's insert; C structs are records.  The
    constants, macros and struct layouts that live in headers which are not
    part of the sources at hand ([supercan.h], [supercan_board.h], the SAM
    register headers) are fields of the class [supercan_h]; every function
    below is written against an arbitrary instance of that class. *)

From Stdlib Require Import ZArith Lia Bool List.
From stdpp Require Import base list relations.
Import ListNotations.

Local Open Scope Z_scope.
Set Default Proof Using "Type".

(** ** Machine integers *)

Definition wrap8 (x : Z) : Z := x mod 2 ^ 8.
Definition wrap16 (x : Z) : Z := x mod 2 ^ 16.
Definition wrap32 (x : Z) : Z := x mod 2 ^ 32.

(** [#define CLOCK_MAX 0xffffffff] *)
Definition CLOCK_MAX : Z := 0xffffffff.

(** C truth value of an integer used as a condition. *)
Definition truthy (x : Z) : bool := negb (x =? 0).

(** C's [!x] on an integer. *)
Definition lnot (x : Z) : Z := if x =? 0 then 1 else 0.

(** Array read with the index taken from a C integer; [d] stands for the
    value of an element the model never wrote. *)
Definition aget {A} (d : A) (a : list A) (i : Z) : A :=
  default d (a !! Z.to_nat i).

(** Array write [a[i] = v]. *)
Definition aset {A} (a : list A) (i : Z) (v : A) : list A :=
  <[Z.to_nat i := v]> a.

(** ** [dlc_to_len] and the on-wire bit count *)

(** [static const uint8_t map[16]] of [dlc_to_len]. *)
Definition dlc_map : list Z :=
  [0; 1; 2; 3; 4; 5; 6; 7; 8; 12; 16; 20; 24; 32; 48; 64].

Definition dlc_to_len (dlc : Z) : Z :=
  aget 0 dlc_map (Z.land dlc 0xf).

(** The local [crc_bits] of [can_frame_bits], computed in the [fdf] branch. *)
Definition crc_bits (dlc : Z) : Z :=
  if dlc <=? 10 then 17 + 4 + 5 else 21 + 4 + 6.

(** [can_frame_bits]: the two out-parameters are returned as the pair
    [(nmbr_bits, dtbr_bits)]. *)
Definition can_frame_bits (xtd rtr fdf brs dlc : Z) : Z * Z :=
  let payload_bits := dlc_to_len dlc * 8 in
  if truthy fdf then
    let crc_bits := crc_bits dlc in
    if truthy brs then
      let dtbr_bits := 1 + 4 + payload_bits + crc_bits in
      if truthy xtd then
        (1 + 11 + 1 + 1 + 18 + 1 + 1 + 1 + 1 + 1 + 1 + 1 + 7 + 2, dtbr_bits)
      else
        (1 + 11 + 1 + 1 + 1 + 1 + 1 + 1 + 1 + 1 + 7 + 2, dtbr_bits)
    else
      if truthy xtd then
        (1 + 11 + 1 + 1 + 18 + 1 + 1 + 1 + 1 + 1 + 4 + payload_bits
           + crc_bits + 1 + 1 + 1 + 7 + 2, 0)
      else
        (1 + 11 + 1 + 1 + 1 + 1 + 1 + 1 + 4 + payload_bits
           + crc_bits + 1 + 1 + 1 + 7 + 2, 0)
  else
    if truthy xtd then
      (1 + 11 + 1 + 1 + 18 + 1 + 2 + 4 + lnot rtr * payload_bits
         + 15 + 1 + 1 + 1 + 7 + 2, 0)
    else
      (1 + 11 + 1 + 1 + 1 + 4 + lnot rtr * payload_bits
         + 15 + 1 + 1 + 1 + 7 + 2, 0).

(** The CRC-related term of a frame's bit count: what is left of
    [nmbr_bits + dtbr_bits] of an FD frame once the payload and the fixed
    fields of the format are taken away. *)
Definition fd_fixed_bits (xtd : Z) : Z :=
  if truthy xtd then 53 else 34.

Definition fd_crc_term (xtd rtr fdf brs dlc : Z) : Z :=
  let '(nm, dt) := can_frame_bits xtd rtr fdf brs dlc in
  nm + dt - fd_fixed_bits xtd - dlc_to_len dlc * 8.

(** ** Outcome of a modelled function

    [SC_ASSERT] is always compiled in and does not return when its condition
    is false; the model stops with [AssertFailed].  ([SC_DEBUG_ASSERT] only
    exists in debug builds and is not part of the release firmware modelled
    here.)  Loops built from [goto] or from a condition that is not a plain
    counter carry a fuel argument and stop with [OutOfFuel] when it runs out;
    the theorems show how much fuel is enough.  Reading a field through a
    pointer that is [NULL] stops the model with [NullDeref]. *)

Inductive result (A : Type) : Type :=
| Ok (a : A)
| AssertFailed
| OutOfFuel
| NullDeref.
Arguments Ok {A} a.
Arguments AssertFailed {A}.
Arguments OutOfFuel {A}.
Arguments NullDeref {A}.

Definition rbind {A B} (r : result A) (k : A -> result B) : result B :=
  match r with
  | Ok a => k a
  | AssertFailed => AssertFailed
  | OutOfFuel => OutOfFuel
  | NullDeref => NullDeref
  end.

Notation "'do' x <- r ; k" := (rbind r (fun x => k))
  (at level 10, x pattern, r at level 100, k at level 200).

Definition SC_ASSERT (cond : bool) : result unit :=
  if cond then Ok tt else AssertFailed.

(** ** Constants of the missing headers *)

Record sc_can_bit_timing := {
  brp : Z;
  tseg1 : Z;
  tseg2 : Z;
  sjw : Z
}.

Record sc_can_bit_timing_range := {
  min : sc_can_bit_timing;
  max : sc_can_bit_timing
}.

Class supercan_h := {
  (* FIFO and buffer sizes *)
  CAN_RX_FIFO_SIZE : Z;
  CAN_TX_FIFO_SIZE : Z;
  CAN_STATUS_FIFO_SIZE : Z;
  MSG_BUFFER_SIZE : Z;
  CMD_BUFFER_SIZE : Z;
  SC_M1_EP_SIZE : Z;
  SC_MSG_CAN_LEN_MULTIPLE : Z;
  (* message ids *)
  SC_MSG_EOF : Z;
  SC_MSG_HELLO_DEVICE : Z;
  SC_MSG_HELLO_HOST : Z;
  SC_MSG_DEVICE_INFO : Z;
  SC_MSG_CAN_INFO : Z;
  SC_MSG_NM_BITTIMING : Z;
  SC_MSG_DT_BITTIMING : Z;
  SC_MSG_FEATURES : Z;
  SC_MSG_BUS : Z;
  SC_MSG_ERROR : Z;
  SC_MSG_CAN_STATUS : Z;
  SC_MSG_CAN_RX : Z;
  SC_MSG_CAN_TX : Z;
  SC_MSG_CAN_TXR : Z;
  SC_MSG_CAN_ERROR : Z;
  (* error codes of the error reply *)
  SC_ERROR_NONE : Z;
  SC_ERROR_SHORT : Z;
  SC_ERROR_PARAM : Z;
  SC_ERROR_UNSUPPORTED : Z;
  SC_CAN_ERROR_NONE : Z;
  (* feature flags and feature operations *)
  SC_FEATURE_FLAG_MON_MODE : Z;
  SC_FEATURE_FLAG_RES_MODE : Z;
  SC_FEATURE_FLAG_EXT_LOOP_MODE : Z;
  SC_FEAT_OP_CLEAR : Z;
  SC_FEAT_OP_OR : Z;
  (* flags of frames, status snapshots and bus errors *)
  SC_CAN_FRAME_FLAG_EXT : Z;
  SC_CAN_FRAME_FLAG_RTR : Z;
  SC_CAN_FRAME_FLAG_FDF : Z;
  SC_CAN_FRAME_FLAG_BRS : Z;
  SC_CAN_FRAME_FLAG_ESI : Z;
  SC_CAN_FRAME_FLAG_DRP : Z;
  SC_CAN_STATUS_FLAG_TXR_DESYNC : Z;
  SC_CAN_ERROR_FLAG_RXTX_TX : Z;
  SC_CAN_ERROR_FLAG_NMDT_DT : Z;
  CAN_STATUS_FIFO_TYPE_BUS_STATUS : Z;
  CAN_STATUS_FIFO_TYPE_BUS_ERROR : Z;
  (* sizeof of the wire structs *)
  sizeof_sc_msg_hello : Z;
  sizeof_sc_msg_dev_info : Z;
  sizeof_sc_msg_can_info : Z;
  sizeof_sc_msg_bittiming : Z;
  sizeof_sc_msg_features : Z;
  sizeof_sc_msg_config : Z;
  sizeof_sc_msg_error : Z;
  sizeof_sc_msg_can_status : Z;
  sizeof_sc_msg_can_rx : Z;
  sizeof_sc_msg_can_tx : Z;
  sizeof_sc_msg_can_txr : Z;
  sizeof_sc_msg_can_error : Z;
  (* the board: FIFO sizes, feature sets and bit timing ranges; what
     [sc_board_can_dt_bit_timing_range] returns is [None] when it is the
     [NULL] pointer *)
  SC_BOARD_CAN_TX_FIFO_SIZE : Z;
  SC_BOARD_CAN_RX_FIFO_SIZE : Z;
  CAN_FEAT_PERM : Z;
  CAN_FEAT_CONF : Z;
  nm_range : sc_can_bit_timing_range;
  dt_range : option sc_can_bit_timing_range
}.

(** Modelled from the spec: the wire header is the two bytes
    [{id: u8, len: u8}]; [struct sc_msg_header] and [SC_MSG_HEADER_LEN] are
    declared in the missing [supercan.h]. *)
Definition SC_MSG_HEADER_LEN : Z := 2.

(** ** The controller's message RAM and registers, and [struct can] *)

(** Bit-fields of [CAN_RXF0E_0_Type] and [CAN_RXF0E_1_Type]. *)
Record CAN_RXF0E_0 := { R0_ID : Z; R0_RTR : Z; R0_XTD : Z; R0_ESI : Z }.
Record CAN_RXF0E_1 := { R1_DLC : Z; R1_BRS : Z; R1_FDF : Z }.

(** Bit-fields of [CAN_TXEFE_0_Type] and [CAN_TXEFE_1_Type]. *)
Record CAN_TXEFE_0 := { E0_ID : Z; E0_RTR : Z; E0_XTD : Z; E0_ESI : Z }.
Record CAN_TXEFE_1 := { E1_DLC : Z; E1_BRS : Z; E1_FDF : Z; E1_MM : Z }.

(** Bit-fields of [CAN_TXBE_0_Type] and [CAN_TXBE_1_Type]. *)
Record CAN_TXBE_0 := { B0_ID : Z; B0_RTR : Z; B0_XTD : Z; B0_ESI : Z }.
Record CAN_TXBE_1 := { B1_DLC : Z; B1_BRS : Z; B1_FDF : Z; B1_MM : Z }.

(** Elements of [rx_fifo], [tx_event_fifo] and [tx_fifo] (message RAM). *)
Record can_rx_fifo_element := {
  rxe_R0 : CAN_RXF0E_0; rxe_R1 : CAN_RXF0E_1; rxe_data : list Z
}.
Record can_tx_event_fifo_element := {
  txe_T0 : CAN_TXEFE_0; txe_T1 : CAN_TXEFE_1
}.
Record can_tx_fifo_element := {
  txb_T0 : CAN_TXBE_0; txb_T1 : CAN_TXBE_1; txb_data : list Z
}.

(** Slots of the rings [rx_frames], [tx_frames] and [status_fifo]. *)
Record rx_frame := {
  rxf_R0 : CAN_RXF0E_0; rxf_R1 : CAN_RXF0E_1; rxf_ts : Z; rxf_data : list Z
}.
Record tx_frame := {
  txf_T0 : CAN_TXEFE_0; txf_T1 : CAN_TXEFE_1; txf_ts : Z
}.
Record can_status := {
  cs_type : Z; cs_payload : Z; cs_ts : Z; cs_tx : Z; cs_data_part : Z
}.

(** The registers of [can->m_can] that [main.c] touches. *)
Record Can := {
  RXF0S_F0FL : Z;
  RXF0S_F0GI : Z;
  RXF0A : Z;
  TXEFS_EFFL : Z;
  TXEFS_EFGI : Z;
  TXEFA : Z;
  TXFQS_TFQPI : Z;
  TXFQS_TFFL : Z;
  TXBAR : Z;
  CCCR_TXP : Z;
  ECR_TEC : Z;
  ECR_REC : Z
}.

(** [struct can], one channel: the fields [main.c] reads and writes. *)
Record can := {
  rx_fifo : list can_rx_fifo_element;
  tx_event_fifo : list can_tx_event_fifo_element;
  tx_fifo : list can_tx_fifo_element;
  m_can : Can;
  rx_frames : list rx_frame;
  tx_frames : list tx_frame;
  status_fifo : list can_status;
  nm_us_per_bit : Z;
  dt_us_per_bit_factor_shift8 : Z;
  rx_lost : Z;
  tx_dropped : Z;
  features : Z;
  int_comm_flags : Z;
  status_put_index : Z;
  status_get_index : Z;
  rx_put_index : Z;
  rx_get_index : Z;
  tx_put_index : Z;
  tx_get_index : Z;
  tx_available : Z;
  enabled : bool;
  desync : bool
}.

Definition zero_R0 : CAN_RXF0E_0 := {| R0_ID := 0; R0_RTR := 0; R0_XTD := 0; R0_ESI := 0 |}.
Definition zero_R1 : CAN_RXF0E_1 := {| R1_DLC := 0; R1_BRS := 0; R1_FDF := 0 |}.
Definition zero_E0 : CAN_TXEFE_0 := {| E0_ID := 0; E0_RTR := 0; E0_XTD := 0; E0_ESI := 0 |}.
Definition zero_E1 : CAN_TXEFE_1 := {| E1_DLC := 0; E1_BRS := 0; E1_FDF := 0; E1_MM := 0 |}.
Definition zero_B0 : CAN_TXBE_0 := {| B0_ID := 0; B0_RTR := 0; B0_XTD := 0; B0_ESI := 0 |}.
Definition zero_B1 : CAN_TXBE_1 := {| B1_DLC := 0; B1_BRS := 0; B1_FDF := 0; B1_MM := 0 |}.
Definition zero_rx_fifo_element : can_rx_fifo_element :=
  {| rxe_R0 := zero_R0; rxe_R1 := zero_R1; rxe_data := [] |}.
Definition zero_tx_event_fifo_element : can_tx_event_fifo_element :=
  {| txe_T0 := zero_E0; txe_T1 := zero_E1 |}.
Definition zero_tx_fifo_element : can_tx_fifo_element :=
  {| txb_T0 := zero_B0; txb_T1 := zero_B1; txb_data := [] |}.
Definition zero_rx_frame : rx_frame :=
  {| rxf_R0 := zero_R0; rxf_R1 := zero_R1; rxf_ts := 0; rxf_data := [] |}.
Definition zero_tx_frame : tx_frame :=
  {| txf_T0 := zero_E0; txf_T1 := zero_E1; txf_ts := 0 |}.
Definition zero_can_status : can_status :=
  {| cs_type := 0; cs_payload := 0; cs_ts := 0; cs_tx := 0; cs_data_part := 0 |}.

(** Field updates ([c->f = v] in the source, or a register changed by
    the controller). *)

Definition set_RXF0S_F0FL (v : Z) (r : Can) : Can :=
  {| RXF0S_F0FL := v; RXF0S_F0GI := RXF0S_F0GI r; RXF0A := RXF0A r;
     TXEFS_EFFL := TXEFS_EFFL r; TXEFS_EFGI := TXEFS_EFGI r; TXEFA := TXEFA r;
     TXFQS_TFQPI := TXFQS_TFQPI r; TXFQS_TFFL := TXFQS_TFFL r;
     TXBAR := TXBAR r; CCCR_TXP := CCCR_TXP r; ECR_TEC := ECR_TEC r;
     ECR_REC := ECR_REC r |}.

Definition set_RXF0S_F0GI (v : Z) (r : Can) : Can :=
  {| RXF0S_F0FL := RXF0S_F0FL r; RXF0S_F0GI := v; RXF0A := RXF0A r;
     TXEFS_EFFL := TXEFS_EFFL r; TXEFS_EFGI := TXEFS_EFGI r; TXEFA := TXEFA r;
     TXFQS_TFQPI := TXFQS_TFQPI r; TXFQS_TFFL := TXFQS_TFFL r;
     TXBAR := TXBAR r; CCCR_TXP := CCCR_TXP r; ECR_TEC := ECR_TEC r;
     ECR_REC := ECR_REC r |}.

Definition set_RXF0A (v : Z) (r : Can) : Can :=
  {| RXF0S_F0FL := RXF0S_F0FL r; RXF0S_F0GI := RXF0S_F0GI r; RXF0A := v;
     TXEFS_EFFL := TXEFS_EFFL r; TXEFS_EFGI := TXEFS_EFGI r; TXEFA := TXEFA r;
     TXFQS_TFQPI := TXFQS_TFQPI r; TXFQS_TFFL := TXFQS_TFFL r;
     TXBAR := TXBAR r; CCCR_TXP := CCCR_TXP r; ECR_TEC := ECR_TEC r;
     ECR_REC := ECR_REC r |}.

Definition set_TXEFS_EFFL (v : Z) (r : Can) : Can :=
  {| RXF0S_F0FL := RXF0S_F0FL r; RXF0S_F0GI := RXF0S_F0GI r; RXF0A := RXF0A r;
     TXEFS_EFFL := v; TXEFS_EFGI := TXEFS_EFGI r; TXEFA := TXEFA r;
     TXFQS_TFQPI := TXFQS_TFQPI r; TXFQS_TFFL := TXFQS_TFFL r;
     TXBAR := TXBAR r; CCCR_TXP := CCCR_TXP r; ECR_TEC := ECR_TEC r;
     ECR_REC := ECR_REC r |}.

Definition set_TXEFS_EFGI (v : Z) (r : Can) : Can :=
  {| RXF0S_F0FL := RXF0S_F0FL r; RXF0S_F0GI := RXF0S_F0GI r; RXF0A := RXF0A r;
     TXEFS_EFFL := TXEFS_EFFL r; TXEFS_EFGI := v; TXEFA := TXEFA r;
     TXFQS_TFQPI := TXFQS_TFQPI r; TXFQS_TFFL := TXFQS_TFFL r;
     TXBAR := TXBAR r; CCCR_TXP := CCCR_TXP r; ECR_TEC := ECR_TEC r;
     ECR_REC := ECR_REC r |}.

Definition set_TXEFA (v : Z) (r : Can) : Can :=
  {| RXF0S_F0FL := RXF0S_F0FL r; RXF0S_F0GI := RXF0S_F0GI r; RXF0A := RXF0A r;
     TXEFS_EFFL := TXEFS_EFFL r; TXEFS_EFGI := TXEFS_EFGI r; TXEFA := v;
     TXFQS_TFQPI := TXFQS_TFQPI r; TXFQS_TFFL := TXFQS_TFFL r;
     TXBAR := TXBAR r; CCCR_TXP := CCCR_TXP r; ECR_TEC := ECR_TEC r;
     ECR_REC := ECR_REC r |}.

Definition set_TXFQS_TFQPI (v : Z) (r : Can) : Can :=
  {| RXF0S_F0FL := RXF0S_F0FL r; RXF0S_F0GI := RXF0S_F0GI r; RXF0A := RXF0A r;
     TXEFS_EFFL := TXEFS_EFFL r; TXEFS_EFGI := TXEFS_EFGI r; TXEFA := TXEFA r;
     TXFQS_TFQPI := v; TXFQS_TFFL := TXFQS_TFFL r; TXBAR := TXBAR r;
     CCCR_TXP := CCCR_TXP r; ECR_TEC := ECR_TEC r; ECR_REC := ECR_REC r |}.

Definition set_TXFQS_TFFL (v : Z) (r : Can) : Can :=
  {| RXF0S_F0FL := RXF0S_F0FL r; RXF0S_F0GI := RXF0S_F0GI r; RXF0A := RXF0A r;
     TXEFS_EFFL := TXEFS_EFFL r; TXEFS_EFGI := TXEFS_EFGI r; TXEFA := TXEFA r;
     TXFQS_TFQPI := TXFQS_TFQPI r; TXFQS_TFFL := v; TXBAR := TXBAR r;
     CCCR_TXP := CCCR_TXP r; ECR_TEC := ECR_TEC r; ECR_REC := ECR_REC r |}.

Definition set_TXBAR (v : Z) (r : Can) : Can :=
  {| RXF0S_F0FL := RXF0S_F0FL r; RXF0S_F0GI := RXF0S_F0GI r; RXF0A := RXF0A r;
     TXEFS_EFFL := TXEFS_EFFL r; TXEFS_EFGI := TXEFS_EFGI r; TXEFA := TXEFA r;
     TXFQS_TFQPI := TXFQS_TFQPI r; TXFQS_TFFL := TXFQS_TFFL r; TXBAR := v;
     CCCR_TXP := CCCR_TXP r; ECR_TEC := ECR_TEC r; ECR_REC := ECR_REC r |}.

Definition set_CCCR_TXP (v : Z) (r : Can) : Can :=
  {| RXF0S_F0FL := RXF0S_F0FL r; RXF0S_F0GI := RXF0S_F0GI r; RXF0A := RXF0A r;
     TXEFS_EFFL := TXEFS_EFFL r; TXEFS_EFGI := TXEFS_EFGI r; TXEFA := TXEFA r;
     TXFQS_TFQPI := TXFQS_TFQPI r; TXFQS_TFFL := TXFQS_TFFL r;
     TXBAR := TXBAR r; CCCR_TXP := v; ECR_TEC := ECR_TEC r;
     ECR_REC := ECR_REC r |}.

Definition set_ECR_TEC (v : Z) (r : Can) : Can :=
  {| RXF0S_F0FL := RXF0S_F0FL r; RXF0S_F0GI := RXF0S_F0GI r; RXF0A := RXF0A r;
     TXEFS_EFFL := TXEFS_EFFL r; TXEFS_EFGI := TXEFS_EFGI r; TXEFA := TXEFA r;
     TXFQS_TFQPI := TXFQS_TFQPI r; TXFQS_TFFL := TXFQS_TFFL r;
     TXBAR := TXBAR r; CCCR_TXP := CCCR_TXP r; ECR_TEC := v;
     ECR_REC := ECR_REC r |}.

Definition set_ECR_REC (v : Z) (r : Can) : Can :=
  {| RXF0S_F0FL := RXF0S_F0FL r; RXF0S_F0GI := RXF0S_F0GI r; RXF0A := RXF0A r;
     TXEFS_EFFL := TXEFS_EFFL r; TXEFS_EFGI := TXEFS_EFGI r; TXEFA := TXEFA r;
     TXFQS_TFQPI := TXFQS_TFQPI r; TXFQS_TFFL := TXFQS_TFFL r;
     TXBAR := TXBAR r; CCCR_TXP := CCCR_TXP r; ECR_TEC := ECR_TEC r;
     ECR_REC := v |}.

Definition set_rx_fifo (v : list can_rx_fifo_element) (c : can) : can :=
  {| rx_fifo := v; tx_event_fifo := tx_event_fifo c; tx_fifo := tx_fifo c;
     m_can := m_can c; rx_frames := rx_frames c; tx_frames := tx_frames c;
     status_fifo := status_fifo c; nm_us_per_bit := nm_us_per_bit c;
     dt_us_per_bit_factor_shift8 := dt_us_per_bit_factor_shift8 c;
     rx_lost := rx_lost c; tx_dropped := tx_dropped c; features := features c;
     int_comm_flags := int_comm_flags c;
     status_put_index := status_put_index c;
     status_get_index := status_get_index c; rx_put_index := rx_put_index c;
     rx_get_index := rx_get_index c; tx_put_index := tx_put_index c;
     tx_get_index := tx_get_index c; tx_available := tx_available c;
     enabled := enabled c; desync := desync c |}.

Definition set_tx_event_fifo (v : list can_tx_event_fifo_element) (c : can) : can :=
  {| rx_fifo := rx_fifo c; tx_event_fifo := v; tx_fifo := tx_fifo c;
     m_can := m_can c; rx_frames := rx_frames c; tx_frames := tx_frames c;
     status_fifo := status_fifo c; nm_us_per_bit := nm_us_per_bit c;
     dt_us_per_bit_factor_shift8 := dt_us_per_bit_factor_shift8 c;
     rx_lost := rx_lost c; tx_dropped := tx_dropped c; features := features c;
     int_comm_flags := int_comm_flags c;
     status_put_index := status_put_index c;
     status_get_index := status_get_index c; rx_put_index := rx_put_index c;
     rx_get_index := rx_get_index c; tx_put_index := tx_put_index c;
     tx_get_index := tx_get_index c; tx_available := tx_available c;
     enabled := enabled c; desync := desync c |}.

Definition set_tx_fifo (v : list can_tx_fifo_element) (c : can) : can :=
  {| rx_fifo := rx_fifo c; tx_event_fifo := tx_event_fifo c; tx_fifo := v;
     m_can := m_can c; rx_frames := rx_frames c; tx_frames := tx_frames c;
     status_fifo := status_fifo c; nm_us_per_bit := nm_us_per_bit c;
     dt_us_per_bit_factor_shift8 := dt_us_per_bit_factor_shift8 c;
     rx_lost := rx_lost c; tx_dropped := tx_dropped c; features := features c;
     int_comm_flags := int_comm_flags c;
     status_put_index := status_put_index c;
     status_get_index := status_get_index c; rx_put_index := rx_put_index c;
     rx_get_index := rx_get_index c; tx_put_index := tx_put_index c;
     tx_get_index := tx_get_index c; tx_available := tx_available c;
     enabled := enabled c; desync := desync c |}.

Definition set_m_can (v : Can) (c : can) : can :=
  {| rx_fifo := rx_fifo c; tx_event_fifo := tx_event_fifo c;
     tx_fifo := tx_fifo c; m_can := v; rx_frames := rx_frames c;
     tx_frames := tx_frames c; status_fifo := status_fifo c;
     nm_us_per_bit := nm_us_per_bit c;
     dt_us_per_bit_factor_shift8 := dt_us_per_bit_factor_shift8 c;
     rx_lost := rx_lost c; tx_dropped := tx_dropped c; features := features c;
     int_comm_flags := int_comm_flags c;
     status_put_index := status_put_index c;
     status_get_index := status_get_index c; rx_put_index := rx_put_index c;
     rx_get_index := rx_get_index c; tx_put_index := tx_put_index c;
     tx_get_index := tx_get_index c; tx_available := tx_available c;
     enabled := enabled c; desync := desync c |}.

Definition set_rx_frames (v : list rx_frame) (c : can) : can :=
  {| rx_fifo := rx_fifo c; tx_event_fifo := tx_event_fifo c;
     tx_fifo := tx_fifo c; m_can := m_can c; rx_frames := v;
     tx_frames := tx_frames c; status_fifo := status_fifo c;
     nm_us_per_bit := nm_us_per_bit c;
     dt_us_per_bit_factor_shift8 := dt_us_per_bit_factor_shift8 c;
     rx_lost := rx_lost c; tx_dropped := tx_dropped c; features := features c;
     int_comm_flags := int_comm_flags c;
     status_put_index := status_put_index c;
     status_get_index := status_get_index c; rx_put_index := rx_put_index c;
     rx_get_index := rx_get_index c; tx_put_index := tx_put_index c;
     tx_get_index := tx_get_index c; tx_available := tx_available c;
     enabled := enabled c; desync := desync c |}.

Definition set_tx_frames (v : list tx_frame) (c : can) : can :=
  {| rx_fifo := rx_fifo c; tx_event_fifo := tx_event_fifo c;
     tx_fifo := tx_fifo c; m_can := m_can c; rx_frames := rx_frames c;
     tx_frames := v; status_fifo := status_fifo c;
     nm_us_per_bit := nm_us_per_bit c;
     dt_us_per_bit_factor_shift8 := dt_us_per_bit_factor_shift8 c;
     rx_lost := rx_lost c; tx_dropped := tx_dropped c; features := features c;
     int_comm_flags := int_comm_flags c;
     status_put_index := status_put_index c;
     status_get_index := status_get_index c; rx_put_index := rx_put_index c;
     rx_get_index := rx_get_index c; tx_put_index := tx_put_index c;
     tx_get_index := tx_get_index c; tx_available := tx_available c;
     enabled := enabled c; desync := desync c |}.

Definition set_status_fifo (v : list can_status) (c : can) : can :=
  {| rx_fifo := rx_fifo c; tx_event_fifo := tx_event_fifo c;
     tx_fifo := tx_fifo c; m_can := m_can c; rx_frames := rx_frames c;
     tx_frames := tx_frames c; status_fifo := v;
     nm_us_per_bit := nm_us_per_bit c;
     dt_us_per_bit_factor_shift8 := dt_us_per_bit_factor_shift8 c;
     rx_lost := rx_lost c; tx_dropped := tx_dropped c; features := features c;
     int_comm_flags := int_comm_flags c;
     status_put_index := status_put_index c;
     status_get_index := status_get_index c; rx_put_index := rx_put_index c;
     rx_get_index := rx_get_index c; tx_put_index := tx_put_index c;
     tx_get_index := tx_get_index c; tx_available := tx_available c;
     enabled := enabled c; desync := desync c |}.

Definition set_nm_us_per_bit (v : Z) (c : can) : can :=
  {| rx_fifo := rx_fifo c; tx_event_fifo := tx_event_fifo c;
     tx_fifo := tx_fifo c; m_can := m_can c; rx_frames := rx_frames c;
     tx_frames := tx_frames c; status_fifo := status_fifo c;
     nm_us_per_bit := v;
     dt_us_per_bit_factor_shift8 := dt_us_per_bit_factor_shift8 c;
     rx_lost := rx_lost c; tx_dropped := tx_dropped c; features := features c;
     int_comm_flags := int_comm_flags c;
     status_put_index := status_put_index c;
     status_get_index := status_get_index c; rx_put_index := rx_put_index c;
     rx_get_index := rx_get_index c; tx_put_index := tx_put_index c;
     tx_get_index := tx_get_index c; tx_available := tx_available c;
     enabled := enabled c; desync := desync c |}.

Definition set_dt_us_per_bit_factor_shift8 (v : Z) (c : can) : can :=
  {| rx_fifo := rx_fifo c; tx_event_fifo := tx_event_fifo c;
     tx_fifo := tx_fifo c; m_can := m_can c; rx_frames := rx_frames c;
     tx_frames := tx_frames c; status_fifo := status_fifo c;
     nm_us_per_bit := nm_us_per_bit c; dt_us_per_bit_factor_shift8 := v;
     rx_lost := rx_lost c; tx_dropped := tx_dropped c; features := features c;
     int_comm_flags := int_comm_flags c;
     status_put_index := status_put_index c;
     status_get_index := status_get_index c; rx_put_index := rx_put_index c;
     rx_get_index := rx_get_index c; tx_put_index := tx_put_index c;
     tx_get_index := tx_get_index c; tx_available := tx_available c;
     enabled := enabled c; desync := desync c |}.

Definition set_rx_lost (v : Z) (c : can) : can :=
  {| rx_fifo := rx_fifo c; tx_event_fifo := tx_event_fifo c;
     tx_fifo := tx_fifo c; m_can := m_can c; rx_frames := rx_frames c;
     tx_frames := tx_frames c; status_fifo := status_fifo c;
     nm_us_per_bit := nm_us_per_bit c;
     dt_us_per_bit_factor_shift8 := dt_us_per_bit_factor_shift8 c;
     rx_lost := v; tx_dropped := tx_dropped c; features := features c;
     int_comm_flags := int_comm_flags c;
     status_put_index := status_put_index c;
     status_get_index := status_get_index c; rx_put_index := rx_put_index c;
     rx_get_index := rx_get_index c; tx_put_index := tx_put_index c;
     tx_get_index := tx_get_index c; tx_available := tx_available c;
     enabled := enabled c; desync := desync c |}.

Definition set_tx_dropped (v : Z) (c : can) : can :=
  {| rx_fifo := rx_fifo c; tx_event_fifo := tx_event_fifo c;
     tx_fifo := tx_fifo c; m_can := m_can c; rx_frames := rx_frames c;
     tx_frames := tx_frames c; status_fifo := status_fifo c;
     nm_us_per_bit := nm_us_per_bit c;
     dt_us_per_bit_factor_shift8 := dt_us_per_bit_factor_shift8 c;
     rx_lost := rx_lost c; tx_dropped := v; features := features c;
     int_comm_flags := int_comm_flags c;
     status_put_index := status_put_index c;
     status_get_index := status_get_index c; rx_put_index := rx_put_index c;
     rx_get_index := rx_get_index c; tx_put_index := tx_put_index c;
     tx_get_index := tx_get_index c; tx_available := tx_available c;
     enabled := enabled c; desync := desync c |}.

Definition set_features (v : Z) (c : can) : can :=
  {| rx_fifo := rx_fifo c; tx_event_fifo := tx_event_fifo c;
     tx_fifo := tx_fifo c; m_can := m_can c; rx_frames := rx_frames c;
     tx_frames := tx_frames c; status_fifo := status_fifo c;
     nm_us_per_bit := nm_us_per_bit c;
     dt_us_per_bit_factor_shift8 := dt_us_per_bit_factor_shift8 c;
     rx_lost := rx_lost c; tx_dropped := tx_dropped c; features := v;
     int_comm_flags := int_comm_flags c;
     status_put_index := status_put_index c;
     status_get_index := status_get_index c; rx_put_index := rx_put_index c;
     rx_get_index := rx_get_index c; tx_put_index := tx_put_index c;
     tx_get_index := tx_get_index c; tx_available := tx_available c;
     enabled := enabled c; desync := desync c |}.

Definition set_int_comm_flags (v : Z) (c : can) : can :=
  {| rx_fifo := rx_fifo c; tx_event_fifo := tx_event_fifo c;
     tx_fifo := tx_fifo c; m_can := m_can c; rx_frames := rx_frames c;
     tx_frames := tx_frames c; status_fifo := status_fifo c;
     nm_us_per_bit := nm_us_per_bit c;
     dt_us_per_bit_factor_shift8 := dt_us_per_bit_factor_shift8 c;
     rx_lost := rx_lost c; tx_dropped := tx_dropped c; features := features c;
     int_comm_flags := v; status_put_index := status_put_index c;
     status_get_index := status_get_index c; rx_put_index := rx_put_index c;
     rx_get_index := rx_get_index c; tx_put_index := tx_put_index c;
     tx_get_index := tx_get_index c; tx_available := tx_available c;
     enabled := enabled c; desync := desync c |}.

Definition set_status_put_index (v : Z) (c : can) : can :=
  {| rx_fifo := rx_fifo c; tx_event_fifo := tx_event_fifo c;
     tx_fifo := tx_fifo c; m_can := m_can c; rx_frames := rx_frames c;
     tx_frames := tx_frames c; status_fifo := status_fifo c;
     nm_us_per_bit := nm_us_per_bit c;
     dt_us_per_bit_factor_shift8 := dt_us_per_bit_factor_shift8 c;
     rx_lost := rx_lost c; tx_dropped := tx_dropped c; features := features c;
     int_comm_flags := int_comm_flags c; status_put_index := v;
     status_get_index := status_get_index c; rx_put_index := rx_put_index c;
     rx_get_index := rx_get_index c; tx_put_index := tx_put_index c;
     tx_get_index := tx_get_index c; tx_available := tx_available c;
     enabled := enabled c; desync := desync c |}.

Definition set_status_get_index (v : Z) (c : can) : can :=
  {| rx_fifo := rx_fifo c; tx_event_fifo := tx_event_fifo c;
     tx_fifo := tx_fifo c; m_can := m_can c; rx_frames := rx_frames c;
     tx_frames := tx_frames c; status_fifo := status_fifo c;
     nm_us_per_bit := nm_us_per_bit c;
     dt_us_per_bit_factor_shift8 := dt_us_per_bit_factor_shift8 c;
     rx_lost := rx_lost c; tx_dropped := tx_dropped c; features := features c;
     int_comm_flags := int_comm_flags c;
     status_put_index := status_put_index c; status_get_index := v;
     rx_put_index := rx_put_index c; rx_get_index := rx_get_index c;
     tx_put_index := tx_put_index c; tx_get_index := tx_get_index c;
     tx_available := tx_available c; enabled := enabled c; desync := desync c |}.

Definition set_rx_put_index (v : Z) (c : can) : can :=
  {| rx_fifo := rx_fifo c; tx_event_fifo := tx_event_fifo c;
     tx_fifo := tx_fifo c; m_can := m_can c; rx_frames := rx_frames c;
     tx_frames := tx_frames c; status_fifo := status_fifo c;
     nm_us_per_bit := nm_us_per_bit c;
     dt_us_per_bit_factor_shift8 := dt_us_per_bit_factor_shift8 c;
     rx_lost := rx_lost c; tx_dropped := tx_dropped c; features := features c;
     int_comm_flags := int_comm_flags c;
     status_put_index := status_put_index c;
     status_get_index := status_get_index c; rx_put_index := v;
     rx_get_index := rx_get_index c; tx_put_index := tx_put_index c;
     tx_get_index := tx_get_index c; tx_available := tx_available c;
     enabled := enabled c; desync := desync c |}.

Definition set_rx_get_index (v : Z) (c : can) : can :=
  {| rx_fifo := rx_fifo c; tx_event_fifo := tx_event_fifo c;
     tx_fifo := tx_fifo c; m_can := m_can c; rx_frames := rx_frames c;
     tx_frames := tx_frames c; status_fifo := status_fifo c;
     nm_us_per_bit := nm_us_per_bit c;
     dt_us_per_bit_factor_shift8 := dt_us_per_bit_factor_shift8 c;
     rx_lost := rx_lost c; tx_dropped := tx_dropped c; features := features c;
     int_comm_flags := int_comm_flags c;
     status_put_index := status_put_index c;
     status_get_index := status_get_index c; rx_put_index := rx_put_index c;
     rx_get_index := v; tx_put_index := tx_put_index c;
     tx_get_index := tx_get_index c; tx_available := tx_available c;
     enabled := enabled c; desync := desync c |}.

Definition set_tx_put_index (v : Z) (c : can) : can :=
  {| rx_fifo := rx_fifo c; tx_event_fifo := tx_event_fifo c;
     tx_fifo := tx_fifo c; m_can := m_can c; rx_frames := rx_frames c;
     tx_frames := tx_frames c; status_fifo := status_fifo c;
     nm_us_per_bit := nm_us_per_bit c;
     dt_us_per_bit_factor_shift8 := dt_us_per_bit_factor_shift8 c;
     rx_lost := rx_lost c; tx_dropped := tx_dropped c; features := features c;
     int_comm_flags := int_comm_flags c;
     status_put_index := status_put_index c;
     status_get_index := status_get_index c; rx_put_index := rx_put_index c;
     rx_get_index := rx_get_index c; tx_put_index := v;
     tx_get_index := tx_get_index c; tx_available := tx_available c;
     enabled := enabled c; desync := desync c |}.

Definition set_tx_get_index (v : Z) (c : can) : can :=
  {| rx_fifo := rx_fifo c; tx_event_fifo := tx_event_fifo c;
     tx_fifo := tx_fifo c; m_can := m_can c; rx_frames := rx_frames c;
     tx_frames := tx_frames c; status_fifo := status_fifo c;
     nm_us_per_bit := nm_us_per_bit c;
     dt_us_per_bit_factor_shift8 := dt_us_per_bit_factor_shift8 c;
     rx_lost := rx_lost c; tx_dropped := tx_dropped c; features := features c;
     int_comm_flags := int_comm_flags c;
     status_put_index := status_put_index c;
     status_get_index := status_get_index c; rx_put_index := rx_put_index c;
     rx_get_index := rx_get_index c; tx_put_index := tx_put_index c;
     tx_get_index := v; tx_available := tx_available c; enabled := enabled c;
     desync := desync c |}.

Definition set_tx_available (v : Z) (c : can) : can :=
  {| rx_fifo := rx_fifo c; tx_event_fifo := tx_event_fifo c;
     tx_fifo := tx_fifo c; m_can := m_can c; rx_frames := rx_frames c;
     tx_frames := tx_frames c; status_fifo := status_fifo c;
     nm_us_per_bit := nm_us_per_bit c;
     dt_us_per_bit_factor_shift8 := dt_us_per_bit_factor_shift8 c;
     rx_lost := rx_lost c; tx_dropped := tx_dropped c; features := features c;
     int_comm_flags := int_comm_flags c;
     status_put_index := status_put_index c;
     status_get_index := status_get_index c; rx_put_index := rx_put_index c;
     rx_get_index := rx_get_index c; tx_put_index := tx_put_index c;
     tx_get_index := tx_get_index c; tx_available := v; enabled := enabled c;
     desync := desync c |}.

Definition set_enabled (v : bool) (c : can) : can :=
  {| rx_fifo := rx_fifo c; tx_event_fifo := tx_event_fifo c;
     tx_fifo := tx_fifo c; m_can := m_can c; rx_frames := rx_frames c;
     tx_frames := tx_frames c; status_fifo := status_fifo c;
     nm_us_per_bit := nm_us_per_bit c;
     dt_us_per_bit_factor_shift8 := dt_us_per_bit_factor_shift8 c;
     rx_lost := rx_lost c; tx_dropped := tx_dropped c; features := features c;
     int_comm_flags := int_comm_flags c;
     status_put_index := status_put_index c;
     status_get_index := status_get_index c; rx_put_index := rx_put_index c;
     rx_get_index := rx_get_index c; tx_put_index := tx_put_index c;
     tx_get_index := tx_get_index c; tx_available := tx_available c;
     enabled := v; desync := desync c |}.

Definition set_desync (v : bool) (c : can) : can :=
  {| rx_fifo := rx_fifo c; tx_event_fifo := tx_event_fifo c;
     tx_fifo := tx_fifo c; m_can := m_can c; rx_frames := rx_frames c;
     tx_frames := tx_frames c; status_fifo := status_fifo c;
     nm_us_per_bit := nm_us_per_bit c;
     dt_us_per_bit_factor_shift8 := dt_us_per_bit_factor_shift8 c;
     rx_lost := rx_lost c; tx_dropped := tx_dropped c; features := features c;
     int_comm_flags := int_comm_flags c;
     status_put_index := status_put_index c;
     status_get_index := status_get_index c; rx_put_index := rx_put_index c;
     rx_get_index := rx_get_index c; tx_put_index := tx_put_index c;
     tx_get_index := tx_get_index c; tx_available := tx_available c;
     enabled := enabled c; desync := v |}.

(** ** [can_poll]: draining the hardware FIFOs into the rings *)

Section can_poll.
Context `{supercan_h}.

(** Modelled from the spec: [can_inc_sat_rx_lost] is called by [can_poll]
    but defined outside the sources at hand.  The spec describes it as the
    increment of a saturating lost counter; [can_usb_task] reads
    [can->rx_lost] back as a [uint16_t], so the counter saturates at
    [0xffff]. *)
Definition can_inc_sat_rx_lost (c : can) : can :=
  if rx_lost c <? 0xffff then set_rx_lost (rx_lost c + 1) c else c.

(** [can_frame_time_us], in [uint32_t] arithmetic. *)
Definition can_frame_time_us (c : can) (nm dt : Z) : Z :=
  wrap32 (wrap32 (nm_us_per_bit c * nm)
          + Z.shiftr (wrap32 (dt_us_per_bit_factor_shift8 c * dt)) 8).

(** [memcpy(dst, src, n)] on two arrays that hold at least [n] bytes. *)
Definition memcpy (dst src : list Z) (n : Z) : list Z :=
  take (Z.to_nat n) src ++ drop (Z.to_nat n) dst.

(** The on-wire duration of the frame in slot [e] of the RX FIFO. *)
Definition rx_element_time_us (c : can) (e : can_rx_fifo_element) : Z :=
  let '(nmbr_bits, dtbr_bits) :=
    can_frame_bits (R0_XTD (rxe_R0 e)) (R0_RTR (rxe_R0 e))
                   (R1_FDF (rxe_R1 e)) (R1_BRS (rxe_R1 e))
                   (R1_DLC (rxe_R1 e)) in
  can_frame_time_us c nmbr_bits dtbr_bits.

(** The reverse loop of the RX half, iterations [i .. i + n - 1].  The
    counter [i] is a [uint8_t] below [count], so [++i] never wraps. *)
Fixpoint rx_ts_loop (n : nat) (i gio count : Z) (c : can) (ts : Z)
    (tsv : list Z) : Z * list Z :=
  match n with
  | O => (ts, tsv)
  | S n' =>
      let get_index :=
        wrap8 (Z.land (gio + count - 1 - i) (CAN_RX_FIFO_SIZE - 1)) in
      let tsv := aset tsv get_index (Z.land ts CLOCK_MAX) in
      let e := aget zero_rx_fifo_element (rx_fifo c) get_index in
      let ts := wrap32 (ts - rx_element_time_us c e) in
      rx_ts_loop n' (i + 1) gio count c ts tsv
  end.

(** The slot written by the forward loop for FIFO element [e]: [R0], [R1]
    and the timestamp are assigned, the payload is copied over the slot's
    previous bytes unless the frame is a remote frame or has no payload. *)
Definition rx_slot (old : rx_frame) (e : can_rx_fifo_element) (ts : Z)
    : rx_frame :=
  let data :=
    if truthy (R0_RTR (rxe_R0 e)) then rxf_data old
    else
      let can_frame_len := dlc_to_len (R1_DLC (rxe_R1 e)) in
      if truthy can_frame_len
      then memcpy (rxf_data old) (rxe_data e) can_frame_len
      else rxf_data old in
  {| rxf_R0 := rxe_R0 e; rxf_R1 := rxe_R1 e; rxf_ts := ts; rxf_data := data |}.

(** The forward loop of the RX half, iterations [i .. i + n - 1].  It
    threads the local put index [pi], [*events] and the last [get_index]. *)
Fixpoint rx_store_loop (n : nat) (i gio : Z) (tsv : list Z) (c : can)
    (pi events get_index : Z) : result (can * Z * Z * Z) :=
  match n with
  | O => Ok (c, pi, events, get_index)
  | S n' =>
      let get_index := wrap8 (Z.land (gio + i) (CAN_RX_FIFO_SIZE - 1)) in
      let used := wrap8 (pi - rx_get_index c) in
      do _ <- SC_ASSERT (used <=? CAN_RX_FIFO_SIZE);
      if used =? CAN_RX_FIFO_SIZE then
        rx_store_loop n' (i + 1) gio tsv (can_inc_sat_rx_lost c)
                      pi events get_index
      else
        let put_index := wrap8 (Z.land pi (CAN_RX_FIFO_SIZE - 1)) in
        let e := aget zero_rx_fifo_element (rx_fifo c) get_index in
        let old := aget zero_rx_frame (rx_frames c) put_index in
        let slot := rx_slot old e (aget 0 tsv get_index) in
        rx_store_loop n' (i + 1) gio tsv
                      (set_rx_frames (aset (rx_frames c) put_index slot) c)
                      (wrap8 (pi + 1)) (wrap32 (events + 1)) get_index
  end.

(** The RX half of [can_poll] ([if (count) { ... }] on [RXF0S.F0FL]).
    [tsv] is the local array, whose initial contents are indeterminate. *)
Definition can_poll_rx (c : can) (events tsc : Z) (tsv : list Z)
    : result (can * Z * bool * list Z) :=
  let count := wrap8 (RXF0S_F0FL (m_can c)) in
  if truthy count then
    let gio := wrap8 (RXF0S_F0GI (m_can c)) in
    let '(_, tsv) := rx_ts_loop (Z.to_nat count) 0 gio count c tsc tsv in
    do (c, pi, events, get_index) <-
      rx_store_loop (Z.to_nat count) 0 gio tsv c (rx_put_index c) events 0;
    let c := set_m_can (set_RXF0A get_index (m_can c)) c in
    Ok (set_rx_put_index pi c, events, true, tsv)
  else Ok (c, events, false, tsv).

(** The on-wire duration of the frame of TX event [e]. *)
Definition tx_element_time_us (c : can) (txp : Z)
    (e : can_tx_event_fifo_element) : Z :=
  let '(nmbr_bits, dtbr_bits) :=
    can_frame_bits (E0_XTD (txe_T0 e)) (E0_RTR (txe_T0 e))
                   (E1_FDF (txe_T1 e)) (E1_BRS (txe_T1 e))
                   (E1_DLC (txe_T1 e)) in
  can_frame_time_us c (wrap32 (nmbr_bits + txp)) dtbr_bits.

Fixpoint tx_ts_loop (n : nat) (i gio count txp : Z) (c : can) (ts : Z)
    (tsv : list Z) : Z * list Z :=
  match n with
  | O => (ts, tsv)
  | S n' =>
      let get_index :=
        wrap8 (Z.land (gio + count - 1 - i) (CAN_TX_FIFO_SIZE - 1)) in
      let tsv := aset tsv get_index (Z.land ts CLOCK_MAX) in
      let e := aget zero_tx_event_fifo_element (tx_event_fifo c) get_index in
      let ts := wrap32 (ts - tx_element_time_us c txp e) in
      tx_ts_loop n' (i + 1) gio count txp c ts tsv
  end.

Fixpoint tx_store_loop (n : nat) (i gio : Z) (tsv : list Z) (c : can)
    (pi events get_index : Z) : can * Z * Z * Z :=
  match n with
  | O => (c, pi, events, get_index)
  | S n' =>
      let get_index := wrap8 (Z.land (gio + i) (CAN_TX_FIFO_SIZE - 1)) in
      let put_index := wrap8 (Z.land pi (CAN_TX_FIFO_SIZE - 1)) in
      let e := aget zero_tx_event_fifo_element (tx_event_fifo c) get_index in
      let slot := {| txf_T0 := txe_T0 e; txf_T1 := txe_T1 e;
                     txf_ts := aget 0 tsv get_index |} in
      tx_store_loop n' (i + 1) gio tsv
                    (set_tx_frames (aset (tx_frames c) put_index slot) c)
                    (wrap8 (pi + 1)) (wrap32 (events + 1)) get_index
  end.

(** The TX-event half of [can_poll] ([if (count) { ... }] on [TXEFS.EFFL]). *)
Definition can_poll_tx (c : can) (events tsc : Z) (tsv : list Z)
    : can * Z * bool :=
  let count := wrap8 (TXEFS_EFFL (m_can c)) in
  if truthy count then
    let txp := wrap32 (CCCR_TXP (m_can c) * 2) in
    let gio := wrap8 (TXEFS_EFGI (m_can c)) in
    let '(_, tsv) := tx_ts_loop (Z.to_nat count) 0 gio count txp c tsc tsv in
    let '(c, pi, events, get_index) :=
      tx_store_loop (Z.to_nat count) 0 gio tsv c (tx_put_index c) events 0 in
    let c := set_m_can (set_TXEFA get_index (m_can c)) c in
    (set_tx_put_index pi c, events, true)
  else (c, events, false).

(** [can_poll]: returns the channel, [*events] and [more]. *)
Definition can_poll (c : can) (events tsc : Z) (tsv : list Z)
    : result (can * Z * bool) :=
  do (c, events, more_rx, tsv) <- can_poll_rx c events tsc tsv;
  let '(c, events, more_tx) := can_poll_tx c events tsc tsv in
  Ok (c, events, more_rx || more_tx).

End can_poll.

(** ** The batch seen by one [can_poll], and what the ring holds *)

Section rx_views.
Context `{supercan_h}.

(** Slot of the RX FIFO that holds frame [j] of a batch, in arrival order
    ([get_index] of the forward loop). *)
Definition rx_fifo_index (gio j : Z) : Z :=
  wrap8 (Z.land (gio + j) (CAN_RX_FIFO_SIZE - 1)).

Definition rx_batch_count (c : can) : Z := wrap8 (RXF0S_F0FL (m_can c)).
Definition rx_batch_gio (c : can) : Z := wrap8 (RXF0S_F0GI (m_can c)).

(** Frame [j] of the batch waiting in the RX FIFO. *)
Definition rx_batch_frame (c : can) (j : Z) : can_rx_fifo_element :=
  aget zero_rx_fifo_element (rx_fifo c) (rx_fifo_index (rx_batch_gio c) j).

(** The timestamp array after the reverse loop of [can_poll], and the
    timestamp it holds for frame [j] of the batch. *)
Definition rx_reconstruct (c : can) (tsc : Z) (tsv : list Z) : list Z :=
  snd (rx_ts_loop (Z.to_nat (rx_batch_count c)) 0 (rx_batch_gio c)
                  (rx_batch_count c) c tsc tsv).

Definition rx_batch_ts (c : can) (tsc : Z) (tsv : list Z) (j : Z) : Z :=
  aget 0 (rx_reconstruct c tsc tsv) (rx_fifo_index (rx_batch_gio c) j).

(** The reconstruction in the words of the spec: walking the batch youngest
    first, the running timestamp starts at [tsc] and each frame's duration is
    subtracted to obtain the timestamp of the frame before it.  [m] counts
    frames from the youngest. *)
Fixpoint youngest_first_ts (c : can) (tsc : Z) (m : nat) : Z :=
  match m with
  | O => tsc
  | S m' =>
      wrap32 (youngest_first_ts c tsc m'
              - rx_element_time_us c
                  (rx_batch_frame c (rx_batch_count c - 1 - Z.of_nat m')))
  end.

(** What identifies a frame: its [R0] and [R1] words. *)
Definition rx_ident : Type := CAN_RXF0E_0 * CAN_RXF0E_1.

(** The unread frames of a ring with slots [frames], get index [get] and
    put index [pi], oldest first: slot [m] is the one the consumer reads
    after [m] dequeues ([rx_get_index & (CAN_RX_FIFO_SIZE-1)] in
    [can_usb_task]). *)
Definition rx_ring_slot_at (frames : list rx_frame) (get m : Z) : rx_frame :=
  aget zero_rx_frame frames
       (wrap8 (Z.land (wrap8 (get + m)) (CAN_RX_FIFO_SIZE - 1))).

Definition rx_ring_view_at (frames : list rx_frame) (get pi : Z)
    : list rx_ident :=
  (fun m => (rxf_R0 (rx_ring_slot_at frames get m),
             rxf_R1 (rx_ring_slot_at frames get m)))
    <$> seqZ 0 (wrap8 (pi - get)).

Definition rx_ring_view (c : can) : list rx_ident :=
  rx_ring_view_at (rx_frames c) (rx_get_index c) (rx_put_index c).

Definition rx_element_ident (e : can_rx_fifo_element) : rx_ident :=
  (rxe_R0 e, rxe_R1 e).

(** The frames of FIFO slots [i .. i + n - 1] counted from [gio]. *)
Definition fifo_idents (c : can) (gio i : Z) (n : nat) : list rx_ident :=
  (fun j => rx_element_ident
              (aget zero_rx_fifo_element (rx_fifo c) (rx_fifo_index gio j)))
    <$> seqZ i (Z.of_nat n).

(** The controller side of the interface: a batch of frames arrives in the
    RX FIFO at get index [gio]; fill level and get index are updated. *)
Fixpoint hw_rx_place (gio j : Z) (batch : list can_rx_fifo_element)
    (fifo : list can_rx_fifo_element) : list can_rx_fifo_element :=
  match batch with
  | [] => fifo
  | e :: rest =>
      hw_rx_place gio (j + 1) rest (aset fifo (rx_fifo_index gio j) e)
  end.

Definition hw_rx_arrive (gio : Z) (batch : list can_rx_fifo_element)
    (c : can) : can :=
  let c := set_rx_fifo (hw_rx_place gio 0 batch (rx_fifo c)) c in
  set_m_can (set_RXF0S_F0GI gio
               (set_RXF0S_F0FL (Z.of_nat (length batch)) (m_can c))) c.

(** One arrival: the get index of the FIFO, the drain timestamp, the
    indeterminate contents of [tsv], and the frames. *)
Record rx_arrival := {
  arr_gio : Z;
  arr_tsc : Z;
  arr_tsv : list Z;
  arr_frames : list can_rx_fifo_element
}.

(** Frames arrive batch by batch, each batch is drained by [can_poll]'s RX
    half, and nothing is dequeued in between. *)
Fixpoint rx_feed (arrivals : list rx_arrival) (c : can) (events : Z)
    : result (can * Z) :=
  match arrivals with
  | [] => Ok (c, events)
  | a :: rest =>
      do (c, events, _, _) <-
        can_poll_rx (hw_rx_arrive (arr_gio a) (arr_frames a) c)
                    events (arr_tsc a) (arr_tsv a);
      rx_feed rest c events
  end.

Definition arrived (arrivals : list rx_arrival) : list can_rx_fifo_element :=
  concat (arr_frames <$> arrivals).

(** The conditions under which the producer side of the RX ring runs. *)
Definition rx_ring_ok (c : can) : Prop :=
  0 <= rx_put_index c < 256 /\
  wrap8 (rx_put_index c - rx_get_index c) <= CAN_RX_FIFO_SIZE /\
  length (rx_frames c) = Z.to_nat CAN_RX_FIFO_SIZE /\
  length (rx_fifo c) = Z.to_nat CAN_RX_FIFO_SIZE /\
  0 <= rx_lost c <= 0xffff.

Definition rx_arrival_ok (a : rx_arrival) : Prop :=
  0 <= arr_gio a < CAN_RX_FIFO_SIZE /\
  Z.of_nat (length (arr_frames a)) <= CAN_RX_FIFO_SIZE.

End rx_views.

(** ** The USB side: endpoints, wire messages and what the firmware emits

    The transmit banks [tx_buffers] are only ever written by the firmware
    and read by the USB controller, so the model keeps the fill offsets and
    the active bank as state and reports every write into a bank and every
    transfer handed to the USB layer as an [event], in program order.  A
    struct stored into a bank is reported as the struct value; the byte
    layout of the structs belongs to the missing [supercan.h]. *)

Definition bank_get {A} (p : A * A) (b : bool) : A :=
  if b then snd p else fst p.

Definition bank_set {A} (p : A * A) (b : bool) (v : A) : A * A :=
  if b then (fst p, v) else (v, snd p).

(** [struct usb_cmd] without its buffers. *)
Module usb_cmd.
Record t := {
  tx_offsets : Z * Z;
  tx_bank : bool;
  rx_bank : bool;
  pipe : Z
}.
Definition set_tx_offsets (v : Z * Z) (u : t) : t :=
  {| tx_offsets := v; tx_bank := tx_bank u; rx_bank := rx_bank u;
     pipe := pipe u |}.
Definition set_tx_bank (v : bool) (u : t) : t :=
  {| tx_offsets := tx_offsets u; tx_bank := v; rx_bank := rx_bank u;
     pipe := pipe u |}.
Definition set_rx_bank (v : bool) (u : t) : t :=
  {| tx_offsets := tx_offsets u; tx_bank := tx_bank u; rx_bank := v;
     pipe := pipe u |}.
End usb_cmd.

(** [struct usb_can] without its buffers and its mutex. *)
Module usb_can.
Record t := {
  tx_offsets : Z * Z;
  tx_bank : bool;
  rx_bank : bool;
  pipe : Z
}.
Definition set_tx_offsets (v : Z * Z) (u : t) : t :=
  {| tx_offsets := v; tx_bank := tx_bank u; rx_bank := rx_bank u;
     pipe := pipe u |}.
Definition set_tx_bank (v : bool) (u : t) : t :=
  {| tx_offsets := tx_offsets u; tx_bank := v; rx_bank := rx_bank u;
     pipe := pipe u |}.
Definition set_rx_bank (v : bool) (u : t) : t :=
  {| tx_offsets := tx_offsets u; tx_bank := tx_bank u; rx_bank := v;
     pipe := pipe u |}.
End usb_can.

(** The buffers of one channel. *)
Inductive buffer : Type :=
| cmd_tx_buffer (bank : bool)
| cmd_rx_buffer (bank : bool)
| can_tx_buffer (bank : bool)
| can_rx_buffer (bank : bool).

(** The structs the device places in its transmit banks, with the fields
    that [main.c] computes. *)
Record sc_msg_can_status := {
  st_rx_lost : Z;
  st_tx_dropped : Z;
  st_flags : Z;
  st_bus_status : Z;
  st_tx_errors : Z;
  st_rx_errors : Z;
  st_tx_fifo_size : Z;
  st_rx_fifo_size : Z;
  st_timestamp_us : Z
}.

Record sc_msg_can_rx := {
  rx_len : Z;
  rx_dlc : Z;
  rx_flags : Z;
  rx_can_id : Z;
  rx_timestamp_us : Z;
  rx_data : list Z
}.

Record sc_msg_can_txr := {
  txr_track_id : Z;
  txr_flags : Z;
  txr_timestamp_us : Z
}.

Record sc_msg_can_error := {
  ce_error : Z;
  ce_flags : Z;
  ce_timestamp_us : Z
}.

Inductive wire_msg : Type :=
| Msg_hello (cmd_buffer_size : Z)
| Msg_dev_info (feat_perm feat_conf : Z)
| Msg_can_info (nm dt : sc_can_bit_timing_range)
               (tx_fifo_size rx_fifo_size msg_buffer_size : Z)
| Msg_error (error : Z)
| Msg_can_status (m : sc_msg_can_status)
| Msg_can_rx (m : sc_msg_can_rx)
| Msg_can_txr (m : sc_msg_can_txr)
| Msg_can_error (m : sc_msg_can_error).

(** Calls into the board layer ([supercan_board.h]). *)
Inductive board_call : Type :=
| board_can_reset
| board_can_nm_bit_timing_set (bt : sc_can_bit_timing)
| board_can_dt_bit_timing_set (bt : sc_can_bit_timing).

(** What the firmware does to the outside, and the calls of [can_on] and
    [can_off] ([Bus_on], [Bus_off]). *)
Inductive event : Type :=
| Store (buf : buffer) (offset : Z) (m : wire_msg)
| Memset0 (buf : buffer) (offset : Z) (n : Z)
| Xfer (ep_addr : Z) (buf : buffer) (total_bytes : Z)
| Board (call : board_call)
| Bus_on
| Bus_off
| Notify_usb_task.

(** The structs the host sends, as [main.c] reads them. *)
Record sc_msg_bittiming := {
  bt_brp : Z;
  bt_sjw : Z;
  bt_tseg1 : Z;
  bt_tseg2 : Z
}.

Record sc_msg_features := { feat_op : Z; feat_arg : Z }.

Record sc_msg_config := { conf_arg : Z }.

Record sc_msg_can_tx := {
  tx_dlc : Z;
  tx_flags : Z;
  tx_can_id : Z;
  tx_track_id : Z;
  tx_data : list Z
}.

(** Reading a struct of the host out of the bytes of a message.  The
    fixed-size structs are read from their [sizeof] bytes; [sc_msg_can_tx]
    ends in a flexible payload and is read from the bytes of the message. *)
Class supercan_layout := {
  read_bittiming : list Z -> sc_msg_bittiming;
  read_features : list Z -> sc_msg_features;
  read_config : list Z -> sc_msg_config;
  read_can_tx : list Z -> sc_msg_can_tx
}.

(** The bytes [off .. off + n - 1] of a receive buffer. *)
Definition bytes_at (buf : list Z) (off n : Z) : list Z :=
  take (Z.to_nat n) (drop (Z.to_nat off) buf).

(** One channel: [usb.cmd[index]], [usb.can[index]] and [cans.can[index]].
    Every function of [main.c] takes the channel index and touches only
    these three. *)
Record channel := {
  ch_cmd : usb_cmd.t;
  ch_usb_can : usb_can.t;
  ch_can : can
}.

Definition set_ch_cmd (v : usb_cmd.t) (ch : channel) : channel :=
  {| ch_cmd := v; ch_usb_can := ch_usb_can ch; ch_can := ch_can ch |}.
Definition set_ch_usb_can (v : usb_can.t) (ch : channel) : channel :=
  {| ch_cmd := ch_cmd ch; ch_usb_can := v; ch_can := ch_can ch |}.
Definition set_ch_can (v : can) (ch : channel) : channel :=
  {| ch_cmd := ch_cmd ch; ch_usb_can := ch_usb_can ch; ch_can := v |}.

(** Modelled from the spec: [tu_min8], [tu_max8], [tu_min16] and [tu_max16]
    belong to the USB stack, outside the sources at hand; the spec says the
    requested fields are clamped into the advertised min/max range.  The
    arguments are converted to the parameter type. *)
Definition tu_min8 (x y : Z) : Z := Z.min (wrap8 x) (wrap8 y).
Definition tu_max8 (x y : Z) : Z := Z.max (wrap8 x) (wrap8 y).
Definition tu_min16 (x y : Z) : Z := Z.min (wrap16 x) (wrap16 y).
Definition tu_max16 (x y : Z) : Z := Z.max (wrap16 x) (wrap16 y).

(** [__builtin_popcount] of a 32-bit value. *)
Definition popcount (x : Z) : Z :=
  fold_right (fun i acc => Z.b2z (Z.testbit x i) + acc) 0 (seqZ 0 32).

(** ** The command channel: [sc_cmd_bulk_out] and its helpers *)

(** [can_on] and [can_off] are called by [sc_cmd_bulk_out] but defined
    outside the sources at hand; they are taken as they come. *)
Class main_c_rest := {
  can_on : can -> can;
  can_off : can -> can
}.

Section command_channel.
Context `{supercan_h} `{supercan_layout} `{main_c_rest}.

Definition sc_cmd_bulk_in_ep_ready (cmd : usb_cmd.t) : bool :=
  bank_get (usb_cmd.tx_offsets cmd) (negb (usb_cmd.tx_bank cmd)) =? 0.

Definition sc_cmd_bulk_in_submit (cmd : usb_cmd.t) : usb_cmd.t * list event :=
  (usb_cmd.set_tx_bank (negb (usb_cmd.tx_bank cmd)) cmd,
   [Xfer (Z.lor 0x80 (usb_cmd.pipe cmd))
         (cmd_tx_buffer (usb_cmd.tx_bank cmd))
         (bank_get (usb_cmd.tx_offsets cmd) (usb_cmd.tx_bank cmd))]).

(** Placing a reply of [bytes] bytes in the active bank: the block shared by
    the labels [send_dev_info] and [send] of [sc_cmd_place_error_reply].
    [fuel] bounds the number of [goto]s. *)
Fixpoint cmd_place_reply (fuel : nat) (bytes : Z) (m : wire_msg)
    (cmd : usb_cmd.t) : result (usb_cmd.t * list event) :=
  match fuel with
  | O => OutOfFuel
  | S fuel' =>
      let offset := bank_get (usb_cmd.tx_offsets cmd) (usb_cmd.tx_bank cmd) in
      if bytes <=? CMD_BUFFER_SIZE - offset then
        Ok (usb_cmd.set_tx_offsets
              (bank_set (usb_cmd.tx_offsets cmd) (usb_cmd.tx_bank cmd)
                        (wrap16 (offset + bytes))) cmd,
            [Store (cmd_tx_buffer (usb_cmd.tx_bank cmd)) offset m])
      else if sc_cmd_bulk_in_ep_ready cmd then
        let '(cmd, ev) := sc_cmd_bulk_in_submit cmd in
        do (cmd, ev') <- cmd_place_reply fuel' bytes m cmd;
        Ok (cmd, ev ++ ev')
      else Ok (cmd, [])
  end.

Definition sc_cmd_place_error_reply (fuel : nat) (error : Z)
    (cmd : usb_cmd.t) : result (usb_cmd.t * list event) :=
  cmd_place_reply fuel (wrap8 sizeof_sc_msg_error) (Msg_error error) cmd.

(** The CAN info reply.  Its fields are read through the pointers that
    [sc_board_can_nm_bit_timing_range] and [sc_board_can_dt_bit_timing_range]
    return, without a check for [NULL]. *)
Definition can_info_msg : result wire_msg :=
  match dt_range with
  | Some dt_bt =>
      Ok (Msg_can_info nm_range dt_bt SC_BOARD_CAN_TX_FIFO_SIZE
                       SC_BOARD_CAN_RX_FIFO_SIZE MSG_BUFFER_SIZE)
  | None => NullDeref
  end.

(** The block at the label [send_can_info]: the two ranges are fetched and
    the reply is filled in once there is room for it. *)
Fixpoint cmd_place_can_info (fuel : nat) (cmd : usb_cmd.t)
    : result (usb_cmd.t * list event) :=
  match fuel with
  | O => OutOfFuel
  | S fuel' =>
      let bytes := wrap8 sizeof_sc_msg_can_info in
      let offset := bank_get (usb_cmd.tx_offsets cmd) (usb_cmd.tx_bank cmd) in
      if bytes <=? CMD_BUFFER_SIZE - offset then
        do rep <- can_info_msg;
        Ok (usb_cmd.set_tx_offsets
              (bank_set (usb_cmd.tx_offsets cmd) (usb_cmd.tx_bank cmd)
                        (wrap16 (offset + bytes))) cmd,
            [Store (cmd_tx_buffer (usb_cmd.tx_bank cmd)) offset rep])
      else if sc_cmd_bulk_in_ep_ready cmd then
        let '(cmd, ev) := sc_cmd_bulk_in_submit cmd in
        do (cmd, ev') <- cmd_place_can_info fuel' cmd;
        Ok (cmd, ev ++ ev')
      else Ok (cmd, [])
  end.

(** [sc_board_can_feat_perm] and [sc_board_can_feat_conf]. *)
Definition sc_board_can_feat_perm : Z := wrap16 CAN_FEAT_PERM.
Definition sc_board_can_feat_conf : Z := wrap16 CAN_FEAT_CONF.

(** The clamp of the two bit timing cases, against the range [r]. *)
Definition clamp_bittiming (r : sc_can_bit_timing_range)
    (tmsg : sc_msg_bittiming) : sc_can_bit_timing :=
  {| brp := tu_max16 (brp (min r)) (tu_min16 (bt_brp tmsg) (brp (max r)));
     sjw := tu_max8 (sjw (min r)) (tu_min8 (bt_sjw tmsg) (sjw (max r)));
     tseg1 := tu_max16 (tseg1 (min r))
                       (tu_min16 (bt_tseg1 tmsg) (tseg1 (max r)));
     tseg2 := tu_max8 (tseg2 (min r))
                      (tu_min8 (bt_tseg2 tmsg) (tseg2 (max r))) |}.

(** [case SC_MSG_FEATURES] up to the error reply: the new feature set and
    the error code.  Both [perm] and [conf] are read with
    [sc_board_can_feat_perm]. *)
Definition sc_cmd_features (msg_len : Z) (image : list Z) (c : can)
    : can * Z :=
  if msg_len <? sizeof_sc_msg_features then (c, SC_ERROR_SHORT)
  else
    let tmsg := read_features image in
    let perm := sc_board_can_feat_perm in
    let conf := sc_board_can_feat_perm in
    if feat_op tmsg =? SC_FEAT_OP_CLEAR then
      (set_features perm c, SC_ERROR_NONE)
    else if feat_op tmsg =? SC_FEAT_OP_OR then
      let mode_bits :=
        Z.land (feat_arg tmsg)
               (Z.lor (Z.lor SC_FEATURE_FLAG_MON_MODE SC_FEATURE_FLAG_RES_MODE)
                      SC_FEATURE_FLAG_EXT_LOOP_MODE) in
      if 1 <? popcount mode_bits then (c, SC_ERROR_PARAM)
      else if truthy (Z.land (feat_arg tmsg) (Z.lnot (Z.lor perm conf)))
      then (c, SC_ERROR_UNSUPPORTED)
      else (set_features (wrap16 (Z.lor (features c) (feat_arg tmsg))) c,
            SC_ERROR_NONE)
    else (c, SC_ERROR_NONE).

(** [case SC_MSG_BUS] up to the error reply. *)
Definition sc_cmd_bus (msg_len : Z) (image : list Z) (c : can)
    : can * Z * list event :=
  if msg_len <? sizeof_sc_msg_config then (c, SC_ERROR_SHORT, [])
  else
    let tmsg := read_config image in
    let was_enabled := enabled c in
    let is_enabled := negb (conf_arg tmsg =? 0) in
    if eqb was_enabled is_enabled then (c, SC_ERROR_NONE, [])
    else if is_enabled then (can_on c, SC_ERROR_NONE, [Bus_on])
    else (can_off c, SC_ERROR_NONE, [Bus_off]).

(** The [switch (msg->id)] of [sc_cmd_bulk_out] for the message at [msg]
    with header [msg_id], [msg_len]; [in_ptr] already points behind the
    message.  Returns the channel, the new [in_ptr] and the events. *)
Definition sc_cmd_dispatch (fuel : nat) (rx : list Z)
    (msg msg_id msg_len in_ptr in_end : Z) (ch : channel)
    : result (channel * Z * list event) :=
  let usb_cmd := ch_cmd ch in
  let usb_can := ch_usb_can ch in
  if msg_id =? SC_MSG_EOF then Ok (ch, in_end, [])
  else if msg_id =? SC_MSG_HELLO_DEVICE then
    let len := wrap8 sizeof_sc_msg_hello in
    let usb_cmd' :=
      usb_cmd.set_tx_offsets
        (bank_set (usb_cmd.tx_offsets usb_cmd) (usb_cmd.tx_bank usb_cmd) len)
        usb_cmd in
    Ok (set_ch_cmd usb_cmd' ch, in_end,
        [Board board_can_reset;
         Xfer (Z.lor 0x80 (usb_can.pipe usb_can))
              (can_tx_buffer (usb_can.tx_bank usb_can))
              (bank_get (usb_can.tx_offsets usb_can)
                        (usb_can.tx_bank usb_can));
         Store (cmd_tx_buffer (usb_cmd.tx_bank usb_cmd)) 0
               (Msg_hello CMD_BUFFER_SIZE)])
  else if msg_id =? SC_MSG_DEVICE_INFO then
    do (usb_cmd', ev) <-
      cmd_place_reply fuel (wrap8 sizeof_sc_msg_dev_info)
        (Msg_dev_info sc_board_can_feat_perm sc_board_can_feat_conf) usb_cmd;
    Ok (set_ch_cmd usb_cmd' ch, in_ptr, ev)
  else if msg_id =? SC_MSG_CAN_INFO then
    do (usb_cmd', ev) <- cmd_place_can_info fuel usb_cmd;
    Ok (set_ch_cmd usb_cmd' ch, in_ptr, ev)
  else if msg_id =? SC_MSG_NM_BITTIMING then
    if msg_len <? sizeof_sc_msg_bittiming then
      do (usb_cmd', ev) <- sc_cmd_place_error_reply fuel SC_ERROR_SHORT usb_cmd;
      Ok (set_ch_cmd usb_cmd' ch, in_ptr, ev)
    else
      let tmsg := read_bittiming (bytes_at rx msg sizeof_sc_msg_bittiming) in
      let bt_target := clamp_bittiming nm_range tmsg in
      do (usb_cmd', ev) <-
        sc_cmd_place_error_reply fuel SC_CAN_ERROR_NONE usb_cmd;
      Ok (set_ch_cmd usb_cmd' ch, in_ptr,
          Board (board_can_nm_bit_timing_set bt_target) :: ev)
  else if msg_id =? SC_MSG_DT_BITTIMING then
    if msg_len <? sizeof_sc_msg_bittiming then
      do (usb_cmd', ev) <- sc_cmd_place_error_reply fuel SC_ERROR_SHORT usb_cmd;
      Ok (set_ch_cmd usb_cmd' ch, in_ptr, ev)
    else
      let tmsg := read_bittiming (bytes_at rx msg sizeof_sc_msg_bittiming) in
      match dt_range with
      | Some dt_bt =>
          let bt_target := clamp_bittiming dt_bt tmsg in
          do (usb_cmd', ev) <-
            sc_cmd_place_error_reply fuel SC_CAN_ERROR_NONE usb_cmd;
          Ok (set_ch_cmd usb_cmd' ch, in_ptr,
              Board (board_can_nm_bit_timing_set bt_target) :: ev)
      | None => NullDeref
      end
  else if msg_id =? SC_MSG_FEATURES then
    let '(c, error) :=
      sc_cmd_features msg_len (bytes_at rx msg sizeof_sc_msg_features)
                      (ch_can ch) in
    do (usb_cmd', ev) <- sc_cmd_place_error_reply fuel error usb_cmd;
    Ok (set_ch_cmd usb_cmd' (set_ch_can c ch), in_ptr, ev)
  else if msg_id =? SC_MSG_BUS then
    let '(c, error, ev0) :=
      sc_cmd_bus msg_len (bytes_at rx msg sizeof_sc_msg_config) (ch_can ch) in
    do (usb_cmd', ev) <- sc_cmd_place_error_reply fuel error usb_cmd;
    Ok (set_ch_cmd usb_cmd' (set_ch_can c ch), in_ptr, ev0 ++ ev)
  else
    do (usb_cmd', ev) <-
      sc_cmd_place_error_reply fuel SC_ERROR_UNSUPPORTED usb_cmd;
    Ok (set_ch_cmd usb_cmd' ch, in_ptr, ev).

(** The [while] loop of [sc_cmd_bulk_out] over the received bytes
    [rx[0 .. in_end - 1]], from [in_ptr] on.  The header bytes are
    [msg->id] at [in_ptr] and [msg->len] at [in_ptr + 1]. *)
Fixpoint sc_cmd_bulk_out_loop (fuel : nat) (rx : list Z)
    (in_ptr in_end : Z) (ch : channel) : result (channel * list event) :=
  if in_ptr + SC_MSG_HEADER_LEN <=? in_end then
    match fuel with
    | O => OutOfFuel
    | S fuel' =>
        let msg := in_ptr in
        let msg_id := aget 0 rx msg in
        let msg_len := aget 0 rx (msg + 1) in
        if in_end <? in_ptr + msg_len then Ok (ch, [])
        else if msg_len =? 0 then Ok (ch, [])
        else
          let in_ptr := in_ptr + msg_len in
          do (ch, in_ptr, ev) <-
            sc_cmd_dispatch (S fuel') rx msg msg_id msg_len in_ptr in_end ch;
          do (ch, ev') <- sc_cmd_bulk_out_loop fuel' rx in_ptr in_end ch;
          Ok (ch, ev ++ ev')
    end
  else Ok (ch, []).

(** [sc_cmd_bulk_out]: [rx] is the receive bank that just completed. *)
Definition sc_cmd_bulk_out (fuel : nat) (rx : list Z) (xferred_bytes : Z)
    (ch : channel) : result (channel * list event) :=
  let usb_cmd := ch_cmd ch in
  let usb_cmd := usb_cmd.set_rx_bank (negb (usb_cmd.rx_bank usb_cmd)) usb_cmd in
  let ev0 := [Xfer (usb_cmd.pipe usb_cmd)
                   (cmd_rx_buffer (usb_cmd.rx_bank usb_cmd))
                   CMD_BUFFER_SIZE] in
  do (ch, ev) <-
    sc_cmd_bulk_out_loop fuel rx 0 (wrap32 xferred_bytes)
                         (set_ch_cmd usb_cmd ch);
  let usb_cmd := ch_cmd ch in
  if (0 <? bank_get (usb_cmd.tx_offsets usb_cmd) (usb_cmd.tx_bank usb_cmd))
     && sc_cmd_bulk_in_ep_ready usb_cmd then
    let '(usb_cmd, ev1) := sc_cmd_bulk_in_submit usb_cmd in
    Ok (set_ch_cmd usb_cmd ch, ev0 ++ ev ++ ev1)
  else Ok (ch, ev0 ++ ev).

(** [sc_cmd_bulk_in]: the transfer of the inactive bank completed. *)
Definition sc_cmd_bulk_in (cmd : usb_cmd.t) : usb_cmd.t * list event :=
  let cmd :=
    usb_cmd.set_tx_offsets
      (bank_set (usb_cmd.tx_offsets cmd) (negb (usb_cmd.tx_bank cmd)) 0) cmd in
  if truthy (bank_get (usb_cmd.tx_offsets cmd) (usb_cmd.tx_bank cmd))
  then sc_cmd_bulk_in_submit cmd
  else (cmd, []).

End command_channel.

(** ** What the statements about the command channel refer to *)

Section command_views.
Context `{supercan_h}.

(** The size of the struct that the case of [msg_id] casts the message to
    and checks [msg->len] against; [None] for the cases without a length
    check and for unknown ids.  The order is the one of the [switch]. *)
Definition cmd_expected_size (msg_id : Z) : option Z :=
  if msg_id =? SC_MSG_EOF then None
  else if msg_id =? SC_MSG_HELLO_DEVICE then None
  else if msg_id =? SC_MSG_DEVICE_INFO then None
  else if msg_id =? SC_MSG_CAN_INFO then None
  else if msg_id =? SC_MSG_NM_BITTIMING then Some sizeof_sc_msg_bittiming
  else if msg_id =? SC_MSG_DT_BITTIMING then Some sizeof_sc_msg_bittiming
  else if msg_id =? SC_MSG_FEATURES then Some sizeof_sc_msg_features
  else if msg_id =? SC_MSG_BUS then Some sizeof_sc_msg_config
  else None.

(** The ids with a case of their own in the [switch]. *)
Definition cmd_known (msg_id : Z) : bool :=
  (msg_id =? SC_MSG_EOF) || (msg_id =? SC_MSG_HELLO_DEVICE)
  || (msg_id =? SC_MSG_DEVICE_INFO) || (msg_id =? SC_MSG_CAN_INFO)
  || (msg_id =? SC_MSG_NM_BITTIMING) || (msg_id =? SC_MSG_DT_BITTIMING)
  || (msg_id =? SC_MSG_FEATURES) || (msg_id =? SC_MSG_BUS).

(** The error replies among the events. *)
Definition is_error_reply (e : event) : bool :=
  match e with
  | Store (cmd_tx_buffer _) _ (Msg_error _) => true
  | _ => false
  end.

Definition count_error_replies (ev : list event) : nat :=
  length (filter (fun e => is_error_reply e = true) ev).

(** The board provides a data bit timing range:
    [sc_board_can_dt_bit_timing_range] does not return [NULL]. *)
Definition board_has_dt_range : Prop := dt_range <> None.

End command_views.

(** ** The CAN data channel: [sc_can_bulk_out], [sc_process_msg_can_tx] *)

Section can_data_channel.
Context `{supercan_h} `{supercan_layout}.

Definition sc_can_bulk_in_ep_ready (ucan : usb_can.t) : bool :=
  bank_get (usb_can.tx_offsets ucan) (negb (usb_can.tx_bank ucan)) =? 0.

(** [sc_can_bulk_in_submit] of the release build (the consistency check of
    the bank under [#if SUPERCAN_DEBUG] is not compiled in).  A bank whose
    fill offset is below the bank size and a multiple of the endpoint size
    is extended by four zero bytes, then the bank is handed to the USB layer
    and the other bank becomes the active one. *)
Definition sc_can_bulk_in_submit (ucan : usb_can.t)
    : usb_can.t * list event :=
  let bank := usb_can.tx_bank ucan in
  let offset := bank_get (usb_can.tx_offsets ucan) bank in
  let need_to_send_zlp :=
    (SC_M1_EP_SIZE <? MSG_BUFFER_SIZE)
    && (offset <? MSG_BUFFER_SIZE) && (offset mod SC_M1_EP_SIZE =? 0) in
  let '(ucan, ev) :=
    if need_to_send_zlp then
      (usb_can.set_tx_offsets
         (bank_set (usb_can.tx_offsets ucan) bank (wrap16 (offset + 4))) ucan,
       [Memset0 (can_tx_buffer bank) offset 4])
    else (ucan, []) in
  (usb_can.set_tx_bank (negb bank) ucan,
   ev ++ [Xfer (Z.lor 0x80 (usb_can.pipe ucan)) (can_tx_buffer bank)
               (bank_get (usb_can.tx_offsets ucan) bank)]).

(** [(flags & F) == F] as a bit. *)
Definition flag_bit (flags f : Z) : Z :=
  if Z.land flags f =? f then 1 else 0.

(** The label [send_txr] of [sc_process_msg_can_tx].  [tx_beg] is computed
    once, before the label, from the bank that was active then; the offset
    is read from the bank that is active at each pass. *)
Fixpoint send_txr (fuel : nat) (ts track_id : Z) (tx_beg : bool)
    (ucan : usb_can.t) (c : can) : result (usb_can.t * can * list event) :=
  match fuel with
  | O => OutOfFuel
  | S fuel' =>
      let offset := bank_get (usb_can.tx_offsets ucan) (usb_can.tx_bank ucan) in
      if sizeof_sc_msg_can_txr <=? wrap32 (MSG_BUFFER_SIZE - offset) then
        let rep := {| txr_track_id := track_id;
                      txr_flags := SC_CAN_FRAME_FLAG_DRP;
                      txr_timestamp_us := ts |} in
        Ok (usb_can.set_tx_offsets
              (bank_set (usb_can.tx_offsets ucan) (usb_can.tx_bank ucan)
                        (wrap16 (offset + sizeof_sc_msg_can_txr))) ucan,
            c,
            [Store (can_tx_buffer tx_beg) offset (Msg_can_txr rep)])
      else if sc_can_bulk_in_ep_ready ucan then
        let '(ucan, ev) := sc_can_bulk_in_submit ucan in
        do (ucan, c, ev') <- send_txr fuel' ts track_id tx_beg ucan c;
        Ok (ucan, c, ev ++ ev')
      else Ok (ucan, set_desync true c, [])
  end.

(** [sc_process_msg_can_tx] for a message with declared length [msg_len]
    whose bytes are [image]; [ts] is the value of the 1 MHz counter. *)
Definition sc_process_msg_can_tx (fuel : nat) (ts msg_len : Z)
    (image : list Z) (ch : channel) : result (channel * list event) :=
  let c := ch_can ch in
  let usb_can := ch_usb_can ch in
  if msg_len <? sizeof_sc_msg_can_tx then Ok (ch, [])
  else
    let tmsg := read_can_tx image in
    let can_frame_len := dlc_to_len (tx_dlc tmsg) in
    let rtr := truthy (Z.land (tx_flags tmsg) SC_CAN_FRAME_FLAG_RTR) in
    if negb rtr && (msg_len <? sizeof_sc_msg_can_tx + can_frame_len)
    then Ok (ch, [])
    else if truthy (tx_available c) then
      let c := set_tx_available (wrap8 (tx_available c - 1)) c in
      let id := tx_can_id tmsg in
      let put_index := wrap8 (TXFQS_TFQPI (m_can c)) in
      let t0 :=
        {| B0_ID :=
             if truthy (Z.land (tx_flags tmsg) SC_CAN_FRAME_FLAG_EXT)
             then Z.land id 0x1fffffff
             else Z.land (wrap32 (Z.shiftl id 18)) 0x1fffffff;
           B0_RTR := flag_bit (tx_flags tmsg) SC_CAN_FRAME_FLAG_RTR;
           B0_XTD := flag_bit (tx_flags tmsg) SC_CAN_FRAME_FLAG_EXT;
           B0_ESI := flag_bit (tx_flags tmsg) SC_CAN_FRAME_FLAG_ESI |} in
      let t1 :=
        {| B1_DLC := Z.land (tx_dlc tmsg) 0xf;
           B1_BRS := flag_bit (tx_flags tmsg) SC_CAN_FRAME_FLAG_BRS;
           B1_FDF := flag_bit (tx_flags tmsg) SC_CAN_FRAME_FLAG_FDF;
           B1_MM := wrap8 (tx_track_id tmsg) |} in
      let old := aget zero_tx_fifo_element (tx_fifo c) put_index in
      let data :=
        if negb rtr && truthy can_frame_len
        then memcpy (txb_data old) (tx_data tmsg) can_frame_len
        else txb_data old in
      let element := {| txb_T0 := t0; txb_T1 := t1; txb_data := data |} in
      let c := set_tx_fifo (aset (tx_fifo c) put_index element) c in
      let c := set_m_can (set_TXBAR (wrap32 (Z.shiftl 1 put_index)) (m_can c))
                         c in
      Ok (set_ch_can c ch, [])
    else
      let tx_beg := usb_can.tx_bank usb_can in
      let c := set_tx_dropped (wrap16 (tx_dropped c + 1)) c in
      do (usb_can, c, ev) <-
        send_txr fuel ts (tx_track_id tmsg) tx_beg usb_can c;
      Ok (set_ch_usb_can usb_can (set_ch_can c ch), ev).

(** The [while] loop of [sc_can_bulk_out]. *)
Fixpoint sc_can_bulk_out_loop (fuel : nat) (ts : Z) (rx : list Z)
    (in_ptr in_end : Z) (ch : channel) : result (channel * list event) :=
  if in_ptr + SC_MSG_HEADER_LEN <=? in_end then
    match fuel with
    | O => OutOfFuel
    | S fuel' =>
        let msg := in_ptr in
        let msg_id := aget 0 rx msg in
        let msg_len := aget 0 rx (msg + 1) in
        if in_end <? in_ptr + msg_len then Ok (ch, [])
        else if (msg_id =? 0) || (msg_len =? 0) then Ok (ch, [])
        else
          let in_ptr := in_ptr + msg_len in
          do (ch, ev) <-
            (if msg_id =? SC_MSG_CAN_TX
             then sc_process_msg_can_tx (S fuel') ts msg_len
                                        (bytes_at rx msg msg_len) ch
             else Ok (ch, []));
          do (ch, ev') <- sc_can_bulk_out_loop fuel' ts rx in_ptr in_end ch;
          Ok (ch, ev ++ ev')
    end
  else Ok (ch, []).

(** [sc_can_bulk_out]: [rx] is the receive bank that just completed. *)
Definition sc_can_bulk_out (fuel : nat) (ts : Z) (rx : list Z)
    (xferred_bytes : Z) (ch : channel) : result (channel * list event) :=
  let usb_can := ch_usb_can ch in
  let usb_can := usb_can.set_rx_bank (negb (usb_can.rx_bank usb_can)) usb_can in
  let ev0 := [Xfer (usb_can.pipe usb_can)
                   (can_rx_buffer (usb_can.rx_bank usb_can))
                   MSG_BUFFER_SIZE] in
  let ch := set_ch_usb_can usb_can ch in
  if wrap32 xferred_bytes =? 0 then Ok (ch, ev0)
  else
    do (ch, ev) <-
      sc_can_bulk_out_loop fuel ts rx 0 (wrap32 xferred_bytes) ch;
    let usb_can := ch_usb_can ch in
    if sc_can_bulk_in_ep_ready usb_can
       && truthy (bank_get (usb_can.tx_offsets usb_can)
                           (usb_can.tx_bank usb_can)) then
      let '(usb_can, ev1) := sc_can_bulk_in_submit usb_can in
      Ok (set_ch_usb_can usb_can ch, ev0 ++ ev ++ ev1)
    else Ok (ch, ev0 ++ ev).

(** [sc_can_bulk_in]: the transfer of the inactive bank completed. *)
Definition sc_can_bulk_in (ucan : usb_can.t) : usb_can.t * list event :=
  let ucan :=
    usb_can.set_tx_offsets
      (bank_set (usb_can.tx_offsets ucan) (negb (usb_can.tx_bank ucan)) 0)
      ucan in
  if truthy (bank_get (usb_can.tx_offsets ucan) (usb_can.tx_bank ucan))
  then sc_can_bulk_in_submit ucan
  else (ucan, []).

(** The two length checks of [sc_process_msg_can_tx]: the message holds the
    struct and, unless it is a remote frame, the payload of its DLC. *)
Definition can_tx_msg_ok (msg_len : Z) (image : list Z) : bool :=
  negb (msg_len <? sizeof_sc_msg_can_tx)
  && negb (negb (truthy (Z.land (tx_flags (read_can_tx image))
                                SC_CAN_FRAME_FLAG_RTR))
           && (msg_len <? sizeof_sc_msg_can_tx
                          + dlc_to_len (tx_dlc (read_can_tx image)))).

(** The replies fit an empty bank: every reply struct of the command channel
    is at most [CMD_BUFFER_SIZE] bytes, a TXR at most [MSG_BUFFER_SIZE]. *)
Definition buffers_ok : Prop :=
  wrap8 sizeof_sc_msg_error <= CMD_BUFFER_SIZE /\
  wrap8 sizeof_sc_msg_dev_info <= CMD_BUFFER_SIZE /\
  wrap8 sizeof_sc_msg_can_info <= CMD_BUFFER_SIZE /\
  sizeof_sc_msg_can_txr <= MSG_BUFFER_SIZE < 2 ^ 32.

(** A receive buffer holds bytes. *)
Definition is_bytes (rx : list Z) : Prop :=
  Forall (fun b => 0 <= b <= 255) rx.

End can_data_channel.

(** ** [can_usb_task]: draining the rings into the CAN data endpoint

    The model follows the [!SPAM] variant.  The locals that only drive the
    LEDs ([bus_activity_tc], [had_bus_activity], [has_bus_error],
    [had_bus_error], [previous_bus_status]) and the LED update behind the
    loop are left out: they do not flow back into the channel or the
    endpoint.  [ts] is the value of the 1 MHz counter. *)

Record task_locals := {
  current_bus_status : Z;
  send_can_status : bool;
  yield : bool
}.

Definition set_current_bus_status (v : Z) (l : task_locals) : task_locals :=
  {| current_bus_status := v; send_can_status := send_can_status l;
     yield := yield l |}.
Definition set_send_can_status (v : bool) (l : task_locals) : task_locals :=
  {| current_bus_status := current_bus_status l; send_can_status := v;
     yield := yield l |}.
Definition set_yield (v : bool) (l : task_locals) : task_locals :=
  {| current_bus_status := current_bus_status l;
     send_can_status := send_can_status l; yield := v |}.

(** How a part of the loop body is left: on to the next part, [continue],
    or [break]. *)
Inductive ctl : Type := Next | Continue | Break.

(** What the loop body threads: the channel, the endpoint, the locals, the
    flag [done], the local [tx_ptr] (as an offset from [tx_beg]) and the
    events so far. *)
Record task_state := {
  t_can : can;
  t_usb_can : usb_can.t;
  t_locals : task_locals;
  t_done : bool;
  t_tx_ptr : Z;
  t_events : list event
}.

Definition set_t_can (v : can) (s : task_state) : task_state :=
  {| t_can := v; t_usb_can := t_usb_can s; t_locals := t_locals s;
     t_done := t_done s; t_tx_ptr := t_tx_ptr s; t_events := t_events s |}.
Definition set_t_usb_can (v : usb_can.t) (s : task_state) : task_state :=
  {| t_can := t_can s; t_usb_can := v; t_locals := t_locals s;
     t_done := t_done s; t_tx_ptr := t_tx_ptr s; t_events := t_events s |}.
Definition set_t_locals (v : task_locals) (s : task_state) : task_state :=
  {| t_can := t_can s; t_usb_can := t_usb_can s; t_locals := v;
     t_done := t_done s; t_tx_ptr := t_tx_ptr s; t_events := t_events s |}.
Definition set_t_done (v : bool) (s : task_state) : task_state :=
  {| t_can := t_can s; t_usb_can := t_usb_can s; t_locals := t_locals s;
     t_done := v; t_tx_ptr := t_tx_ptr s; t_events := t_events s |}.
Definition set_t_tx_ptr (v : Z) (s : task_state) : task_state :=
  {| t_can := t_can s; t_usb_can := t_usb_can s; t_locals := t_locals s;
     t_done := t_done s; t_tx_ptr := v; t_events := t_events s |}.
Definition emit (ev : list event) (s : task_state) : task_state :=
  {| t_can := t_can s; t_usb_can := t_usb_can s; t_locals := t_locals s;
     t_done := t_done s; t_tx_ptr := t_tx_ptr s;
     t_events := t_events s ++ ev |}.

Section can_usb_task.
Context `{supercan_h} `{supercan_layout}.

(** [(size_t)(tx_end - tx_ptr) >= bytes] *)
Definition tx_room (s : task_state) (bytes : Z) : bool :=
  bytes <=? wrap32 (MSG_BUFFER_SIZE - t_tx_ptr s).

(** A struct of [bytes] bytes is stored at [tx_ptr]; the fill offset of the
    active bank and [tx_ptr] advance. *)
Definition tx_store (bytes : Z) (m : wire_msg) (s : task_state)
    : task_state :=
  let ucan := t_usb_can s in
  let bank := usb_can.tx_bank ucan in
  let ucan :=
    usb_can.set_tx_offsets
      (bank_set (usb_can.tx_offsets ucan) bank
                (wrap16 (bank_get (usb_can.tx_offsets ucan) bank + bytes)))
      ucan in
  emit [Store (can_tx_buffer bank) (t_tx_ptr s) m]
       (set_t_tx_ptr (t_tx_ptr s + bytes) (set_t_usb_can ucan s)).

(** [sc_can_bulk_in_submit(index, __func__)] inside the loop. *)
Definition tx_submit (s : task_state) : task_state :=
  let '(ucan, ev) := sc_can_bulk_in_submit (t_usb_can s) in
  emit ev (set_t_usb_can ucan s).

(** [xTaskNotifyGive(can->usb_task_handle); yield = true;] *)
Definition tx_backoff (s : task_state) : task_state :=
  emit [Notify_usb_task] (set_t_locals (set_yield true (t_locals s)) s).

(** The status snapshot built from the channel. *)
Definition can_status_msg (ts : Z) (c : can) (l : task_locals)
    : sc_msg_can_status :=
  let flags := wrap8 (int_comm_flags c) in
  {| st_rx_lost := wrap16 (rx_lost c);
     st_tx_dropped := wrap16 (tx_dropped c);
     st_flags :=
       if desync c
       then wrap8 (Z.lor flags SC_CAN_STATUS_FLAG_TXR_DESYNC)
       else flags;
     st_bus_status := current_bus_status l;
     st_tx_errors := ECR_TEC (m_can c);
     st_rx_errors := ECR_REC (m_can c);
     st_tx_fifo_size := wrap8 (CAN_TX_FIFO_SIZE - TXFQS_TFFL (m_can c));
     st_rx_fifo_size := wrap8 (RXF0S_F0FL (m_can c));
     st_timestamp_us := ts |}.

(** [if (send_can_status) { ... }] *)
Definition task_status_part (ts : Z) (s : task_state) : ctl * task_state :=
  if send_can_status (t_locals s) then
    if tx_room s sizeof_sc_msg_can_status then
      let s := set_t_done false s in
      let s := set_t_locals (set_send_can_status false (t_locals s)) s in
      let c := t_can s in
      let msg := can_status_msg ts c (t_locals s) in
      let s := tx_store sizeof_sc_msg_can_status (Msg_can_status msg) s in
      (Next, set_t_can (set_tx_dropped 0 (set_rx_lost 0 c)) s)
    else if sc_can_bulk_in_ep_ready (t_usb_can s) then
      (Continue, tx_submit (set_t_done false s))
    else (Break, tx_backoff s)
  else (Next, s).

(** The bus error message of a status FIFO entry. *)
Definition can_error_msg (e : can_status) : sc_msg_can_error :=
  {| ce_error := cs_payload e;
     ce_timestamp_us := cs_ts e;
     ce_flags :=
       Z.lor (if truthy (cs_tx e) then SC_CAN_ERROR_FLAG_RXTX_TX else 0)
             (if truthy (cs_data_part e) then SC_CAN_ERROR_FLAG_NMDT_DT
              else 0) |}.

(** [if (can->status_get_index != status_put_index) { ... }] *)
Definition task_status_fifo_part (s : task_state) : ctl * task_state :=
  let c := t_can s in
  if status_get_index c =? status_put_index c then (Next, s)
  else
    let fifo_index := wrap16 (status_get_index c mod CAN_STATUS_FIFO_SIZE) in
    let e := aget zero_can_status (status_fifo c) fifo_index in
    let s := set_t_done false s in
    let advance (s : task_state) : task_state :=
      set_t_can (set_status_get_index
                   (wrap16 (status_get_index (t_can s) + 1)) (t_can s)) s in
    if cs_type e =? CAN_STATUS_FIFO_TYPE_BUS_STATUS then
      let l := set_send_can_status true
                 (set_current_bus_status (wrap8 (cs_payload e))
                                         (t_locals s)) in
      (Next, advance (set_t_locals l s))
    else if cs_type e =? CAN_STATUS_FIFO_TYPE_BUS_ERROR then
      if tx_room s sizeof_sc_msg_can_error then
        (Next, advance (tx_store sizeof_sc_msg_can_error
                                 (Msg_can_error (can_error_msg e)) s))
      else if sc_can_bulk_in_ep_ready (t_usb_can s) then
        (Continue, tx_submit s)
      else (Next, advance (tx_backoff s))
    else (Next, advance s).

(** The RX message of a ring slot, [bytes] long. *)
Definition can_rx_msg (bytes : Z) (f : rx_frame) : sc_msg_can_rx :=
  let r0 := rxf_R0 f in
  let r1 := rxf_R1 f in
  let can_frame_len := dlc_to_len (R1_DLC r1) in
  {| rx_len := bytes;
     rx_dlc := R1_DLC r1;
     rx_flags :=
       Z.lor (if truthy (R0_XTD r0) then SC_CAN_FRAME_FLAG_EXT else 0)
             (if truthy (R1_FDF r1) then
                Z.lor SC_CAN_FRAME_FLAG_FDF
                      (if truthy (R1_BRS r1) then SC_CAN_FRAME_FLAG_BRS else 0)
              else if truthy (R0_RTR r0) then SC_CAN_FRAME_FLAG_RTR else 0);
     rx_can_id :=
       if truthy (R0_XTD r0) then R0_ID r0 else Z.shiftr (R0_ID r0) 18;
     rx_timestamp_us := rxf_ts f;
     rx_data :=
       if truthy (R1_FDF r1) || negb (truthy (R0_RTR r0))
       then take (Z.to_nat can_frame_len) (rxf_data f)
       else [] |}.

(** [if (can->rx_get_index != rx_put_index) { ... }] *)
Definition task_rx_part (s : task_state) : result (ctl * task_state) :=
  let c := t_can s in
  let rx_put_index := rx_put_index c in
  if rx_get_index c =? rx_put_index then Ok (Next, s)
  else
    let rx_count := wrap8 (rx_put_index - rx_get_index c) in
    do _ <- (if CAN_RX_FIFO_SIZE <? rx_count
             then SC_ASSERT (rx_put_index - rx_get_index c
                             <=? CAN_RX_FIFO_SIZE)
             else Ok tt);
    let get_index := wrap8 (Z.land (rx_get_index c) (CAN_RX_FIFO_SIZE - 1)) in
    let f := aget zero_rx_frame (rx_frames c) get_index in
    let can_frame_len := dlc_to_len (R1_DLC (rxf_R1 f)) in
    let bytes := wrap8 sizeof_sc_msg_can_rx in
    let bytes :=
      if truthy (R0_RTR (rxf_R0 f)) then bytes
      else wrap8 (bytes + can_frame_len) in
    let rest := Z.land bytes (SC_MSG_CAN_LEN_MULTIPLE - 1) in
    let bytes :=
      if truthy rest then wrap8 (bytes + (SC_MSG_CAN_LEN_MULTIPLE - rest))
      else bytes in
    if tx_room s bytes then
      let s := set_t_done false s in
      let s := tx_store bytes (Msg_can_rx (can_rx_msg bytes f)) s in
      Ok (Next, set_t_can (set_rx_get_index (wrap8 (rx_get_index c + 1)) c) s)
    else if sc_can_bulk_in_ep_ready (t_usb_can s) then
      Ok (Continue, tx_submit (set_t_done false s))
    else Ok (Break, tx_backoff s).

(** The TXR of a TX ring slot. *)
Definition can_txr_msg (f : tx_frame) : sc_msg_can_txr :=
  let t0 := txf_T0 f in
  let t1 := txf_T1 f in
  {| txr_track_id := E1_MM t1;
     txr_timestamp_us := txf_ts f;
     txr_flags :=
       Z.lor (if truthy (E0_XTD t0) then SC_CAN_FRAME_FLAG_EXT else 0)
             (if truthy (E1_FDF t1) then
                Z.lor SC_CAN_FRAME_FLAG_FDF
                  (Z.lor (if truthy (E0_ESI t0) then SC_CAN_FRAME_FLAG_ESI
                          else 0)
                         (if truthy (E1_BRS t1) then SC_CAN_FRAME_FLAG_BRS
                          else 0))
              else if truthy (E0_RTR t0) then SC_CAN_FRAME_FLAG_RTR else 0) |}.

(** [if (can->tx_get_index != tx_put_index) { ... }] *)
Definition task_txr_part (s : task_state) : result (ctl * task_state) :=
  let c := t_can s in
  if tx_get_index c =? tx_put_index c then Ok (Next, s)
  else
    let get_index := wrap8 (Z.land (tx_get_index c) (CAN_TX_FIFO_SIZE - 1)) in
    if tx_room s sizeof_sc_msg_can_txr then
      let s := set_t_done false s in
      let f := aget zero_tx_frame (tx_frames c) get_index in
      let s := tx_store sizeof_sc_msg_can_txr (Msg_can_txr (can_txr_msg f)) s in
      let c := set_tx_get_index (wrap8 (tx_get_index c + 1)) c in
      do _ <- SC_ASSERT (tx_available c <? CAN_TX_FIFO_SIZE);
      Ok (Next, set_t_can (set_tx_available (wrap8 (tx_available c + 1)) c) s)
    else if sc_can_bulk_in_ep_ready (t_usb_can s) then
      Ok (Continue, tx_submit (set_t_done false s))
    else Ok (Break, tx_backoff s).

(** One pass through the body of [for (bool done = false; !done; )]. *)
Definition task_loop_body (ts : Z) (s : task_state)
    : result (ctl * task_state) :=
  let s := set_t_done true s in
  let s :=
    set_t_tx_ptr (bank_get (usb_can.tx_offsets (t_usb_can s))
                           (usb_can.tx_bank (t_usb_can s))) s in
  match task_status_part ts s with
  | (Next, s) =>
      match task_status_fifo_part s with
      | (Next, s) =>
          do (k, s) <- task_rx_part s;
          match k with
          | Next => task_txr_part s
          | _ => Ok (k, s)
          end
      | r => Ok r
      end
  | r => Ok r
  end.

(** The loop: [break] leaves it, [continue] and the end of the body go
    back to the test of [done]. *)
Fixpoint task_loop (fuel : nat) (ts : Z) (s : task_state)
    : result task_state :=
  match fuel with
  | O => OutOfFuel
  | S fuel' =>
      do (k, s) <- task_loop_body ts s;
      match k with
      | Break => Ok s
      | _ => if t_done s then Ok s else task_loop fuel' ts s
      end
  end.

(** One wake-up of [can_usb_task] (one pass of [while (42)]). *)
Definition can_usb_task_wake (fuel : nat) (mounted : bool) (ts : Z)
    (c : can) (ucan : usb_can.t) (l : task_locals)
    : result (can * usb_can.t * task_locals * list event) :=
  if negb mounted then Ok (c, ucan, l, [])
  else if negb (enabled c) then
    Ok (c, ucan, set_current_bus_status 0 l, [])
  else
    let l := set_send_can_status true l in
    do s <- task_loop fuel ts
              {| t_can := c; t_usb_can := ucan; t_locals := l;
                 t_done := false; t_tx_ptr := 0; t_events := [] |};
    let s :=
      if sc_can_bulk_in_ep_ready (t_usb_can s)
         && truthy (bank_get (usb_can.tx_offsets (t_usb_can s))
                             (usb_can.tx_bank (t_usb_can s)))
      then tx_submit s else s in
    Ok (t_can s, t_usb_can s, set_yield false (t_locals s), t_events s).

End can_usb_task.

(** ** The firmware as a transition system

    One channel together with the locals of its [can_usb_task].  A step is
    one call of an entry point of [main.c] that returns: a USB transfer
    callback, one wake-up of [can_usb_task], one [can_poll]; or the
    controller changing its registers and its FIFOs in message RAM.  The
    calls of [can_on] and [can_off] (bus on and bus off), whose code is not
    among the sources, are not steps. *)

Section firmware.
Context `{supercan_h} `{supercan_layout} `{main_c_rest}.

Definition fw_state : Type := channel * task_locals.

Inductive fw_step : fw_state -> list event -> fw_state -> Prop :=
| step_cmd_bulk_out fuel rx n ch l ch' ev :
    sc_cmd_bulk_out fuel rx n ch = Ok (ch', ev) ->
    ~ In Bus_on ev -> ~ In Bus_off ev ->
    fw_step (ch, l) ev (ch', l)
| step_cmd_bulk_in ch l :
    fw_step (ch, l) (snd (sc_cmd_bulk_in (ch_cmd ch)))
            (set_ch_cmd (fst (sc_cmd_bulk_in (ch_cmd ch))) ch, l)
| step_can_bulk_out fuel ts rx n ch l ch' ev :
    sc_can_bulk_out fuel ts rx n ch = Ok (ch', ev) ->
    fw_step (ch, l) ev (ch', l)
| step_can_bulk_in ch l :
    fw_step (ch, l) (snd (sc_can_bulk_in (ch_usb_can ch)))
            (set_ch_usb_can (fst (sc_can_bulk_in (ch_usb_can ch))) ch, l)
| step_can_usb_task fuel mounted ts ch l c' ucan' l' ev :
    can_usb_task_wake fuel mounted ts (ch_can ch) (ch_usb_can ch) l
    = Ok (c', ucan', l', ev) ->
    fw_step (ch, l) ev (set_ch_usb_can ucan' (set_ch_can c' ch), l')
| step_can_poll events tsc tsv ch l c' events' more :
    can_poll (ch_can ch) events tsc tsv = Ok (c', events', more) ->
    fw_step (ch, l) [] (set_ch_can c' ch, l)
| step_controller regs rxf txe ch l :
    fw_step (ch, l) []
            (set_ch_can (set_m_can regs
                           (set_rx_fifo rxf
                              (set_tx_event_fifo txe (ch_can ch)))) ch, l).

(** Runs, with the events of their steps in order. *)
Inductive fw_run : fw_state -> list event -> fw_state -> Prop :=
| run_done s : fw_run s [] s
| run_step s1 ev1 s2 ev2 s3 :
    fw_step s1 ev1 s2 -> fw_run s2 ev2 s3 -> fw_run s1 (ev1 ++ ev2) s3.

(** The desync flag and the TX slot counter of [struct can], and the only
    ways the firmware moves them: it sets [desync], it takes a TX slot that
    is there, it gives back a TX slot while fewer than [CAN_TX_FIFO_SIZE]
    are available. *)
Definition core (c : can) : bool * Z := (desync c, tx_available c).

Inductive core_move : bool * Z -> bool * Z -> Prop :=
| move_desync (d : bool) (a : Z) : core_move (d, a) (true, a)
| move_take (d : bool) (a : Z) :
    a <> 0 -> core_move (d, a) (d, wrap8 (a - 1))
| move_give (d : bool) (a : Z) :
    a < CAN_TX_FIFO_SIZE -> core_move (d, a) (d, wrap8 (a + 1)).

Definition core_moves : bool * Z -> bool * Z -> Prop := rtc core_move.

(** A status snapshot among the events carries the TXR desync flag. *)
Definition status_flagged (e : event) : Prop :=
  match e with
  | Store _ _ (Msg_can_status m) =>
      Z.land (st_flags m) SC_CAN_STATUS_FLAG_TXR_DESYNC
      = SC_CAN_STATUS_FLAG_TXR_DESYNC
  | _ => True
  end.

(** An event that is not a status snapshot. *)
Definition not_status (e : event) : Prop :=
  match e with
  | Store _ _ (Msg_can_status _) => False
  | _ => True
  end.

(** What holds of the state of the loop of [can_usb_task] that started
    from the channel [c0]. *)
Definition task_inv (c0 : can) (s : task_state) : Prop :=
  desync (t_can s) = desync c0 /\
  core_moves (core c0) (core (t_can s)) /\
  (desync c0 = true -> Forall status_flagged (t_events s)).

End firmware.

(** ** Byte order helpers *)

(** GCC's [__builtin_bswap16] and [__builtin_bswap32] on a value of the
    parameter type. *)
Definition bswap16 (x : Z) : Z :=
  Z.lor (Z.shiftl (Z.land x 0xff) 8) (Z.land (Z.shiftr x 8) 0xff).

Definition bswap32 (x : Z) : Z :=
  Z.lor (Z.lor (Z.shiftl (Z.land x 0xff) 24)
               (Z.shiftl (Z.land (Z.shiftr x 8) 0xff) 16))
        (Z.lor (Z.shiftl (Z.land (Z.shiftr x 16) 0xff) 8)
               (Z.land (Z.shiftr x 24) 0xff)).

Section byte_order.
(** [TU_BIG_ENDIAN == TU_BYTE_ORDER]: which branch of the [#if] is
    compiled. *)
Variable big_endian : bool.

Definition le16_to_cpu (value : Z) : Z :=
  if big_endian then bswap16 value else value.
Definition le32_to_cpu (value : Z) : Z :=
  if big_endian then bswap32 value else value.
Definition cpu_to_le16 (value : Z) : Z :=
  if big_endian then bswap16 value else value.
Definition cpu_to_le32 (value : Z) : Z :=
  if big_endian then bswap32 value else value.
Definition be16_to_cpu (value : Z) : Z :=
  if big_endian then value else bswap16 value.
Definition be32_to_cpu (value : Z) : Z :=
  if big_endian then value else bswap32 value.
Definition cpu_to_be16 (value : Z) : Z :=
  if big_endian then value else bswap16 value.
Definition cpu_to_be32 (value : Z) : Z :=
  if big_endian then value else bswap32 value.

(** The bytes of a [uint16_t] and of a [uint32_t] object in address order,
    as the USB controller sends them. *)
Definition bytes_of_u16 (v : Z) : list Z :=
  let lo := Z.land v 0xff in
  let hi := Z.land (Z.shiftr v 8) 0xff in
  if big_endian then [hi; lo] else [lo; hi].

Definition bytes_of_u32 (v : Z) : list Z :=
  let b0 := Z.land v 0xff in
  let b1 := Z.land (Z.shiftr v 8) 0xff in
  let b2 := Z.land (Z.shiftr v 16) 0xff in
  let b3 := Z.land (Z.shiftr v 24) 0xff in
  if big_endian then [b3; b2; b1; b0] else [b0; b1; b2; b3].

End byte_order.

(** ** The length of an RX message *)

Section rx_length.
Context `{supercan_h}.

(** The local [bytes] of the RX part of [can_usb_task] for the ring slot
    [f]: the struct, the payload unless the frame is a remote frame, rounded
    up to [SC_MSG_CAN_LEN_MULTIPLE], in [uint8_t] arithmetic. *)
Definition can_rx_msg_bytes (f : rx_frame) : Z :=
  let can_frame_len := dlc_to_len (R1_DLC (rxf_R1 f)) in
  let bytes := wrap8 sizeof_sc_msg_can_rx in
  let bytes :=
    if truthy (R0_RTR (rxf_R0 f)) then bytes
    else wrap8 (bytes + can_frame_len) in
  let rest := Z.land bytes (SC_MSG_CAN_LEN_MULTIPLE - 1) in
  if truthy rest then wrap8 (bytes + (SC_MSG_CAN_LEN_MULTIPLE - rest))
  else bytes.

(** The struct and the payload before rounding. *)
Definition can_rx_msg_raw_bytes (f : rx_frame) : Z :=
  sizeof_sc_msg_can_rx
  + (if truthy (R0_RTR (rxf_R0 f)) then 0
     else dlc_to_len (R1_DLC (rxf_R1 f))).

End rx_length.

(** ** The banks and what is written into them *)

Section bounds.
Context `{supercan_h}.

(** The bytes the firmware reserves in a bank for a struct it stores: the
    amount by which it advances the fill offset. *)
Definition reserved_bytes (m : wire_msg) : Z :=
  match m with
  | Msg_hello _ => wrap8 sizeof_sc_msg_hello
  | Msg_dev_info _ _ => wrap8 sizeof_sc_msg_dev_info
  | Msg_can_info _ _ _ _ _ => wrap8 sizeof_sc_msg_can_info
  | Msg_error _ => wrap8 sizeof_sc_msg_error
  | Msg_can_status _ => sizeof_sc_msg_can_status
  | Msg_can_rx m => rx_len m
  | Msg_can_txr _ => sizeof_sc_msg_can_txr
  | Msg_can_error _ => sizeof_sc_msg_can_error
  end.

(** The bytes the firmware writes for a struct it stores: the struct
    itself, and behind the struct of an RX message the payload bytes that
    [memcpy] copies. *)
Definition written_bytes (m : wire_msg) : Z :=
  match m with
  | Msg_hello _ => sizeof_sc_msg_hello
  | Msg_dev_info _ _ => sizeof_sc_msg_dev_info
  | Msg_can_info _ _ _ _ _ => sizeof_sc_msg_can_info
  | Msg_error _ => sizeof_sc_msg_error
  | Msg_can_status _ => sizeof_sc_msg_can_status
  | Msg_can_rx m => sizeof_sc_msg_can_rx + Z.of_nat (length (rx_data m))
  | Msg_can_txr _ => sizeof_sc_msg_can_txr
  | Msg_can_error _ => sizeof_sc_msg_can_error
  end.

(** The size of a bank: [CMD_BUFFER_SIZE] or [MSG_BUFFER_SIZE]. *)
Definition buffer_size (b : buffer) : Z :=
  match b with
  | cmd_tx_buffer _ | cmd_rx_buffer _ => CMD_BUFFER_SIZE
  | can_tx_buffer _ | can_rx_buffer _ => MSG_BUFFER_SIZE
  end.

(** A write into a bank stays inside the bank, with the bytes it reserves
    and with the bytes it writes, and a transfer is no longer than the bank
    it sends or fills. *)
Definition event_in_bounds (e : event) : Prop :=
  match e with
  | Store buf off m =>
      0 <= off /\ off + reserved_bytes m <= buffer_size buf /\
      off + written_bytes m <= buffer_size buf
  | Memset0 buf off n => 0 <= off /\ off + n <= buffer_size buf
  | Xfer _ buf len => 0 <= len <= buffer_size buf
  | _ => True
  end.

Definition bank_offsets_in (size : Z) (offs : Z * Z) : Prop :=
  (0 <= fst offs <= size) /\ (0 <= snd offs <= size).

(** The fill offsets of the four transmit banks of a channel are within the
    banks. *)
Definition offsets_in_bounds (ch : channel) : Prop :=
  bank_offsets_in CMD_BUFFER_SIZE (usb_cmd.tx_offsets (ch_cmd ch)) /\
  bank_offsets_in MSG_BUFFER_SIZE (usb_can.tx_offsets (ch_usb_can ch)).

(** What the bank arithmetic of [main.c] relies on: the offsets fit their
    [uint16_t], the hello reply fits a command bank, no struct has a
    negative size, and the endpoint size is at least four bytes and divides
    the size of a CAN data bank. *)
Definition bank_sizes_ok : Prop :=
  CMD_BUFFER_SIZE < 2 ^ 16 /\
  0 <= MSG_BUFFER_SIZE < 2 ^ 16 /\
  wrap8 sizeof_sc_msg_hello <= CMD_BUFFER_SIZE /\
  0 <= sizeof_sc_msg_can_status /\
  0 <= sizeof_sc_msg_can_error /\
  0 <= sizeof_sc_msg_can_txr /\
  4 <= SC_M1_EP_SIZE /\
  MSG_BUFFER_SIZE mod SC_M1_EP_SIZE = 0.

(** What the sizes of the structs are relied on for: the replies of the
    command channel have sizes that fit the [uint8_t] holding them, and an
    RX message with the longest payload, rounded up to the power of two
    [SC_MSG_CAN_LEN_MULTIPLE = 2 ^ k], fits its [uint8_t] length too. *)
Definition struct_sizes_ok (k : Z) : Prop :=
  0 <= sizeof_sc_msg_hello < 256 /\
  0 <= sizeof_sc_msg_dev_info < 256 /\
  0 <= sizeof_sc_msg_can_info < 256 /\
  0 <= sizeof_sc_msg_error < 256 /\
  SC_MSG_CAN_LEN_MULTIPLE = 2 ^ k /\ 0 <= k <= 7 /\
  0 <= sizeof_sc_msg_can_rx /\
  sizeof_sc_msg_can_rx + 64 + SC_MSG_CAN_LEN_MULTIPLE <= 256.

(** No slot of the RX ring is marked both as a remote frame and as an FD
    frame.  (For such a slot [can_usb_task] reserves the struct alone and
    copies the payload all the same.) *)
Definition no_fd_remote (c : can) : Prop :=
  Forall (fun f => truthy (R0_RTR (rxf_R0 f)) && truthy (R1_FDF (rxf_R1 f))
                   = false)
         (rx_frames c).

(** The loop state of [can_usb_task]: the fill offsets of the CAN data
    endpoint are within the banks and so are the writes so far; and the
    local [tx_ptr] stands at the fill offset of the active bank. *)
Definition task_in_bounds (s : task_state) : Prop :=
  bank_offsets_in MSG_BUFFER_SIZE (usb_can.tx_offsets (t_usb_can s)) /\
  Forall event_in_bounds (t_events s).

Definition task_ptr_synced (s : task_state) : Prop :=
  t_tx_ptr s
  = bank_get (usb_can.tx_offsets (t_usb_can s)) (usb_can.tx_bank (t_usb_can s)).

End bounds.

Section bounded_runs.
Context `{supercan_h} `{supercan_layout} `{main_c_rest}.

(** Runs of the firmware in which every step starts in a state that
    satisfies [P]. *)
Inductive fw_run_on (P : fw_state -> Prop)
    : fw_state -> list event -> fw_state -> Prop :=
| run_on_done s : fw_run_on P s [] s
| run_on_step s1 ev1 s2 ev2 s3 :
    P s1 -> fw_step s1 ev1 s2 -> fw_run_on P s2 ev2 s3 ->
    fw_run_on P s1 (ev1 ++ ev2) s3.

End bounded_runs.

(** ** More on what the command channel relies on *)

Section cmd_more_views.
Context `{supercan_h}.

(** The [case] labels of the [switch] of [sc_cmd_bulk_out] differ from each
    other, as C requires. *)
Definition cmd_ids_distinct : Prop :=
  NoDup [SC_MSG_EOF; SC_MSG_HELLO_DEVICE; SC_MSG_DEVICE_INFO; SC_MSG_CAN_INFO;
         SC_MSG_NM_BITTIMING; SC_MSG_DT_BITTIMING; SC_MSG_FEATURES;
         SC_MSG_BUS].

(** A bit timing range whose bounds are ordered and fit the fields of
    [sc_can_bit_timing]: [uint16_t] for [brp] and [tseg1], [uint8_t] for
    [tseg2] and [sjw]. *)
Definition bit_timing_range_ok (r : sc_can_bit_timing_range) : Prop :=
  (0 <= brp (min r) <= brp (max r) /\ brp (max r) < 2 ^ 16) /\
  (0 <= tseg1 (min r) <= tseg1 (max r) /\ tseg1 (max r) < 2 ^ 16) /\
  (0 <= tseg2 (min r) <= tseg2 (max r) /\ tseg2 (max r) < 2 ^ 8) /\
  (0 <= sjw (min r) <= sjw (max r) /\ sjw (max r) < 2 ^ 8).

(** A transfer that arms an OUT endpoint: it hands a receive bank to the
    USB layer. *)
Definition arms_out (e : event) : bool :=
  match e with
  | Xfer _ (cmd_rx_buffer _) _ | Xfer _ (can_rx_buffer _) _ => true
  | _ => false
  end.

End cmd_more_views.

(** ** The batch of TX events seen by one [can_poll] *)

Section tx_views.
Context `{supercan_h}.

(** Slot of the TX event FIFO that holds event [j] of a batch, in arrival
    order ([get_index] of the forward loop). *)
Definition tx_fifo_index (gio j : Z) : Z :=
  wrap8 (Z.land (gio + j) (CAN_TX_FIFO_SIZE - 1)).

Definition tx_batch_count (c : can) : Z := wrap8 (TXEFS_EFFL (m_can c)).
Definition tx_batch_gio (c : can) : Z := wrap8 (TXEFS_EFGI (m_can c)).

(** The local [txp]: two bit times when the transmit pause is enabled. *)
Definition tx_batch_txp (c : can) : Z := wrap32 (CCCR_TXP (m_can c) * 2).

(** Event [j] of the batch waiting in the TX event FIFO. *)
Definition tx_batch_event (c : can) (j : Z) : can_tx_event_fifo_element :=
  aget zero_tx_event_fifo_element (tx_event_fifo c)
       (tx_fifo_index (tx_batch_gio c) j).

(** The running timestamp of the reverse loop when it reaches the event
    that is [m] events before the youngest one. *)
Fixpoint tx_youngest_first_ts (c : can) (tsc : Z) (m : nat) : Z :=
  match m with
  | O => tsc
  | S m' =>
      wrap32 (tx_youngest_first_ts c tsc m'
              - tx_element_time_us c (tx_batch_txp c)
                  (tx_batch_event c (tx_batch_count c - 1 - Z.of_nat m')))
  end.

(** The timestamp of event [j] of the batch. *)
Definition tx_event_ts (c : can) (tsc j : Z) : Z :=
  tx_youngest_first_ts c tsc (Z.to_nat (tx_batch_count c - 1 - j)).

(** What the forward loop stores for event [j] of the batch. *)
Definition tx_stored (c : can) (tsc j : Z) : tx_frame :=
  {| txf_T0 := txe_T0 (tx_batch_event c j);
     txf_T1 := txe_T1 (tx_batch_event c j);
     txf_ts := tx_event_ts c tsc j |}.

(** The slot of the TX ring that the consumer reads at index [idx]
    ([tx_get_index & (CAN_TX_FIFO_SIZE-1)] in [can_usb_task]). *)
Definition tx_ring_slot (frames : list tx_frame) (idx : Z) : tx_frame :=
  aget zero_tx_frame frames (wrap8 (Z.land idx (CAN_TX_FIFO_SIZE - 1))).

End tx_views.

(** ** The STM32F3 board file: the queue of TXR track ids

    The board keeps, per channel, the track ids of the frames handed to the
    hardware in a ring of bytes ([struct can] of the board file) until
    [sc_board_can_retrieve] reports them back as TXR messages. *)

Module board.

(** [static struct can] of the board file.  The two indices use the full
    range of [uint8_t]. *)
Record can := {
  txr_buffer : list Z;
  txr_get_index : Z;
  txr_put_index : Z
}.

Definition zero_can : can :=
  {| txr_buffer := []; txr_get_index := 0; txr_put_index := 0 |}.

Definition set_txr_buffer (v : list Z) (c : can) : can :=
  {| txr_buffer := v; txr_get_index := txr_get_index c;
     txr_put_index := txr_put_index c |}.

Definition set_txr_get_index (v : Z) (c : can) : can :=
  {| txr_buffer := txr_buffer c; txr_get_index := v;
     txr_put_index := txr_put_index c |}.

Definition set_txr_put_index (v : Z) (c : can) : can :=
  {| txr_buffer := txr_buffer c; txr_get_index := txr_get_index c;
     txr_put_index := v |}.

(** A [struct sc_msg_can_txr] written through [tx_ptr], with the address it
    is written at. *)
Record txr_write := {
  w_at : Z;
  w_id : Z;
  w_len : Z;
  w_flags : Z;
  w_track_id : Z;
  w_timestamp_us : Z
}.

(** [sc_can_notify_task_def(index, count)]. *)
Inductive note : Type :=
| Notify_task_def (index count : Z).

End board.

Section board_txr_queue.
Context `{supercan_h}.

(** [sc_board_can_tx_queue]: the new [cans], the notifications and the
    returned [available]. *)
Definition sc_board_can_tx_queue (index : Z) (msg : sc_msg_can_tx)
    (cans : list board.can) : list board.can * list board.note * bool :=
  let can := aget board.zero_can cans index in
  let pi := board.txr_put_index can in
  let gi := board.txr_get_index can in
  let used := wrap8 (pi - gi) in
  let available := used <? SC_BOARD_CAN_TX_FIFO_SIZE in
  if available then
    let txr_put_index := wrap8 (pi mod SC_BOARD_CAN_TX_FIFO_SIZE) in
    let can :=
      board.set_txr_buffer
        (aset (board.txr_buffer can) txr_put_index (wrap8 (tx_track_id msg)))
        can in
    let can := board.set_txr_put_index (wrap8 (pi + 1)) can in
    (aset cans index can, [board.Notify_task_def index 1], true)
  else (cans, [], false).

(** The loop of [sc_board_can_retrieve].  [clock n] is the value that the
    [n]-th call of [sc_board_can_ts_wait] returns; [calls] counts the calls
    made so far.  The track id is read from [cans->txr_buffer], the buffer
    of the first channel. *)
Fixpoint sc_board_can_retrieve_loop (fuel : nat) (index tx_end : Z)
    (clock : Z -> Z) (cans : list board.can) (tx_ptr res : Z)
    (have_data_to_place : bool) (calls : Z) (out : list board.txr_write)
    : result (list board.can * Z * bool * list board.txr_write) :=
  match fuel with
  | O => OutOfFuel
  | S fuel' =>
      let can := aget board.zero_can cans index in
      let txr_pi := board.txr_put_index can in
      if negb (board.txr_get_index can =? txr_pi) then
        let bytes := wrap8 sizeof_sc_msg_can_txr in
        if bytes <=? wrap32 (tx_end - tx_ptr) then
          let txr_get_index :=
            wrap8 (board.txr_get_index can mod SC_BOARD_CAN_TX_FIFO_SIZE) in
          let txr :=
            {| board.w_at := tx_ptr;
               board.w_flags := 0;
               board.w_id := SC_MSG_CAN_TXR;
               board.w_len := bytes;
               board.w_track_id :=
                 aget 0 (board.txr_buffer (aget board.zero_can cans 0))
                      txr_get_index;
               board.w_timestamp_us := wrap32 (clock calls) |} in
          let can :=
            board.set_txr_get_index (wrap8 (board.txr_get_index can + 1))
                                    can in
          sc_board_can_retrieve_loop fuel' index tx_end clock
            (aset cans index can) (tx_ptr + bytes) (res + bytes) true
            (calls + 1) (out ++ [txr])
        else Ok (cans, res, true, out)
      else Ok (cans, res, have_data_to_place, out)
  end.

(** [sc_board_can_retrieve]: the new [cans], the returned [int] and the
    messages written. *)
Definition sc_board_can_retrieve (fuel : nat) (index tx_ptr tx_end : Z)
    (clock : Z -> Z) (cans : list board.can)
    : result (list board.can * Z * list board.txr_write) :=
  do (cans, res, have_data_to_place, out) <-
    sc_board_can_retrieve_loop fuel index tx_end clock cans tx_ptr 0 false
                               0 [];
  if 0 <? res then Ok (cans, res, out)
  else Ok (cans, (if have_data_to_place then 1 else 0) - 1, out).

(** *** Views *)

(** The ring slot behind a value of one of the two indices. *)
Definition board_slot (i : Z) : Z := wrap8 (i mod SC_BOARD_CAN_TX_FIFO_SIZE).

(** The number of track ids waiting on channel [index]. *)
Definition board_used (index : Z) (cans : list board.can) : Z :=
  let can := aget board.zero_can cans index in
  wrap8 (board.txr_put_index can - board.txr_get_index can).

(** The byte that the slot [j] places after the get index of channel
    [index] selects in the buffer of channel [src]. *)
Definition board_entry (src index : Z) (cans : list board.can) (j : Z) : Z :=
  let can := aget board.zero_can cans index in
  aget 0 (board.txr_buffer (aget board.zero_can cans src))
       (board_slot (wrap8 (board.txr_get_index can + j))).

(** The bytes that the slots between the get and the put index of channel
    [index] select in the buffer of channel [src], oldest first. *)
Definition board_pending (src index : Z) (cans : list board.can) : list Z :=
  board_entry src index cans <$> seqZ 0 (board_used index cans).

(** The [j]-th TXR message of one call of [sc_board_can_retrieve] that
    starts writing at [tx_ptr] after [calls] readings of the clock. *)
Definition board_txr (index tx_ptr calls : Z) (clock : Z -> Z)
    (cans : list board.can) (j : Z) : board.txr_write :=
  let bytes := wrap8 sizeof_sc_msg_can_txr in
  {| board.w_at := tx_ptr + j * bytes;
     board.w_flags := 0;
     board.w_id := SC_MSG_CAN_TXR;
     board.w_len := bytes;
     board.w_track_id := board_entry 0 index cans j;
     board.w_timestamp_us := wrap32 (clock (calls + j)) |}.

(** The conditions under which the queue of channel [index] runs. *)
Definition board_queue_ok (index : Z) (cans : list board.can) : Prop :=
  let can := aget board.zero_can cans index in
  0 <= index < Z.of_nat (length cans) /\
  0 <= board.txr_get_index can < 256 /\
  0 <= board.txr_put_index can < 256 /\
  length (board.txr_buffer can) = Z.to_nat SC_BOARD_CAN_TX_FIFO_SIZE /\
  board_used index cans <= SC_BOARD_CAN_TX_FIFO_SIZE.

(** Queueing the messages of a list one after the other; the flags
    returned, in order. *)
Fixpoint board_queue_all (index : Z) (msgs : list sc_msg_can_tx)
    (cans : list board.can) : list board.can * list bool :=
  match msgs with
  | [] => (cans, [])
  | msg :: rest =>
      let '(cans, _, available) := sc_board_can_tx_queue index msg cans in
      let '(cans, flags) := board_queue_all index rest cans in
      (cans, available :: flags)
  end.

End board_txr_queue.

(** ** A sample configuration and sample states

    One assignment of the header constants, on which the model is evaluated
    at concrete inputs.  The nominal bit timing range is the one of
    [sc_board_can_nm_bit_timing_range]. *)

Definition sample_h : supercan_h := {|
  CAN_RX_FIFO_SIZE := 32;
  CAN_TX_FIFO_SIZE := 32;
  CAN_STATUS_FIFO_SIZE := 256;
  MSG_BUFFER_SIZE := 512;
  CMD_BUFFER_SIZE := 64;
  SC_M1_EP_SIZE := 64;
  SC_MSG_CAN_LEN_MULTIPLE := 4;
  SC_MSG_EOF := 0;
  SC_MSG_HELLO_DEVICE := 1;
  SC_MSG_HELLO_HOST := 2;
  SC_MSG_DEVICE_INFO := 3;
  SC_MSG_CAN_INFO := 4;
  SC_MSG_NM_BITTIMING := 6;
  SC_MSG_DT_BITTIMING := 7;
  SC_MSG_FEATURES := 5;
  SC_MSG_BUS := 8;
  SC_MSG_ERROR := 9;
  SC_MSG_CAN_STATUS := 16;
  SC_MSG_CAN_RX := 17;
  SC_MSG_CAN_TX := 18;
  SC_MSG_CAN_TXR := 19;
  SC_MSG_CAN_ERROR := 20;
  SC_ERROR_NONE := 0;
  SC_ERROR_SHORT := 1;
  SC_ERROR_PARAM := 2;
  SC_ERROR_UNSUPPORTED := 4;
  SC_CAN_ERROR_NONE := 0;
  SC_FEATURE_FLAG_MON_MODE := 0x10;
  SC_FEATURE_FLAG_RES_MODE := 0x20;
  SC_FEATURE_FLAG_EXT_LOOP_MODE := 0x40;
  SC_FEAT_OP_CLEAR := 0;
  SC_FEAT_OP_OR := 1;
  SC_CAN_FRAME_FLAG_EXT := 0x01;
  SC_CAN_FRAME_FLAG_RTR := 0x02;
  SC_CAN_FRAME_FLAG_FDF := 0x04;
  SC_CAN_FRAME_FLAG_BRS := 0x08;
  SC_CAN_FRAME_FLAG_ESI := 0x10;
  SC_CAN_FRAME_FLAG_DRP := 0x20;
  SC_CAN_STATUS_FLAG_TXR_DESYNC := 0x01;
  SC_CAN_ERROR_FLAG_RXTX_TX := 0x01;
  SC_CAN_ERROR_FLAG_NMDT_DT := 0x02;
  CAN_STATUS_FIFO_TYPE_BUS_STATUS := 0;
  CAN_STATUS_FIFO_TYPE_BUS_ERROR := 1;
  sizeof_sc_msg_hello := 8;
  sizeof_sc_msg_dev_info := 60;
  sizeof_sc_msg_can_info := 36;
  sizeof_sc_msg_bittiming := 8;
  sizeof_sc_msg_features := 8;
  sizeof_sc_msg_config := 4;
  sizeof_sc_msg_error := 4;
  sizeof_sc_msg_can_status := 24;
  sizeof_sc_msg_can_rx := 12;
  sizeof_sc_msg_can_tx := 12;
  sizeof_sc_msg_can_txr := 8;
  sizeof_sc_msg_can_error := 12;
  SC_BOARD_CAN_TX_FIFO_SIZE := 32;
  SC_BOARD_CAN_RX_FIFO_SIZE := 32;
  CAN_FEAT_PERM := 0x01;
  CAN_FEAT_CONF := 0x7e;
  nm_range := {| min := {| brp := 1; tseg1 := 1; tseg2 := 1; sjw := 1 |};
                 max := {| brp := 1024; tseg1 := 16; tseg2 := 8; sjw := 4 |} |};
  dt_range :=
    Some {| min := {| brp := 1; tseg1 := 1; tseg2 := 1; sjw := 1 |};
            max := {| brp := 32; tseg1 := 32; tseg2 := 16; sjw := 16 |} |}
|}.

(** The sample configuration on a board without CAN FD: as the STM32F3
    board file does, [sc_board_can_dt_bit_timing_range] returns [NULL]. *)
Definition sample_h_stm32f3 : supercan_h := {|
  CAN_RX_FIFO_SIZE := @CAN_RX_FIFO_SIZE sample_h;
  CAN_TX_FIFO_SIZE := @CAN_TX_FIFO_SIZE sample_h;
  CAN_STATUS_FIFO_SIZE := @CAN_STATUS_FIFO_SIZE sample_h;
  MSG_BUFFER_SIZE := @MSG_BUFFER_SIZE sample_h;
  CMD_BUFFER_SIZE := @CMD_BUFFER_SIZE sample_h;
  SC_M1_EP_SIZE := @SC_M1_EP_SIZE sample_h;
  SC_MSG_CAN_LEN_MULTIPLE := @SC_MSG_CAN_LEN_MULTIPLE sample_h;
  SC_MSG_EOF := @SC_MSG_EOF sample_h;
  SC_MSG_HELLO_DEVICE := @SC_MSG_HELLO_DEVICE sample_h;
  SC_MSG_HELLO_HOST := @SC_MSG_HELLO_HOST sample_h;
  SC_MSG_DEVICE_INFO := @SC_MSG_DEVICE_INFO sample_h;
  SC_MSG_CAN_INFO := @SC_MSG_CAN_INFO sample_h;
  SC_MSG_NM_BITTIMING := @SC_MSG_NM_BITTIMING sample_h;
  SC_MSG_DT_BITTIMING := @SC_MSG_DT_BITTIMING sample_h;
  SC_MSG_FEATURES := @SC_MSG_FEATURES sample_h;
  SC_MSG_BUS := @SC_MSG_BUS sample_h;
  SC_MSG_ERROR := @SC_MSG_ERROR sample_h;
  SC_MSG_CAN_STATUS := @SC_MSG_CAN_STATUS sample_h;
  SC_MSG_CAN_RX := @SC_MSG_CAN_RX sample_h;
  SC_MSG_CAN_TX := @SC_MSG_CAN_TX sample_h;
  SC_MSG_CAN_TXR := @SC_MSG_CAN_TXR sample_h;
  SC_MSG_CAN_ERROR := @SC_MSG_CAN_ERROR sample_h;
  SC_ERROR_NONE := @SC_ERROR_NONE sample_h;
  SC_ERROR_SHORT := @SC_ERROR_SHORT sample_h;
  SC_ERROR_PARAM := @SC_ERROR_PARAM sample_h;
  SC_ERROR_UNSUPPORTED := @SC_ERROR_UNSUPPORTED sample_h;
  SC_CAN_ERROR_NONE := @SC_CAN_ERROR_NONE sample_h;
  SC_FEATURE_FLAG_MON_MODE := @SC_FEATURE_FLAG_MON_MODE sample_h;
  SC_FEATURE_FLAG_RES_MODE := @SC_FEATURE_FLAG_RES_MODE sample_h;
  SC_FEATURE_FLAG_EXT_LOOP_MODE := @SC_FEATURE_FLAG_EXT_LOOP_MODE sample_h;
  SC_FEAT_OP_CLEAR := @SC_FEAT_OP_CLEAR sample_h;
  SC_FEAT_OP_OR := @SC_FEAT_OP_OR sample_h;
  SC_CAN_FRAME_FLAG_EXT := @SC_CAN_FRAME_FLAG_EXT sample_h;
  SC_CAN_FRAME_FLAG_RTR := @SC_CAN_FRAME_FLAG_RTR sample_h;
  SC_CAN_FRAME_FLAG_FDF := @SC_CAN_FRAME_FLAG_FDF sample_h;
  SC_CAN_FRAME_FLAG_BRS := @SC_CAN_FRAME_FLAG_BRS sample_h;
  SC_CAN_FRAME_FLAG_ESI := @SC_CAN_FRAME_FLAG_ESI sample_h;
  SC_CAN_FRAME_FLAG_DRP := @SC_CAN_FRAME_FLAG_DRP sample_h;
  SC_CAN_STATUS_FLAG_TXR_DESYNC := @SC_CAN_STATUS_FLAG_TXR_DESYNC sample_h;
  SC_CAN_ERROR_FLAG_RXTX_TX := @SC_CAN_ERROR_FLAG_RXTX_TX sample_h;
  SC_CAN_ERROR_FLAG_NMDT_DT := @SC_CAN_ERROR_FLAG_NMDT_DT sample_h;
  CAN_STATUS_FIFO_TYPE_BUS_STATUS := @CAN_STATUS_FIFO_TYPE_BUS_STATUS sample_h;
  CAN_STATUS_FIFO_TYPE_BUS_ERROR := @CAN_STATUS_FIFO_TYPE_BUS_ERROR sample_h;
  sizeof_sc_msg_hello := @sizeof_sc_msg_hello sample_h;
  sizeof_sc_msg_dev_info := @sizeof_sc_msg_dev_info sample_h;
  sizeof_sc_msg_can_info := @sizeof_sc_msg_can_info sample_h;
  sizeof_sc_msg_bittiming := @sizeof_sc_msg_bittiming sample_h;
  sizeof_sc_msg_features := @sizeof_sc_msg_features sample_h;
  sizeof_sc_msg_config := @sizeof_sc_msg_config sample_h;
  sizeof_sc_msg_error := @sizeof_sc_msg_error sample_h;
  sizeof_sc_msg_can_status := @sizeof_sc_msg_can_status sample_h;
  sizeof_sc_msg_can_rx := @sizeof_sc_msg_can_rx sample_h;
  sizeof_sc_msg_can_tx := @sizeof_sc_msg_can_tx sample_h;
  sizeof_sc_msg_can_txr := @sizeof_sc_msg_can_txr sample_h;
  sizeof_sc_msg_can_error := @sizeof_sc_msg_can_error sample_h;
  SC_BOARD_CAN_TX_FIFO_SIZE := @SC_BOARD_CAN_TX_FIFO_SIZE sample_h;
  SC_BOARD_CAN_RX_FIFO_SIZE := @SC_BOARD_CAN_RX_FIFO_SIZE sample_h;
  CAN_FEAT_PERM := @CAN_FEAT_PERM sample_h;
  CAN_FEAT_CONF := @CAN_FEAT_CONF sample_h;
  nm_range := @nm_range sample_h;
  dt_range := None
|}.

Definition zero_Can : Can :=
  {| RXF0S_F0FL := 0; RXF0S_F0GI := 0; RXF0A := 0; TXEFS_EFFL := 0;
     TXEFS_EFGI := 0; TXEFA := 0; TXFQS_TFQPI := 0; TXFQS_TFFL := 0;
     TXBAR := 0; CCCR_TXP := 0; ECR_TEC := 0; ECR_REC := 0 |}.

Section samples.
#[local] Existing Instance sample_h.

(** A channel with empty rings, all TX slots available, at 500 kbit/s
    nominal (2 us per bit) and 2 Mbit/s data (0.5 us per bit, times 256). *)
Definition blank_can : can :=
  {| rx_fifo := replicate 32 zero_rx_fifo_element;
     tx_event_fifo := replicate 32 zero_tx_event_fifo_element;
     tx_fifo := replicate 32 zero_tx_fifo_element;
     m_can := zero_Can;
     rx_frames := replicate 32 zero_rx_frame;
     tx_frames := replicate 32 zero_tx_frame;
     status_fifo := replicate 256 zero_can_status;
     nm_us_per_bit := 2;
     dt_us_per_bit_factor_shift8 := 128;
     rx_lost := 0; tx_dropped := 0; features := 0x01; int_comm_flags := 0;
     status_put_index := 0; status_get_index := 0;
     rx_put_index := 0; rx_get_index := 0;
     tx_put_index := 0; tx_get_index := 0;
     tx_available := 32; enabled := true; desync := false |}.

(** A classic standard-id data frame with identifier [id] and DLC [dlc]. *)
Definition classic_frame (id dlc : Z) : can_rx_fifo_element :=
  {| rxe_R0 := {| R0_ID := Z.shiftl id 18; R0_RTR := 0; R0_XTD := 0;
                  R0_ESI := 0 |};
     rxe_R1 := {| R1_DLC := dlc; R1_BRS := 0; R1_FDF := 0 |};
     rxe_data := replicate 64 0 |}.

(** Two frames waiting in the RX FIFO. *)
Definition two_frames_waiting : can :=
  hw_rx_arrive 0 [classic_frame 0x100 0; classic_frame 0x101 8] blank_can.

(** Forty frames with identifiers 0 .. 39, arriving as two batches of 20. *)
Definition forty_frames : list can_rx_fifo_element :=
  (fun id => classic_frame id 0) <$> seqZ 0 40.

Definition forty_in_two_batches : list rx_arrival :=
  [ {| arr_gio := 0; arr_tsc := 1000000; arr_tsv := replicate 32 0;
       arr_frames := take 20 forty_frames |};
    {| arr_gio := 20; arr_tsc := 1002000; arr_tsv := replicate 32 7;
       arr_frames := drop 20 forty_frames |} ].

(** A sample layout of the host's structs: little-endian fields behind the
    two header bytes. *)
Definition le16 (l : list Z) (i : Z) : Z :=
  aget 0 l i + 256 * aget 0 l (i + 1).

Definition le32 (l : list Z) (i : Z) : Z :=
  le16 l i + 65536 * le16 l (i + 2).

Definition sample_layout : supercan_layout := {|
  read_bittiming img :=
    {| bt_sjw := aget 0 img 2; bt_tseg2 := aget 0 img 3;
       bt_brp := le16 img 4; bt_tseg1 := le16 img 6 |};
  read_features img := {| feat_op := aget 0 img 2; feat_arg := le32 img 4 |};
  read_config img := {| conf_arg := le16 img 2 |};
  read_can_tx img :=
    {| tx_dlc := aget 0 img 2; tx_flags := aget 0 img 3;
       tx_can_id := le32 img 4; tx_track_id := aget 0 img 8;
       tx_data := drop 12 img |}
|}.

(** Sample stand-ins for [can_on] and [can_off]: they flip [enabled]. *)
Definition sample_rest : main_c_rest := {|
  can_on := set_enabled true;
  can_off := set_enabled false
|}.

#[local] Existing Instance sample_layout.
#[local] Existing Instance sample_rest.

(** A channel right after [sc_usb_reset]: both banks of both endpoints are
    empty. *)
Definition blank_channel : channel :=
  {| ch_cmd := {| usb_cmd.tx_offsets := (0, 0); usb_cmd.tx_bank := false;
                  usb_cmd.rx_bank := false; usb_cmd.pipe := 1 |};
     ch_usb_can := {| usb_can.tx_offsets := (0, 0); usb_can.tx_bank := false;
                      usb_can.rx_bank := false; usb_can.pipe := 2 |};
     ch_can := blank_can |}.

(** A CAN data endpoint whose active bank 0 holds [offset] bytes. *)
Definition usb_can_filled (offset : Z) : usb_can.t :=
  {| usb_can.tx_offsets := (offset, 0); usb_can.tx_bank := false;
     usb_can.rx_bank := false; usb_can.pipe := 2 |}.

(** [n] header-only commands with the unknown id [0x7f]. *)
Definition unknown_cmds (n : nat) : list Z := concat (replicate n [0x7f; 2]).

(** A feature request: [SC_FEAT_OP_OR] with the monitor mode flag. *)
Definition features_or_mon_mode : list Z := [5; 8; 1; 0; 0x10; 0; 0; 0].

(** A data bit timing request: sjw 1, tseg2 2, brp 100, tseg1 5. *)
Definition dt_bittiming_request : list Z := [7; 8; 1; 2; 100; 0; 5; 0].

(** A channel with no TX slot left whose CAN data endpoint cannot take a
    TXR: the active bank 0 holds 508 of 512 bytes and bank 1 is in flight. *)
Definition channel_blocked : channel :=
  {| ch_cmd := ch_cmd blank_channel;
     ch_usb_can := {| usb_can.tx_offsets := (508, 64);
                      usb_can.tx_bank := false;
                      usb_can.rx_bank := false; usb_can.pipe := 2 |};
     ch_can := set_tx_available 0 blank_can |}.

(** A host TX frame: [SC_MSG_CAN_TX], 12 bytes, DLC 0, identifier 0x123,
    track id 7. *)
Definition can_tx_request : list Z := [18; 12; 0; 0; 0x23; 0x01; 0; 0; 7; 0; 0; 0].

(** The locals of [can_usb_task] when the task starts. *)
Definition task_start : task_locals :=
  {| current_bus_status := 0; send_can_status := true; yield := false |}.

(** The loop state of [can_usb_task] over a channel with one unreported TX
    event and [avail] available TX slots. *)
Definition task_one_txr (avail : Z) : task_state :=
  {| t_can := set_tx_put_index 1 (set_tx_available avail blank_can);
     t_usb_can := ch_usb_can blank_channel; t_locals := task_start;
     t_done := true; t_tx_ptr := 0; t_events := [] |}.

End samples.

(** ** More sample states *)

Section more_samples.
#[local] Existing Instance sample_h.
#[local] Existing Instance sample_layout.
#[local] Existing Instance sample_rest.

(** A ring slot holding a classic data frame with identifier [id], DLC [dlc]
    and payload bytes 1, 2, 3, ... *)
Definition ring_frame (id dlc ts : Z) : rx_frame :=
  {| rxf_R0 := {| R0_ID := Z.shiftl id 18; R0_RTR := 0; R0_XTD := 0;
                  R0_ESI := 0 |};
     rxf_R1 := {| R1_DLC := dlc; R1_BRS := 0; R1_FDF := 0 |};
     rxf_ts := ts;
     rxf_data := seqZ 1 64 |}.

(** The loop state of [can_usb_task] at the start of a pass over a channel
    whose RX ring holds one frame with DLC 3. *)
Definition task_one_rx : task_state :=
  {| t_can := set_rx_put_index 1
                (set_rx_frames (aset (rx_frames blank_can) 0
                                     (ring_frame 0x123 3 5000)) blank_can);
     t_usb_can := ch_usb_can blank_channel; t_locals := task_start;
     t_done := true; t_tx_ptr := 0; t_events := [] |}.

(** A ring slot marked both as a remote frame and as an FD frame, with
    DLC 15. *)
Definition ring_frame_fd_remote (id ts : Z) : rx_frame :=
  {| rxf_R0 := {| R0_ID := Z.shiftl id 18; R0_RTR := 1; R0_XTD := 0;
                  R0_ESI := 0 |};
     rxf_R1 := {| R1_DLC := 15; R1_BRS := 0; R1_FDF := 1 |};
     rxf_ts := ts;
     rxf_data := seqZ 1 64 |}.

(** The loop state of [can_usb_task] before the RX part, over a channel
    whose RX ring holds that slot and whose active bank 0 holds 500 of 512
    bytes. *)
Definition task_fd_remote_at_end : task_state :=
  {| t_can := set_rx_put_index 1
                (set_rx_frames (aset (rx_frames blank_can) 0
                                     (ring_frame_fd_remote 0x123 5000))
                               blank_can);
     t_usb_can := usb_can_filled 500; t_locals := task_start;
     t_done := true; t_tx_ptr := 500; t_events := [] |}.

(** The channel of [task_one_rx]: one frame with DLC 3 waits in its RX
    ring. *)
Definition channel_one_rx : channel :=
  set_ch_can (t_can task_one_rx) blank_channel.

(** A channel with no TX slot left whose active bank 0 holds 508 of 512
    bytes while bank 1 is empty, so that the endpoint is ready. *)
Definition channel_full_ready : channel :=
  {| ch_cmd := ch_cmd blank_channel;
     ch_usb_can := usb_can_filled 508;
     ch_can := set_tx_available 0 blank_can |}.

(** A nominal bit timing request: sjw 1, tseg2 2, brp 2000, tseg1 5. *)
Definition nm_bittiming_request : list Z := [6; 8; 1; 2; 0xd0; 0x07; 5; 0].

(** A hello message followed by a command with the unknown id [0x7f]. *)
Definition hello_then_unknown : list Z := [1; 2; 0x7f; 2].

(** A feature request: [SC_FEAT_OP_OR] with the monitor mode flag and the
    external loopback flag. *)
Definition features_or_two_modes : list Z := [5; 8; 1; 0; 0x50; 0; 0; 0].

(** A feature request: [SC_FEAT_OP_CLEAR]. *)
Definition features_clear : list Z := [5; 8; 0; 0; 0; 0; 0; 0].

(** The TX event of a sent classic standard-id data frame with marker
    [mm]. *)
Definition tx_event (id dlc mm : Z) : can_tx_event_fifo_element :=
  {| txe_T0 := {| E0_ID := Z.shiftl id 18; E0_RTR := 0; E0_XTD := 0;
                  E0_ESI := 0 |};
     txe_T1 := {| E1_DLC := dlc; E1_BRS := 0; E1_FDF := 0; E1_MM := mm |} |}.

(** Two TX events waiting in slots 31 and 0 of the TX event FIFO, with the
    put index of the TX ring at 255. *)
Definition two_tx_events_waiting : can :=
  set_tx_put_index 255
    (set_tx_get_index 255
       (set_m_can (set_TXEFS_EFGI 31 (set_TXEFS_EFFL 2 zero_Can))
          (set_tx_event_fifo
             (aset (aset (tx_event_fifo blank_can) 31 (tx_event 0x100 8 4))
                   0 (tx_event 0x101 0 5))
             blank_can))).

End more_samples.

(** A host message that asks to send one frame with track id [id]. *)
Definition tx_request (id : Z) : sc_msg_can_tx :=
  {| tx_dlc := 0; tx_flags := 0; tx_can_id := 0x123; tx_track_id := id;
     tx_data := [] |}.

(** Two channels of a board.  The ring of the first channel is empty, with
    both indices at 254 and the byte [0xaa] in every slot; on the second
    channel the track ids 7, 8, 9 wait in slots 30, 31, 0. *)
Definition board_two_channels : list board.can :=
  [ {| board.txr_buffer := replicate 32 0xaa;
       board.txr_get_index := 254; board.txr_put_index := 254 |};
    {| board.txr_buffer := 9 :: replicate 29 0 ++ [7; 8];
       board.txr_get_index := 30; board.txr_put_index := 33 |} ].

(** The clock of the samples: the [n]-th reading is [1000 + n]. *)
Definition sample_clock (n : Z) : Z := 1000 + n.

(** * Properties *)

(** ** Arithmetic of the wrapping integers *)

Lemma wrap8_range x : 0 <= wrap8 x < 256.
Proof. unfold wrap8. apply Z.mod_pos_bound. lia. Qed.

Lemma wrap32_range x : 0 <= wrap32 x < 2 ^ 32.
Proof. unfold wrap32. apply Z.mod_pos_bound. lia. Qed.

Lemma wrap8_small x : 0 <= x < 256 -> wrap8 x = x.
Proof. intros. unfold wrap8. apply Z.mod_small. lia. Qed.

Lemma wrap32_small x : 0 <= x < 2 ^ 32 -> wrap32 x = x.
Proof. intros. unfold wrap32. apply Z.mod_small. lia. Qed.

Lemma land_clock_max ts : 0 <= ts < 2 ^ 32 -> Z.land ts CLOCK_MAX = ts.
Proof.
  intros Hts. change CLOCK_MAX with (Z.ones 32).
  rewrite Z.land_ones by lia. apply Z.mod_small. lia.
Qed.

Lemma land_mask k x : 0 <= k -> Z.land x (2 ^ k - 1) = x mod 2 ^ k.
Proof.
  intros Hk. rewrite <- Z.land_ones by lia. f_equal.
  rewrite Z.ones_equiv. lia.
Qed.

Lemma pow2_le_256 k : 0 <= k <= 8 -> 0 < 2 ^ k <= 256.
Proof.
  intros Hk. split; [apply Z.pow_pos_nonneg; lia|].
  change 256 with (2 ^ 8). apply Z.pow_le_mono_r; lia.
Qed.

(** Two numbers closer than the modulus and congruent modulo it are equal. *)
Lemma mod_inj_window n a b :
  0 < n -> a mod n = b mod n -> - n < a - b < n -> a = b.
Proof.
  intros Hn Hab Hwin.
  pose proof (Z.div_mod a n ltac:(lia)) as Ha.
  pose proof (Z.div_mod b n ltac:(lia)) as Hb.
  assert (a - b = n * (a / n - b / n)) as Hd by lia.
  assert (a / n - b / n = 0) by nia. lia.
Qed.

(** ** C8: the CRC term of the bit count *)

Lemma crc_bits_values dlc : crc_bits dlc = if dlc <=? 10 then 26 else 31.
Proof. unfold crc_bits. destruct (dlc <=? 10); reflexivity. Qed.

(** C8 (as amended).  For every FD frame the bit count returned by
    [can_frame_bits] is the fixed part of the frame format plus the payload
    bits plus a CRC-related term, and that term is 26 bits (17 + 4 + 5) when
    DLC <= 10 and 31 bits (21 + 4 + 6) when DLC > 10. *)
Theorem fd_crc_term_is_26_or_31 (xtd rtr fdf brs dlc : Z) :
  fdf <> 0 ->
  fd_crc_term xtd rtr fdf brs dlc = crc_bits dlc /\
  crc_bits dlc = (if dlc <=? 10 then 26 else 31).
Proof.
  intros Hfdf. split; [|apply crc_bits_values].
  unfold fd_crc_term, can_frame_bits, fd_fixed_bits, truthy.
  destruct (fdf =? 0) eqn:E; [apply Z.eqb_eq in E; contradiction|].
  cbn [negb].
  destruct (brs =? 0), (xtd =? 0); cbn [negb]; lia.
Qed.

(** An FD frame with bit rate switching and DLC 12. *)
Lemma fd_crc_term_is_26_or_31_witness :
  1 <> 0 /\
  fd_crc_term 0 0 1 1 12 = crc_bits 12 /\
  crc_bits 12 = (if 12 <=? 10 then 26 else 31).
Proof.
  split; [lia|]. apply (fd_crc_term_is_26_or_31 0 0 1 1 12). lia.
Defined.

(** C8 (as stated) fails: the CRC term of the shortest FD frame is 26 bits
    and the one of the longest is 31 bits, none of 21, 25 and 27. *)
Lemma fd_crc_term_not_21_25_27 :
  fd_crc_term 0 0 1 1 0 = 26 /\ fd_crc_term 0 0 1 1 15 = 31 /\
  ~ (fd_crc_term 0 0 1 1 0 = 21 \/ fd_crc_term 0 0 1 1 0 = 25) /\
  ~ (fd_crc_term 0 0 1 1 15 = 25 \/ fd_crc_term 0 0 1 1 15 = 27).
Proof.
  assert (fd_crc_term 0 0 1 1 0 = 26) as H0 by reflexivity.
  assert (fd_crc_term 0 0 1 1 15 = 31) as H15 by reflexivity.
  rewrite H0, H15. repeat split; lia.
Qed.

(** ** Arrays *)

Lemma aget_aset_eq {A} (d : A) (a : list A) (i : Z) (v : A) :
  (Z.to_nat i < length a)%nat -> aget d (aset a i v) i = v.
Proof.
  intros Hi. unfold aget, aset.
  rewrite list_lookup_insert_eq by exact Hi. reflexivity.
Qed.

Lemma aget_aset_ne {A} (d : A) (a : list A) (i j : Z) (v : A) :
  0 <= i -> 0 <= j -> i <> j -> aget d (aset a i v) j = aget d a j.
Proof.
  intros Hi Hj Hne. unfold aget, aset.
  rewrite list_lookup_insert_ne by lia. reflexivity.
Qed.

Lemma length_aset {A} (a : list A) (i : Z) (v : A) :
  length (aset a i v) = length a.
Proof. unfold aset. apply length_insert. Qed.

(** ** C1: timestamp reconstruction *)

Section reconstruction.
Context `{supercan_h}.
Variable k : Z.
Hypothesis size_pow2 : CAN_RX_FIFO_SIZE = 2 ^ k.
Hypothesis k_range : 0 <= k <= 8.

Lemma rx_fifo_index_mod gio j : rx_fifo_index gio j = (gio + j) mod 2 ^ k.
Proof using size_pow2 k_range.
  unfold rx_fifo_index. rewrite size_pow2, land_mask by lia.
  apply wrap8_small.
  pose proof (pow2_le_256 k k_range).
  pose proof (Z.mod_pos_bound (gio + j) (2 ^ k)). lia.
Qed.

Lemma rx_fifo_index_range gio j : 0 <= rx_fifo_index gio j < CAN_RX_FIFO_SIZE.
Proof using size_pow2 k_range.
  rewrite rx_fifo_index_mod, size_pow2.
  apply Z.mod_pos_bound. apply pow2_le_256. exact k_range.
Qed.

Lemma rx_fifo_index_inj gio j j' :
  0 <= j < CAN_RX_FIFO_SIZE -> 0 <= j' < CAN_RX_FIFO_SIZE ->
  rx_fifo_index gio j = rx_fifo_index gio j' -> j = j'.
Proof using size_pow2 k_range.
  intros Hj Hj'. rewrite !rx_fifo_index_mod. intros Heq.
  pose proof (pow2_le_256 k k_range).
  apply mod_inj_window in Heq; lia.
Qed.

Lemma rx_ts_loop_S n i gio count c ts tsv :
  rx_ts_loop (S n) i gio count c ts tsv =
  rx_ts_loop n (i + 1) gio count c
    (wrap32 (ts - rx_element_time_us c
                    (aget zero_rx_fifo_element (rx_fifo c)
                          (rx_fifo_index gio (count - 1 - i)))))
    (aset tsv (rx_fifo_index gio (count - 1 - i)) (Z.land ts CLOCK_MAX)).
Proof.
  cbn [rx_ts_loop]. unfold rx_fifo_index.
  replace (gio + (count - 1 - i)) with (gio + count - 1 - i) by ring.
  reflexivity.
Qed.

Lemma youngest_first_ts_range c tsc m :
  0 <= tsc < 2 ^ 32 -> 0 <= youngest_first_ts c tsc m < 2 ^ 32.
Proof.
  intros Htsc. destruct m as [|m]; cbn [youngest_first_ts];
    [exact Htsc | apply wrap32_range].
Qed.

(** The reverse loop, started at its [m]-th iteration with the running
    timestamp of the spec, leaves in [tsv] the spec's timestamp of each of
    the [m + n] youngest frames. *)
Lemma rx_ts_loop_spec c tsc :
  0 <= tsc < 2 ^ 32 ->
  rx_batch_count c <= CAN_RX_FIFO_SIZE ->
  forall (n m : nat) (tsv : list Z),
    Z.of_nat m + Z.of_nat n <= rx_batch_count c ->
    length tsv = Z.to_nat CAN_RX_FIFO_SIZE ->
    (forall m', (m' < m)%nat ->
       aget 0 tsv (rx_fifo_index (rx_batch_gio c)
                                 (rx_batch_count c - 1 - Z.of_nat m'))
       = youngest_first_ts c tsc m') ->
    let r := rx_ts_loop n (Z.of_nat m) (rx_batch_gio c) (rx_batch_count c) c
                        (youngest_first_ts c tsc m) tsv in
    forall m', (m' < m + n)%nat ->
      aget 0 (snd r) (rx_fifo_index (rx_batch_gio c)
                                    (rx_batch_count c - 1 - Z.of_nat m'))
      = youngest_first_ts c tsc m'.
Proof using size_pow2 k_range.
  intros Htsc Hcount. induction n as [|n IH]; intros m tsv Hmn Hlen Hinv r.
  - subst r. cbn [rx_ts_loop snd]. intros m' Hm'. apply Hinv. lia.
  - subst r. rewrite rx_ts_loop_S.
    replace (Z.of_nat m + 1) with (Z.of_nat (S m)) by lia.
    change (wrap32 _) with (youngest_first_ts c tsc (S m)).
    intros m' Hm'.
    apply (IH (S m)); [lia | rewrite length_aset; exact Hlen | | lia].
    intros m'' Hm''.
    destruct (decide (m'' = m)) as [->|Hne].
    + rewrite aget_aset_eq.
      * apply land_clock_max, youngest_first_ts_range, Htsc.
      * rewrite Hlen.
        pose proof (rx_fifo_index_range (rx_batch_gio c)
                      (rx_batch_count c - 1 - Z.of_nat m)). lia.
    + rewrite aget_aset_ne; [apply Hinv; lia | | | ].
      * apply rx_fifo_index_range.
      * apply rx_fifo_index_range.
      * intros Heq. apply rx_fifo_index_inj in Heq; lia.
Qed.

Lemma rx_batch_ts_spec c tsc tsv j :
  0 <= tsc < 2 ^ 32 ->
  rx_batch_count c <= CAN_RX_FIFO_SIZE ->
  length tsv = Z.to_nat CAN_RX_FIFO_SIZE ->
  0 <= j < rx_batch_count c ->
  rx_batch_ts c tsc tsv j
  = youngest_first_ts c tsc (Z.to_nat (rx_batch_count c - 1 - j)).
Proof using size_pow2 k_range.
  intros Htsc Hcount Hlen Hj. unfold rx_batch_ts, rx_reconstruct.
  pose proof (rx_ts_loop_spec c tsc Htsc Hcount
                (Z.to_nat (rx_batch_count c)) 0%nat tsv) as Hspec.
  cbn zeta in Hspec.
  replace j with (rx_batch_count c - 1
                  - Z.of_nat (Z.to_nat (rx_batch_count c - 1 - j))) at 1 by lia.
  apply Hspec; [lia | exact Hlen | intros; lia | lia].
Qed.

End reconstruction.

Section reconstruction_claim.
Context `{supercan_h}.

(** C1 (as amended).  For a batch of [n] frames drained from the RX FIFO
    with batch timestamp [tsc], the reverse loop of [can_poll] gives the
    youngest frame the timestamp [tsc] and every earlier frame the timestamp
    of the frame after it minus that later frame's on-wire duration, in
    32-bit wrap-around arithmetic; the timestamps do not depend on the
    indeterminate initial contents of the local array; and the timestamp of a
    frame is not above that of the frame after it whenever the subtraction
    did not wrap below zero. *)
Theorem rx_timestamps_reconstructed (c : can) (tsc k : Z) (tsv tsv' : list Z) :
  CAN_RX_FIFO_SIZE = 2 ^ k -> 0 <= k <= 8 ->
  0 < rx_batch_count c <= CAN_RX_FIFO_SIZE ->
  0 <= tsc < 2 ^ 32 ->
  length tsv = Z.to_nat CAN_RX_FIFO_SIZE ->
  length tsv' = Z.to_nat CAN_RX_FIFO_SIZE ->
  let n := rx_batch_count c in
  let ts := rx_batch_ts c tsc tsv in
  let duration j := rx_element_time_us c (rx_batch_frame c j) in
  ts (n - 1) = tsc /\
  (forall j, 0 <= j < n - 1 -> ts j = wrap32 (ts (j + 1) - duration (j + 1))) /\
  (forall j, 0 <= j < n -> ts j = rx_batch_ts c tsc tsv' j) /\
  (forall j, 0 <= j < n - 1 -> duration (j + 1) <= ts (j + 1) ->
             ts j <= ts (j + 1)).
Proof.
  intros Hsize Hk Hcount Htsc Hlen Hlen' n ts duration.
  assert (forall j, 0 <= j < n - 1 ->
            ts j = wrap32 (ts (j + 1) - duration (j + 1))) as Hstep.
  { intros j Hj. subst ts duration n. cbv beta.
    rewrite !(rx_batch_ts_spec k Hsize Hk) by (assumption || lia).
    replace (Z.to_nat (rx_batch_count c - 1 - j))
      with (S (Z.to_nat (rx_batch_count c - 1 - (j + 1)))) by lia.
    cbn [youngest_first_ts]. do 4 f_equal. lia. }
  repeat split.
  - subst ts n. cbv beta.
    rewrite (rx_batch_ts_spec k Hsize Hk) by (assumption || lia).
    replace (rx_batch_count c - 1 - (rx_batch_count c - 1)) with 0 by lia.
    reflexivity.
  - exact Hstep.
  - intros j Hj. subst ts n. cbv beta.
    rewrite !(rx_batch_ts_spec k Hsize Hk) by (assumption || lia).
    reflexivity.
  - intros j Hj Hdur. rewrite (Hstep j Hj).
    assert (0 <= duration (j + 1)) as Hpos.
    { subst duration. cbv beta. unfold rx_element_time_us.
      destruct (can_frame_bits _ _ _ _ _). unfold can_frame_time_us.
      apply wrap32_range. }
    assert (ts (j + 1) < 2 ^ 32) as Hlt.
    { subst ts n. cbv beta.
      rewrite (rx_batch_ts_spec k Hsize Hk) by (assumption || lia).
      apply youngest_first_ts_range, Htsc. }
    rewrite wrap32_small; lia.
Qed.

End reconstruction_claim.

Section reconstruction_samples.
#[local] Existing Instance sample_h.

(** Two frames drained together at batch timestamp 1000000. *)
Lemma rx_timestamps_reconstructed_witness :
  let c := two_frames_waiting in
  let ts := rx_batch_ts c 1000000 (replicate 32 0) in
  let duration j := rx_element_time_us c (rx_batch_frame c j) in
  ts 1 = 1000000 /\
  (forall j, 0 <= j < 1 -> ts j = wrap32 (ts (j + 1) - duration (j + 1))) /\
  (forall j, 0 <= j < 2 -> ts j = rx_batch_ts c 1000000 (replicate 32 9) j) /\
  (forall j, 0 <= j < 1 -> duration (j + 1) <= ts (j + 1) -> ts j <= ts (j + 1)).
Proof.
  apply (rx_timestamps_reconstructed two_frames_waiting 1000000 5
           (replicate 32 0) (replicate 32 9)).
  - reflexivity.
  - lia.
  - vm_compute. split; [reflexivity | discriminate].
  - lia.
  - reflexivity.
  - reflexivity.
Defined.

(** C1 (as stated) fails: with two frames drained at [tsc = 10] the
    timestamp of the older frame wraps around and is above the timestamp of
    the younger one, so the timestamps are not non-decreasing in arrival
    order. *)
Lemma rx_timestamps_decrease_on_wrap :
  rx_batch_ts two_frames_waiting 10 (replicate 32 0) 0 = 4294967086 /\
  rx_batch_ts two_frames_waiting 10 (replicate 32 0) 1 = 10 /\
  ~ (rx_batch_ts two_frames_waiting 10 (replicate 32 0) 0
     <= rx_batch_ts two_frames_waiting 10 (replicate 32 0) 1).
Proof.
  assert (rx_batch_ts two_frames_waiting 10 (replicate 32 0) 0 = 4294967086)
    as H0 by (vm_compute; reflexivity).
  assert (rx_batch_ts two_frames_waiting 10 (replicate 32 0) 1 = 10)
    as H1 by (vm_compute; reflexivity).
  rewrite H0, H1. repeat split; lia.
Qed.

End reconstruction_samples.

(** ** C2: the RX ring under overflow *)

Lemma wrap8_sub_add pi get : wrap8 (get + wrap8 (pi - get)) = wrap8 pi.
Proof.
  unfold wrap8. rewrite Zplus_mod_idemp_r. f_equal. lia.
Qed.

Lemma take_take_app {A} (n : nat) (l m : list A) :
  take n (take n l ++ m) = take n (l ++ m).
Proof.
  destruct (decide (n <= length l)%nat) as [Hle|Hgt].
  - rewrite (take_app_le l m n) by exact Hle.
    rewrite take_app_le by (rewrite length_take; lia).
    apply take_idemp.
  - rewrite (take_ge l n) by lia. reflexivity.
Qed.

Section ring_basics.
Context `{supercan_h}.

Lemma rx_ring_view_at_length frames get pi :
  length (rx_ring_view_at frames get pi) = Z.to_nat (wrap8 (pi - get)).
Proof. unfold rx_ring_view_at. rewrite length_fmap. apply length_seqZ. Qed.

(** A full ring shows the same frames whatever is appended. *)
Lemma rx_ring_view_at_full frames get pi more :
  wrap8 (pi - get) = CAN_RX_FIFO_SIZE ->
  take (Z.to_nat CAN_RX_FIFO_SIZE) (rx_ring_view_at frames get pi ++ more)
  = rx_ring_view_at frames get pi.
Proof.
  intros Hfull. apply take_app_length'.
  rewrite rx_ring_view_at_length, Hfull. reflexivity.
Qed.

Lemma can_inc_sat_rx_lost_value c :
  0 <= rx_lost c <= 0xffff ->
  rx_lost (can_inc_sat_rx_lost c) = Z.min 0xffff (rx_lost c + 1).
Proof.
  intros Hl. unfold can_inc_sat_rx_lost.
  destruct (rx_lost c <? 65535) eqn:E; cbn [rx_lost set_rx_lost]; lia.
Qed.

Lemma can_inc_sat_rx_lost_frame c :
  rx_frames (can_inc_sat_rx_lost c) = rx_frames c /\
  rx_get_index (can_inc_sat_rx_lost c) = rx_get_index c /\
  rx_put_index (can_inc_sat_rx_lost c) = rx_put_index c /\
  rx_fifo (can_inc_sat_rx_lost c) = rx_fifo c /\
  m_can (can_inc_sat_rx_lost c) = m_can c.
Proof.
  unfold can_inc_sat_rx_lost. destruct (rx_lost c <? 65535); auto.
Qed.

Lemma fifo_idents_S c gio i n :
  fifo_idents c gio i (S n)
  = rx_element_ident
      (aget zero_rx_fifo_element (rx_fifo c) (rx_fifo_index gio i))
    :: fifo_idents c gio (i + 1) n.
Proof.
  unfold fifo_idents. rewrite seqZ_cons by lia. cbn [fmap list_fmap].
  do 3 f_equal; lia.
Qed.

Lemma hw_rx_place_length gio batch :
  forall j0 fifo, length (hw_rx_place gio j0 batch fifo) = length fifo.
Proof.
  induction batch as [|e rest IH]; intros j0 fifo; cbn [hw_rx_place];
    [reflexivity|]. rewrite IH. apply length_aset.
Qed.

End ring_basics.

Section ring.
Context `{supercan_h}.
Variable k : Z.
Hypothesis size_pow2 : CAN_RX_FIFO_SIZE = 2 ^ k.
Hypothesis k_range : 0 <= k <= 7.

Lemma size_bounds : 0 < CAN_RX_FIFO_SIZE <= 128.
Proof using size_pow2 k_range.
  rewrite size_pow2. split; [apply Z.pow_pos_nonneg; lia|].
  change 128 with (2 ^ 7). apply Z.pow_le_mono_r; lia.
Qed.

Lemma ring_index_mod x : wrap8 (Z.land x (CAN_RX_FIFO_SIZE - 1)) = x mod 2 ^ k.
Proof using size_pow2 k_range.
  pose proof size_bounds as Hs. rewrite size_pow2 in *.
  rewrite land_mask by lia. apply wrap8_small.
  pose proof (Z.mod_pos_bound x (2 ^ k)). lia.
Qed.

Lemma wrap8_mod_size x : wrap8 x mod 2 ^ k = x mod 2 ^ k.
Proof using k_range.
  unfold wrap8. apply Z.mod_mod_divide.
  exists (2 ^ (8 - k)). rewrite <- Z.pow_add_r by lia. f_equal. lia.
Qed.

(** Writing the slot at the put index of a ring that is not full appends
    one frame to its view and leaves the unread frames as they were. *)
Lemma rx_ring_view_at_push frames get pi slot :
  0 <= pi < 256 ->
  wrap8 (pi - get) < CAN_RX_FIFO_SIZE ->
  length frames = Z.to_nat CAN_RX_FIFO_SIZE ->
  rx_ring_view_at
    (aset frames (wrap8 (Z.land pi (CAN_RX_FIFO_SIZE - 1))) slot)
    get (wrap8 (pi + 1))
  = rx_ring_view_at frames get pi ++ [(rxf_R0 slot, rxf_R1 slot)].
Proof using size_pow2 k_range.
  intros Hpi Hused Hlen.
  pose proof size_bounds as Hs.
  pose proof (wrap8_range (pi - get)) as Hu.
  set (u := wrap8 (pi - get)) in *.
  assert (wrap8 (wrap8 (pi + 1) - get) = u + 1) as Hu1.
  { unfold wrap8 at 1 2. rewrite Zminus_mod_idemp_l.
    replace (pi + 1 - get) with (pi - get + 1) by lia.
    rewrite <- Zplus_mod_idemp_l. fold (wrap8 (pi - get)). fold u.
    apply Z.mod_small. lia. }
  assert (pi mod 2 ^ k = (get + u) mod 2 ^ k) as Hput.
  { rewrite <- (wrap8_mod_size (get + u)). subst u.
    rewrite wrap8_sub_add, wrap8_small by lia. reflexivity. }
  assert (0 < 2 ^ k) as Hpos by (rewrite <- size_pow2; lia).
  unfold rx_ring_view_at. rewrite Hu1. fold u.
  rewrite seqZ_app by lia. rewrite fmap_app. f_equal.
  - apply Forall_fmap_ext, Forall_forall. intros m Hm.
    apply elem_of_seqZ in Hm.
    unfold rx_ring_slot_at.
    rewrite aget_aset_ne; [reflexivity | apply wrap8_range | apply wrap8_range |].
    rewrite !ring_index_mod, wrap8_mod_size, Hput. intros Heq.
    apply mod_inj_window in Heq; rewrite <- ?size_pow2; lia.
  - rewrite seqZ_cons, seqZ_nil by lia. cbn [fmap list_fmap].
    unfold rx_ring_slot_at.
    replace (wrap8 (Z.land (wrap8 (get + (0 + u))) (CAN_RX_FIFO_SIZE - 1)))
      with (wrap8 (Z.land pi (CAN_RX_FIFO_SIZE - 1))).
    + rewrite aget_aset_eq; [reflexivity|].
      rewrite Hlen, ring_index_mod.
      pose proof (Z.mod_pos_bound pi (2 ^ k) Hpos). lia.
    + rewrite !ring_index_mod, wrap8_mod_size, Hput. f_equal; lia.
Qed.

(** The forward loop: it returns, it stores frames while there is room and
    counts the others, and the unread frames of the ring are untouched. *)
Lemma rx_store_loop_spec gio tsv n :
  forall i c pi ev g,
    0 <= pi < 256 ->
    wrap8 (pi - rx_get_index c) <= CAN_RX_FIFO_SIZE ->
    length (rx_frames c) = Z.to_nat CAN_RX_FIFO_SIZE ->
    0 <= rx_lost c <= 0xffff ->
    exists c' pi' ev' g',
      rx_store_loop n i gio tsv c pi ev g = Ok (c', pi', ev', g') /\
      rx_get_index c' = rx_get_index c /\
      rx_put_index c' = rx_put_index c /\
      rx_fifo c' = rx_fifo c /\
      m_can c' = m_can c /\
      length (rx_frames c') = Z.to_nat CAN_RX_FIFO_SIZE /\
      0 <= pi' < 256 /\
      wrap8 (pi' - rx_get_index c) - wrap8 (pi - rx_get_index c)
      = Z.min (Z.of_nat n) (CAN_RX_FIFO_SIZE - wrap8 (pi - rx_get_index c)) /\
      rx_lost c'
      = Z.min 0xffff
          (rx_lost c + (Z.of_nat n - (wrap8 (pi' - rx_get_index c)
                                      - wrap8 (pi - rx_get_index c)))) /\
      rx_ring_view_at (rx_frames c') (rx_get_index c) pi'
      = take (Z.to_nat CAN_RX_FIFO_SIZE)
             (rx_ring_view_at (rx_frames c) (rx_get_index c) pi
              ++ fifo_idents c gio i n).
Proof using size_pow2 k_range.
  pose proof size_bounds as Hs.
  induction n as [|n IH]; intros i c pi ev g Hpi Hused Hlen Hlost.
  - exists c, pi, ev, g. cbn [rx_store_loop].
    pose proof (wrap8_range (pi - rx_get_index c)).
    repeat split; try lia; try reflexivity.
    unfold fifo_idents. rewrite seqZ_nil by lia. cbn [fmap list_fmap].
    rewrite app_nil_r. symmetry. apply take_ge.
    rewrite rx_ring_view_at_length. lia.
  - cbn [rx_store_loop]. unfold SC_ASSERT.
    pose proof (wrap8_range (pi - rx_get_index c)) as Hu.
    destruct (wrap8 (pi - rx_get_index c) <=? CAN_RX_FIFO_SIZE) eqn:Ea;
      [|lia]. cbn [rbind].
    destruct (wrap8 (pi - rx_get_index c) =? CAN_RX_FIFO_SIZE) eqn:Efull.
    + (* the ring is full: the frame is counted, nothing is written *)
      apply Z.eqb_eq in Efull.
      destruct (can_inc_sat_rx_lost_frame c) as (Hf & Hg & Hp & Hff & Hm).
      destruct (IH (i + 1) (can_inc_sat_rx_lost c) pi ev
                   (wrap8 (Z.land (gio + i) (CAN_RX_FIFO_SIZE - 1))))
        as (c' & pi' & ev' & g' & Hrun & Hg' & Hp' & Hff' & Hm' & Hlen'
            & Hpi' & Hdelta & Hlost' & Hview);
        [lia | rewrite Hg; lia | rewrite Hf; exact Hlen
        | rewrite can_inc_sat_rx_lost_value by lia; lia |].
      rewrite Hg in *. rewrite Hf in Hview.
      rewrite can_inc_sat_rx_lost_value in Hlost' by lia.
      exists c', pi', ev', g'.
      repeat split; try congruence; try lia.
      rewrite Hview, fifo_idents_S.
      rewrite !rx_ring_view_at_full by exact Efull. reflexivity.
    + (* there is room: the frame is stored at the put index *)
      apply Z.eqb_neq in Efull.
      set (put_index := wrap8 (Z.land pi (CAN_RX_FIFO_SIZE - 1))).
      set (e := aget zero_rx_fifo_element (rx_fifo c)
                     (wrap8 (Z.land (gio + i) (CAN_RX_FIFO_SIZE - 1)))).
      set (slot := rx_slot (aget zero_rx_frame (rx_frames c) put_index) e
                           (aget 0 tsv (wrap8 (Z.land (gio + i)
                                                (CAN_RX_FIFO_SIZE - 1))))).
      set (c1 := set_rx_frames (aset (rx_frames c) put_index slot) c).
      assert (wrap8 (wrap8 (pi + 1) - rx_get_index c)
              = wrap8 (pi - rx_get_index c) + 1) as Hu1.
      { unfold wrap8 at 1 2. rewrite Zminus_mod_idemp_l.
        replace (pi + 1 - rx_get_index c)
          with (pi - rx_get_index c + 1) by lia.
        rewrite <- Zplus_mod_idemp_l. fold (wrap8 (pi - rx_get_index c)).
        apply Z.mod_small. lia. }
      destruct (IH (i + 1) c1 (wrap8 (pi + 1)) (wrap32 (ev + 1))
                   (wrap8 (Z.land (gio + i) (CAN_RX_FIFO_SIZE - 1))))
        as (c' & pi' & ev' & g' & Hrun & Hg' & Hp' & Hff' & Hm' & Hlen'
            & Hpi' & Hdelta & Hlost' & Hview).
      * apply wrap8_range.
      * subst c1. cbn [rx_get_index set_rx_frames]. lia.
      * subst c1. cbn [rx_frames set_rx_frames]. rewrite length_aset.
        exact Hlen.
      * subst c1. cbn [rx_lost set_rx_frames]. exact Hlost.
      * subst c1. cbn [rx_get_index rx_put_index rx_fifo m_can rx_lost
                         rx_frames set_rx_frames] in *.
        rewrite Hu1 in *.
        exists c', pi', ev', g'.
        repeat split; try assumption; try lia.
        rewrite Hview, fifo_idents_S.
        subst put_index. rewrite rx_ring_view_at_push by (assumption || lia).
        rewrite <- app_assoc. cbn [app]. subst slot e.
        unfold rx_slot, rx_element_ident, rx_fifo_index. cbn [rxf_R0 rxf_R1].
        reflexivity.
Qed.

End ring.

Section ring_feed.
Context `{supercan_h}.
Variable k : Z.
Hypothesis size_pow2 : CAN_RX_FIFO_SIZE = 2 ^ k.
Hypothesis k_range : 0 <= k <= 7.

Lemma hw_rx_place_before gio batch :
  forall j0 fifo j,
    0 <= j < j0 -> j0 + Z.of_nat (length batch) <= CAN_RX_FIFO_SIZE ->
    aget zero_rx_fifo_element (hw_rx_place gio j0 batch fifo)
         (rx_fifo_index gio j)
    = aget zero_rx_fifo_element fifo (rx_fifo_index gio j).
Proof using size_pow2 k_range.
  induction batch as [|e rest IH]; intros j0 fifo j Hj Hfit;
    cbn [hw_rx_place length] in *; [reflexivity|].
  rewrite IH by lia.
  assert (0 <= k <= 8) as Hk8 by lia.
  apply aget_aset_ne.
  - apply (rx_fifo_index_range k size_pow2 Hk8).
  - apply (rx_fifo_index_range k size_pow2 Hk8).
  - intros Heq. apply (rx_fifo_index_inj k size_pow2 Hk8) in Heq; lia.
Qed.

(** After an arrival the FIFO slots counted from [gio] hold the batch. *)
Lemma hw_rx_place_batch gio batch :
  forall j0 fifo,
    0 <= j0 -> j0 + Z.of_nat (length batch) <= CAN_RX_FIFO_SIZE ->
    length fifo = Z.to_nat CAN_RX_FIFO_SIZE ->
    (fun j => aget zero_rx_fifo_element (hw_rx_place gio j0 batch fifo)
                   (rx_fifo_index gio j))
      <$> seqZ j0 (Z.of_nat (length batch))
    = batch.
Proof using size_pow2 k_range.
  assert (0 <= k <= 8) as Hk8 by lia.
  induction batch as [|e rest IH]; intros j0 fifo Hj0 Hfit Hlen.
  - cbn [length]. rewrite seqZ_nil by lia. reflexivity.
  - cbn [length hw_rx_place] in *. rewrite seqZ_cons by lia.
    replace (Z.pred (Z.of_nat (S (length rest))))
      with (Z.of_nat (length rest)) by lia.
    replace (Z.succ j0) with (j0 + 1) by lia.
    cbn [fmap list_fmap]. f_equal.
    + rewrite hw_rx_place_before by lia.
      apply aget_aset_eq. rewrite Hlen.
      pose proof (rx_fifo_index_range k size_pow2 Hk8 gio j0). lia.
    + apply IH; [lia | lia | rewrite length_aset; exact Hlen].
Qed.

(** One [can_poll] on a batch that just arrived. *)
Lemma can_poll_rx_spec (a : rx_arrival) (c : can) (ev : Z) :
  rx_ring_ok c -> rx_arrival_ok a ->
  exists c' ev' more tsv',
    can_poll_rx (hw_rx_arrive (arr_gio a) (arr_frames a) c) ev
                (arr_tsc a) (arr_tsv a) = Ok (c', ev', more, tsv') /\
    rx_ring_ok c' /\
    rx_get_index c' = rx_get_index c /\
    rx_ring_view c'
    = take (Z.to_nat CAN_RX_FIFO_SIZE)
           (rx_ring_view c ++ (rx_element_ident <$> arr_frames a)) /\
    rx_lost c'
    = Z.min 0xffff
        (rx_lost c + (Z.of_nat (length (arr_frames a))
                      - (Z.of_nat (length (rx_ring_view c'))
                         - Z.of_nat (length (rx_ring_view c))))).
Proof using size_pow2 k_range.
  intros (Hpi & Hused & Hlen & Hflen & Hlost) (Hgio & Hn).
  pose proof (size_bounds k size_pow2 k_range) as Hs.
  set (c0 := hw_rx_arrive (arr_gio a) (arr_frames a) c).
  assert (rx_batch_count c0 = Z.of_nat (length (arr_frames a))) as Hcount.
  { unfold rx_batch_count. subst c0. cbn. apply wrap8_small. lia. }
  assert (rx_batch_gio c0 = arr_gio a) as Hg0.
  { unfold rx_batch_gio. subst c0. cbn. apply wrap8_small. lia. }
  assert (fifo_idents c0 (arr_gio a) 0 (length (arr_frames a))
          = rx_element_ident <$> arr_frames a) as Hbatch.
  { unfold fifo_idents.
    rewrite <- (hw_rx_place_batch (arr_gio a)
                  (arr_frames a) 0 (rx_fifo c)) at 2 by lia.
    rewrite <- list_fmap_compose. reflexivity. }
  unfold can_poll_rx. fold (rx_batch_count c0). fold (rx_batch_gio c0).
  rewrite Hcount, Hg0. unfold truthy.
  destruct (Z.of_nat (length (arr_frames a)) =? 0) eqn:Ez; cbn [negb].
  - (* nothing arrived *)
    apply Z.eqb_eq in Ez.
    assert (arr_frames a = []) as Hnil
      by (destruct (arr_frames a); [reflexivity | discriminate]).
    exists c0, ev, false, (arr_tsv a). subst c0. rewrite Hnil.
    unfold hw_rx_arrive, rx_ring_ok, rx_ring_view.
    cbn [hw_rx_place length fmap list_fmap rx_put_index rx_get_index
         rx_frames rx_fifo rx_lost set_m_can set_rx_fifo].
    rewrite app_nil_r, take_ge
      by (rewrite rx_ring_view_at_length; lia).
    repeat split; try assumption; try lia.
  - destruct (rx_ts_loop _ _ _ _ _ _ _) as [ts1 tsv1].
    destruct (rx_store_loop_spec k size_pow2 k_range (arr_gio a) tsv1
                (Z.to_nat (Z.of_nat (length (arr_frames a)))) 0 c0
                (rx_put_index c0) ev 0)
      as (c' & pi' & ev' & g' & Hrun & Hg' & Hp' & Hff' & Hm' & Hlen'
          & Hpi' & Hdelta & Hlost' & Hview).
    { subst c0. cbn. exact Hpi. }
    { subst c0. cbn. exact Hused. }
    { subst c0. cbn. exact Hlen. }
    { subst c0. cbn. exact Hlost. }
    rewrite Hrun. cbn [rbind].
    assert (rx_get_index c0 = rx_get_index c) as E1 by reflexivity.
    assert (rx_put_index c0 = rx_put_index c) as E2 by reflexivity.
    assert (rx_frames c0 = rx_frames c) as E3 by reflexivity.
    assert (rx_lost c0 = rx_lost c) as E4 by reflexivity.
    assert (length (rx_fifo c0) = length (rx_fifo c)) as E5.
    { subst c0. cbn. apply hw_rx_place_length. }
    rewrite E1, E3 in *. rewrite E2 in *. rewrite E4 in *.
    rewrite Nat2Z.id, Hbatch in Hview.
    eexists _, ev', true, tsv1. split; [reflexivity|].
    unfold rx_ring_ok, rx_ring_view.
    cbn [rx_put_index rx_get_index rx_frames rx_fifo rx_lost
         set_rx_put_index set_m_can].
    rewrite Hg', Hff', E5.
    pose proof (wrap8_range (pi' - rx_get_index c)).
    pose proof (wrap8_range (rx_put_index c - rx_get_index c)).
    rewrite !rx_ring_view_at_length.
    repeat split; try assumption; try lia.
Qed.

(** Any number of arrivals, nothing dequeued in between: the ring holds the
    oldest frames up to its capacity and the others are counted. *)
Lemma rx_feed_spec (arrivals : list rx_arrival) :
  forall (c : can) (ev : Z),
    rx_ring_ok c -> Forall rx_arrival_ok arrivals ->
    exists c' ev',
      rx_feed arrivals c ev = Ok (c', ev') /\
      rx_ring_ok c' /\
      rx_get_index c' = rx_get_index c /\
      rx_ring_view c'
      = take (Z.to_nat CAN_RX_FIFO_SIZE)
             (rx_ring_view c ++ (rx_element_ident <$> arrived arrivals)) /\
      rx_lost c'
      = Z.min 0xffff
          (rx_lost c + (Z.of_nat (length (arrived arrivals))
                        - (Z.of_nat (length (rx_ring_view c'))
                           - Z.of_nat (length (rx_ring_view c))))).
Proof using size_pow2 k_range.
  induction arrivals as [|a rest IH]; intros c ev Hok Hall.
  - exists c, ev. cbn [rx_feed arrived fmap list_fmap concat length].
    destruct Hok as (Hpi & Hused & Hlen & Hflen & Hlost).
    rewrite app_nil_r, take_ge.
    + repeat split; try assumption; lia.
    + unfold rx_ring_view. rewrite rx_ring_view_at_length.
      pose proof (wrap8_range (rx_put_index c - rx_get_index c)). lia.
  - inversion Hall as [|? ? Ha Hrest]; subst.
    destruct (can_poll_rx_spec a c ev Hok Ha)
      as (c1 & ev1 & more & tsv1 & Hrun & Hok1 & Hg1 & Hview1 & Hlost1).
    destruct (IH c1 ev1 Hok1 Hrest)
      as (c' & ev' & Hrun' & Hok' & Hg' & Hview' & Hlost').
    exists c', ev'. cbn [rx_feed]. rewrite Hrun. cbn [rbind].
    split; [exact Hrun'|]. split; [exact Hok'|].
    split; [congruence|].
    assert (rx_ring_view c'
            = take (Z.to_nat CAN_RX_FIFO_SIZE)
                   (rx_ring_view c
                    ++ (rx_element_ident <$> arrived (a :: rest)))) as Hv.
    { rewrite Hview', Hview1, take_take_app.
      unfold arrived. cbn [fmap list_fmap concat].
      rewrite fmap_app, app_assoc. reflexivity. }
    split; [exact Hv|].
    rewrite Hlost', Hlost1.
    assert (length (arrived (a :: rest))
            = (length (arr_frames a) + length (arrived rest))%nat) as Hl.
    { unfold arrived. cbn [fmap list_fmap concat]. apply length_app. }
    rewrite Hl.
    pose proof (f_equal length Hview1) as L1.
    pose proof (f_equal length Hview') as L2.
    rewrite length_take, length_app, length_fmap in L1, L2.
    lia.
Qed.

End ring_feed.

Section ring_claim.
Context `{supercan_h}.

(** C2 (as amended).  With an RX ring of capacity 32, 40 frames that arrive
    in any batches and are drained by [can_poll] without any dequeue leave
    the lost counter at 8 and the ring full with the 32 frames that arrived
    FIRST, in arrival order (the 8 most recent ones are the ones dropped);
    and in every iteration that finds the ring full ([used] equal to the
    capacity) the producer increments the saturating lost counter, writes no
    slot and does not advance the put index. *)
Theorem rx_ring_overflow_keeps_oldest (arrivals : list rx_arrival)
    (c : can) (ev : Z) :
  CAN_RX_FIFO_SIZE = 32 ->
  rx_ring_ok c -> rx_put_index c = rx_get_index c -> rx_lost c = 0 ->
  Forall rx_arrival_ok arrivals ->
  length (arrived arrivals) = 40%nat ->
  (exists c' ev',
     rx_feed arrivals c ev = Ok (c', ev') /\
     rx_lost c' = 8 /\
     rx_get_index c' = rx_get_index c /\
     rx_put_index c' = wrap8 (rx_get_index c + 32) /\
     rx_ring_view c' = rx_element_ident <$> take 32 (arrived arrivals)) /\
  (forall c1 i gio tsv pi ev1 g,
     wrap8 (pi - rx_get_index c1) = CAN_RX_FIFO_SIZE ->
     rx_store_loop 1 i gio tsv c1 pi ev1 g
     = Ok (can_inc_sat_rx_lost c1, pi, ev1,
           wrap8 (Z.land (gio + i) (CAN_RX_FIFO_SIZE - 1))) /\
     rx_frames (can_inc_sat_rx_lost c1) = rx_frames c1 /\
     rx_lost (can_inc_sat_rx_lost c1)
     = (if rx_lost c1 <? 0xffff then rx_lost c1 + 1 else rx_lost c1)).
Proof.
  intros Hsize Hok Hempty Hlost0 Hall Hforty.
  assert (CAN_RX_FIFO_SIZE = 2 ^ 5) as Hpow by (rewrite Hsize; reflexivity).
  split.
  - destruct (rx_feed_spec 5 Hpow ltac:(lia) arrivals c ev Hok Hall)
      as (c' & ev' & Hrun & Hok' & Hg' & Hview & Hlost).
    assert (rx_ring_view c = []) as Hnil.
    { unfold rx_ring_view, rx_ring_view_at. rewrite Hempty, Z.sub_diag.
      reflexivity. }
    rewrite Hnil in *. cbn [app length] in *.
    rewrite Hsize in Hview. change (Z.to_nat 32) with 32%nat in Hview.
    rewrite <- fmap_take in Hview.
    pose proof (f_equal length Hview) as Hl.
    rewrite length_fmap, length_take, Hforty in Hl.
    exists c', ev'. repeat split; try assumption.
    + rewrite Hlost, Hlost0, Hforty, Hl. reflexivity.
    + unfold rx_ring_view in Hl. rewrite rx_ring_view_at_length in Hl.
      destruct Hok' as (Hpi' & _).
      rewrite <- (wrap8_small (rx_put_index c')) by exact Hpi'.
      rewrite <- (wrap8_sub_add (rx_put_index c') (rx_get_index c')).
      rewrite Hg' in *.
      pose proof (wrap8_range (rx_put_index c' - rx_get_index c)).
      do 2 f_equal. lia.
  - intros c1 i gio tsv pi ev1 g Hfull.
    cbn [rx_store_loop]. rewrite Hfull. unfold SC_ASSERT.
    rewrite Z.leb_refl, Z.eqb_refl. cbn [rbind].
    split; [reflexivity|]. unfold can_inc_sat_rx_lost.
    destruct (rx_lost c1 <? 65535); split; reflexivity.
Qed.

End ring_claim.

Section ring_samples.
#[local] Existing Instance sample_h.

Lemma blank_can_rx_ring_ok : rx_ring_ok blank_can.
Proof.
  unfold rx_ring_ok.
  repeat split; vm_compute; (reflexivity || discriminate).
Qed.

Lemma forty_in_two_batches_ok : Forall rx_arrival_ok forty_in_two_batches.
Proof.
  unfold forty_in_two_batches, rx_arrival_ok.
  repeat constructor; vm_compute; (reflexivity || discriminate).
Qed.

(** Forty frames arriving in two batches of twenty on an empty ring. *)
Lemma rx_ring_overflow_keeps_oldest_witness :
  (exists c' ev',
     rx_feed forty_in_two_batches blank_can 0 = Ok (c', ev') /\
     rx_lost c' = 8 /\
     rx_get_index c' = rx_get_index blank_can /\
     rx_put_index c' = wrap8 (rx_get_index blank_can + 32) /\
     rx_ring_view c'
     = rx_element_ident <$> take 32 (arrived forty_in_two_batches)) /\
  (forall c1 i gio tsv pi ev1 g,
     wrap8 (pi - rx_get_index c1) = CAN_RX_FIFO_SIZE ->
     rx_store_loop 1 i gio tsv c1 pi ev1 g
     = Ok (can_inc_sat_rx_lost c1, pi, ev1,
           wrap8 (Z.land (gio + i) (CAN_RX_FIFO_SIZE - 1))) /\
     rx_frames (can_inc_sat_rx_lost c1) = rx_frames c1 /\
     rx_lost (can_inc_sat_rx_lost c1)
     = (if rx_lost c1 <? 0xffff then rx_lost c1 + 1 else rx_lost c1)).
Proof.
  apply (rx_ring_overflow_keeps_oldest forty_in_two_batches blank_can 0).
  - reflexivity.
  - exact blank_can_rx_ring_ok.
  - reflexivity.
  - reflexivity.
  - exact forty_in_two_batches_ok.
  - reflexivity.
Defined.

(** C2 (as stated) fails: after 40 frames with identifiers 0 .. 39 the ring
    holds the frames 0 .. 31, which are not the most recent 32 (8 .. 39). *)
Lemma rx_ring_does_not_keep_newest :
  exists c' ev',
    rx_feed forty_in_two_batches blank_can 0 = Ok (c', ev') /\
    rx_lost c' = 8 /\
    rx_ring_view c' = rx_element_ident <$> take 32 forty_frames /\
    rx_ring_view c' <> rx_element_ident <$> drop 8 forty_frames.
Proof.
  eexists _, _. split; [vm_compute; reflexivity|].
  split; [reflexivity|]. split; [vm_compute; reflexivity|].
  vm_compute. discriminate.
Qed.

End ring_samples.

(** ** C7: the padding of [sc_can_bulk_in_submit] *)

Section submit.
Context `{supercan_h}.

(** C7.  When a CAN data bank is submitted (its fill offset is positive, as
    the function asserts), four zero bytes are appended and the fill offset
    grows by four if and only if the offset is a positive multiple of the
    endpoint size and strictly below the bank size; otherwise the bank is
    handed to the USB layer with its fill offset unchanged.  In both cases
    the transfer covers the bank up to its fill offset and the other bank
    becomes the active one. *)
Theorem can_bulk_in_submit_padding (ucan : usb_can.t) :
  let bank := usb_can.tx_bank ucan in
  let offset := bank_get (usb_can.tx_offsets ucan) bank in
  let padded :=
    (exists q, 0 < q /\ offset = q * SC_M1_EP_SIZE) /\ offset < MSG_BUFFER_SIZE in
  let ucan' := fst (sc_can_bulk_in_submit ucan) in
  let ev := snd (sc_can_bulk_in_submit ucan) in
  let ep := Z.lor 0x80 (usb_can.pipe ucan) in
  0 < SC_M1_EP_SIZE -> MSG_BUFFER_SIZE + 4 <= 2 ^ 16 -> 0 < offset ->
  (padded ->
     ev = [Memset0 (can_tx_buffer bank) offset 4;
           Xfer ep (can_tx_buffer bank) (offset + 4)] /\
     bank_get (usb_can.tx_offsets ucan') bank = offset + 4) /\
  (~ padded ->
     ev = [Xfer ep (can_tx_buffer bank) offset] /\
     bank_get (usb_can.tx_offsets ucan') bank = offset) /\
  usb_can.tx_bank ucan' = negb bank /\
  bank_get (usb_can.tx_offsets ucan') (negb bank)
  = bank_get (usb_can.tx_offsets ucan) (negb bank).
Proof.
  intros bank offset padded ucan' ev ep Hep Hsize Hoff.
  assert (((SC_M1_EP_SIZE <? MSG_BUFFER_SIZE)
           && (offset <? MSG_BUFFER_SIZE)
           && (offset mod SC_M1_EP_SIZE =? 0) = true) <-> padded) as Hiff.
  { subst padded. rewrite !andb_true_iff, !Z.ltb_lt, Z.eqb_eq. split.
    - intros [[_ Hlt] Hmod]. split; [|exact Hlt].
      exists (offset / SC_M1_EP_SIZE).
      assert (SC_M1_EP_SIZE <> 0) as Hne by lia.
      pose proof (Z.div_mod offset SC_M1_EP_SIZE Hne) as Hdm.
      rewrite Hmod in Hdm. split; [nia | lia].
    - intros [(q & Hq & Heq) Hlt]. repeat split; [nia | exact Hlt |].
      rewrite Heq. apply Z_mod_mult. }
  subst ucan' ev. unfold sc_can_bulk_in_submit. fold bank. fold offset.
  destruct ((SC_M1_EP_SIZE <? MSG_BUFFER_SIZE)
            && (offset <? MSG_BUFFER_SIZE)
            && (offset mod SC_M1_EP_SIZE =? 0)) eqn:E.
  - assert padded as Hp by (apply Hiff; reflexivity).
    assert (wrap16 (offset + 4) = offset + 4) as Hw.
    { unfold wrap16. apply Z.mod_small. destruct Hp as [_ Hlt]. lia. }
    cbn [fst snd app usb_can.tx_bank usb_can.tx_offsets usb_can.pipe
         usb_can.set_tx_bank usb_can.set_tx_offsets].
    rewrite Hw. subst ep.
    destruct bank; cbn [bank_get bank_set fst snd negb];
      (split; [intros _; split; reflexivity
              | split; [intros Hn; contradiction | split; reflexivity]]).
  - assert (~ padded) as Hp by (rewrite <- Hiff; discriminate).
    cbn [fst snd app usb_can.tx_bank usb_can.tx_offsets usb_can.pipe
         usb_can.set_tx_bank].
    subst ep.
    split; [intros Hn; contradiction
           | split; [intros _; split; reflexivity | split; reflexivity]].
Qed.

End submit.

Section submit_samples.
#[local] Existing Instance sample_h.

(** A bank holding 128 bytes, two full packets of 64. *)
Lemma can_bulk_in_submit_padding_witness :
  let ucan := usb_can_filled 128 in
  let padded :=
    (exists q, 0 < q /\ 128 = q * SC_M1_EP_SIZE) /\ 128 < MSG_BUFFER_SIZE in
  let ucan' := fst (sc_can_bulk_in_submit ucan) in
  let ev := snd (sc_can_bulk_in_submit ucan) in
  (padded ->
     ev = [Memset0 (can_tx_buffer false) 128 4;
           Xfer (Z.lor 0x80 2) (can_tx_buffer false) (128 + 4)] /\
     bank_get (usb_can.tx_offsets ucan') false = 128 + 4) /\
  (~ padded ->
     ev = [Xfer (Z.lor 0x80 2) (can_tx_buffer false) 128] /\
     bank_get (usb_can.tx_offsets ucan') false = 128) /\
  usb_can.tx_bank ucan' = true /\
  bank_get (usb_can.tx_offsets ucan') true
  = bank_get (usb_can.tx_offsets ucan) true.
Proof.
  apply (can_bulk_in_submit_padding (usb_can_filled 128)).
  - reflexivity.
  - vm_compute. discriminate.
  - reflexivity.
Defined.

End submit_samples.

(** ** C3, C4, C9: the command processor *)

Section cmd_replies.
Context `{supercan_h} `{supercan_layout} `{main_c_rest}.

(** With two passes of fuel the reply is placed in the active bank, or the
    full bank is submitted and the reply opens the other bank, or, with no
    room and the endpoint busy, nothing is placed. *)
Lemma cmd_place_reply_cases (fuel : nat) (bytes : Z) (m : wire_msg)
    (cmd : usb_cmd.t) :
  0 <= bytes <= CMD_BUFFER_SIZE ->
  let bank := usb_cmd.tx_bank cmd in
  let offset := bank_get (usb_cmd.tx_offsets cmd) bank in
  cmd_place_reply (S (S fuel)) bytes m cmd =
  if bytes <=? CMD_BUFFER_SIZE - offset then
    Ok (usb_cmd.set_tx_offsets
          (bank_set (usb_cmd.tx_offsets cmd) bank (wrap16 (offset + bytes)))
          cmd,
        [Store (cmd_tx_buffer bank) offset m])
  else if sc_cmd_bulk_in_ep_ready cmd then
    Ok (usb_cmd.set_tx_offsets
          (bank_set (usb_cmd.tx_offsets cmd) (negb bank) (wrap16 bytes))
          (usb_cmd.set_tx_bank (negb bank) cmd),
        [Xfer (Z.lor 0x80 (usb_cmd.pipe cmd)) (cmd_tx_buffer bank) offset;
         Store (cmd_tx_buffer (negb bank)) 0 m])
  else Ok (cmd, []).
Proof.
  intros Hbytes bank offset. cbn [cmd_place_reply]. fold bank. fold offset.
  destruct (bytes <=? CMD_BUFFER_SIZE - offset) eqn:Efit; [reflexivity|].
  destruct (sc_cmd_bulk_in_ep_ready cmd) eqn:Eready; [|reflexivity].
  unfold sc_cmd_bulk_in_submit. fold bank. fold offset.
  cbn [usb_cmd.tx_bank usb_cmd.tx_offsets usb_cmd.set_tx_bank].
  unfold sc_cmd_bulk_in_ep_ready in Eready. fold bank in Eready.
  apply Z.eqb_eq in Eready. rewrite Eready.
  assert ((bytes <=? CMD_BUFFER_SIZE - 0) = true) as ->
    by (apply Z.leb_le; lia).
  cbn [rbind app Z.add usb_cmd.pipe]. reflexivity.
Qed.

(** C9 (as amended).  A bit timing, feature or bus command whose declared
    length is below the size of its struct is answered with the error code
    [SC_ERROR_SHORT] and a command with an unknown id with
    [SC_ERROR_UNSUPPORTED], provided the error reply fits into the active
    command bank or the command IN endpoint is ready (the full bank is then
    submitted and the reply opens the other bank); with no room and the
    endpoint busy no reply is placed.  In every case the processor goes on
    with the next message and the failed command changes nothing but the
    transmit state of the command endpoint. *)
Theorem cmd_error_reply (fuel : nat) (rx : list Z)
    (msg msg_id msg_len in_ptr in_end code : Z) (ch : channel) :
  0 <= wrap8 sizeof_sc_msg_error <= CMD_BUFFER_SIZE ->
  (exists size, cmd_expected_size msg_id = Some size /\ msg_len < size /\
                code = SC_ERROR_SHORT) \/
  (cmd_known msg_id = false /\ code = SC_ERROR_UNSUPPORTED) ->
  let cmd := ch_cmd ch in
  let bank := usb_cmd.tx_bank cmd in
  let offset := bank_get (usb_cmd.tx_offsets cmd) bank in
  let bytes := wrap8 sizeof_sc_msg_error in
  exists cmd' ev,
    sc_cmd_dispatch (S (S fuel)) rx msg msg_id msg_len in_ptr in_end ch
    = Ok (set_ch_cmd cmd' ch, in_ptr, ev) /\
    (bytes <= CMD_BUFFER_SIZE - offset ->
       ev = [Store (cmd_tx_buffer bank) offset (Msg_error code)] /\
       usb_cmd.tx_bank cmd' = bank /\
       bank_get (usb_cmd.tx_offsets cmd') bank = wrap16 (offset + bytes)) /\
    (CMD_BUFFER_SIZE - offset < bytes ->
     sc_cmd_bulk_in_ep_ready cmd = true ->
       ev = [Xfer (Z.lor 0x80 (usb_cmd.pipe cmd)) (cmd_tx_buffer bank) offset;
             Store (cmd_tx_buffer (negb bank)) 0 (Msg_error code)] /\
       usb_cmd.tx_bank cmd' = negb bank) /\
    (CMD_BUFFER_SIZE - offset < bytes ->
     sc_cmd_bulk_in_ep_ready cmd = false ->
       ev = [] /\ cmd' = cmd).
Proof.
  intros Hbytes Hcase cmd bank offset bytes.
  assert (sc_cmd_dispatch (S (S fuel)) rx msg msg_id msg_len in_ptr in_end ch
          = rbind (sc_cmd_place_error_reply (S (S fuel)) code (ch_cmd ch))
                  (fun '(cmd', ev) => Ok (set_ch_cmd cmd' ch, in_ptr, ev)))
    as Hdispatch.
  { unfold sc_cmd_dispatch.
    destruct Hcase as [(size & Hsize & Hshort & ->) | [Hunknown ->]].
    - unfold cmd_expected_size in Hsize.
      destruct (msg_id =? SC_MSG_EOF); [discriminate|].
      destruct (msg_id =? SC_MSG_HELLO_DEVICE); [discriminate|].
      destruct (msg_id =? SC_MSG_DEVICE_INFO); [discriminate|].
      destruct (msg_id =? SC_MSG_CAN_INFO); [discriminate|].
      destruct (msg_id =? SC_MSG_NM_BITTIMING).
      { injection Hsize as <-. apply Z.ltb_lt in Hshort. rewrite Hshort.
        reflexivity. }
      destruct (msg_id =? SC_MSG_DT_BITTIMING).
      { injection Hsize as <-. apply Z.ltb_lt in Hshort. rewrite Hshort.
        reflexivity. }
      destruct (msg_id =? SC_MSG_FEATURES).
      { injection Hsize as <-. apply Z.ltb_lt in Hshort.
        unfold sc_cmd_features. rewrite Hshort. destruct ch; reflexivity. }
      destruct (msg_id =? SC_MSG_BUS); [|discriminate].
      injection Hsize as <-. apply Z.ltb_lt in Hshort.
      unfold sc_cmd_bus. rewrite Hshort. destruct ch; reflexivity.
    - unfold cmd_known in Hunknown.
      repeat (apply orb_false_iff in Hunknown;
              destruct Hunknown as [Hunknown ?]).
      repeat match goal with E : (msg_id =? _) = false |- _ =>
        rewrite E; clear E end.
      reflexivity. }
  rewrite Hdispatch. unfold sc_cmd_place_error_reply.
  rewrite cmd_place_reply_cases by exact Hbytes.
  fold cmd. fold bank. fold offset. fold bytes.
  destruct (bytes <=? CMD_BUFFER_SIZE - offset) eqn:Efit.
  - apply Z.leb_le in Efit. eexists _, _. split; [reflexivity|].
    split; [|split; intros; lia].
    intros _. cbn [usb_cmd.tx_bank usb_cmd.tx_offsets usb_cmd.set_tx_offsets].
    repeat split. destruct bank; reflexivity.
  - apply Z.leb_gt in Efit.
    destruct (sc_cmd_bulk_in_ep_ready cmd) eqn:Eready.
    + eexists _, _. split; [reflexivity|].
      split; [intros; lia|]. split; [|intros; discriminate].
      intros _ _. split; reflexivity.
    + eexists _, _. split; [reflexivity|].
      split; [intros; lia|]. split; [intros; discriminate|].
      intros _ _. split; reflexivity.
Qed.

End cmd_replies.

Section cmd_samples.
#[local] Existing Instance sample_h.
#[local] Existing Instance sample_layout.
#[local] Existing Instance sample_rest.

(** One command with the unknown id 0x7f on a channel after reset. *)
Lemma cmd_error_reply_witness :
  let ch := blank_channel in
  let code := SC_ERROR_UNSUPPORTED in
  let cmd := ch_cmd ch in
  let bank := usb_cmd.tx_bank cmd in
  let offset := bank_get (usb_cmd.tx_offsets cmd) bank in
  let bytes := wrap8 sizeof_sc_msg_error in
  exists cmd' ev,
    sc_cmd_dispatch 2 (unknown_cmds 1) 0 0x7f 2 2 2 ch
    = Ok (set_ch_cmd cmd' ch, 2, ev) /\
    (bytes <= CMD_BUFFER_SIZE - offset ->
       ev = [Store (cmd_tx_buffer bank) offset (Msg_error code)] /\
       usb_cmd.tx_bank cmd' = bank /\
       bank_get (usb_cmd.tx_offsets cmd') bank = wrap16 (offset + bytes)) /\
    (CMD_BUFFER_SIZE - offset < bytes ->
     sc_cmd_bulk_in_ep_ready cmd = true ->
       ev = [Xfer (Z.lor 0x80 (usb_cmd.pipe cmd)) (cmd_tx_buffer bank) offset;
             Store (cmd_tx_buffer (negb bank)) 0 (Msg_error code)] /\
       usb_cmd.tx_bank cmd' = negb bank) /\
    (CMD_BUFFER_SIZE - offset < bytes ->
     sc_cmd_bulk_in_ep_ready cmd = false ->
       ev = [] /\ cmd' = cmd).
Proof.
  apply (cmd_error_reply 0 (unknown_cmds 1) 0 0x7f 2 2 2
           SC_ERROR_UNSUPPORTED blank_channel).
  - vm_compute. split; discriminate.
  - right. split; reflexivity.
Defined.

(** C9 (as stated) fails: the host sends 16 commands with an unknown id and,
    before the replies have left the device, 17 more.  The first 16 replies
    fill bank 0, which is submitted; 16 more fill bank 1; the 17th command
    of the second buffer gets no reply, because bank 1 is full and bank 0
    still in flight. *)
Lemma cmd_error_reply_dropped_when_full :
  exists ch1 ev1 ch2 ev2,
    sc_cmd_bulk_out 40 (unknown_cmds 16) 32 blank_channel = Ok (ch1, ev1) /\
    count_error_replies ev1 = 16%nat /\
    sc_cmd_bulk_out 40 (unknown_cmds 17) 34 ch1 = Ok (ch2, ev2) /\
    count_error_replies ev2 = 16%nat /\
    sc_cmd_dispatch 2 (unknown_cmds 17) 32 0x7f 2 34 34 ch2 = Ok (ch2, 34, []).
Proof.
  eexists _, _, _, _.
  split; [vm_compute; reflexivity|].
  split; [vm_compute; reflexivity|].
  split; [vm_compute; reflexivity|].
  split; vm_compute; reflexivity.
Qed.

(** C3 on the code: a feature request that sets the monitor mode flag
    alone, on a channel whose configurable features include it, is answered
    with [SC_ERROR_UNSUPPORTED] and leaves the active features unchanged,
    because the configurable mask is read with [sc_board_can_feat_perm]. *)
Lemma features_or_rejects_configurable_flag :
  popcount (Z.land 0x10 (Z.lor (Z.lor SC_FEATURE_FLAG_MON_MODE
                                      SC_FEATURE_FLAG_RES_MODE)
                               SC_FEATURE_FLAG_EXT_LOOP_MODE)) = 1 /\
  Z.land 0x10 (Z.lnot (Z.lor sc_board_can_feat_perm sc_board_can_feat_conf))
  = 0 /\
  exists ch' ev,
    sc_cmd_bulk_out 10 features_or_mon_mode 8 blank_channel = Ok (ch', ev) /\
    features (ch_can ch') = features (ch_can blank_channel) /\
    ev = [Xfer 1 (cmd_rx_buffer true) 64;
          Store (cmd_tx_buffer false) 0 (Msg_error SC_ERROR_UNSUPPORTED);
          Xfer 129 (cmd_tx_buffer false) 4].
Proof.
  split; [reflexivity|]. split; [reflexivity|].
  eexists _, _. split; [vm_compute; reflexivity|].
  split; reflexivity.
Qed.

(** C4 on the code: a data bit timing request is clamped against the data
    range and then applied with [sc_board_can_nm_bit_timing_set], the setter
    of the nominal timing; the setter of the data timing is never called. *)
Lemma dt_bittiming_sets_nominal_timing :
  exists ch' ev,
    sc_cmd_bulk_out 10 dt_bittiming_request 8 blank_channel = Ok (ch', ev) /\
    ev = [Xfer 1 (cmd_rx_buffer true) 64;
          Board (board_can_nm_bit_timing_set
                   {| brp := 32; tseg1 := 5; tseg2 := 2; sjw := 1 |});
          Store (cmd_tx_buffer false) 0 (Msg_error SC_CAN_ERROR_NONE);
          Xfer 129 (cmd_tx_buffer false) 4] /\
    forall bt, ~ In (Board (board_can_dt_bit_timing_set bt)) ev.
Proof.
  eexists _, _. split; [vm_compute; reflexivity|].
  split; [reflexivity|].
  intros bt Hin. cbn in Hin.
  repeat (destruct Hin as [Hin|Hin]; [discriminate|]). exact Hin.
Qed.

End cmd_samples.

(** ** Parsing a received buffer *)

Lemma aget_byte (rx : list Z) (i : Z) :
  is_bytes rx -> 0 <= aget 0 rx i <= 255.
Proof.
  intros Hb. unfold aget.
  destruct (rx !! Z.to_nat i) as [b|] eqn:E; cbn [default]; [|lia].
  unfold is_bytes in Hb. rewrite Forall_lookup in Hb. exact (Hb _ _ E).
Qed.

Lemma aget_take {A} (d : A) (l : list A) (n : nat) (i : Z) :
  (Z.to_nat i < n)%nat -> aget d (take n l) i = aget d l i.
Proof.
  intros Hi. unfold aget. rewrite lookup_take_lt by exact Hi. reflexivity.
Qed.

Lemma aget_agree {A} (d : A) (l l' : list A) (n : nat) (i : Z) :
  take n l = take n l' -> (Z.to_nat i < n)%nat -> aget d l i = aget d l' i.
Proof.
  intros Heq Hi.
  rewrite <- (aget_take d l n i Hi), <- (aget_take d l' n i Hi), Heq.
  reflexivity.
Qed.

Lemma bytes_at_agree (l l' : list Z) (n : nat) (off len : Z) :
  take n l = take n l' -> 0 <= off -> off + len <= Z.of_nat n ->
  bytes_at l off len = bytes_at l' off len.
Proof.
  intros Heq Hoff Hfit. unfold bytes_at.
  assert (forall x : list Z,
            take (Z.to_nat len) (drop (Z.to_nat off) x)
            = take (Z.to_nat len) (drop (Z.to_nat off) (take n x))) as Hx.
  { intros x. rewrite skipn_firstn_comm, take_take. f_equal. lia. }
  rewrite (Hx l), (Hx l'), Heq. reflexivity.
Qed.

Section cmd_parse.
Context `{supercan_h} `{supercan_layout} `{main_c_rest}.

Lemma cmd_place_reply_ok (fuel : nat) (bytes : Z) (m : wire_msg)
    (cmd : usb_cmd.t) :
  0 <= bytes <= CMD_BUFFER_SIZE ->
  exists r, cmd_place_reply (S (S fuel)) bytes m cmd = Ok r.
Proof.
  intros Hbytes. rewrite cmd_place_reply_cases by exact Hbytes.
  destruct (_ <=? _); [eexists; reflexivity|].
  destruct (sc_cmd_bulk_in_ep_ready cmd); eexists; reflexivity.
Qed.

(** With a data range at hand the CAN info reply is placed like any other
    reply. *)
Lemma cmd_place_can_info_some (dt : sc_can_bit_timing_range) (fuel : nat) :
  dt_range = Some dt ->
  forall cmd,
    cmd_place_can_info fuel cmd
    = cmd_place_reply fuel (wrap8 sizeof_sc_msg_can_info)
        (Msg_can_info nm_range dt SC_BOARD_CAN_TX_FIFO_SIZE
                      SC_BOARD_CAN_RX_FIFO_SIZE MSG_BUFFER_SIZE) cmd.
Proof.
  intros Hdt. induction fuel as [|fuel IH]; intros cmd; [reflexivity|].
  cbn [cmd_place_can_info cmd_place_reply]. unfold can_info_msg.
  rewrite Hdt. cbn [rbind].
  destruct (_ <=? _); [reflexivity|].
  destruct (sc_cmd_bulk_in_ep_ready cmd); [|reflexivity].
  destruct (sc_cmd_bulk_in_submit cmd) as [cmd1 ev1]. rewrite IH.
  reflexivity.
Qed.

(** Whenever the block at [send_can_info] returns it has done what placing
    a reply does; without a data range it returns only when it had no room
    for the reply. *)
Lemma cmd_place_can_info_ok (fuel : nat) :
  forall cmd r,
    cmd_place_can_info fuel cmd = Ok r ->
    exists dt,
      cmd_place_reply fuel (wrap8 sizeof_sc_msg_can_info)
        (Msg_can_info nm_range dt SC_BOARD_CAN_TX_FIFO_SIZE
                      SC_BOARD_CAN_RX_FIFO_SIZE MSG_BUFFER_SIZE) cmd
      = Ok r.
Proof.
  destruct dt_range as [dt|] eqn:Hdt.
  { intros cmd r Hr. exists dt.
    rewrite <- (cmd_place_can_info_some dt fuel Hdt). exact Hr. }
  intros cmd r Hr. exists nm_range.
  revert cmd r Hr.
  induction fuel as [|fuel IH]; intros cmd r; [discriminate|].
  cbn [cmd_place_can_info cmd_place_reply]. unfold can_info_msg.
  rewrite Hdt. cbn [rbind].
  destruct (_ <=? _); [discriminate|].
  destruct (sc_cmd_bulk_in_ep_ready cmd); [|auto].
  destruct (sc_cmd_bulk_in_submit cmd) as [cmd1 ev1].
  destruct (cmd_place_can_info fuel cmd1) as [r1| | |] eqn:E;
    cbn [rbind]; try discriminate.
  rewrite (IH _ _ E). auto.
Qed.

(** Every case of the [switch] returns, and leaves [in_ptr] where it is or
    moves it to [in_end], on a board that provides a data range. *)
Lemma sc_cmd_dispatch_ok (fuel : nat) (rx : list Z)
    (msg msg_id msg_len in_ptr in_end : Z) (ch : channel) :
  buffers_ok -> board_has_dt_range ->
  exists ch' in_ptr' ev,
    sc_cmd_dispatch (S (S fuel)) rx msg msg_id msg_len in_ptr in_end ch
    = Ok (ch', in_ptr', ev) /\
    (in_ptr' = in_ptr \/ in_ptr' = in_end).
Proof.
  intros (Herr & Hdev & Hinfo & _) Hhas.
  pose proof (wrap8_range sizeof_sc_msg_error).
  pose proof (wrap8_range sizeof_sc_msg_dev_info).
  pose proof (wrap8_range sizeof_sc_msg_can_info).
  unfold board_has_dt_range in Hhas.
  destruct dt_range as [dt|] eqn:Hdt; [clear Hhas|congruence].
  unfold sc_cmd_dispatch, sc_cmd_place_error_reply.
  rewrite Hdt, (cmd_place_can_info_some dt _ Hdt).
  repeat match goal with
  | |- context [if ?b then _ else _] => destruct b
  | |- context [let '(_, _) := ?p in _] => destruct p
  | |- context [rbind (cmd_place_reply (S (S fuel)) ?b ?m ?c) _] =>
      let r := fresh "r" in let E := fresh "E" in
      destruct (cmd_place_reply_ok fuel b m c ltac:(lia)) as [r E];
      rewrite E; destruct r; cbn [rbind]
  end;
  eexists _, _, _; (split; [reflexivity | auto]).
Qed.

(** The loop returns when the fuel exceeds the bytes left. *)
Lemma sc_cmd_bulk_out_loop_ok (rx : list Z) (in_end : Z) :
  buffers_ok -> board_has_dt_range -> is_bytes rx ->
  forall (fuel : nat) (in_ptr : Z) (ch : channel),
    in_end - in_ptr < Z.of_nat fuel ->
    exists r, sc_cmd_bulk_out_loop fuel rx in_ptr in_end ch = Ok r.
Proof.
  intros Hok Hhas Hb. induction fuel as [|fuel IH]; intros in_ptr ch Hfuel.
  - cbn [sc_cmd_bulk_out_loop]. unfold SC_MSG_HEADER_LEN.
    destruct (in_ptr + 2 <=? in_end) eqn:E; [|eexists; reflexivity].
    apply Z.leb_le in E. lia.
  - cbn [sc_cmd_bulk_out_loop]. unfold SC_MSG_HEADER_LEN.
    destruct (in_ptr + 2 <=? in_end) eqn:E; [|eexists; reflexivity].
    apply Z.leb_le in E.
    pose proof (aget_byte rx (in_ptr + 1) Hb) as Hlen.
    destruct (in_end <? in_ptr + aget 0 rx (in_ptr + 1)) eqn:Eex;
      [eexists; reflexivity|].
    destruct (aget 0 rx (in_ptr + 1) =? 0) eqn:Ez; [eexists; reflexivity|].
    apply Z.eqb_neq in Ez. apply Z.ltb_ge in Eex.
    destruct fuel as [|fuel']; [lia|].
    destruct (sc_cmd_dispatch_ok fuel' rx in_ptr (aget 0 rx in_ptr)
                (aget 0 rx (in_ptr + 1))
                (in_ptr + aget 0 rx (in_ptr + 1)) in_end ch Hok Hhas)
      as (ch' & in_ptr' & ev & Hd & Hptr).
    rewrite Hd. cbn [rbind].
    destruct (IH in_ptr' ch') as [[ch'' ev'] Hr]; [lia|].
    rewrite Hr. cbn [rbind]. eexists; reflexivity.
Qed.

(** The [switch] looks at the received bytes of its message only. *)
Lemma sc_cmd_dispatch_agree (fuel : nat) (rx rx' : list Z) (n : nat)
    (msg msg_id msg_len in_ptr in_end : Z) (ch : channel) :
  take n rx = take n rx' -> 0 <= msg -> msg + msg_len <= Z.of_nat n ->
  sc_cmd_dispatch fuel rx msg msg_id msg_len in_ptr in_end ch
  = sc_cmd_dispatch fuel rx' msg msg_id msg_len in_ptr in_end ch.
Proof.
  intros Heq Hmsg Hfit. unfold sc_cmd_dispatch, sc_cmd_features, sc_cmd_bus.
  repeat match goal with
  | |- context [msg_len <? ?size] =>
      let E := fresh "E" in
      destruct (msg_len <? size) eqn:E;
      [| apply Z.ltb_ge in E;
         rewrite (bytes_at_agree rx rx' n msg size Heq Hmsg ltac:(lia)) ]
  | |- context [if ?b then _ else _] => destruct b
  end; reflexivity.
Qed.

Lemma sc_cmd_bulk_out_loop_agree (rx rx' : list Z) (in_end : Z) :
  take (Z.to_nat in_end) rx = take (Z.to_nat in_end) rx' ->
  is_bytes rx ->
  forall (fuel : nat) (in_ptr : Z) (ch : channel),
    0 <= in_ptr ->
    sc_cmd_bulk_out_loop fuel rx in_ptr in_end ch
    = sc_cmd_bulk_out_loop fuel rx' in_ptr in_end ch.
Proof.
  intros Heq Hb. induction fuel as [|fuel IH]; intros in_ptr ch Hptr;
    [reflexivity|].
  cbn [sc_cmd_bulk_out_loop]. unfold SC_MSG_HEADER_LEN.
  destruct (in_ptr + 2 <=? in_end) eqn:E; [|reflexivity].
  apply Z.leb_le in E.
  rewrite <- (aget_agree 0 rx rx' _ in_ptr Heq) by lia.
  rewrite <- (aget_agree 0 rx rx' _ (in_ptr + 1) Heq) by lia.
  pose proof (aget_byte rx (in_ptr + 1) Hb) as Hlen.
  destruct (in_end <? in_ptr + aget 0 rx (in_ptr + 1)) eqn:Eex;
    [reflexivity|].
  apply Z.ltb_ge in Eex.
  destruct (aget 0 rx (in_ptr + 1) =? 0); [reflexivity|].
  rewrite (sc_cmd_dispatch_agree (S fuel) rx rx' (Z.to_nat in_end))
    by (assumption || lia).
  destruct (sc_cmd_dispatch _ rx' _ _ _ _ _ _) as [[[ch' in_ptr'] ev]| | |]
    eqn:Hd; cbn [rbind]; try reflexivity.
  assert (0 <= in_ptr') as Hptr'.
  { unfold sc_cmd_dispatch in Hd.
    repeat match type of Hd with
    | context [dt_range] => destruct dt_range
    | context [if ?b then _ else _] => destruct b
    | context [let '(_, _) := ?p in _] => destruct p
    | context [rbind ?r _] => destruct r as [[? ?]| | |]; cbn [rbind] in Hd
    end; inversion Hd; subst; lia. }
  rewrite (IH in_ptr' ch' Hptr'). reflexivity.
Qed.

End cmd_parse.

Section can_parse.
Context `{supercan_h} `{supercan_layout}.

(** After a submit the other bank is active and empty, so two passes of
    [send_txr] are enough. *)
Lemma send_txr_ok (fuel : nat) (ts track_id : Z) (tx_beg : bool)
    (ucan : usb_can.t) (c : can) :
  sizeof_sc_msg_can_txr <= MSG_BUFFER_SIZE < 2 ^ 32 ->
  exists r, send_txr (S (S fuel)) ts track_id tx_beg ucan c = Ok r.
Proof.
  intros Hsize. cbn [send_txr].
  destruct (_ <=? _); [eexists; reflexivity|].
  destruct (sc_can_bulk_in_ep_ready ucan) eqn:Eready; [|eexists; reflexivity].
  unfold sc_can_bulk_in_ep_ready in Eready. apply Z.eqb_eq in Eready.
  unfold sc_can_bulk_in_submit.
  assert (forall offs : Z * Z,
            bank_get offs (negb (usb_can.tx_bank ucan))
            = bank_get (usb_can.tx_offsets ucan) (negb (usb_can.tx_bank ucan))
            -> (sizeof_sc_msg_can_txr
                <=? wrap32 (MSG_BUFFER_SIZE
                            - bank_get offs (negb (usb_can.tx_bank ucan))))
               = true) as Hroom.
  { intros offs ->. rewrite Eready, Z.sub_0_r. apply Z.leb_le.
    pose proof (wrap32_range MSG_BUFFER_SIZE).
    destruct (Z_lt_le_dec MSG_BUFFER_SIZE 0); [lia|].
    rewrite wrap32_small; lia. }
  destruct (_ && _);
    cbn [usb_can.tx_bank usb_can.tx_offsets usb_can.set_tx_bank
         usb_can.set_tx_offsets];
    rewrite Hroom; cbn [rbind]; try (eexists; reflexivity);
    destruct (usb_can.tx_bank ucan); reflexivity.
Qed.

Lemma sc_process_msg_can_tx_ok (fuel : nat) (ts msg_len : Z)
    (image : list Z) (ch : channel) :
  buffers_ok ->
  exists r, sc_process_msg_can_tx (S (S fuel)) ts msg_len image ch = Ok r.
Proof.
  intros (_ & _ & _ & Htxr). unfold sc_process_msg_can_tx.
  destruct (_ <? _); [eexists; reflexivity|].
  destruct (_ && _); [eexists; reflexivity|].
  destruct (truthy _); [eexists; reflexivity|].
  match goal with |- context [send_txr _ ?a ?b ?c ?d ?e] =>
    destruct (send_txr_ok fuel a b c d e Htxr) as [[[u c'] ev] E] end.
  rewrite E. cbn [rbind]. eexists; reflexivity.
Qed.

Lemma sc_can_bulk_out_loop_ok (ts : Z) (rx : list Z) (in_end : Z) :
  buffers_ok -> is_bytes rx ->
  forall (fuel : nat) (in_ptr : Z) (ch : channel),
    in_end - in_ptr < Z.of_nat fuel ->
    exists r, sc_can_bulk_out_loop fuel ts rx in_ptr in_end ch = Ok r.
Proof.
  intros Hok Hb. induction fuel as [|fuel IH]; intros in_ptr ch Hfuel.
  - cbn [sc_can_bulk_out_loop]. unfold SC_MSG_HEADER_LEN.
    destruct (in_ptr + 2 <=? in_end) eqn:E; [|eexists; reflexivity].
    apply Z.leb_le in E. lia.
  - cbn [sc_can_bulk_out_loop]. unfold SC_MSG_HEADER_LEN.
    destruct (in_ptr + 2 <=? in_end) eqn:E; [|eexists; reflexivity].
    apply Z.leb_le in E.
    pose proof (aget_byte rx (in_ptr + 1) Hb) as Hlen.
    destruct (in_end <? in_ptr + aget 0 rx (in_ptr + 1)) eqn:Eex;
      [eexists; reflexivity|].
    destruct ((aget 0 rx in_ptr =? 0) || (aget 0 rx (in_ptr + 1) =? 0))
      eqn:Ez; [eexists; reflexivity|].
    apply orb_false_iff in Ez. destruct Ez as [_ Ez].
    apply Z.eqb_neq in Ez. apply Z.ltb_ge in Eex.
    destruct fuel as [|fuel']; [lia|].
    assert (exists r,
              (if aget 0 rx in_ptr =? SC_MSG_CAN_TX
               then sc_process_msg_can_tx (S (S fuel')) ts
                      (aget 0 rx (in_ptr + 1))
                      (bytes_at rx in_ptr (aget 0 rx (in_ptr + 1))) ch
               else Ok (ch, [])) = Ok r) as [[ch' ev] Hd].
    { destruct (_ =? SC_MSG_CAN_TX); [|eexists; reflexivity].
      apply sc_process_msg_can_tx_ok, Hok. }
    rewrite Hd. cbn [rbind].
    destruct (IH (in_ptr + aget 0 rx (in_ptr + 1)) ch') as [[ch'' ev'] Hr];
      [lia|].
    rewrite Hr. cbn [rbind]. eexists; reflexivity.
Qed.

Lemma sc_can_bulk_out_loop_agree (ts : Z) (rx rx' : list Z) (in_end : Z) :
  take (Z.to_nat in_end) rx = take (Z.to_nat in_end) rx' ->
  is_bytes rx ->
  forall (fuel : nat) (in_ptr : Z) (ch : channel),
    0 <= in_ptr ->
    sc_can_bulk_out_loop fuel ts rx in_ptr in_end ch
    = sc_can_bulk_out_loop fuel ts rx' in_ptr in_end ch.
Proof.
  intros Heq Hb. induction fuel as [|fuel IH]; intros in_ptr ch Hptr;
    [reflexivity|].
  cbn [sc_can_bulk_out_loop]. unfold SC_MSG_HEADER_LEN.
  destruct (in_ptr + 2 <=? in_end) eqn:E; [|reflexivity].
  apply Z.leb_le in E.
  rewrite <- (aget_agree 0 rx rx' _ in_ptr Heq) by lia.
  rewrite <- (aget_agree 0 rx rx' _ (in_ptr + 1) Heq) by lia.
  pose proof (aget_byte rx (in_ptr + 1) Hb) as Hlen.
  destruct (in_end <? in_ptr + aget 0 rx (in_ptr + 1)) eqn:Eex;
    [reflexivity|].
  apply Z.ltb_ge in Eex.
  destruct (_ || _); [reflexivity|].
  rewrite <- (bytes_at_agree rx rx' (Z.to_nat in_end) in_ptr
                (aget 0 rx (in_ptr + 1)) Heq) by lia.
  destruct (if _ =? SC_MSG_CAN_TX then _ else _) as [[ch' ev]| | |];
    cbn [rbind]; try reflexivity.
  rewrite IH by lia. reflexivity.
Qed.

End can_parse.

Section parse_properties.
Context `{supercan_h} `{supercan_layout} `{main_c_rest}.

(** For a received buffer of [n] bytes and enough fuel, parsing returns (it
    neither runs on, nor stops on an assertion or on a [NULL] pointer): on
    the CAN data channel always, on the command channel when the board
    provides a data bit timing range.  On either channel the result depends
    on the first [n] bytes of the buffer only; arriving at a header with
    [len == 0] or [id == 0] parsing ends without any further effect; and
    arriving at a truncated header or at a declared length that exceeds the
    bytes left it ends the same way, returning the channel as the messages
    before have left it. *)
Theorem parsing_stays_in_bounds (fuel : nat) (ts n : Z) (rx : list Z)
    (ch : channel) :
  buffers_ok -> is_bytes rx -> SC_MSG_EOF = 0 ->
  0 <= n < 2 ^ 32 -> n < Z.of_nat fuel ->
  ((board_has_dt_range -> exists r, sc_cmd_bulk_out fuel rx n ch = Ok r) /\
   (exists r, sc_can_bulk_out fuel ts rx n ch = Ok r)) /\
  (forall rx',
     take (Z.to_nat n) rx' = take (Z.to_nat n) rx ->
     sc_cmd_bulk_out fuel rx' n ch = sc_cmd_bulk_out fuel rx n ch /\
     sc_can_bulk_out fuel ts rx' n ch = sc_can_bulk_out fuel ts rx n ch) /\
  (forall in_ptr ch1,
     0 <= in_ptr -> in_ptr < Z.of_nat fuel ->
     aget 0 rx in_ptr = 0 \/ aget 0 rx (in_ptr + 1) = 0 ->
     sc_cmd_bulk_out_loop fuel rx in_ptr n ch1 = Ok (ch1, []) /\
     sc_can_bulk_out_loop fuel ts rx in_ptr n ch1 = Ok (ch1, [])) /\
  (forall in_ptr ch1,
     0 <= in_ptr -> in_ptr < Z.of_nat fuel ->
     n < in_ptr + SC_MSG_HEADER_LEN \/ n < in_ptr + aget 0 rx (in_ptr + 1) ->
     sc_cmd_bulk_out_loop fuel rx in_ptr n ch1 = Ok (ch1, []) /\
     sc_can_bulk_out_loop fuel ts rx in_ptr n ch1 = Ok (ch1, [])).
Proof.
  intros Hok Hb Heof Hn Hfuel.
  assert (wrap32 n = n) as Hw by (apply wrap32_small; exact Hn).
  split; [split|split; [|split]].
  - intros Hhas. unfold sc_cmd_bulk_out. rewrite Hw.
    destruct (sc_cmd_bulk_out_loop_ok rx n Hok Hhas Hb fuel 0
                (set_ch_cmd (usb_cmd.set_rx_bank
                               (negb (usb_cmd.rx_bank (ch_cmd ch)))
                               (ch_cmd ch)) ch))
      as [[ch' ev] Hr]; [lia|].
    cbn [usb_cmd.rx_bank usb_cmd.pipe usb_cmd.set_rx_bank] in *.
    rewrite Hr. cbn [rbind].
    destruct (_ && _); eexists; reflexivity.
  - unfold sc_can_bulk_out. rewrite Hw.
    destruct (n =? 0); [eexists; reflexivity|].
    match goal with |- context [sc_can_bulk_out_loop _ _ _ _ _ ?c] =>
      destruct (sc_can_bulk_out_loop_ok ts rx n Hok Hb fuel 0 c)
        as [[ch' ev] Hr]; [lia|] end.
    rewrite Hr. cbn [rbind].
    destruct (_ && _); [destruct (sc_can_bulk_in_submit _)|];
      eexists; reflexivity.
  - intros rx' Heq. symmetry in Heq. split.
    + unfold sc_cmd_bulk_out. rewrite Hw.
      rewrite (sc_cmd_bulk_out_loop_agree rx rx' n Heq Hb) by lia.
      reflexivity.
    + unfold sc_can_bulk_out. rewrite Hw.
      rewrite (sc_can_bulk_out_loop_agree ts rx rx' n Heq Hb) by lia.
      reflexivity.
  - intros in_ptr ch1 Hptr Hf Hzero.
    destruct fuel as [|fuel']; [lia|].
    cbn [sc_cmd_bulk_out_loop sc_can_bulk_out_loop].
    destruct (in_ptr + SC_MSG_HEADER_LEN <=? n) eqn:E; [|split; reflexivity].
    destruct (n <? in_ptr + aget 0 rx (in_ptr + 1)) eqn:Eex;
      [split; reflexivity|].
    destruct Hzero as [Hid | Hlen].
    + rewrite Hid. cbn [orb Z.eqb]. split; [|reflexivity].
      destruct (aget 0 rx (in_ptr + 1) =? 0); [reflexivity|].
      unfold sc_cmd_dispatch. rewrite Heof. cbn [Z.eqb rbind].
      destruct fuel' as [|fuel'']; cbn [sc_cmd_bulk_out_loop];
        unfold SC_MSG_HEADER_LEN;
        (destruct (n + 2 <=? n) eqn:E2; [apply Z.leb_le in E2; lia|]);
        reflexivity.
    + rewrite Hlen. cbn [Z.eqb]. rewrite orb_true_r. split; reflexivity.
  - intros in_ptr ch1 Hptr Hf Hbad.
    destruct fuel as [|fuel']; [lia|].
    cbn [sc_cmd_bulk_out_loop sc_can_bulk_out_loop].
    destruct (in_ptr + SC_MSG_HEADER_LEN <=? n) eqn:E; [|split; reflexivity].
    apply Z.leb_le in E.
    destruct Hbad as [Htrunc | Hex]; [lia|].
    apply Z.ltb_lt in Hex. rewrite Hex. split; reflexivity.
Qed.

End parse_properties.

Section parse_samples.
#[local] Existing Instance sample_h.
#[local] Existing Instance sample_layout.
#[local] Existing Instance sample_rest.

Lemma sample_flag_is_byte : 0 <= SC_CAN_STATUS_FLAG_TXR_DESYNC < 256.
Proof. vm_compute. split; [discriminate | reflexivity]. Qed.

Lemma sample_buffers_ok : buffers_ok.
Proof. vm_compute. repeat split; (discriminate || reflexivity). Qed.

(** A received buffer of eight bytes holding one feature request. *)
Lemma parsing_stays_in_bounds_witness :
  let fuel := 9%nat in
  let ts := 1000 in
  let n := 8 in
  let rx := features_or_mon_mode in
  let ch := blank_channel in
  ((board_has_dt_range -> exists r, sc_cmd_bulk_out fuel rx n ch = Ok r) /\
   (exists r, sc_can_bulk_out fuel ts rx n ch = Ok r)) /\
  (forall rx',
     take (Z.to_nat n) rx' = take (Z.to_nat n) rx ->
     sc_cmd_bulk_out fuel rx' n ch = sc_cmd_bulk_out fuel rx n ch /\
     sc_can_bulk_out fuel ts rx' n ch = sc_can_bulk_out fuel ts rx n ch) /\
  (forall in_ptr ch1,
     0 <= in_ptr -> in_ptr < Z.of_nat fuel ->
     aget 0 rx in_ptr = 0 \/ aget 0 rx (in_ptr + 1) = 0 ->
     sc_cmd_bulk_out_loop fuel rx in_ptr n ch1 = Ok (ch1, []) /\
     sc_can_bulk_out_loop fuel ts rx in_ptr n ch1 = Ok (ch1, [])) /\
  (forall in_ptr ch1,
     0 <= in_ptr -> in_ptr < Z.of_nat fuel ->
     n < in_ptr + SC_MSG_HEADER_LEN \/ n < in_ptr + aget 0 rx (in_ptr + 1) ->
     sc_cmd_bulk_out_loop fuel rx in_ptr n ch1 = Ok (ch1, []) /\
     sc_can_bulk_out_loop fuel ts rx in_ptr n ch1 = Ok (ch1, [])).
Proof.
  apply (parsing_stays_in_bounds 9 1000 8 features_or_mon_mode blank_channel).
  - exact sample_buffers_ok.
  - unfold is_bytes, features_or_mon_mode. repeat (constructor; [lia|]).
    constructor.
  - reflexivity.
  - lia.
  - lia.
Defined.

End parse_samples.

Section parse_stm32f3.
#[local] Existing Instance sample_h_stm32f3.
#[local] Existing Instance sample_layout.
#[local] Existing Instance sample_rest.


End parse_stm32f3.

(** ** C5 and C10: the desync flag and the available TX slots *)

Lemma land_wrap8_lor (x f : Z) :
  0 <= f < 256 -> Z.land (wrap8 (Z.lor x f)) f = f.
Proof.
  intros Hf. unfold wrap8. change (2 ^ 8) with (2 ^ 8)%Z.
  rewrite <- Z.land_ones by lia.
  assert (Z.land (Z.ones 8) f = f) as Hones.
  { rewrite Z.land_comm, Z.land_ones by lia. apply Z.mod_small.
    change (2 ^ 8) with 256. lia. }
  rewrite <- Z.land_assoc, Hones.
  apply Z.bits_inj'. intros i Hi.
  rewrite Z.land_spec, Z.lor_spec.
  destruct (Z.testbit x i), (Z.testbit f i); reflexivity.
Qed.

(** Goals [Forall P ev] for an event list built from known events and
    lists already dealt with. *)
Ltac forall_events :=
  repeat match goal with
  | H : Forall _ (snd (_, _)) |- _ => cbn [snd] in H
  | |- Forall _ [] => constructor
  | |- Forall _ (_ :: _) => constructor; [exact I|]
  | |- Forall _ (_ ++ _) => apply Forall_app; split
  | |- Forall _ _ => assumption
  end.

Section moves.
Context `{supercan_h} `{supercan_layout} `{main_c_rest}.

Lemma core_moves_refl x : core_moves x x.
Proof. apply rtc_refl. Qed.

Lemma core_moves_trans x y z : core_moves x y -> core_moves y z -> core_moves x z.
Proof. apply rtc_trans. Qed.

Lemma core_moves_eq x y : x = y -> core_moves x y.
Proof. intros ->. apply rtc_refl. Qed.

Lemma not_status_flagged ev : Forall not_status ev -> Forall status_flagged ev.
Proof.
  intros Hev. eapply Forall_impl; [exact Hev|].
  intros [buf off m| | | | | |]; try exact (fun _ => I).
  destruct m; cbn; try exact (fun _ => I). intros [].
Qed.

Lemma can_submit_not_status (ucan : usb_can.t) :
  Forall not_status (snd (sc_can_bulk_in_submit ucan)).
Proof.
  unfold sc_can_bulk_in_submit. destruct (_ && _); cbn [snd app];
    repeat constructor.
Qed.

Lemma send_txr_moves (fuel : nat) (ts track_id : Z) (tx_beg : bool) :
  forall (ucan : usb_can.t) (c : can) ucan' c' ev,
    send_txr fuel ts track_id tx_beg ucan c = Ok (ucan', c', ev) ->
    (c' = c \/ c' = set_desync true c) /\ Forall not_status ev.
Proof.
  induction fuel as [|fuel IH]; intros ucan c ucan' c' ev Hrun;
    cbn [send_txr] in Hrun; [discriminate|].
  destruct (_ <=? _).
  { inversion Hrun; subst. split; [left; reflexivity | repeat constructor]. }
  destruct (sc_can_bulk_in_ep_ready ucan).
  - pose proof (can_submit_not_status ucan) as Hsub.
    destruct (sc_can_bulk_in_submit ucan) as [ucan1 ev1]. cbn [snd] in Hsub.
    destruct (send_txr fuel ts track_id tx_beg ucan1 c)
      as [[[ucan2 c2] ev2]| | |] eqn:Hrec; cbn [rbind] in Hrun;
      try discriminate.
    inversion Hrun; subst.
    destruct (IH _ _ _ _ _ Hrec) as [Hc Hev].
    split; [exact Hc | apply Forall_app; split; assumption].
  - inversion Hrun; subst. split; [right; reflexivity | constructor].
Qed.

Lemma sc_process_msg_can_tx_moves (fuel : nat) (ts msg_len : Z)
    (image : list Z) (ch ch' : channel) (ev : list event) :
  sc_process_msg_can_tx fuel ts msg_len image ch = Ok (ch', ev) ->
  core_moves (core (ch_can ch)) (core (ch_can ch')) /\ Forall not_status ev.
Proof.
  unfold sc_process_msg_can_tx. intros Hrun.
  destruct (_ <? _).
  { inversion Hrun; subst. split; [apply core_moves_refl | constructor]. }
  destruct (_ && _).
  { inversion Hrun; subst. split; [apply core_moves_refl | constructor]. }
  destruct (truthy (tx_available (ch_can ch))) eqn:Eavail.
  - inversion Hrun; subst. split; [|constructor].
    apply rtc_once. unfold core.
    cbn [ch_can set_ch_can desync tx_available set_m_can set_tx_fifo
         set_tx_available].
    apply move_take. unfold truthy in Eavail.
    destruct (tx_available (ch_can ch) =? 0) eqn:E; [discriminate|].
    apply Z.eqb_neq in E. exact E.
  - destruct (send_txr _ _ _ _ _ _) as [[[ucan2 c2] ev2]| | |] eqn:Hrec;
      cbn [rbind] in Hrun; try discriminate.
    inversion Hrun; subst.
    destruct (send_txr_moves _ _ _ _ _ _ _ _ _ Hrec) as [[-> | ->] Hev];
      (split; [|exact Hev]); unfold core;
      cbn [ch_can set_ch_can set_ch_usb_can desync tx_available
           set_tx_dropped set_desync].
    + apply core_moves_refl.
    + apply rtc_once, move_desync.
Qed.

Lemma sc_can_bulk_out_loop_moves (ts : Z) (rx : list Z) (in_end : Z)
    (fuel : nat) :
  forall (in_ptr : Z) (ch ch' : channel) (ev : list event),
    sc_can_bulk_out_loop fuel ts rx in_ptr in_end ch = Ok (ch', ev) ->
    core_moves (core (ch_can ch)) (core (ch_can ch')) /\ Forall not_status ev.
Proof.
  induction fuel as [|fuel IH]; intros in_ptr ch ch' ev Hrun;
    cbn [sc_can_bulk_out_loop] in Hrun.
  - destruct (_ <=? _); [discriminate|]. inversion Hrun; subst.
    split; [apply core_moves_refl | constructor].
  - destruct (_ <=? _);
      [|inversion Hrun; subst; split; [apply core_moves_refl | constructor]].
    destruct (_ <? _);
      [inversion Hrun; subst; split; [apply core_moves_refl | constructor]|].
    destruct (_ || _);
      [inversion Hrun; subst; split; [apply core_moves_refl | constructor]|].
    destruct (if _ =? SC_MSG_CAN_TX then _ else _) as [[ch1 ev1]| | |] eqn:Hd;
      cbn [rbind] in Hrun; try discriminate.
    destruct (sc_can_bulk_out_loop fuel ts rx _ in_end ch1)
      as [[ch2 ev2]| | |] eqn:Hrec; cbn [rbind] in Hrun; try discriminate.
    inversion Hrun; subst.
    destruct (IH _ _ _ _ Hrec) as [Hm2 Hev2].
    assert (core_moves (core (ch_can ch)) (core (ch_can ch1))
            /\ Forall not_status ev1) as [Hm1 Hev1].
    { destruct (_ =? SC_MSG_CAN_TX).
      - eapply sc_process_msg_can_tx_moves. exact Hd.
      - inversion Hd; subst. split; [apply core_moves_refl | constructor]. }
    split; [eapply core_moves_trans; eassumption
           | apply Forall_app; split; assumption].
Qed.

Lemma sc_can_bulk_out_moves (fuel : nat) (ts : Z) (rx : list Z) (n : Z)
    (ch ch' : channel) (ev : list event) :
  sc_can_bulk_out fuel ts rx n ch = Ok (ch', ev) ->
  core_moves (core (ch_can ch)) (core (ch_can ch')) /\ Forall not_status ev.
Proof.
  unfold sc_can_bulk_out. intros Hrun.
  destruct (_ =? 0).
  { inversion Hrun; subst. split; [apply core_moves_refl | repeat constructor]. }
  destruct (sc_can_bulk_out_loop _ _ _ _ _ _) as [[ch1 ev1]| | |] eqn:Hloop;
    cbn [rbind] in Hrun; try discriminate.
  destruct (sc_can_bulk_out_loop_moves _ _ _ _ _ _ _ _ Hloop) as [Hm Hev].
  cbn [ch_can set_ch_usb_can] in Hm.
  destruct (_ && _).
  - pose proof (can_submit_not_status (ch_usb_can ch1)) as Hsub.
    destruct (sc_can_bulk_in_submit (ch_usb_can ch1)) as [u evs].
    inversion Hrun; subst. split; [exact Hm | forall_events].
  - inversion Hrun; subst. split; [exact Hm | forall_events].
Qed.

Lemma cmd_place_reply_not_status (fuel : nat) (bytes : Z) (m : wire_msg) :
  (forall buf off, not_status (Store buf off m)) ->
  forall (cmd cmd' : usb_cmd.t) (ev : list event),
    cmd_place_reply fuel bytes m cmd = Ok (cmd', ev) ->
    Forall not_status ev.
Proof.
  intros Hm. induction fuel as [|fuel IH]; intros cmd cmd' ev Hrun;
    cbn [cmd_place_reply] in Hrun; [discriminate|].
  destruct (_ <=? _).
  { inversion Hrun; subst. constructor; [apply Hm | constructor]. }
  destruct (sc_cmd_bulk_in_ep_ready cmd);
    [|inversion Hrun; subst; constructor].
  unfold sc_cmd_bulk_in_submit in Hrun.
  destruct (cmd_place_reply fuel bytes m _) as [[cmd2 ev2]| | |] eqn:Hrec;
    cbn [rbind] in Hrun; try discriminate.
  inversion Hrun; subst. pose proof (IH _ _ _ Hrec). forall_events.
Qed.

Lemma sc_cmd_features_core (msg_len : Z) (image : list Z) (c : can) :
  core (fst (sc_cmd_features msg_len image c)) = core c.
Proof.
  unfold sc_cmd_features.
  repeat match goal with |- context [if ?b then _ else _] => destruct b end;
    reflexivity.
Qed.

Lemma sc_cmd_bus_cases (msg_len : Z) (image : list Z) (c : can) :
  (snd (sc_cmd_bus msg_len image c) = []
   /\ fst (fst (sc_cmd_bus msg_len image c)) = c)
  \/ snd (sc_cmd_bus msg_len image c) = [Bus_on]
  \/ snd (sc_cmd_bus msg_len image c) = [Bus_off].
Proof.
  unfold sc_cmd_bus.
  repeat match goal with |- context [if ?b then _ else _] => destruct b end;
    cbn [fst snd]; auto.
Qed.

(** A command changes neither [desync] nor [tx_available], unless it calls
    [can_on] or [can_off]; and it emits no status snapshot. *)
Lemma sc_cmd_dispatch_moves (fuel : nat) (rx : list Z)
    (msg msg_id msg_len in_ptr in_end : Z) (ch ch' : channel)
    (in_ptr' : Z) (ev : list event) :
  sc_cmd_dispatch fuel rx msg msg_id msg_len in_ptr in_end ch
  = Ok (ch', in_ptr', ev) ->
  Forall not_status ev /\
  (In Bus_on ev \/ In Bus_off ev \/ core (ch_can ch') = core (ch_can ch)).
Proof.
  unfold sc_cmd_dispatch, sc_cmd_place_error_reply. intros Hrun.
  pose proof (sc_cmd_features_core msg_len
                (bytes_at rx msg sizeof_sc_msg_features) (ch_can ch)) as Hfeat.
  pose proof (sc_cmd_bus_cases msg_len
                (bytes_at rx msg sizeof_sc_msg_config) (ch_can ch)) as Hbus.
  repeat match type of Hrun with
  | context [if ?b then _ else _] => destruct b
  | context [sc_cmd_features ?a ?b ?c] =>
      destruct (sc_cmd_features a b c) as [cf ef]; cbn [fst] in Hfeat
  | context [sc_cmd_bus ?a ?b ?c] =>
      destruct (sc_cmd_bus a b c) as [[cb eb] evb]; cbn [fst snd] in Hbus
  | context [dt_range] => destruct dt_range
  | context [rbind (cmd_place_can_info ?f ?c) _] =>
      let E := fresh "E" in
      destruct (cmd_place_can_info f c) as [[? ?]| | |] eqn:E;
      cbn [rbind] in Hrun;
      [apply cmd_place_can_info_ok in E; destruct E as [? E];
       apply cmd_place_reply_not_status in E; [|intros; exact I] | | | ]
  | context [rbind (cmd_place_reply ?f ?b ?m ?c) _] =>
      let E := fresh "E" in
      destruct (cmd_place_reply f b m c) as [[? ?]| | |] eqn:E;
      cbn [rbind] in Hrun;
      [apply cmd_place_reply_not_status in E; [|intros; exact I] | | | ]
  end; try discriminate; inversion Hrun; subst;
  cbn [ch_can set_ch_cmd set_ch_can];
  try (destruct Hbus as [[-> ->] | [-> | ->]]);
  (split;
   [forall_events
   | cbn [In app];
     first [ right; right; first [reflexivity | exact Hfeat]
           | left; left; reflexivity
           | right; left; left; reflexivity ] ]).
Qed.

Lemma sc_cmd_bulk_out_loop_moves (rx : list Z) (in_end : Z) (fuel : nat) :
  forall (in_ptr : Z) (ch ch' : channel) (ev : list event),
    sc_cmd_bulk_out_loop fuel rx in_ptr in_end ch = Ok (ch', ev) ->
    Forall not_status ev /\
    (In Bus_on ev \/ In Bus_off ev \/ core (ch_can ch') = core (ch_can ch)).
Proof.
  induction fuel as [|fuel IH]; intros in_ptr ch ch' ev Hrun;
    cbn [sc_cmd_bulk_out_loop] in Hrun.
  - destruct (_ <=? _); [discriminate|]. inversion Hrun; subst.
    split; [constructor | auto].
  - destruct (_ <=? _); [|inversion Hrun; subst; split; [constructor|auto]].
    destruct (_ <? _); [inversion Hrun; subst; split; [constructor|auto]|].
    destruct (_ =? 0); [inversion Hrun; subst; split; [constructor|auto]|].
    destruct (sc_cmd_dispatch _ _ _ _ _ _ _ _) as [[[ch1 ip1] ev1]| | |] eqn:Hd;
      cbn [rbind] in Hrun; try discriminate.
    destruct (sc_cmd_bulk_out_loop fuel rx ip1 in_end ch1)
      as [[ch2 ev2]| | |] eqn:Hrec; cbn [rbind] in Hrun; try discriminate.
    inversion Hrun; subst.
    destruct (sc_cmd_dispatch_moves _ _ _ _ _ _ _ _ _ _ _ Hd) as [Hev1 Hc1].
    destruct (IH _ _ _ _ Hrec) as [Hev2 Hc2].
    split; [forall_events|].
    rewrite !in_app_iff.
    destruct Hc1 as [?|[?|Hc1]]; [tauto | tauto |].
    destruct Hc2 as [?|[?|Hc2]]; [tauto | tauto |].
    right; right. congruence.
Qed.

Lemma sc_cmd_bulk_out_moves (fuel : nat) (rx : list Z) (n : Z)
    (ch ch' : channel) (ev : list event) :
  sc_cmd_bulk_out fuel rx n ch = Ok (ch', ev) ->
  Forall not_status ev /\
  (In Bus_on ev \/ In Bus_off ev \/ core (ch_can ch') = core (ch_can ch)).
Proof.
  unfold sc_cmd_bulk_out. intros Hrun.
  destruct (sc_cmd_bulk_out_loop _ _ _ _ _) as [[ch1 ev1]| | |] eqn:Hloop;
    cbn [rbind] in Hrun; try discriminate.
  destruct (sc_cmd_bulk_out_loop_moves _ _ _ _ _ _ _ Hloop) as [Hev Hc].
  cbn [ch_can set_ch_cmd] in Hc.
  unfold sc_cmd_bulk_in_submit in Hrun.
  destruct (_ && _); inversion Hrun; subst; cbn [ch_can set_ch_cmd];
    (split; [forall_events|]);
    cbn [In app]; rewrite ?in_app_iff; cbn [In];
    destruct Hc as [?|[?|Hc]]; tauto.
Qed.

Lemma can_status_msg_flagged (ts : Z) (c : can) (l : task_locals) :
  0 <= SC_CAN_STATUS_FLAG_TXR_DESYNC < 256 -> desync c = true ->
  Z.land (st_flags (can_status_msg ts c l)) SC_CAN_STATUS_FLAG_TXR_DESYNC
  = SC_CAN_STATUS_FLAG_TXR_DESYNC.
Proof.
  intros Hflag Hd. unfold can_status_msg. cbn [st_flags]. rewrite Hd.
  apply land_wrap8_lor, Hflag.
Qed.

Section task.
Hypothesis flag_is_byte : 0 <= SC_CAN_STATUS_FLAG_TXR_DESYNC < 256.

Lemma task_inv_same_can c0 s s' :
  task_inv c0 s -> t_can s' = t_can s -> t_events s' = t_events s ->
  task_inv c0 s'.
Proof. unfold task_inv. intros Hinv -> ->. exact Hinv. Qed.

Lemma task_inv_emit c0 s ev :
  task_inv c0 s -> Forall not_status ev -> task_inv c0 (emit ev s).
Proof.
  unfold task_inv. intros (Hd & Hm & Hev) Hns. cbn [emit t_can t_events].
  repeat split; try assumption.
  intros Hc0. apply Forall_app. split; [auto | apply not_status_flagged, Hns].
Qed.

Lemma task_inv_tx_store c0 s bytes m :
  task_inv c0 s -> (forall buf off, not_status (Store buf off m)) ->
  task_inv c0 (tx_store bytes m s).
Proof.
  intros Hinv Hm. unfold tx_store. apply task_inv_emit.
  - eapply task_inv_same_can; [exact Hinv | reflexivity | reflexivity].
  - constructor; [apply Hm | constructor].
Qed.

Lemma task_inv_tx_submit c0 s : task_inv c0 s -> task_inv c0 (tx_submit s).
Proof.
  intros Hinv. unfold tx_submit.
  pose proof (can_submit_not_status (t_usb_can s)) as Hns.
  destruct (sc_can_bulk_in_submit (t_usb_can s)) as [u ev].
  apply task_inv_emit; [|exact Hns].
  eapply task_inv_same_can; [exact Hinv | reflexivity | reflexivity].
Qed.

Lemma task_inv_tx_backoff c0 s : task_inv c0 s -> task_inv c0 (tx_backoff s).
Proof.
  intros Hinv. unfold tx_backoff. apply task_inv_emit.
  - eapply task_inv_same_can; [exact Hinv | reflexivity | reflexivity].
  - repeat constructor.
Qed.

(** Replacing the channel by one with the same [desync] and
    [tx_available]. *)
Lemma task_inv_set_can c0 s c :
  task_inv c0 s -> core c = core (t_can s) -> task_inv c0 (set_t_can c s).
Proof using Type.
  unfold task_inv, core. intros (Hd & Hm & Hev) Hc.
  cbn [set_t_can t_can t_events]. injection Hc as Hcd Hca.
  repeat split; [congruence | | exact Hev].
  unfold core. rewrite Hcd, Hca. exact Hm.
Qed.

(** Peels the updates of the loop state off a goal [task_inv c0 _]. *)
Ltac task_inv_steps Hinv :=
  repeat match goal with
  | |- task_inv _ (set_t_can _ _) => apply task_inv_set_can; [|reflexivity]
  | |- task_inv _ (tx_store _ _ _) =>
      apply task_inv_tx_store; [|intros; exact I]
  | |- task_inv _ (tx_submit _) => apply task_inv_tx_submit
  | |- task_inv _ (tx_backoff _) => apply task_inv_tx_backoff
  | |- task_inv _ _ =>
      first [ exact Hinv
            | eapply task_inv_same_can;
              [exact Hinv | reflexivity | reflexivity] ]
  end.

Lemma task_status_part_inv c0 ts s k s' :
  task_inv c0 s -> task_status_part ts s = (k, s') -> task_inv c0 s'.
Proof using flag_is_byte.
  intros Hinv. unfold task_status_part.
  destruct (send_can_status (t_locals s));
    [|intros Hr; inversion Hr; subst; exact Hinv].
  destruct (tx_room s _).
  - intros Hr. inversion Hr; subst. clear Hr.
    apply task_inv_set_can; [|reflexivity].
    destruct Hinv as (Hd & Hm & Hev).
    unfold tx_store. unfold task_inv.
    cbn [emit t_can t_events set_t_tx_ptr set_t_usb_can set_t_done
         set_t_locals].
    repeat split; try assumption.
    intros Hc0. apply Forall_app. split; [auto|].
    constructor; [|constructor]. cbn [status_flagged].
    apply can_status_msg_flagged; [exact flag_is_byte | congruence].
  - destruct (sc_can_bulk_in_ep_ready _); intros Hr; inversion Hr; subst.
    + apply task_inv_tx_submit.
      eapply task_inv_same_can; [exact Hinv | reflexivity | reflexivity].
    + apply task_inv_tx_backoff, Hinv.
Qed.

Lemma task_status_fifo_part_inv c0 s k s' :
  task_inv c0 s -> task_status_fifo_part s = (k, s') -> task_inv c0 s'.
Proof using Type.
  intros Hinv. unfold task_status_fifo_part. cbv zeta.
  repeat match goal with
  | |- context [if ?b then _ else _] => destruct b
  end; intros Hr; inversion Hr; subst; clear Hr;
  task_inv_steps Hinv.
Qed.

Lemma task_rx_part_inv c0 s k s' :
  task_inv c0 s -> task_rx_part s = Ok (k, s') -> task_inv c0 s'.
Proof using Type.
  intros Hinv. unfold task_rx_part, SC_ASSERT.
  repeat match goal with
  | |- context [if ?b then _ else _] => destruct b
  end; cbn [rbind]; intros Hr; try discriminate; inversion Hr; subst; clear Hr;
  task_inv_steps Hinv.
Qed.

Lemma task_txr_part_inv c0 s k s' :
  task_inv c0 s -> task_txr_part s = Ok (k, s') -> task_inv c0 s'.
Proof using Type.
  intros Hinv. unfold task_txr_part, SC_ASSERT.
  destruct (_ =? _); [intros Hr; inversion Hr; subst; exact Hinv|].
  destruct (tx_room s _).
  - cbn [tx_available set_tx_get_index].
    destruct (tx_available (t_can s) <? CAN_TX_FIFO_SIZE) eqn:Elt;
      cbn [rbind]; intros Hr; [|discriminate].
    inversion Hr; subst; clear Hr. apply Z.ltb_lt in Elt.
    destruct Hinv as (Hd & Hm & Hev). unfold task_inv.
    unfold tx_store.
    cbn [set_t_can emit t_can t_events set_t_tx_ptr set_t_usb_can set_t_done
         desync set_tx_available set_tx_get_index].
    repeat split; [exact Hd | |].
    + eapply core_moves_trans; [exact Hm|]. apply rtc_once. unfold core.
      cbn [desync tx_available set_tx_available set_tx_get_index].
      apply move_give, Elt.
    + intros Hc0. apply Forall_app. split; [auto | repeat constructor].
  - destruct (sc_can_bulk_in_ep_ready _); intros Hr; inversion Hr; subst.
    + apply task_inv_tx_submit.
      eapply task_inv_same_can; [exact Hinv | reflexivity | reflexivity].
    + apply task_inv_tx_backoff, Hinv.
Qed.

Lemma task_loop_body_inv c0 ts s k s' :
  task_inv c0 s -> task_loop_body ts s = Ok (k, s') -> task_inv c0 s'.
Proof using flag_is_byte.
  intros Hinv. unfold task_loop_body.
  match goal with |- context [task_status_part ts ?s0] =>
    assert (task_inv c0 s0) as Hinv0
      by (eapply task_inv_same_can; [exact Hinv | reflexivity | reflexivity]);
    destruct (task_status_part ts s0) as [k1 s1] eqn:E1 end.
  pose proof (task_status_part_inv _ _ _ _ _ Hinv0 E1) as Hinv1.
  destruct k1; try (intros Hr; inversion Hr; subst; exact Hinv1).
  destruct (task_status_fifo_part s1) as [k2 s2] eqn:E2.
  pose proof (task_status_fifo_part_inv _ _ _ _ Hinv1 E2) as Hinv2.
  destruct k2; try (intros Hr; inversion Hr; subst; exact Hinv2).
  destruct (task_rx_part s2) as [[k3 s3]| | |] eqn:E3; cbn [rbind];
    try discriminate.
  pose proof (task_rx_part_inv _ _ _ _ Hinv2 E3) as Hinv3.
  destruct k3; try (intros Hr; inversion Hr; subst; exact Hinv3).
  intros Hr. exact (task_txr_part_inv _ _ _ _ Hinv3 Hr).
Qed.

Lemma task_loop_inv c0 ts (fuel : nat) :
  forall s s', task_inv c0 s -> task_loop fuel ts s = Ok s' -> task_inv c0 s'.
Proof using flag_is_byte.
  induction fuel as [|fuel IH]; intros s s' Hinv; cbn [task_loop];
    [discriminate|].
  destruct (task_loop_body ts s) as [[k s1]| | |] eqn:Eb; cbn [rbind];
    try discriminate.
  pose proof (task_loop_body_inv _ _ _ _ _ Hinv Eb) as Hinv1.
  destruct k; try (intros Hr; inversion Hr; subst; exact Hinv1);
    (destruct (t_done s1);
     [intros Hr; inversion Hr; subst; exact Hinv1 | apply IH, Hinv1]).
Qed.

(** One wake-up of [can_usb_task] leaves [desync] alone, moves
    [tx_available] only by giving slots back, and, when [desync] is set,
    emits only status snapshots that carry the flag. *)
Lemma can_usb_task_wake_moves fuel mounted ts c ucan l c' ucan' l' ev :
  can_usb_task_wake fuel mounted ts c ucan l = Ok (c', ucan', l', ev) ->
  core_moves (core c) (core c') /\
  (desync c = true -> Forall status_flagged ev).
Proof using flag_is_byte.
  unfold can_usb_task_wake.
  destruct (negb mounted).
  { intros Hr; inversion Hr; subst.
    split; [apply core_moves_refl | constructor]. }
  destruct (negb (enabled c)).
  { intros Hr; inversion Hr; subst.
    split; [apply core_moves_refl | constructor]. }
  match goal with |- context [task_loop fuel ts ?s0] =>
    assert (task_inv c s0) as Hinv0
      by (unfold task_inv; cbn [t_can t_events];
          repeat split; [apply core_moves_refl | constructor]);
    destruct (task_loop fuel ts s0) as [s1| | |] eqn:El end;
    cbn [rbind]; try discriminate.
  pose proof (task_loop_inv _ _ _ _ _ Hinv0 El) as Hinv1.
  destruct (_ && _); intros Hr; inversion Hr; subst; clear Hr.
  - apply task_inv_tx_submit in Hinv1.
    destruct Hinv1 as (_ & Hm & Hev). split; assumption.
  - destruct Hinv1 as (_ & Hm & Hev). split; assumption.
Qed.

End task.

Lemma rx_store_loop_core gio tsv (n : nat) :
  forall i c pi ev g c' pi' ev' g',
    rx_store_loop n i gio tsv c pi ev g = Ok (c', pi', ev', g') ->
    core c' = core c.
Proof.
  induction n as [|n IH]; intros i c pi ev g c' pi' ev' g' Hr;
    cbn [rx_store_loop] in Hr.
  - inversion Hr; subst. reflexivity.
  - unfold SC_ASSERT in Hr. destruct (_ <=? _); cbn [rbind] in Hr;
      [|discriminate].
    destruct (_ =? _); apply IH in Hr; rewrite Hr.
    + unfold can_inc_sat_rx_lost. destruct (_ <? _); reflexivity.
    + reflexivity.
Qed.

Lemma tx_store_loop_core gio tsv (n : nat) :
  forall i c pi ev g,
    core (fst (fst (fst (tx_store_loop n i gio tsv c pi ev g)))) = core c.
Proof.
  induction n as [|n IH]; intros i c pi ev g; cbn [tx_store_loop];
    [reflexivity|]. rewrite IH. reflexivity.
Qed.

Lemma can_poll_rx_core c events tsc tsv c' events' more tsv' :
  can_poll_rx c events tsc tsv = Ok (c', events', more, tsv') ->
  core c' = core c.
Proof.
  unfold can_poll_rx. cbv zeta. intros Hr.
  destruct (truthy (wrap8 (RXF0S_F0FL (m_can c)))).
  - destruct (rx_ts_loop _ _ _ _ _ _ _) as [ts1 tsv1].
    destruct (rx_store_loop _ _ _ _ _ _ _ _) as [[[[c1 pi1] ev1] g1]| | |] eqn:E;
      cbn [rbind] in Hr; try discriminate.
    apply rx_store_loop_core in E. inversion Hr; subst.
    rewrite <- E. reflexivity.
  - inversion Hr; subst. reflexivity.
Qed.

Lemma can_poll_tx_core c events tsc tsv :
  core (fst (fst (can_poll_tx c events tsc tsv))) = core c.
Proof.
  unfold can_poll_tx. cbv zeta.
  destruct (truthy (wrap8 (TXEFS_EFFL (m_can c)))); [|reflexivity].
  destruct (tx_ts_loop _ _ _ _ _ _ _ _) as [ts2 tsv2].
  pose proof (tx_store_loop_core (wrap8 (TXEFS_EFGI (m_can c))) tsv2
                (Z.to_nat (wrap8 (TXEFS_EFFL (m_can c)))) 0 c
                (tx_put_index c) events 0) as Hc.
  destruct (tx_store_loop _ _ _ _ _ _ _ _) as [[[c2 pi2] ev2] g2].
  cbn [fst] in *. rewrite <- Hc. reflexivity.
Qed.

Lemma can_poll_core c events tsc tsv c' events' more :
  can_poll c events tsc tsv = Ok (c', events', more) -> core c' = core c.
Proof.
  unfold can_poll. intros Hr.
  destruct (can_poll_rx c events tsc tsv) as [[[[c1 ev1] m1] tsv1]| | |] eqn:E;
    cbn [rbind] in Hr; try discriminate.
  apply can_poll_rx_core in E.
  pose proof (can_poll_tx_core c1 ev1 tsc tsv1) as Htx.
  destruct (can_poll_tx c1 ev1 tsc tsv1) as [[c2 ev2] m2].
  inversion Hr; subst. cbn [fst] in Htx. congruence.
Qed.

Section steps.
Hypothesis flag_is_byte : 0 <= SC_CAN_STATUS_FLAG_TXR_DESYNC < 256.

(** Every step of the firmware moves [desync] and [tx_available] only by
    core moves and, when [desync] is set, emits only status snapshots that
    carry the flag. *)
Lemma fw_step_moves s ev s' :
  fw_step s ev s' ->
  core_moves (core (ch_can (fst s))) (core (ch_can (fst s'))) /\
  (desync (ch_can (fst s)) = true -> Forall status_flagged ev).
Proof using flag_is_byte.
  intros Hstep. destruct Hstep; cbn [fst].
  - match goal with Hr : sc_cmd_bulk_out _ _ _ _ = _ |- _ =>
      destruct (sc_cmd_bulk_out_moves _ _ _ _ _ _ Hr) as [Hev [?|[?|Hc]]] end;
      try contradiction.
    split; [apply core_moves_eq; congruence
           | intros _; apply not_status_flagged, Hev].
  - cbn [ch_can set_ch_cmd]. split; [apply core_moves_refl|]. intros _.
    unfold sc_cmd_bulk_in, sc_cmd_bulk_in_submit.
    destruct (truthy _); cbn [snd]; repeat constructor.
  - match goal with Hr : sc_can_bulk_out _ _ _ _ _ = _ |- _ =>
      destruct (sc_can_bulk_out_moves _ _ _ _ _ _ _ Hr) as [Hm Hev] end.
    split; [exact Hm | intros _; apply not_status_flagged, Hev].
  - cbn [ch_can set_ch_usb_can]. split; [apply core_moves_refl|]. intros _.
    unfold sc_can_bulk_in. destruct (truthy _); [|constructor].
    apply not_status_flagged, can_submit_not_status.
  - cbn [ch_can set_ch_usb_can set_ch_can].
    eapply can_usb_task_wake_moves; eassumption.
  - cbn [ch_can set_ch_can].
    match goal with Hr : can_poll _ _ _ _ = _ |- _ =>
      apply can_poll_core in Hr end.
    split; [apply core_moves_eq; congruence | constructor].
  - cbn [ch_can set_ch_can].
    split; [apply core_moves_refl | constructor].
Qed.

Lemma fw_run_moves s ev s' :
  fw_run s ev s' ->
  core_moves (core (ch_can (fst s))) (core (ch_can (fst s'))).
Proof using flag_is_byte.
  induction 1 as [s | s1 ev1 s2 ev2 s3 Hstep Hrun IH];
    [apply core_moves_refl|].
  eapply core_moves_trans; [|exact IH]. apply (fw_step_moves _ _ _ Hstep).
Qed.

End steps.

(** Along core moves [desync] stays set. *)
Lemma core_moves_desync x y :
  core_moves x y -> fst x = true -> fst y = true.
Proof.
  induction 1 as [x | x y z Hmove _ IH]; [auto|].
  intros Hx. apply IH. destruct Hmove; cbn [fst] in *; auto.
Qed.

(** Along core moves [tx_available] stays within [0, CAN_TX_FIFO_SIZE]. *)
Lemma core_moves_tx_range x y :
  0 <= CAN_TX_FIFO_SIZE < 256 ->
  core_moves x y ->
  0 <= snd x <= CAN_TX_FIFO_SIZE -> 0 <= snd y <= CAN_TX_FIFO_SIZE.
Proof.
  intros Hsize. induction 1 as [x | x y z Hmove _ IH]; [auto|].
  intros Hx. apply IH. destruct Hmove; cbn [snd] in *;
    [exact Hx | rewrite wrap8_small by lia; lia
    | rewrite wrap8_small by lia; lia].
Qed.

End moves.

(** ** Desynchronisation and the TX slot counter *)

Section slots.
Context `{supercan_h} `{supercan_layout} `{main_c_rest}.

Lemma can_tx_msg_ok_checks msg_len image :
  can_tx_msg_ok msg_len image = true ->
  (msg_len <? sizeof_sc_msg_can_tx) = false /\
  negb (truthy (Z.land (tx_flags (read_can_tx image)) SC_CAN_FRAME_FLAG_RTR))
  && (msg_len <? sizeof_sc_msg_can_tx
                 + dlc_to_len (tx_dlc (read_can_tx image))) = false.
Proof.
  unfold can_tx_msg_ok. intros Hok. apply andb_true_iff in Hok.
  destruct Hok as [Ha Hb]. apply negb_true_iff in Ha, Hb. auto.
Qed.

(** A TXR that neither fits the active bank nor can be sent sets [desync]. *)
Lemma sc_process_msg_can_tx_desync fuel ts msg_len image ch :
  can_tx_msg_ok msg_len image = true ->
  tx_available (ch_can ch) = 0 ->
  wrap32 (MSG_BUFFER_SIZE
          - bank_get (usb_can.tx_offsets (ch_usb_can ch))
                     (usb_can.tx_bank (ch_usb_can ch)))
  < sizeof_sc_msg_can_txr ->
  sc_can_bulk_in_ep_ready (ch_usb_can ch) = false ->
  exists ch1,
    sc_process_msg_can_tx (S fuel) ts msg_len image ch = Ok (ch1, []) /\
    desync (ch_can ch1) = true.
Proof.
  intros Hok Havail Hfit Hready.
  destruct (can_tx_msg_ok_checks _ _ Hok) as [E1 E2].
  unfold sc_process_msg_can_tx. rewrite E1, E2, Havail.
  change (truthy 0) with false. cbv iota. cbn [send_txr].
  rewrite (proj2 (Z.leb_gt _ _) Hfit), Hready. cbn [rbind].
  eexists. split; reflexivity.
Qed.

(** What [sc_process_msg_can_tx] does with a well-formed TX frame. *)
Lemma sc_process_msg_can_tx_slots fuel ts msg_len image ch :
  buffers_ok ->
  0 <= tx_available (ch_can ch) <= CAN_TX_FIFO_SIZE ->
  CAN_TX_FIFO_SIZE < 256 ->
  can_tx_msg_ok msg_len image = true ->
  exists ch' ev,
    sc_process_msg_can_tx (S (S fuel)) ts msg_len image ch = Ok (ch', ev) /\
    if tx_available (ch_can ch) =? 0 then
      tx_available (ch_can ch') = 0 /\
      tx_dropped (ch_can ch') = wrap16 (tx_dropped (ch_can ch) + 1) /\
      tx_fifo (ch_can ch') = tx_fifo (ch_can ch) /\
      m_can (ch_can ch') = m_can (ch_can ch)
    else
      tx_available (ch_can ch') = tx_available (ch_can ch) - 1 /\
      tx_dropped (ch_can ch') = tx_dropped (ch_can ch) /\
      TXBAR (m_can (ch_can ch'))
      = wrap32 (Z.shiftl 1 (wrap8 (TXFQS_TFQPI (m_can (ch_can ch))))) /\
      ev = [].
Proof.
  intros Hbuf Hrange Hsize Hok.
  destruct (can_tx_msg_ok_checks _ _ Hok) as [E1 E2].
  unfold sc_process_msg_can_tx. rewrite E1, E2. unfold truthy at 1.
  destruct (tx_available (ch_can ch) =? 0) eqn:E0; cbn [negb].
  - destruct Hbuf as (_ & _ & _ & Htxr).
    match goal with |- context [send_txr _ ?a ?b ?c ?d ?e] =>
      destruct (send_txr_ok fuel a b c d e Htxr) as [[[u c'] ev] E];
      rewrite E; cbn [rbind];
      destruct (send_txr_moves _ _ _ _ _ _ _ _ _ E) as [[Hc|Hc] _] end;
      apply Z.eqb_eq in E0; subst c'; do 2 eexists;
      (split; [reflexivity|]); cbn; auto.
  - apply Z.eqb_neq in E0. do 2 eexists. split; [reflexivity|]. cbn.
    rewrite wrap8_small by lia. auto.
Qed.

(** What the TXR part of [can_usb_task] does with the slot counter. *)
Lemma task_txr_part_slots t :
  0 <= tx_available (t_can t) <= CAN_TX_FIFO_SIZE ->
  CAN_TX_FIFO_SIZE < 256 ->
  match task_txr_part t with
  | Ok (_, t') =>
      (tx_get_index (t_can t') = tx_get_index (t_can t) /\
       tx_available (t_can t') = tx_available (t_can t)) \/
      (tx_get_index (t_can t) <> tx_put_index (t_can t) /\
       tx_get_index (t_can t') = wrap8 (tx_get_index (t_can t) + 1) /\
       tx_available (t_can t) < CAN_TX_FIFO_SIZE /\
       tx_available (t_can t') = tx_available (t_can t) + 1)
  | AssertFailed =>
      tx_get_index (t_can t) <> tx_put_index (t_can t) /\
      tx_available (t_can t) = CAN_TX_FIFO_SIZE
  | OutOfFuel => False
  | NullDeref => False
  end.
Proof.
  intros Hrange Hsize. unfold task_txr_part. cbv zeta.
  destruct (tx_get_index (t_can t) =? tx_put_index (t_can t)) eqn:Eidx;
    [left; auto|]. apply Z.eqb_neq in Eidx.
  destruct (tx_room t sizeof_sc_msg_can_txr).
  - unfold SC_ASSERT. cbn [tx_available set_tx_get_index].
    destruct (tx_available (t_can t) <? CAN_TX_FIFO_SIZE) eqn:Elt;
      cbn [rbind].
    + apply Z.ltb_lt in Elt. right. cbn.
      rewrite (wrap8_small (tx_available (t_can t) + 1)) by lia. auto.
    + apply Z.ltb_ge in Elt. split; [exact Eidx | lia].
  - destruct (sc_can_bulk_in_ep_ready (t_usb_can t)); left.
    + unfold tx_submit. destruct (sc_can_bulk_in_submit _). cbn. auto.
    + cbn. auto.
Qed.

End slots.

Section slot_properties.
Context `{supercan_h} `{supercan_layout} `{main_c_rest}.

(** C5.  Provided the TXR desync flag fits the [uint8_t] flags field of a
    status snapshot: when a well-formed TX frame arrives while no TX slot is
    available, its TXR does not fit the active bank of the CAN data endpoint
    and the endpoint is not ready, [sc_process_msg_can_tx] returns with
    [desync] set; and along every run of the firmware that starts with
    [desync] set and has no bus-on or bus-off step, [desync] is still set at
    the end and every status snapshot stored on the way carries the TXR
    desync flag. *)
Theorem desync_is_set_and_stays_set :
  0 <= SC_CAN_STATUS_FLAG_TXR_DESYNC < 256 ->
  (forall fuel ts msg_len image ch,
     can_tx_msg_ok msg_len image = true ->
     tx_available (ch_can ch) = 0 ->
     wrap32 (MSG_BUFFER_SIZE
             - bank_get (usb_can.tx_offsets (ch_usb_can ch))
                        (usb_can.tx_bank (ch_usb_can ch)))
     < sizeof_sc_msg_can_txr ->
     sc_can_bulk_in_ep_ready (ch_usb_can ch) = false ->
     exists ch1,
       sc_process_msg_can_tx (S fuel) ts msg_len image ch = Ok (ch1, []) /\
       desync (ch_can ch1) = true) /\
  (forall s ev s',
     fw_run s ev s' ->
     desync (ch_can (fst s)) = true ->
     desync (ch_can (fst s')) = true /\
     forall buf off m,
       In (Store buf off (Msg_can_status m)) ev ->
       Z.land (st_flags m) SC_CAN_STATUS_FLAG_TXR_DESYNC
       = SC_CAN_STATUS_FLAG_TXR_DESYNC).
Proof.
  intros Hflag. split.
  - intros fuel ts msg_len image ch.
    apply sc_process_msg_can_tx_desync.
  - intros s ev s' Hrun. induction Hrun as [s | s1 ev1 s2 ev2 s3 Hstep Hrun IH].
    + intros Hd. split; [exact Hd|]. intros buf off m [].
    + intros Hd. destruct (fw_step_moves Hflag _ _ _ Hstep) as [Hmoves Hev].
      pose proof (core_moves_desync _ _ Hmoves Hd) as Hd2.
      destruct (IH Hd2) as [Hd3 Hev2]. split; [exact Hd3|].
      intros buf off m Hin. apply in_app_or in Hin. destruct Hin as [Hin|Hin].
      * specialize (Hev Hd). rewrite Forall_forall in Hev.
        apply (Hev (Store buf off (Msg_can_status m))).
        apply list_elem_of_In. exact Hin.
      * eapply Hev2. exact Hin.
Qed.

(** C10.  Provided [CAN_TX_FIFO_SIZE] fits the [uint8_t] counter, along
    every run of the firmware [tx_available] stays within
    [0, CAN_TX_FIFO_SIZE]; [sc_process_msg_can_tx] returns on every
    well-formed TX frame, and it takes one slot and submits the frame when
    [tx_available] is not zero, and otherwise leaves [tx_available] at zero,
    counts the frame in [tx_dropped] and leaves the TX FIFO and the
    controller alone; the TXR part of [can_usb_task] either consumes no TX
    ring entry and leaves [tx_available] alone, or consumes one entry and
    gives back one slot, which it does only when [tx_available] is below
    [CAN_TX_FIFO_SIZE] (otherwise its assertion fails). *)
Theorem tx_available_stays_in_range :
  0 <= CAN_TX_FIFO_SIZE < 256 ->
  0 <= SC_CAN_STATUS_FLAG_TXR_DESYNC < 256 ->
  buffers_ok ->
  (forall s ev s',
     fw_run s ev s' ->
     0 <= tx_available (ch_can (fst s)) <= CAN_TX_FIFO_SIZE ->
     0 <= tx_available (ch_can (fst s')) <= CAN_TX_FIFO_SIZE) /\
  (forall fuel ts msg_len image ch,
     0 <= tx_available (ch_can ch) <= CAN_TX_FIFO_SIZE ->
     can_tx_msg_ok msg_len image = true ->
     exists ch' ev,
       sc_process_msg_can_tx (S (S fuel)) ts msg_len image ch = Ok (ch', ev) /\
       if tx_available (ch_can ch) =? 0 then
         tx_available (ch_can ch') = 0 /\
         tx_dropped (ch_can ch') = wrap16 (tx_dropped (ch_can ch) + 1) /\
         tx_fifo (ch_can ch') = tx_fifo (ch_can ch) /\
         m_can (ch_can ch') = m_can (ch_can ch)
       else
         tx_available (ch_can ch') = tx_available (ch_can ch) - 1 /\
         tx_dropped (ch_can ch') = tx_dropped (ch_can ch) /\
         TXBAR (m_can (ch_can ch'))
         = wrap32 (Z.shiftl 1 (wrap8 (TXFQS_TFQPI (m_can (ch_can ch))))) /\
         ev = []) /\
  (forall t,
     0 <= tx_available (t_can t) <= CAN_TX_FIFO_SIZE ->
     match task_txr_part t with
     | Ok (_, t') =>
         (tx_get_index (t_can t') = tx_get_index (t_can t) /\
          tx_available (t_can t') = tx_available (t_can t)) \/
         (tx_get_index (t_can t) <> tx_put_index (t_can t) /\
          tx_get_index (t_can t') = wrap8 (tx_get_index (t_can t) + 1) /\
          tx_available (t_can t) < CAN_TX_FIFO_SIZE /\
          tx_available (t_can t') = tx_available (t_can t) + 1)
     | AssertFailed =>
         tx_get_index (t_can t) <> tx_put_index (t_can t) /\
         tx_available (t_can t) = CAN_TX_FIFO_SIZE
     | OutOfFuel => False
     | NullDeref => False
     end).
Proof.
  intros Hsize Hflag Hbuf. split; [|split].
  - intros s ev s' Hrun.
    apply (core_moves_tx_range _ _ Hsize (fw_run_moves Hflag _ _ _ Hrun)).
  - intros fuel ts msg_len image ch Hrange Hok.
    apply sc_process_msg_can_tx_slots; [exact Hbuf | exact Hrange | lia
                                       | exact Hok].
  - intros t Hrange. apply task_txr_part_slots; [exact Hrange | lia].
Qed.

End slot_properties.

Section slot_samples.
#[local] Existing Instance sample_h.
#[local] Existing Instance sample_layout.
#[local] Existing Instance sample_rest.

(** A TX frame arrives at a blocked channel; then the pending transfer
    completes and [can_usb_task] wakes and stores a status snapshot. *)
Lemma desync_is_set_and_stays_set_witness :
  exists ch1,
    sc_process_msg_can_tx 1 1000 12 can_tx_request channel_blocked
    = Ok (ch1, []) /\
    desync (ch_can ch1) = true /\
    exists ev s',
      fw_run (ch1, task_start) ev s' /\
      desync (ch_can (fst s')) = true /\
      exists m,
        In (Store (can_tx_buffer true) 0 (Msg_can_status m)) ev /\
        Z.land (st_flags m) SC_CAN_STATUS_FLAG_TXR_DESYNC
        = SC_CAN_STATUS_FLAG_TXR_DESYNC.
Proof.
  destruct (desync_is_set_and_stays_set sample_flag_is_byte) as [Hset Hkeep].
  destruct (Hset 0%nat 1000 12 can_tx_request channel_blocked)
    as [ch1 [Hr Hd]]; [reflexivity | reflexivity | reflexivity | reflexivity|].
  exists ch1. split; [exact Hr|]. split; [exact Hd|].
  assert (exists ev s' m,
            fw_run (ch1, task_start) ev s' /\
            In (Store (can_tx_buffer true) 0 (Msg_can_status m)) ev)
    as (ev & s' & m & Hrun & Hin).
  { vm_compute in Hr. injection Hr as <-.
    eexists _, _, _. split.
    - eapply run_step; [apply step_can_bulk_in|].
      eapply run_step; [|apply run_done].
      eapply (step_can_usb_task 4 true 2000). vm_compute. reflexivity.
    - vm_compute. right. left. reflexivity. }
  exists ev, s'. split; [exact Hrun|].
  destruct (Hkeep _ _ _ Hrun Hd) as [Hd' Hflagged].
  split; [exact Hd'|]. exists m. split; [exact Hin|].
  exact (Hflagged _ _ _ Hin).
Defined.

(** A TX frame taken by a channel after reset and by a channel without a
    free slot; one TX ring entry consumed with 31 and with 32 slots
    available. *)
Lemma tx_available_stays_in_range_witness :
  (exists ev s',
     fw_run (blank_channel, task_start) ev s' /\
     0 <= tx_available (ch_can (fst s')) <= CAN_TX_FIFO_SIZE) /\
  (exists ch' ev,
     sc_process_msg_can_tx 2 1000 12 can_tx_request blank_channel
     = Ok (ch', ev) /\
     tx_available (ch_can ch') = 32 - 1 /\
     tx_dropped (ch_can ch') = 0 /\
     TXBAR (m_can (ch_can ch')) = 1 /\
     ev = []) /\
  (exists ch' ev,
     sc_process_msg_can_tx 2 1000 12 can_tx_request channel_blocked
     = Ok (ch', ev) /\
     tx_available (ch_can ch') = 0 /\
     tx_dropped (ch_can ch') = 1 /\
     tx_fifo (ch_can ch') = tx_fifo (ch_can channel_blocked) /\
     m_can (ch_can ch') = m_can (ch_can channel_blocked)) /\
  (exists k t',
     task_txr_part (task_one_txr 31) = Ok (k, t') /\
     tx_get_index (t_can t') = 1 /\ tx_available (t_can t') = 32) /\
  task_txr_part (task_one_txr 32) = AssertFailed.
Proof.
  destruct (tx_available_stays_in_range
              ltac:(vm_compute; split; [discriminate | reflexivity])
              sample_flag_is_byte sample_buffers_ok) as (Hrun & Htx & Htxr).
  split; [|split; [|split; [|split]]].
  - assert (exists ev s', fw_run (blank_channel, task_start) ev s')
      as (ev & s' & Hr).
    { eexists _, _. eapply run_step; [|apply run_done].
      eapply (step_can_bulk_out 13 1000 can_tx_request 12).
      vm_compute. reflexivity. }
    exists ev, s'. split; [exact Hr|].
    apply (Hrun _ _ _ Hr). vm_compute. split; discriminate.
  - destruct (Htx 0%nat 1000 12 can_tx_request blank_channel)
      as (ch' & ev & Hr & Hcase);
      [vm_compute; split; discriminate | reflexivity|].
    exists ch', ev. split; [exact Hr|]. exact Hcase.
  - destruct (Htx 0%nat 1000 12 can_tx_request channel_blocked)
      as (ch' & ev & Hr & Hcase);
      [vm_compute; split; discriminate | reflexivity|].
    exists ch', ev. split; [exact Hr|]. exact Hcase.
  - pose proof (Htxr (task_one_txr 31)
                  ltac:(vm_compute; split; discriminate)) as Hcase.
    destruct (task_txr_part (task_one_txr 31)) as [[k t']| | |] eqn:E;
      [|vm_compute in E; discriminate..].
    exists k, t'. split; [reflexivity|].
    destruct Hcase as [[Hget _]|(_ & Hget & _ & Havail)].
    + vm_compute in E. injection E as <- <-. vm_compute in Hget.
      discriminate.
    + split; [exact Hget | exact Havail].
  - pose proof (Htxr (task_one_txr 32)
                  ltac:(vm_compute; split; discriminate)) as Hcase.
    destruct (task_txr_part (task_one_txr 32)) as [[k t']| | |] eqn:E;
      [|reflexivity|contradiction|contradiction].
    vm_compute in E. discriminate.
Defined.

End slot_samples.

(** * Further properties of the code *)

(** ** [dlc_to_len] and [can_frame_bits] *)

Lemma land_15_cases (x : Z) :
  In (Z.land x 0xf) [0; 1; 2; 3; 4; 5; 6; 7; 8; 9; 10; 11; 12; 13; 14; 15].
Proof.
  change (Z.land x 0xf) with (Z.land x (Z.ones 4)).
  rewrite Z.land_ones by lia.
  pose proof (Z.mod_pos_bound x (2 ^ 4) ltac:(reflexivity)) as Hr.
  change (2 ^ 4) with 16 in *. cbn [In]. lia.
Qed.

(** [dlc_to_len] takes every [uint8_t] (indeed every integer) to a payload
    length between 0 and 64 that depends on the low four bits only; on
    [0 .. 8] it is the identity, above 8 its values are multiples of 4, and
    it is monotone on [0 .. 15]. *)
Theorem dlc_to_len_range_and_order (dlc : Z) :
  0 <= dlc_to_len dlc <= 64 /\
  dlc_to_len dlc = dlc_to_len (Z.land dlc 0xf) /\
  (0 <= dlc <= 8 -> dlc_to_len dlc = dlc) /\
  (8 <= Z.land dlc 0xf -> dlc_to_len dlc mod 4 = 0) /\
  (forall dlc', 0 <= dlc <= dlc' -> dlc' <= 15 ->
                dlc_to_len dlc <= dlc_to_len dlc').
Proof.
  unfold dlc_to_len. split; [|split; [|split; [|split]]].
  - pose proof (land_15_cases dlc) as Hc. cbn [In] in Hc.
    repeat (destruct Hc as [<-|Hc]; [vm_compute; split; discriminate|]).
    contradiction.
  - f_equal. change 0xf with (Z.ones 4). rewrite !Z.land_ones by lia.
    rewrite Z.mod_mod by lia. reflexivity.
  - intros Hr. assert (In dlc [0; 1; 2; 3; 4; 5; 6; 7; 8]) as Hc
      by (cbn [In]; lia).
    cbn [In] in Hc.
    repeat (destruct Hc as [<-|Hc]; [reflexivity|]). contradiction.
  - intros Hr. pose proof (land_15_cases dlc) as Hc. cbn [In] in Hc.
    repeat (destruct Hc as [Hc|Hc];
            [rewrite <- Hc in *; first [reflexivity | lia]|]).
    contradiction.
  - intros dlc' Hr Hr'.
    assert (In dlc [0; 1; 2; 3; 4; 5; 6; 7; 8; 9; 10; 11; 12; 13; 14; 15])
      as Hc by (cbn [In]; lia).
    assert (In dlc' [0; 1; 2; 3; 4; 5; 6; 7; 8; 9; 10; 11; 12; 13; 14; 15])
      as Hc' by (cbn [In]; lia).
    cbn [In] in Hc, Hc'.
    repeat (destruct Hc as [Hc|Hc]; [subst dlc|]); try contradiction;
      repeat (destruct Hc' as [Hc'|Hc']; [subst dlc'|]); try contradiction;
      first [lia | vm_compute; discriminate].
Qed.


(** [dlc_to_len] at DLC 9 and 12. *)
Lemma dlc_to_len_range_and_order_witness :
  0 <= dlc_to_len 9 <= 64 /\
  dlc_to_len 9 mod 4 = 0 /\
  dlc_to_len 9 <= dlc_to_len 12.
Proof.
  destruct (dlc_to_len_range_and_order 9) as (Hrange & _ & _ & Hmul & Hmono).
  split; [exact Hrange|].
  split; [apply Hmul; vm_compute; discriminate | apply Hmono; lia].
Defined.

(** [can_frame_bits] on every frame: the count at the nominal bit rate lies
    between 29 and 596 and the count at the data bit rate between 0 and 548;
    bits at the data bit rate are counted only for an FD frame with bit rate
    switching, whose nominal count is then the arbitration and end-of-frame
    overhead alone (29 bits, 48 with an extended identifier); the count of a
    classic remote frame does not depend on its DLC. *)
Theorem can_frame_bits_bounds (xtd rtr fdf brs dlc : Z) :
  let nm := fst (can_frame_bits xtd rtr fdf brs dlc) in
  let dt := snd (can_frame_bits xtd rtr fdf brs dlc) in
  29 <= nm <= 596 /\
  0 <= dt <= 548 /\
  (dt <> 0 -> fdf <> 0 /\ brs <> 0) /\
  (fdf <> 0 -> brs <> 0 ->
   nm = (if xtd =? 0 then 29 else 48) /\
   dt = 5 + 8 * dlc_to_len dlc + crc_bits dlc) /\
  (fdf = 0 -> rtr <> 0 ->
   can_frame_bits xtd rtr fdf brs dlc = can_frame_bits xtd rtr fdf brs 0).
Proof.
  destruct (dlc_to_len_range_and_order dlc) as (Hlen & _).
  assert (crc_bits dlc = 26 \/ crc_bits dlc = 31) as Hcrc
    by (unfold crc_bits; destruct (dlc <=? 10); auto).
  unfold can_frame_bits, truthy, lnot.
  destruct (Z.eqb_spec fdf 0) as [Ef|Ef], (Z.eqb_spec brs 0) as [Eb|Eb],
    (Z.eqb_spec xtd 0) as [Ex|Ex], (Z.eqb_spec rtr 0) as [Er|Er];
    cbn [negb fst snd];
    (split; [lia|]); (split; [lia|]); (split; [intros; lia|]);
    (split; [intros; first [contradiction | lia]|]);
    intros; first [contradiction | reflexivity | lia].
Qed.

(** An FD frame with bit rate switching and DLC 15, and a classic remote
    frame. *)
Lemma can_frame_bits_bounds_witness :
  fst (can_frame_bits 0 0 1 1 15) = 29 /\
  snd (can_frame_bits 0 0 1 1 15) = 5 + 8 * dlc_to_len 15 + crc_bits 15 /\
  can_frame_bits 1 1 0 0 8 = can_frame_bits 1 1 0 0 0.
Proof.
  destruct (can_frame_bits_bounds 0 0 1 1 15) as (_ & _ & _ & Hfd & _).
  destruct (can_frame_bits_bounds 1 1 0 0 8) as (_ & _ & _ & _ & Hrtr).
  destruct Hfd as [Hnm Hdt]; [lia | lia|].
  split; [exact Hnm|]. split; [exact Hdt|]. apply Hrtr; lia.
Defined.

(** ** Byte order helpers *)

Lemma lor_shiftl_add (a b n : Z) :
  0 <= n -> 0 <= b < 2 ^ n -> Z.lor (Z.shiftl a n) b = a * 2 ^ n + b.
Proof.
  intros Hn Hb. rewrite Z.shiftl_mul_pow2 by exact Hn.
  assert (Z.land (a * 2 ^ n) b = 0) as Hdisjoint.
  { apply Z.bits_inj'. intros i Hi. rewrite Z.land_spec, Z.bits_0.
    destruct (Z.lt_ge_cases i n) as [Hlt|Hge].
    - rewrite Z.mul_pow2_bits_low by exact Hlt. reflexivity.
    - rewrite <- (Z.mod_small b (2 ^ n)) by exact Hb.
      rewrite Z.mod_pow2_bits_high by lia. apply andb_false_r. }
  rewrite <- Z.lxor_lor by exact Hdisjoint.
  symmetry. apply Z.add_nocarry_lxor. exact Hdisjoint.
Qed.

Lemma land_255 (x : Z) : Z.land x 0xff = x mod 256.
Proof. change 0xff with (Z.ones 8). apply Z.land_ones. lia. Qed.

Lemma bswap16_value (v : Z) :
  0 <= v < 2 ^ 16 -> bswap16 v = v mod 256 * 256 + v / 256.
Proof.
  intros Hv. unfold bswap16. rewrite !land_255, Z.shiftr_div_pow2 by lia.
  change (2 ^ 8) with 256 in *. change (2 ^ 16) with 65536 in *.
  rewrite lor_shiftl_add; change (2 ^ 8) with 256.
  - rewrite (Z.mod_small (v / 256)); [reflexivity|].
    split; [apply Z.div_pos; lia | apply Z.div_lt_upper_bound; lia].
  - lia.
  - apply Z.mod_pos_bound. lia.
Qed.

Lemma bswap32_value (v : Z) :
  0 <= v < 2 ^ 32 ->
  bswap32 v
  = v mod 256 * 16777216 + v / 256 mod 256 * 65536
    + v / 65536 mod 256 * 256 + v / 16777216.
Proof.
  intros Hv. unfold bswap32. rewrite !land_255, !Z.shiftr_div_pow2 by lia.
  change (2 ^ 8) with 256 in *. change (2 ^ 16) with 65536 in *.
  change (2 ^ 24) with 16777216 in *. change (2 ^ 32) with 4294967296 in *.
  pose proof (Z.mod_pos_bound v 256 ltac:(lia)).
  pose proof (Z.mod_pos_bound (v / 256) 256 ltac:(lia)).
  pose proof (Z.mod_pos_bound (v / 65536) 256 ltac:(lia)).
  assert (0 <= v / 16777216 < 256) as Htop
    by (split; [apply Z.div_pos; lia | apply Z.div_lt_upper_bound; lia]).
  rewrite (Z.mod_small (v / 16777216)) by exact Htop.
  rewrite (lor_shiftl_add (v / 65536 mod 256) (v / 16777216) 8) by lia.
  rewrite (Z.shiftl_mul_pow2 (v / 256 mod 256) 16) by lia.
  rewrite (lor_shiftl_add (v mod 256) (v / 256 mod 256 * 2 ^ 16) 24)
    by (change (2 ^ 16) with 65536; change (2 ^ 24) with 16777216; lia).
  change (2 ^ 8) with 256. change (2 ^ 16) with 65536.
  change (2 ^ 24) with 16777216.
  replace (v mod 256 * 16777216 + v / 256 mod 256 * 65536)
    with ((v mod 256 * 256 + v / 256 mod 256) * 2 ^ 16)
    by (change (2 ^ 16) with 65536; ring).
  rewrite <- Z.shiftl_mul_pow2 by lia.
  rewrite lor_shiftl_add by (change (2 ^ 16) with 65536; lia).
  rewrite ?Z.shiftl_mul_pow2 by lia. change (2 ^ 16) with 65536. ring.
Qed.

Lemma bytes_of_word (a b c d : Z) :
  0 <= a < 256 -> 0 <= b < 256 -> 0 <= c < 256 -> 0 <= d < 256 ->
  let x := a * 16777216 + b * 65536 + c * 256 + d in
  x mod 256 = d /\ x / 256 mod 256 = c /\ x / 65536 mod 256 = b /\
  x / 16777216 = a.
Proof.
  intros Ha Hb Hc Hd x.
  assert (x / 256 = a * 65536 + b * 256 + c) as H1
    by (symmetry; apply (Z.div_unique_pos x 256 _ d); subst x; lia).
  assert (x / 65536 = a * 256 + b) as H2
    by (symmetry; apply (Z.div_unique_pos x 65536 _ (c * 256 + d));
        subst x; lia).
  assert (x / 16777216 = a) as H3
    by (symmetry;
        apply (Z.div_unique_pos x 16777216 _ (b * 65536 + c * 256 + d));
        subst x; lia).
  rewrite H1, H2, H3.
  split; [symmetry; apply (Z.mod_unique_pos x 256 (a * 65536 + b * 256 + c) d);
          subst x; lia|].
  split; [symmetry; apply (Z.mod_unique_pos _ 256 (a * 256 + b) c); lia|].
  split; [symmetry; apply (Z.mod_unique_pos _ 256 a b); lia | reflexivity].
Qed.

Lemma word_of_bytes (w : Z) :
  0 <= w < 4294967296 ->
  (0 <= w mod 256 < 256) /\ (0 <= w / 256 mod 256 < 256) /\
  (0 <= w / 65536 mod 256 < 256) /\ (0 <= w / 16777216 < 256) /\
  w = w / 16777216 * 16777216 + w / 65536 mod 256 * 65536
      + w / 256 mod 256 * 256 + w mod 256.
Proof.
  intros Hw.
  pose proof (Z.div_mod w 256 ltac:(lia)) as E0.
  pose proof (Z.div_mod (w / 256) 256 ltac:(lia)) as E1.
  pose proof (Z.div_mod (w / 256 / 256) 256 ltac:(lia)) as E2.
  rewrite !Z.div_div in E1, E2 by lia.
  change (256 * 256) with 65536 in *.
  rewrite Z.div_div in E2 by lia. change (65536 * 256) with 16777216 in *.
  pose proof (Z.mod_pos_bound w 256 ltac:(lia)).
  pose proof (Z.mod_pos_bound (w / 256) 256 ltac:(lia)).
  pose proof (Z.mod_pos_bound (w / 65536) 256 ltac:(lia)).
  assert (0 <= w / 16777216 < 256)
    by (split; [apply Z.div_pos; lia | apply Z.div_lt_upper_bound; lia]).
  repeat split; try lia.
Qed.

(** The conversions between the byte order of the MCU and the little and big
    endian byte orders are inverse to each other on every 16-bit and 32-bit
    value, whichever branch of the [#if] is compiled; and the bytes of a
    converted value lie in memory in the order the name says: least
    significant byte first after [cpu_to_le16], most significant byte first
    after [cpu_to_be16]. *)
Theorem byte_order_round_trip (big_endian : bool) (h w : Z) :
  0 <= h < 2 ^ 16 -> 0 <= w < 2 ^ 32 ->
  le16_to_cpu big_endian (cpu_to_le16 big_endian h) = h /\
  be16_to_cpu big_endian (cpu_to_be16 big_endian h) = h /\
  le32_to_cpu big_endian (cpu_to_le32 big_endian w) = w /\
  be32_to_cpu big_endian (cpu_to_be32 big_endian w) = w /\
  bytes_of_u16 big_endian (cpu_to_le16 big_endian h) = [h mod 256; h / 256] /\
  bytes_of_u16 big_endian (cpu_to_be16 big_endian h) = [h / 256; h mod 256] /\
  bytes_of_u32 big_endian (cpu_to_le32 big_endian w)
  = [w mod 256; w / 256 mod 256; w / 65536 mod 256; w / 16777216] /\
  bytes_of_u32 big_endian (cpu_to_be32 big_endian w)
  = [w / 16777216; w / 65536 mod 256; w / 256 mod 256; w mod 256].
Proof.
  intros Hh Hw.
  (* the two bytes of [h] and of its swap *)
  pose proof (bswap16_value h Hh) as Hs16.
  change (2 ^ 16) with 65536 in Hh.
  assert (0 <= h mod 256 < 256) as Hlo by (apply Z.mod_pos_bound; lia).
  assert (0 <= h / 256 < 256) as Hhi
    by (split; [apply Z.div_pos; lia | apply Z.div_lt_upper_bound; lia]).
  pose proof (Z.div_mod h 256 ltac:(lia)) as Hh_eq.
  assert (bswap16 h / 256 = h mod 256) as Hs16_hi
    by (rewrite Hs16; symmetry;
        apply (Z.div_unique_pos _ 256 _ (h / 256)); lia).
  assert (bswap16 h mod 256 = h / 256) as Hs16_lo
    by (rewrite Hs16; symmetry;
        apply (Z.mod_unique_pos _ 256 (h mod 256) _); lia).
  assert (0 <= bswap16 h < 2 ^ 16) as Hr16
    by (rewrite Hs16; change (2 ^ 16) with 65536; lia).
  assert (bswap16 (bswap16 h) = h) as Hinv16
    by (rewrite (bswap16_value _ Hr16), Hs16_hi, Hs16_lo; lia).
  (* the four bytes of [w] and of its swap *)
  pose proof (bswap32_value w Hw) as Hs32.
  change (2 ^ 32) with 4294967296 in Hw.
  destruct (word_of_bytes w Hw) as (Hd & Hc & Hb & Ha & Hw_eq).
  destruct (bytes_of_word _ _ _ _ Hd Hc Hb Ha) as (Hp0 & Hp1 & Hp2 & Hp3).
  cbv zeta in Hp0, Hp1, Hp2, Hp3. rewrite <- Hs32 in Hp0, Hp1, Hp2, Hp3.
  assert (0 <= bswap32 w < 2 ^ 32) as Hr32
    by (rewrite Hs32; change (2 ^ 32) with 4294967296; lia).
  assert (bswap32 (bswap32 w) = w) as Hinv32
    by (rewrite (bswap32_value _ Hr32), Hp0, Hp1, Hp2, Hp3; lia).
  unfold le16_to_cpu, cpu_to_le16, be16_to_cpu, cpu_to_be16, le32_to_cpu,
    cpu_to_le32, be32_to_cpu, cpu_to_be32, bytes_of_u16, bytes_of_u32.
  destruct big_endian;
    rewrite !land_255, !Z.shiftr_div_pow2 by lia;
    change (2 ^ 8) with 256; change (2 ^ 16) with 65536;
    change (2 ^ 24) with 16777216;
    rewrite ?Hs16_hi, ?Hs16_lo, ?Hp0, ?Hp1, ?Hp2, ?Hp3;
    rewrite ?(Z.mod_small (h / 256) 256) by exact Hhi;
    rewrite ?(Z.mod_small (w / 16777216) 256) by exact Ha;
    rewrite ?(Z.mod_small (h mod 256) 256) by exact Hlo;
    rewrite ?(Z.mod_small (w mod 256) 256) by exact Hd;
    repeat split; assumption || reflexivity.
Qed.

(** The command buffer size 64 and a 32-bit value on a little endian MCU. *)
Lemma byte_order_round_trip_witness :
  be16_to_cpu false (cpu_to_be16 false 64) = 64 /\
  bytes_of_u16 false (cpu_to_be16 false 64) = [64 / 256; 64 mod 256] /\
  le32_to_cpu true (cpu_to_le32 true 0x12345678) = 0x12345678.
Proof.
  destruct (byte_order_round_trip false 64 0) as (_ & Hbe & _ & _ & _ & Hb & _);
    [lia | lia|].
  destruct (byte_order_round_trip true 0 0x12345678) as (_ & _ & Hle & _);
    [lia | lia|].
  split; [exact Hbe|]. split; [exact Hb | exact Hle].
Defined.

(** ** [can_usb_task]: the length of an RX message *)

Section rx_length_properties.
Context `{supercan_h} `{supercan_layout}.

Lemma can_rx_msg_bytes_rounded (f : rx_frame) (k : Z) :
  SC_MSG_CAN_LEN_MULTIPLE = 2 ^ k -> 0 <= k <= 7 ->
  0 <= sizeof_sc_msg_can_rx ->
  sizeof_sc_msg_can_rx + 64 + SC_MSG_CAN_LEN_MULTIPLE <= 256 ->
  can_rx_msg_bytes f mod SC_MSG_CAN_LEN_MULTIPLE = 0 /\
  can_rx_msg_raw_bytes f <= can_rx_msg_bytes f
  < can_rx_msg_raw_bytes f + SC_MSG_CAN_LEN_MULTIPLE.
Proof.
  intros Hm Hk Hsize Hfit.
  assert (0 < SC_MSG_CAN_LEN_MULTIPLE) as Hpos
    by (rewrite Hm; apply Z.pow_pos_nonneg; lia).
  destruct (dlc_to_len_range_and_order (R1_DLC (rxf_R1 f))) as (Hlen & _).
  unfold can_rx_msg_bytes, can_rx_msg_raw_bytes. cbv zeta.
  rewrite (wrap8_small sizeof_sc_msg_can_rx) by lia.
  set (raw := if truthy (R0_RTR (rxf_R0 f)) then sizeof_sc_msg_can_rx
              else wrap8 (sizeof_sc_msg_can_rx
                          + dlc_to_len (R1_DLC (rxf_R1 f)))).
  assert (raw = sizeof_sc_msg_can_rx
                + (if truthy (R0_RTR (rxf_R0 f)) then 0
                   else dlc_to_len (R1_DLC (rxf_R1 f)))) as Hraw.
  { subst raw. destruct (truthy _); [lia|]. apply wrap8_small. lia. }
  assert (0 <= raw /\ raw + SC_MSG_CAN_LEN_MULTIPLE <= 256) as Hr.
  { rewrite Hraw. destruct (truthy _); lia. }
  rewrite <- Hraw. clearbody raw. clear Hraw.
  rewrite Hm, land_mask by lia. rewrite <- Hm.
  pose proof (Z.mod_pos_bound raw SC_MSG_CAN_LEN_MULTIPLE Hpos) as Hrest.
  assert (SC_MSG_CAN_LEN_MULTIPLE <> 0) as Hnz by lia.
  pose proof (Z.div_mod raw SC_MSG_CAN_LEN_MULTIPLE Hnz) as Hdiv.
  unfold truthy.
  destruct (Z.eqb_spec (raw mod SC_MSG_CAN_LEN_MULTIPLE) 0) as [E|E];
    cbn [negb].
  - split; [exact E | lia].
  - rewrite wrap8_small by lia. split; [|lia].
    replace (raw + (SC_MSG_CAN_LEN_MULTIPLE - raw mod SC_MSG_CAN_LEN_MULTIPLE))
      with ((raw / SC_MSG_CAN_LEN_MULTIPLE + 1) * SC_MSG_CAN_LEN_MULTIPLE)
      by lia.
    apply Z.mod_mul. lia.
Qed.

(** The RX message that [can_usb_task] stores for the oldest frame of the
    RX ring is as long as the struct plus the payload (no payload for a
    remote frame), rounded up to the next multiple of
    [SC_MSG_CAN_LEN_MULTIPLE]; when the bank has room for it, the message is
    stored at [tx_ptr] with that length in its [len] field, [tx_ptr]
    advances by it and the frame is dequeued. *)
Theorem rx_message_length (s : task_state) (k : Z) :
  SC_MSG_CAN_LEN_MULTIPLE = 2 ^ k -> 0 <= k <= 7 ->
  0 <= sizeof_sc_msg_can_rx ->
  sizeof_sc_msg_can_rx + 64 + SC_MSG_CAN_LEN_MULTIPLE <= 256 ->
  rx_get_index (t_can s) <> rx_put_index (t_can s) ->
  wrap8 (rx_put_index (t_can s) - rx_get_index (t_can s))
  <= CAN_RX_FIFO_SIZE ->
  let c := t_can s in
  let f := aget zero_rx_frame (rx_frames c)
                (wrap8 (Z.land (rx_get_index c) (CAN_RX_FIFO_SIZE - 1))) in
  let bytes := can_rx_msg_bytes f in
  bytes mod SC_MSG_CAN_LEN_MULTIPLE = 0 /\
  can_rx_msg_raw_bytes f <= bytes
  < can_rx_msg_raw_bytes f + SC_MSG_CAN_LEN_MULTIPLE /\
  rx_len (can_rx_msg bytes f) = bytes /\
  (tx_room s bytes = true ->
   exists s',
     task_rx_part s = Ok (Next, s') /\
     t_events s'
     = t_events s
       ++ [Store (can_tx_buffer (usb_can.tx_bank (t_usb_can s))) (t_tx_ptr s)
                 (Msg_can_rx (can_rx_msg bytes f))] /\
     t_tx_ptr s' = t_tx_ptr s + bytes /\
     rx_get_index (t_can s') = wrap8 (rx_get_index c + 1)).
Proof.
  intros Hm Hk Hsize Hfit Hne Hcount c f bytes. subst c.
  destruct (can_rx_msg_bytes_rounded f k Hm Hk Hsize Hfit) as [Hmod Hbounds].
  split; [exact Hmod|]. split; [exact Hbounds|]. split; [reflexivity|].
  intros Hroom. unfold task_rx_part. cbv zeta.
  rewrite (proj2 (Z.eqb_neq _ _) Hne).
  rewrite (proj2 (Z.ltb_ge _ _) Hcount). cbn [rbind].
  fold f. change (if truthy (Z.land _ _) then _ else _)
            with (can_rx_msg_bytes f) at 1.
  fold bytes. rewrite Hroom.
  eexists. split; [reflexivity|]. cbn. auto.
Qed.

End rx_length_properties.

Section rx_length_samples.
#[local] Existing Instance sample_h.
#[local] Existing Instance sample_layout.

(** One classic frame with DLC 3 in the ring: 12 + 3 bytes become 16. *)
Lemma rx_message_length_witness :
  can_rx_msg_bytes (ring_frame 0x123 3 5000) = 16 /\
  can_rx_msg_bytes (ring_frame 0x123 3 5000) mod SC_MSG_CAN_LEN_MULTIPLE = 0 /\
  exists s',
    task_rx_part task_one_rx = Ok (Next, s') /\
    t_tx_ptr s' = 16 /\ rx_get_index (t_can s') = 1.
Proof.
  split; [reflexivity|].
  destruct (rx_message_length task_one_rx 2) as (Hmod & _ & _ & Hstore);
    [reflexivity | lia | vm_compute; discriminate | vm_compute; discriminate
    | vm_compute; discriminate | vm_compute; discriminate|].
  split; [exact Hmod|].
  destruct (Hstore ltac:(reflexivity)) as (s' & Hr & _ & Hptr & Hget).
  exists s'. split; [exact Hr|]. split; [exact Hptr | exact Hget].
Defined.

End rx_length_samples.

(** ** The transmit banks: fill offsets and writes stay in bounds *)

Lemma dlc_to_len_bounds (dlc : Z) : 0 <= dlc_to_len dlc <= 64.
Proof.
  unfold dlc_to_len. pose proof (land_15_cases dlc) as Hc. cbn [In] in Hc.
  repeat (destruct Hc as [<-|Hc]; [vm_compute; split; discriminate|]).
  contradiction.
Qed.

Section rx_written.
Context `{supercan_h} `{supercan_layout}.

(** Unless the slot is marked both remote and FD, the length reserved for
    its RX message covers the struct and the payload copied behind it. *)
Lemma can_rx_msg_written (f : rx_frame) (k : Z) :
  struct_sizes_ok k ->
  truthy (R0_RTR (rxf_R0 f)) && truthy (R1_FDF (rxf_R1 f)) = false ->
  written_bytes (Msg_can_rx (can_rx_msg (can_rx_msg_bytes f) f))
  <= can_rx_msg_bytes f.
Proof.
  intros (_ & _ & _ & _ & Hm & Hk & Hsize & Hfit) Hfd.
  destruct (can_rx_msg_bytes_rounded f k Hm Hk Hsize Hfit) as [_ [Hraw _]].
  pose proof (dlc_to_len_bounds (R1_DLC (rxf_R1 f))) as Hlen.
  unfold can_rx_msg_raw_bytes in Hraw.
  cbn [written_bytes can_rx_msg rx_data].
  destruct (truthy (R0_RTR (rxf_R0 f))); cbn [andb negb orb] in *.
  - rewrite Hfd. cbn [orb length]. lia.
  - rewrite orb_true_r, length_take. lia.
Qed.

End rx_written.

Section bank_bounds.
Context `{supercan_h} `{supercan_layout} `{main_c_rest}.
Hypothesis sizes : bank_sizes_ok.
Variable lm : Z.
Hypothesis structs : struct_sizes_ok lm.

Lemma wrap16_small x : 0 <= x < 2 ^ 16 -> wrap16 x = x.
Proof using Type. intros. unfold wrap16. apply Z.mod_small. lia. Qed.

Lemma bank_offsets_in_get size offs b :
  bank_offsets_in size offs -> 0 <= bank_get offs b <= size.
Proof using Type. intros [Hfst Hsnd]. destruct b; assumption. Qed.

Lemma bank_offsets_in_set size offs b v :
  bank_offsets_in size offs -> 0 <= v <= size ->
  bank_offsets_in size (bank_set offs b v).
Proof using Type.
  intros [Hfst Hsnd] Hv. destruct b; split; cbn; assumption.
Qed.

Lemma forall_in_bounds_app ev ev' :
  Forall event_in_bounds ev -> Forall event_in_bounds ev' ->
  Forall event_in_bounds (ev ++ ev').
Proof using Type. intros. apply Forall_app. split; assumption. Qed.

(** [sc_can_bulk_in_submit]: the padding stays inside the bank. *)
Lemma sc_can_bulk_in_submit_bounds ucan :
  bank_offsets_in MSG_BUFFER_SIZE (usb_can.tx_offsets ucan) ->
  bank_offsets_in MSG_BUFFER_SIZE
    (usb_can.tx_offsets (fst (sc_can_bulk_in_submit ucan))) /\
  Forall event_in_bounds (snd (sc_can_bulk_in_submit ucan)).
Proof using sizes.
  destruct sizes as (_ & Hmsg & _ & _ & _ & _ & Hep & Hdiv).
  intros Hin. unfold sc_can_bulk_in_submit. cbv zeta.
  pose proof (bank_offsets_in_get _ _ (usb_can.tx_bank ucan) Hin) as Hoff.
  set (offset := bank_get (usb_can.tx_offsets ucan) (usb_can.tx_bank ucan))
    in *.
  destruct ((SC_M1_EP_SIZE <? MSG_BUFFER_SIZE) && (offset <? MSG_BUFFER_SIZE)
            && (offset mod SC_M1_EP_SIZE =? 0)) eqn:Epad; cbn [fst snd app].
  - apply andb_true_iff in Epad. destruct Epad as [Epad Emod].
    apply andb_true_iff in Epad. destruct Epad as [_ Elt].
    apply Z.ltb_lt in Elt. apply Z.eqb_eq in Emod.
    assert (offset + 4 <= MSG_BUFFER_SIZE) as Hfit.
    { apply Z.mod_divide in Emod; [|lia]. apply Z.mod_divide in Hdiv; [|lia].
      destruct Emod as [p Hp]. destruct Hdiv as [q Hq].
      assert (p < q) as Hpq by nia.
      assert (SC_M1_EP_SIZE <= (q - p) * SC_M1_EP_SIZE) as Hgap by nia.
      lia. }
    cbn [usb_can.tx_offsets usb_can.set_tx_offsets usb_can.set_tx_bank
         usb_can.tx_bank].
    rewrite wrap16_small by lia.
    split.
    + apply bank_offsets_in_set; [exact Hin | lia].
    + constructor; [cbn [event_in_bounds buffer_size]; lia|].
      constructor; [|constructor].
      cbn [event_in_bounds buffer_size].
      replace (bank_get (bank_set (usb_can.tx_offsets ucan)
                                  (usb_can.tx_bank ucan) (offset + 4))
                        (usb_can.tx_bank ucan))
        with (offset + 4) by (destruct (usb_can.tx_bank ucan); reflexivity).
      lia.
  - cbn [usb_can.tx_offsets usb_can.set_tx_bank].
    split; [exact Hin|]. constructor; [|constructor].
    cbn [event_in_bounds buffer_size]. fold offset. lia.
Qed.

Lemma sc_can_bulk_in_bounds ucan :
  bank_offsets_in MSG_BUFFER_SIZE (usb_can.tx_offsets ucan) ->
  bank_offsets_in MSG_BUFFER_SIZE
    (usb_can.tx_offsets (fst (sc_can_bulk_in ucan))) /\
  Forall event_in_bounds (snd (sc_can_bulk_in ucan)).
Proof using sizes.
  intros Hin. unfold sc_can_bulk_in. cbv zeta.
  assert (bank_offsets_in MSG_BUFFER_SIZE
            (bank_set (usb_can.tx_offsets ucan)
                      (negb (usb_can.tx_bank ucan)) 0)) as Hin'
    by (apply bank_offsets_in_set; [exact Hin|];
        destruct sizes as (_ & ? & _); lia).
  destruct (truthy _).
  - apply sc_can_bulk_in_submit_bounds. exact Hin'.
  - split; [exact Hin' | constructor].
Qed.

Lemma send_txr_bounds (fuel : nat) (ts track_id : Z) (tx_beg : bool) :
  forall ucan c ucan' c' ev,
    bank_offsets_in MSG_BUFFER_SIZE (usb_can.tx_offsets ucan) ->
    send_txr fuel ts track_id tx_beg ucan c = Ok (ucan', c', ev) ->
    bank_offsets_in MSG_BUFFER_SIZE (usb_can.tx_offsets ucan') /\
    Forall event_in_bounds ev.
Proof using sizes.
  destruct sizes as (_ & Hmsg & _ & _ & _ & Htxr & _).
  induction fuel as [|fuel IH]; intros ucan c ucan' c' ev Hin Hr;
    cbn [send_txr] in Hr; [discriminate|].
  pose proof (bank_offsets_in_get _ _ (usb_can.tx_bank ucan) Hin) as Hoff.
  destruct (_ <=? _) eqn:Efit.
  - inversion Hr; subst; clear Hr. apply Z.leb_le in Efit.
    rewrite wrap32_small in Efit by lia.
    cbn [usb_can.tx_offsets usb_can.set_tx_offsets].
    rewrite wrap16_small by lia.
    split; [apply bank_offsets_in_set; [exact Hin | lia]|].
    constructor; [|constructor].
    cbn [event_in_bounds reserved_bytes written_bytes buffer_size]. lia.
  - destruct (sc_can_bulk_in_ep_ready ucan).
    + pose proof (sc_can_bulk_in_submit_bounds ucan Hin) as [Hin1 Hev1].
      destruct (sc_can_bulk_in_submit ucan) as [u1 ev1]. cbn [fst snd] in *.
      destruct (send_txr fuel ts track_id tx_beg u1 c)
        as [[[u2 c2] ev2]| | |] eqn:E; cbn [rbind] in Hr; try discriminate.
      inversion Hr; subst; clear Hr.
      destruct (IH _ _ _ _ _ Hin1 E) as [Hin2 Hev2].
      split; [exact Hin2 | apply forall_in_bounds_app; assumption].
    + inversion Hr; subst. split; [exact Hin | constructor].
Qed.

Lemma sc_process_msg_can_tx_bounds fuel ts msg_len image ch ch' ev :
  offsets_in_bounds ch ->
  sc_process_msg_can_tx fuel ts msg_len image ch = Ok (ch', ev) ->
  offsets_in_bounds ch' /\ Forall event_in_bounds ev.
Proof using sizes.
  intros Hin. unfold sc_process_msg_can_tx. cbv zeta.
  destruct (_ <? _);
    [intros Hr; inversion Hr; subst; split; [exact Hin | constructor]|].
  destruct (_ && _);
    [intros Hr; inversion Hr; subst; split; [exact Hin | constructor]|].
  destruct (truthy _).
  - intros Hr; inversion Hr; subst. split; [exact Hin | constructor].
  - destruct (send_txr _ _ _ _ _ _) as [[[u c] ev1]| | |] eqn:E; cbn [rbind];
      try discriminate.
    intros Hr; inversion Hr; subst; clear Hr.
    destruct Hin as [Hcmd Hcan].
    destruct (send_txr_bounds _ _ _ _ _ _ _ _ _ Hcan E) as [Hin1 Hev1].
    split; [split; assumption | exact Hev1].
Qed.

Lemma sc_can_bulk_out_loop_bounds ts rx in_end (fuel : nat) :
  forall in_ptr ch ch' ev,
    offsets_in_bounds ch ->
    sc_can_bulk_out_loop fuel ts rx in_ptr in_end ch = Ok (ch', ev) ->
    offsets_in_bounds ch' /\ Forall event_in_bounds ev.
Proof using sizes.
  induction fuel as [|fuel IH]; intros in_ptr ch ch' ev Hin;
    cbn [sc_can_bulk_out_loop]; destruct (_ <=? _);
    try discriminate;
    try (intros Hr; inversion Hr; subst; split; [exact Hin | constructor]).
  destruct (_ <? _);
    [intros Hr; inversion Hr; subst; split; [exact Hin | constructor]|].
  destruct (_ || _);
    [intros Hr; inversion Hr; subst; split; [exact Hin | constructor]|].
  destruct (_ =? SC_MSG_CAN_TX).
  - destruct (sc_process_msg_can_tx _ _ _ _ _) as [[ch1 ev1]| | |] eqn:E;
      cbn [rbind]; try discriminate.
    destruct (sc_process_msg_can_tx_bounds _ _ _ _ _ _ _ Hin E)
      as [Hin1 Hev1].
    destruct (sc_can_bulk_out_loop fuel _ _ _ _ ch1) as [[ch2 ev2]| | |] eqn:E2;
      cbn [rbind]; try discriminate.
    intros Hr; inversion Hr; subst; clear Hr.
    destruct (IH _ _ _ _ Hin1 E2) as [Hin2 Hev2].
    split; [exact Hin2 | apply forall_in_bounds_app; assumption].
  - cbn [rbind].
    destruct (sc_can_bulk_out_loop fuel _ _ _ _ ch) as [[ch2 ev2]| | |] eqn:E2;
      cbn [rbind]; try discriminate.
    intros Hr; inversion Hr; subst; clear Hr.
    exact (IH _ _ _ _ Hin E2).
Qed.

Lemma sc_can_bulk_out_bounds fuel ts rx n ch ch' ev :
  offsets_in_bounds ch ->
  sc_can_bulk_out fuel ts rx n ch = Ok (ch', ev) ->
  offsets_in_bounds ch' /\ Forall event_in_bounds ev.
Proof using sizes.
  intros Hin. unfold sc_can_bulk_out. cbv zeta.
  assert (event_in_bounds
            (Xfer (usb_can.pipe (ch_usb_can ch))
                  (can_rx_buffer (negb (usb_can.rx_bank (ch_usb_can ch))))
                  MSG_BUFFER_SIZE)) as Hx
    by (destruct sizes as (_ & ? & _); cbn; lia).
  assert (offsets_in_bounds
            (set_ch_usb_can
               (usb_can.set_rx_bank (negb (usb_can.rx_bank (ch_usb_can ch)))
                                    (ch_usb_can ch)) ch)) as Hin0
    by exact Hin.
  destruct (_ =? 0).
  { intros Hr; inversion Hr; subst. split; [exact Hin0|].
    constructor; [exact Hx | constructor]. }
  destruct (sc_can_bulk_out_loop _ _ _ _ _ _) as [[ch1 ev1]| | |] eqn:E;
    cbn [rbind]; try discriminate.
  destruct (sc_can_bulk_out_loop_bounds _ _ _ _ _ _ _ _ Hin0 E)
    as [[Hcmd1 Hcan1] Hev1].
  destruct (_ && _).
  - pose proof (sc_can_bulk_in_submit_bounds _ Hcan1) as [Hin2 Hev2].
    destruct (sc_can_bulk_in_submit _) as [u2 ev2]. cbn [fst snd] in *.
    intros Hr; inversion Hr; subst; clear Hr.
    split; [split; assumption|].
    constructor; [exact Hx|]. apply forall_in_bounds_app; assumption.
  - intros Hr; inversion Hr; subst; clear Hr.
    split; [split; assumption|]. constructor; [exact Hx | exact Hev1].
Qed.

Lemma cmd_place_reply_bounds (bytes : Z) (m : wire_msg) (fuel : nat) :
  reserved_bytes m = bytes -> 0 <= bytes -> written_bytes m <= bytes ->
  forall cmd cmd' ev,
    bank_offsets_in CMD_BUFFER_SIZE (usb_cmd.tx_offsets cmd) ->
    cmd_place_reply fuel bytes m cmd = Ok (cmd', ev) ->
    bank_offsets_in CMD_BUFFER_SIZE (usb_cmd.tx_offsets cmd') /\
    Forall event_in_bounds ev.
Proof using sizes.
  destruct sizes as (Hcmd & _).
  intros Hres Hbytes Hwritten.
  induction fuel as [|fuel IH]; intros cmd cmd' ev Hin Hr;
    cbn [cmd_place_reply] in Hr; [discriminate|].
  pose proof (bank_offsets_in_get _ _ (usb_cmd.tx_bank cmd) Hin) as Hoff.
  destruct (_ <=? _) eqn:Efit.
  - inversion Hr; subst; clear Hr. apply Z.leb_le in Efit.
    cbn [usb_cmd.tx_offsets usb_cmd.set_tx_offsets].
    rewrite wrap16_small by lia.
    split; [apply bank_offsets_in_set; [exact Hin | lia]|].
    constructor; [|constructor].
    cbn [event_in_bounds buffer_size]. lia.
  - destruct (sc_cmd_bulk_in_ep_ready cmd).
    + unfold sc_cmd_bulk_in_submit in Hr.
      destruct (cmd_place_reply fuel _ m _) as [[c2 ev2]| | |] eqn:E;
        cbn [rbind] in Hr; try discriminate.
      inversion Hr; subst; clear Hr.
      apply IH in E; [|exact Hin]. destruct E as [Hin2 Hev2].
      split; [exact Hin2|].
      constructor; [cbn [event_in_bounds buffer_size]; lia | exact Hev2].
    + inversion Hr; subst. split; [exact Hin | constructor].
Qed.

Lemma sc_cmd_bus_bounds msg_len image c :
  Forall event_in_bounds (snd (sc_cmd_bus msg_len image c)).
Proof using Type.
  unfold sc_cmd_bus. cbv zeta.
  repeat match goal with
  | |- context [if ?b then _ else _] => destruct b
  end; cbn [snd]; repeat constructor.
Qed.

Lemma sc_cmd_dispatch_bounds fuel rx msg msg_id msg_len in_ptr in_end
    ch ch' in_ptr' ev :
  offsets_in_bounds ch ->
  sc_cmd_dispatch fuel rx msg msg_id msg_len in_ptr in_end ch
  = Ok (ch', in_ptr', ev) ->
  offsets_in_bounds ch' /\ Forall event_in_bounds ev.
Proof using sizes structs.
  intros [Hcmd Hcan].
  pose proof sizes as (_ & _ & Hhello & _).
  pose proof (wrap8_range sizeof_sc_msg_hello).
  pose proof (wrap8_range sizeof_sc_msg_dev_info).
  pose proof (wrap8_range sizeof_sc_msg_can_info).
  pose proof (wrap8_range sizeof_sc_msg_error).
  pose proof (bank_offsets_in_get _ _ (usb_can.tx_bank (ch_usb_can ch)) Hcan).
  pose proof structs as (Hs1 & Hs2 & Hs3 & Hs4 & _).
  pose proof (wrap8_small _ Hs1). pose proof (wrap8_small _ Hs2).
  pose proof (wrap8_small _ Hs3). pose proof (wrap8_small _ Hs4).
  unfold sc_cmd_dispatch, sc_cmd_place_error_reply. cbv zeta.
  repeat match goal with
  | |- context [dt_range] => destruct dt_range
  | |- context [if ?b then _ else _] => destruct b
  | |- context [let '(_, _) := sc_cmd_bus ?a ?b ?c in _] =>
      let Hbus := fresh "Hbus" in
      pose proof (sc_cmd_bus_bounds a b c) as Hbus;
      destruct (sc_cmd_bus a b c) as [[? ?] ?]; cbn [snd] in Hbus
  | |- context [let '(_, _) := ?p in _] => destruct p
  end;
  try match goal with
  | |- rbind (cmd_place_can_info fuel ?c) _ = _ -> _ =>
      let E := fresh "E" in
      destruct (cmd_place_can_info fuel c) as [[c2 ev2]| | |] eqn:E;
      cbn [rbind]; try discriminate;
      apply cmd_place_can_info_ok in E; destruct E as [dt E];
      match type of E with cmd_place_reply _ ?b ?m _ = _ =>
        destruct (cmd_place_reply_bounds b m fuel ltac:(reflexivity)
                    ltac:(lia) ltac:(cbn [written_bytes]; lia) _ _ _ Hcmd E)
          as [Hin2 Hev2] end
  | |- rbind (cmd_place_reply fuel ?b ?m ?c) _ = _ -> _ =>
      let E := fresh "E" in
      destruct (cmd_place_reply fuel b m c) as [[c2 ev2]| | |] eqn:E;
      cbn [rbind]; try discriminate;
      destruct (cmd_place_reply_bounds b m fuel ltac:(reflexivity)
                  ltac:(lia) ltac:(cbn [written_bytes]; lia) _ _ _ Hcmd E)
        as [Hin2 Hev2]
  end;
  intros Hr; inversion Hr; subst; clear Hr;
  (split; [split; cbn [ch_cmd ch_usb_can set_ch_cmd set_ch_can
                       usb_cmd.tx_offsets usb_cmd.set_tx_offsets];
           first [assumption
                 | apply bank_offsets_in_set; [assumption | lia]]|]);
  repeat first [ assumption
               | apply Forall_nil
               | apply Forall_app; split
               | apply Forall_cons_2
               | exact I
               | cbn [event_in_bounds buffer_size reserved_bytes
                      written_bytes]; lia ].
Qed.

Lemma sc_cmd_bulk_out_loop_bounds rx in_end (fuel : nat) :
  forall in_ptr ch ch' ev,
    offsets_in_bounds ch ->
    sc_cmd_bulk_out_loop fuel rx in_ptr in_end ch = Ok (ch', ev) ->
    offsets_in_bounds ch' /\ Forall event_in_bounds ev.
Proof using sizes structs.
  induction fuel as [|fuel IH]; intros in_ptr ch ch' ev Hin;
    cbn [sc_cmd_bulk_out_loop]; destruct (_ <=? _);
    try discriminate;
    try (intros Hr; inversion Hr; subst; split; [exact Hin | constructor]).
  destruct (_ <? _);
    [intros Hr; inversion Hr; subst; split; [exact Hin | constructor]|].
  destruct (_ =? 0);
    [intros Hr; inversion Hr; subst; split; [exact Hin | constructor]|].
  destruct (sc_cmd_dispatch _ _ _ _ _ _ _ _) as [[[ch1 p1] ev1]| | |] eqn:E;
    cbn [rbind]; try discriminate.
  destruct (sc_cmd_dispatch_bounds _ _ _ _ _ _ _ _ _ _ _ Hin E)
    as [Hin1 Hev1].
  destruct (sc_cmd_bulk_out_loop fuel _ _ _ ch1) as [[ch2 ev2]| | |] eqn:E2;
    cbn [rbind]; try discriminate.
  intros Hr; inversion Hr; subst; clear Hr.
  destruct (IH _ _ _ _ Hin1 E2) as [Hin2 Hev2].
  split; [exact Hin2 | apply forall_in_bounds_app; assumption].
Qed.

Lemma sc_cmd_bulk_in_submit_bounds cmd :
  bank_offsets_in CMD_BUFFER_SIZE (usb_cmd.tx_offsets cmd) ->
  bank_offsets_in CMD_BUFFER_SIZE
    (usb_cmd.tx_offsets (fst (sc_cmd_bulk_in_submit cmd))) /\
  Forall event_in_bounds (snd (sc_cmd_bulk_in_submit cmd)).
Proof using Type.
  intros Hin. unfold sc_cmd_bulk_in_submit. cbn [fst snd].
  pose proof (bank_offsets_in_get _ _ (usb_cmd.tx_bank cmd) Hin).
  split; [exact Hin|]. constructor; [|constructor].
  cbn [event_in_bounds buffer_size]. lia.
Qed.

Lemma sc_cmd_bulk_out_bounds fuel rx n ch ch' ev :
  offsets_in_bounds ch ->
  sc_cmd_bulk_out fuel rx n ch = Ok (ch', ev) ->
  offsets_in_bounds ch' /\ Forall event_in_bounds ev.
Proof using sizes structs.
  intros Hin. unfold sc_cmd_bulk_out. cbv zeta.
  assert (0 <= CMD_BUFFER_SIZE) as Hsize
    by (destruct sizes as (_ & _ & ? & _);
        pose proof (wrap8_range sizeof_sc_msg_hello); lia).
  match goal with |- context [sc_cmd_bulk_out_loop _ _ _ _ ?c] =>
    assert (offsets_in_bounds c) as Hin0 by exact Hin;
    destruct (sc_cmd_bulk_out_loop fuel rx 0 (wrap32 n) c)
      as [[ch1 ev1]| | |] eqn:E end; cbn [rbind]; try discriminate.
  destruct (sc_cmd_bulk_out_loop_bounds _ _ _ _ _ _ _ Hin0 E)
    as [[Hcmd1 Hcan1] Hev1].
  destruct (_ && _).
  - pose proof (sc_cmd_bulk_in_submit_bounds _ Hcmd1) as [Hin2 Hev2].
    destruct (sc_cmd_bulk_in_submit _) as [u2 ev2]. cbn [fst snd] in *.
    intros Hr; inversion Hr; subst; clear Hr.
    split; [split; assumption|].
    constructor; [cbn; lia|]. apply forall_in_bounds_app; assumption.
  - intros Hr; inversion Hr; subst; clear Hr.
    split; [split; assumption|]. constructor; [cbn; lia | exact Hev1].
Qed.

Lemma sc_cmd_bulk_in_bounds cmd :
  bank_offsets_in CMD_BUFFER_SIZE (usb_cmd.tx_offsets cmd) ->
  bank_offsets_in CMD_BUFFER_SIZE
    (usb_cmd.tx_offsets (fst (sc_cmd_bulk_in cmd))) /\
  Forall event_in_bounds (snd (sc_cmd_bulk_in cmd)).
Proof using sizes.
  intros Hin. unfold sc_cmd_bulk_in. cbv zeta.
  assert (0 <= CMD_BUFFER_SIZE) as Hsize
    by (destruct sizes as (_ & _ & ? & _);
        pose proof (wrap8_range sizeof_sc_msg_hello); lia).
  assert (bank_offsets_in CMD_BUFFER_SIZE
            (bank_set (usb_cmd.tx_offsets cmd)
                      (negb (usb_cmd.tx_bank cmd)) 0)) as Hin'
    by (apply bank_offsets_in_set; [exact Hin | lia]).
  destruct (truthy _).
  - apply sc_cmd_bulk_in_submit_bounds. exact Hin'.
  - split; [exact Hin' | constructor].
Qed.

Lemma bank_get_set {A} (p : A * A) (b : bool) (v : A) :
  bank_get (bank_set p b v) b = v.
Proof using Type. destruct b; reflexivity. Qed.

Lemma tx_store_bounds s bytes m :
  task_in_bounds s -> task_ptr_synced s ->
  tx_room s bytes = true -> 0 <= bytes -> reserved_bytes m = bytes ->
  written_bytes m <= bytes ->
  task_in_bounds (tx_store bytes m s) /\ task_ptr_synced (tx_store bytes m s).
Proof using sizes.
  destruct sizes as (_ & Hmsg & _).
  intros [Hin Hev] Hsync Hroom Hbytes Hres Hwritten.
  pose proof (bank_offsets_in_get _ _ (usb_can.tx_bank (t_usb_can s)) Hin)
    as Hoff.
  unfold tx_room in Hroom. apply Z.leb_le in Hroom.
  unfold task_ptr_synced in Hsync. rewrite Hsync in Hroom.
  rewrite wrap32_small in Hroom by lia.
  unfold tx_store, task_in_bounds, task_ptr_synced. cbv zeta.
  cbn [emit set_t_tx_ptr set_t_usb_can t_usb_can t_events t_tx_ptr
       usb_can.tx_offsets usb_can.set_tx_offsets usb_can.tx_bank].
  rewrite bank_get_set, wrap16_small by lia.
  split; [split|].
  - apply bank_offsets_in_set; [exact Hin | lia].
  - apply Forall_app. split; [exact Hev|].
    constructor; [|constructor].
    cbn [event_in_bounds buffer_size]. rewrite Hsync. lia.
  - rewrite Hsync. reflexivity.
Qed.

Lemma tx_submit_bounds s : task_in_bounds s -> task_in_bounds (tx_submit s).
Proof using sizes.
  intros [Hin Hev]. unfold tx_submit.
  pose proof (sc_can_bulk_in_submit_bounds _ Hin) as [Hin1 Hev1].
  destruct (sc_can_bulk_in_submit (t_usb_can s)) as [u ev].
  cbn [fst snd] in *. split; [exact Hin1|].
  cbn [emit t_events set_t_usb_can]. apply Forall_app. split; assumption.
Qed.

Lemma tx_backoff_bounds s : task_in_bounds s -> task_in_bounds (tx_backoff s).
Proof using Type.
  intros [Hin Hev]. unfold tx_backoff. split; [exact Hin|].
  cbn [emit t_events set_t_locals]. apply Forall_app.
  split; [exact Hev | repeat constructor].
Qed.

Lemma task_status_part_bounds ts s k s' :
  task_in_bounds s -> task_ptr_synced s ->
  task_status_part ts s = (k, s') ->
  task_in_bounds s' /\ (k = Next -> task_ptr_synced s').
Proof using sizes.
  pose proof sizes as (_ & _ & _ & Hst & _).
  intros Hin Hsync. unfold task_status_part.
  destruct (send_can_status (t_locals s));
    [|intros Hr; inversion Hr; subst; auto].
  destruct (tx_room s _) eqn:Eroom.
  - intros Hr; inversion Hr; subst; clear Hr. cbv zeta.
    match goal with |- context [tx_store ?b ?m ?s0] =>
      destruct (tx_store_bounds s0 b m) as [Hin1 Hsync1];
      [exact Hin | exact Hsync | exact Eroom | exact Hst | reflexivity
      | apply Z.le_refl |] end.
    split; [exact Hin1 | intros _; exact Hsync1].
  - destruct (sc_can_bulk_in_ep_ready _); intros Hr; inversion Hr; subst.
    + split; [|discriminate]. apply tx_submit_bounds. exact Hin.
    + split; [|discriminate]. apply tx_backoff_bounds. exact Hin.
Qed.

Lemma task_status_fifo_part_bounds s k s' :
  task_in_bounds s -> task_ptr_synced s ->
  task_status_fifo_part s = (k, s') ->
  task_in_bounds s' /\ (k = Next -> task_ptr_synced s').
Proof using sizes.
  pose proof sizes as (_ & _ & _ & _ & Herr & _).
  intros Hin Hsync. unfold task_status_fifo_part. cbv zeta.
  destruct (_ =? _); [intros Hr; inversion Hr; subst; auto|].
  destruct (_ =? CAN_STATUS_FIFO_TYPE_BUS_STATUS);
    [intros Hr; inversion Hr; subst; auto|].
  destruct (_ =? CAN_STATUS_FIFO_TYPE_BUS_ERROR);
    [|intros Hr; inversion Hr; subst; auto].
  destruct (tx_room _ _) eqn:Eroom.
  - intros Hr; inversion Hr; subst; clear Hr.
    match goal with |- context [tx_store ?b ?m ?s0] =>
      destruct (tx_store_bounds s0 b m) as [Hin1 Hsync1];
      [exact Hin | exact Hsync | exact Eroom | exact Herr | reflexivity
      | apply Z.le_refl |] end.
    split; [exact Hin1 | intros _; exact Hsync1].
  - destruct (sc_can_bulk_in_ep_ready _); intros Hr; inversion Hr; subst.
    + split; [|discriminate].
      apply (tx_submit_bounds (set_t_done false s)). exact Hin.
    + split; [|intros _; exact Hsync].
      apply (tx_backoff_bounds (set_t_done false s)). exact Hin.
Qed.

Lemma no_fd_remote_slot c i :
  no_fd_remote c ->
  let f := aget zero_rx_frame (rx_frames c) i in
  truthy (R0_RTR (rxf_R0 f)) && truthy (R1_FDF (rxf_R1 f)) = false.
Proof using Type.
  intros Hfd. unfold aget.
  destruct (rx_frames c !! Z.to_nat i) as [f|] eqn:E; cbn [default];
    [|reflexivity].
  unfold no_fd_remote in Hfd. rewrite Forall_lookup in Hfd.
  exact (Hfd _ _ E).
Qed.

Lemma task_rx_part_bounds s k' s' :
  task_in_bounds s -> task_ptr_synced s -> no_fd_remote (t_can s) ->
  task_rx_part s = Ok (k', s') ->
  task_in_bounds s' /\ (k' = Next -> task_ptr_synced s').
Proof using sizes structs.
  intros Hin Hsync Hfd. unfold task_rx_part, SC_ASSERT. cbv zeta.
  destruct (_ =? _); [intros Hr; inversion Hr; subst; auto|].
  match goal with |- context [rbind ?r _] =>
    destruct r; cbn [rbind]; try discriminate end.
  match goal with |- context [tx_room s ?b] =>
    set (bytes := b);
    assert (0 <= bytes) as Hbytes
      by (subst bytes;
          repeat match goal with
          | |- 0 <= (if ?c then _ else _) => destruct c
          | |- 0 <= wrap8 _ => apply wrap8_range
          end) end.
  destruct (tx_room s bytes) eqn:Eroom.
  - intros Hr; inversion Hr; subst; clear Hr.
    match goal with |- context [tx_store ?b ?m ?s0] =>
      destruct (tx_store_bounds s0 b m) as [Hin1 Hsync1];
      [exact Hin | exact Hsync | exact Eroom | exact Hbytes | reflexivity
      | apply (can_rx_msg_written _ lm structs), no_fd_remote_slot, Hfd |] end.
    split; [exact Hin1 | intros _; exact Hsync1].
  - destruct (sc_can_bulk_in_ep_ready _); intros Hr; inversion Hr; subst.
    + split; [|discriminate].
      apply (tx_submit_bounds (set_t_done false s)). exact Hin.
    + split; [|discriminate]. apply tx_backoff_bounds. exact Hin.
Qed.

Lemma task_txr_part_bounds s k s' :
  task_in_bounds s -> task_ptr_synced s ->
  task_txr_part s = Ok (k, s') ->
  task_in_bounds s' /\ (k = Next -> task_ptr_synced s').
Proof using sizes.
  pose proof sizes as (_ & _ & _ & _ & _ & Htxr & _).
  intros Hin Hsync. unfold task_txr_part, SC_ASSERT. cbv zeta.
  destruct (_ =? _); [intros Hr; inversion Hr; subst; auto|].
  destruct (tx_room s _) eqn:Eroom.
  - match goal with |- context [rbind ?r _] =>
      destruct r; cbn [rbind]; try discriminate end.
    intros Hr; inversion Hr; subst; clear Hr.
    match goal with |- context [tx_store ?b ?m ?s0] =>
      destruct (tx_store_bounds s0 b m) as [Hin1 Hsync1];
      [exact Hin | exact Hsync | exact Eroom | exact Htxr | reflexivity
      | apply Z.le_refl |] end.
    split; [exact Hin1 | intros _; exact Hsync1].
  - destruct (sc_can_bulk_in_ep_ready _); intros Hr; inversion Hr; subst.
    + split; [|discriminate].
      apply (tx_submit_bounds (set_t_done false s)). exact Hin.
    + split; [|discriminate]. apply tx_backoff_bounds. exact Hin.
Qed.

(** No part of the loop body writes a slot of the RX ring. *)
Lemma tx_submit_can s : t_can (tx_submit s) = t_can s.
Proof using Type.
  unfold tx_submit. destruct (sc_can_bulk_in_submit (t_usb_can s)).
  reflexivity.
Qed.

Lemma task_status_part_frames ts s k s' :
  task_status_part ts s = (k, s') ->
  rx_frames (t_can s') = rx_frames (t_can s).
Proof using Type.
  unfold task_status_part.
  repeat match goal with
  | |- context [if ?b then _ else _] => destruct b
  end; intros Hr; inversion Hr; subst; rewrite ?tx_submit_can; reflexivity.
Qed.

Lemma task_status_fifo_part_frames s k s' :
  task_status_fifo_part s = (k, s') ->
  rx_frames (t_can s') = rx_frames (t_can s).
Proof using Type.
  unfold task_status_fifo_part. cbv zeta.
  repeat match goal with
  | |- context [if ?b then _ else _] => destruct b
  end; intros Hr; inversion Hr; subst; rewrite ?tx_submit_can; reflexivity.
Qed.

Lemma task_rx_part_frames s k s' :
  task_rx_part s = Ok (k, s') ->
  rx_frames (t_can s') = rx_frames (t_can s).
Proof using Type.
  unfold task_rx_part, SC_ASSERT. cbv zeta.
  repeat match goal with
  | |- context [if ?b then _ else _] => destruct b
  end; cbn [rbind]; try discriminate;
    intros Hr; inversion Hr; subst; rewrite ?tx_submit_can; reflexivity.
Qed.

Lemma task_txr_part_frames s k s' :
  task_txr_part s = Ok (k, s') ->
  rx_frames (t_can s') = rx_frames (t_can s).
Proof using Type.
  unfold task_txr_part, SC_ASSERT. cbv zeta.
  repeat match goal with
  | |- context [if ?b then _ else _] => destruct b
  end; cbn [rbind]; try discriminate;
    intros Hr; inversion Hr; subst; rewrite ?tx_submit_can; reflexivity.
Qed.

Lemma task_loop_body_bounds ts s k s' :
  task_in_bounds s -> no_fd_remote (t_can s) ->
  task_loop_body ts s = Ok (k, s') ->
  task_in_bounds s' /\ no_fd_remote (t_can s').
Proof using sizes structs.
  intros Hin Hfd. unfold task_loop_body. cbv zeta.
  match goal with |- context [task_status_part ts ?s0] =>
    assert (task_in_bounds s0) as Hin0 by exact Hin;
    assert (task_ptr_synced s0) as Hsync0 by reflexivity;
    assert (no_fd_remote (t_can s0)) as Hfd0 by exact Hfd;
    destruct (task_status_part ts s0) as [k1 s1] eqn:E1 end.
  destruct (task_status_part_bounds _ _ _ _ Hin0 Hsync0 E1) as [Hin1 Hsync1].
  assert (no_fd_remote (t_can s1)) as Hfd1
    by (unfold no_fd_remote; rewrite (task_status_part_frames _ _ _ _ E1);
        exact Hfd0).
  destruct k1; try (intros Hr; inversion Hr; subst; split; assumption).
  specialize (Hsync1 eq_refl).
  destruct (task_status_fifo_part s1) as [k2 s2] eqn:E2.
  destruct (task_status_fifo_part_bounds _ _ _ Hin1 Hsync1 E2)
    as [Hin2 Hsync2].
  assert (no_fd_remote (t_can s2)) as Hfd2
    by (unfold no_fd_remote; rewrite (task_status_fifo_part_frames _ _ _ E2);
        exact Hfd1).
  destruct k2; try (intros Hr; inversion Hr; subst; split; assumption).
  specialize (Hsync2 eq_refl).
  destruct (task_rx_part s2) as [[k3 s3]| | |] eqn:E3; cbn [rbind];
    try discriminate.
  destruct (task_rx_part_bounds _ _ _ Hin2 Hsync2 Hfd2 E3) as [Hin3 Hsync3].
  assert (no_fd_remote (t_can s3)) as Hfd3
    by (unfold no_fd_remote; rewrite (task_rx_part_frames _ _ _ E3);
        exact Hfd2).
  destruct k3; try (intros Hr; inversion Hr; subst; split; assumption).
  specialize (Hsync3 eq_refl).
  intros Hr. split.
  - exact (proj1 (task_txr_part_bounds _ _ _ Hin3 Hsync3 Hr)).
  - unfold no_fd_remote. rewrite (task_txr_part_frames _ _ _ Hr).
    exact Hfd3.
Qed.

Lemma task_loop_bounds ts (fuel : nat) :
  forall s s',
    task_in_bounds s -> no_fd_remote (t_can s) ->
    task_loop fuel ts s = Ok s' -> task_in_bounds s'.
Proof using sizes structs.
  induction fuel as [|fuel IH]; intros s s' Hin Hfd; cbn [task_loop];
    [discriminate|].
  destruct (task_loop_body ts s) as [[k s1]| | |] eqn:Eb; cbn [rbind];
    try discriminate.
  destruct (task_loop_body_bounds _ _ _ _ Hin Hfd Eb) as [Hin1 Hfd1].
  destruct k; try (intros Hr; inversion Hr; subst; exact Hin1);
    (destruct (t_done s1);
     [intros Hr; inversion Hr; subst; exact Hin1 | apply IH; assumption]).
Qed.

Lemma can_usb_task_wake_bounds fuel mounted ts c ucan l c' ucan' l' ev :
  bank_offsets_in MSG_BUFFER_SIZE (usb_can.tx_offsets ucan) ->
  no_fd_remote c ->
  can_usb_task_wake fuel mounted ts c ucan l = Ok (c', ucan', l', ev) ->
  bank_offsets_in MSG_BUFFER_SIZE (usb_can.tx_offsets ucan') /\
  Forall event_in_bounds ev.
Proof using sizes structs.
  intros Hin Hfd. unfold can_usb_task_wake.
  destruct (negb mounted);
    [intros Hr; inversion Hr; subst; split; [exact Hin | constructor]|].
  destruct (negb (enabled c));
    [intros Hr; inversion Hr; subst; split; [exact Hin | constructor]|].
  cbv zeta.
  match goal with |- context [task_loop fuel ts ?s0] =>
    assert (task_in_bounds s0) as Hin0 by (split; [exact Hin | constructor]);
    destruct (task_loop fuel ts s0) as [s1| | |] eqn:El end;
    cbn [rbind]; try discriminate.
  pose proof (task_loop_bounds _ _ _ _ Hin0 Hfd El) as Hin1.
  destruct (_ && _); intros Hr; inversion Hr; subst; clear Hr.
  - apply tx_submit_bounds in Hin1. exact Hin1.
  - exact Hin1.
Qed.

Lemma fw_step_bounds s ev s' :
  fw_step s ev s' -> no_fd_remote (ch_can (fst s)) ->
  offsets_in_bounds (fst s) ->
  offsets_in_bounds (fst s') /\ Forall event_in_bounds ev.
Proof using sizes structs.
  intros Hstep. destruct Hstep; cbn [fst]; intros Hfd Hin.
  - eapply sc_cmd_bulk_out_bounds; eassumption.
  - destruct Hin as [Hcmd Hcan].
    destruct (sc_cmd_bulk_in_bounds _ Hcmd) as [Hcmd1 Hev].
    split; [split; assumption | exact Hev].
  - eapply sc_can_bulk_out_bounds; eassumption.
  - destruct Hin as [Hcmd Hcan].
    destruct (sc_can_bulk_in_bounds _ Hcan) as [Hcan1 Hev].
    split; [split; assumption | exact Hev].
  - destruct Hin as [Hcmd Hcan].
    match goal with Hr : can_usb_task_wake _ _ _ _ _ _ = _ |- _ =>
      destruct (can_usb_task_wake_bounds _ _ _ _ _ _ _ _ _ _ Hcan Hfd Hr)
        as [Hcan1 Hev] end.
    split; [split; assumption | exact Hev].
  - split; [exact Hin | constructor].
  - split; [exact Hin | constructor].
Qed.

End bank_bounds.

Section bank_bounds_theorem.
Context `{supercan_h} `{supercan_layout} `{main_c_rest}.

(** Along every run of the firmware that starts with the fill offsets of
    the four transmit banks of a channel inside the banks, and in which no
    slot of the RX ring is ever marked both as a remote frame and as an FD
    frame, the offsets stay inside the banks, every struct is written
    inside the bank it goes to (with the bytes it reserves and with the bytes
    it writes, the payload copied behind an RX message included), every
    padding is written inside its bank, and no transfer handed to the USB
    layer is longer than its bank; provided the offsets fit their
    [uint16_t], the replies fit the [uint8_t] that holds their size and the
    hello reply fits a command bank, the longest RX message rounded up to
    [SC_MSG_CAN_LEN_MULTIPLE], a power of two, fits its [uint8_t] length,
    and the endpoint size is at least four and divides the size of a CAN
    data bank. *)
Theorem banks_stay_in_bounds (k : Z) (s : fw_state) (ev : list event)
    (s' : fw_state) :
  bank_sizes_ok -> struct_sizes_ok k ->
  fw_run_on (fun s => no_fd_remote (ch_can (fst s))) s ev s' ->
  offsets_in_bounds (fst s) ->
  offsets_in_bounds (fst s') /\ Forall event_in_bounds ev.
Proof.
  intros Hsizes Hstructs Hrun.
  induction Hrun as [s | s1 ev1 s2 ev2 s3 Hfd Hstep Hrun IH]; intros Hin.
  - split; [exact Hin | constructor].
  - destruct (fw_step_bounds Hsizes k Hstructs _ _ _ Hstep Hfd Hin)
      as [Hin2 Hev1].
    destruct (IH Hin2) as [Hin3 Hev2].
    split; [exact Hin3 | apply Forall_app; split; assumption].
Qed.

End bank_bounds_theorem.

Section bank_bounds_samples.
#[local] Existing Instance sample_h.
#[local] Existing Instance sample_layout.
#[local] Existing Instance sample_rest.

Lemma sample_bank_sizes_ok : bank_sizes_ok.
Proof.
  vm_compute. repeat split; (discriminate || reflexivity).
Qed.

Lemma sample_struct_sizes_ok : struct_sizes_ok 2.
Proof.
  vm_compute. repeat split; (discriminate || reflexivity).
Qed.

(** [can_usb_task] wakes on a channel with one frame in its RX ring: it
    stores a status snapshot and, behind it, the RX message with its three
    payload bytes, and submits the bank. *)
Lemma banks_stay_in_bounds_witness :
  exists ev s',
    fw_run_on (fun s => no_fd_remote (ch_can (fst s)))
              (channel_one_rx, task_start) ev s' /\
    (exists m, In (Store (can_tx_buffer false) 24 (Msg_can_rx m)) ev /\
               rx_data m = [1; 2; 3]) /\
    offsets_in_bounds (fst s') /\ Forall event_in_bounds ev.
Proof.
  assert (exists ev s',
            fw_run_on (fun s => no_fd_remote (ch_can (fst s)))
                      (channel_one_rx, task_start) ev s' /\
            exists m, In (Store (can_tx_buffer false) 24 (Msg_can_rx m)) ev /\
                      rx_data m = [1; 2; 3])
    as (ev & s' & Hrun & Hrx).
  { eexists _, _. split.
    - eapply run_on_step;
        [vm_compute; repeat constructor | | apply run_on_done].
      eapply (step_can_usb_task 4 true 2000). vm_compute. reflexivity.
    - eexists. split; [right; left; reflexivity | reflexivity]. }
  exists ev, s'. split; [exact Hrun|]. split; [exact Hrx|].
  apply (banks_stay_in_bounds 2 _ _ _ sample_bank_sizes_ok
           sample_struct_sizes_ok Hrun).
  vm_compute. repeat split; discriminate.
Defined.

End bank_bounds_samples.

(** ** The CAN data endpoint: submitting, completing, reporting a drop *)

Section can_endpoint.
Context `{supercan_h} `{supercan_layout}.

Lemma bank_get_set_other {A} (p : A * A) (b : bool) (v : A) :
  bank_get (bank_set p b v) (negb b) = bank_get p (negb b).
Proof. destruct b; reflexivity. Qed.

Lemma bank_get_set_same {A} (p : A * A) (b : bool) (v : A) :
  bank_get (bank_set p b v) b = v.
Proof. destruct b; reflexivity. Qed.

(** [sc_can_bulk_in_submit] makes the other bank the active one, leaves its
    fill offset alone and ends with the transfer of the bank that was
    active. *)
Lemma sc_can_bulk_in_submit_flips ucan :
  let b := usb_can.tx_bank ucan in
  let ucan' := fst (sc_can_bulk_in_submit ucan) in
  usb_can.tx_bank ucan' = negb b /\
  usb_can.rx_bank ucan' = usb_can.rx_bank ucan /\
  usb_can.pipe ucan' = usb_can.pipe ucan /\
  bank_get (usb_can.tx_offsets ucan') (negb b)
  = bank_get (usb_can.tx_offsets ucan) (negb b) /\
  exists pad,
    snd (sc_can_bulk_in_submit ucan)
    = pad ++ [Xfer (Z.lor 0x80 (usb_can.pipe ucan)) (can_tx_buffer b)
                   (bank_get (usb_can.tx_offsets ucan') b)] /\
    (pad = [] \/ exists off, pad = [Memset0 (can_tx_buffer b) off 4]).
Proof.
  unfold sc_can_bulk_in_submit. cbv zeta.
  destruct (_ && _); cbn [fst snd usb_can.tx_bank usb_can.set_tx_bank
                          usb_can.set_tx_offsets usb_can.tx_offsets
                          usb_can.rx_bank usb_can.pipe].
  - rewrite bank_get_set_other.
    repeat split. eexists. split; [reflexivity|]. right. eexists. reflexivity.
  - repeat split. exists []. split; [reflexivity | left; reflexivity].
Qed.

(** When a TX frame has to be dropped and its TXR does not fit the active
    bank [b] while the endpoint is ready, [sc_process_msg_can_tx] hands bank
    [b] to the USB layer and then stores the TXR at offset 0 of that same
    bank [b] (the pointer [tx_beg] is not recomputed after the submit),
    while it is the fill offset of the other bank, now the active one, that
    advances by the size of the TXR. *)
Theorem dropped_txr_after_submit (fuel : nat) (ts msg_len : Z)
    (image : list Z) (ch : channel) :
  can_tx_msg_ok msg_len image = true ->
  tx_available (ch_can ch) = 0 ->
  wrap32 (MSG_BUFFER_SIZE
          - bank_get (usb_can.tx_offsets (ch_usb_can ch))
                     (usb_can.tx_bank (ch_usb_can ch)))
  < sizeof_sc_msg_can_txr ->
  sc_can_bulk_in_ep_ready (ch_usb_can ch) = true ->
  0 <= sizeof_sc_msg_can_txr <= MSG_BUFFER_SIZE -> MSG_BUFFER_SIZE < 2 ^ 32 ->
  let u := ch_usb_can ch in
  let b := usb_can.tx_bank u in
  let txr := {| txr_track_id := tx_track_id (read_can_tx image);
                txr_flags := SC_CAN_FRAME_FLAG_DRP;
                txr_timestamp_us := ts |} in
  exists ch' pad len,
    sc_process_msg_can_tx (S (S fuel)) ts msg_len image ch
    = Ok (ch', pad ++ [Xfer (Z.lor 0x80 (usb_can.pipe u)) (can_tx_buffer b) len;
                       Store (can_tx_buffer b) 0 (Msg_can_txr txr)]) /\
    (pad = [] \/ exists off, pad = [Memset0 (can_tx_buffer b) off 4]) /\
    usb_can.tx_bank (ch_usb_can ch') = negb b /\
    bank_get (usb_can.tx_offsets (ch_usb_can ch')) b = len /\
    bank_get (usb_can.tx_offsets (ch_usb_can ch')) (negb b)
    = wrap16 sizeof_sc_msg_can_txr /\
    desync (ch_can ch') = desync (ch_can ch) /\
    tx_dropped (ch_can ch') = wrap16 (tx_dropped (ch_can ch) + 1).
Proof.
  intros Hok Havail Hfit Hready Hsize Hmsg u b txr. subst u b.
  unfold can_tx_msg_ok in Hok. apply andb_true_iff in Hok.
  destruct Hok as [E1 E2]. apply negb_true_iff in E1, E2.
  unfold sc_process_msg_can_tx. rewrite E1, E2, Havail.
  change (truthy 0) with false. cbv iota zeta.
  cbn [send_txr].
  rewrite (proj2 (Z.leb_gt _ _) Hfit), Hready.
  destruct (sc_can_bulk_in_submit_flips (ch_usb_can ch))
    as (Hbank & _ & _ & Hother & pad & Hev & Hpad).
  cbv zeta in Hbank, Hother, Hev.
  unfold sc_can_bulk_in_ep_ready in Hready. apply Z.eqb_eq in Hready.
  destruct (sc_can_bulk_in_submit (ch_usb_can ch)) as [u1 ev1].
  cbn [fst snd] in *.
  rewrite Hbank, Hother, Hready.
  replace (MSG_BUFFER_SIZE - 0) with MSG_BUFFER_SIZE by lia.
  rewrite (wrap32_small MSG_BUFFER_SIZE) by lia.
  rewrite (proj2 (Z.leb_le _ _) (proj2 Hsize)). cbn [rbind].
  eexists _, pad, (bank_get (usb_can.tx_offsets u1)
                            (usb_can.tx_bank (ch_usb_can ch))).
  split.
  - rewrite Hev, <- app_assoc. reflexivity.
  - split; [exact Hpad|].
    cbn [ch_usb_can set_ch_usb_can ch_can set_ch_can usb_can.tx_bank
         usb_can.set_tx_offsets usb_can.tx_offsets desync tx_dropped
         set_tx_dropped].
    rewrite bank_get_set_same.
    replace (bank_get
               (bank_set (usb_can.tx_offsets u1)
                         (negb (usb_can.tx_bank (ch_usb_can ch)))
                         (wrap16 (0 + sizeof_sc_msg_can_txr)))
               (usb_can.tx_bank (ch_usb_can ch)))
      with (bank_get (usb_can.tx_offsets u1) (usb_can.tx_bank (ch_usb_can ch)))
      by (destruct (usb_can.tx_bank (ch_usb_can ch)); reflexivity).
    repeat split; assumption || reflexivity.
Qed.

Lemma sc_can_bulk_in_submit_sent ucan :
  let b := usb_can.tx_bank ucan in
  let n := bank_get (usb_can.tx_offsets ucan) b in
  bank_get (usb_can.tx_offsets (fst (sc_can_bulk_in_submit ucan))) b = n \/
  bank_get (usb_can.tx_offsets (fst (sc_can_bulk_in_submit ucan))) b
  = wrap16 (n + 4).
Proof.
  unfold sc_can_bulk_in_submit. cbv zeta.
  destruct (_ && _); cbn [fst usb_can.tx_offsets usb_can.set_tx_bank
                          usb_can.set_tx_offsets].
  - right. apply bank_get_set_same.
  - left. reflexivity.
Qed.

(** The two banks of the CAN data IN endpoint take turns.  Once a filled
    bank is submitted the endpoint is busy; when the transfer completes and
    nothing was stored meanwhile, [sc_can_bulk_in] empties the bank that was
    sent and the endpoint is ready with both banks empty; when [m] bytes
    were stored in the other bank meanwhile, [sc_can_bulk_in] empties the
    bank that was sent, submits the other bank at once, and the endpoint is
    busy again. *)
Theorem in_endpoint_banks_take_turns (u : usb_can.t) (m : Z) :
  let b := usb_can.tx_bank u in
  let n := bank_get (usb_can.tx_offsets u) b in
  sc_can_bulk_in_ep_ready u = true ->
  0 < n -> n + 4 < 2 ^ 16 ->
  let u1 := fst (sc_can_bulk_in_submit u) in
  let stored :=
    usb_can.set_tx_offsets (bank_set (usb_can.tx_offsets u1) (negb b) m) u1 in
  sc_can_bulk_in_ep_ready u1 = false /\
  (snd (sc_can_bulk_in u1) = [] /\
   usb_can.tx_bank (fst (sc_can_bulk_in u1)) = negb b /\
   usb_can.tx_offsets (fst (sc_can_bulk_in u1)) = (0, 0) /\
   sc_can_bulk_in_ep_ready (fst (sc_can_bulk_in u1)) = true) /\
  (0 < m -> m + 4 < 2 ^ 16 ->
   usb_can.tx_bank (fst (sc_can_bulk_in stored)) = b /\
   bank_get (usb_can.tx_offsets (fst (sc_can_bulk_in stored))) b = 0 /\
   sc_can_bulk_in_ep_ready (fst (sc_can_bulk_in stored)) = false /\
   exists pad len,
     snd (sc_can_bulk_in stored)
     = pad ++ [Xfer (Z.lor 0x80 (usb_can.pipe u)) (can_tx_buffer (negb b))
                    len] /\
     (len = m \/ len = m + 4)).
Proof.
  intros b n Hready Hn Hsmall u1 stored.
  unfold sc_can_bulk_in_ep_ready in Hready. apply Z.eqb_eq in Hready.
  fold b in Hready.
  destruct (sc_can_bulk_in_submit_flips u)
    as (Hbank & _ & Hpipe & Hother & _).
  cbv zeta in Hbank, Hpipe, Hother. fold b u1 in Hbank, Hpipe, Hother.
  pose proof (sc_can_bulk_in_submit_sent u) as Hsent.
  cbv zeta in Hsent. fold b n u1 in Hsent.
  assert (0 < bank_get (usb_can.tx_offsets u1) b) as Hsent_pos.
  { destruct Hsent as [-> | ->]; [exact Hn|].
    unfold wrap16. rewrite Z.mod_small by lia. lia. }
  rewrite Hready in Hother.
  split; [|split].
  - unfold sc_can_bulk_in_ep_ready. rewrite Hbank, negb_involutive.
    apply Z.eqb_neq. lia.
  - unfold sc_can_bulk_in. cbv zeta.
    cbn [usb_can.tx_offsets usb_can.set_tx_offsets usb_can.tx_bank].
    rewrite Hbank, negb_involutive.
    replace (bank_get (bank_set (usb_can.tx_offsets u1) b 0) (negb b))
      with 0 by (rewrite bank_get_set_other; symmetry; exact Hother).
    change (truthy 0) with false. cbv iota. cbn [fst snd].
    cbn [usb_can.tx_offsets usb_can.set_tx_offsets usb_can.tx_bank].
    split; [reflexivity|]. split; [exact Hbank|].
    assert (bank_set (usb_can.tx_offsets u1) b 0 = (0, 0)) as Hzero.
    { destruct (usb_can.tx_offsets u1) as [o0 o1].
      destruct b; cbn in *; congruence. }
    split; [exact Hzero|].
    unfold sc_can_bulk_in_ep_ready.
    cbn [usb_can.tx_offsets usb_can.set_tx_offsets usb_can.tx_bank].
    rewrite Hzero. destruct (negb (usb_can.tx_bank u1)); reflexivity.
  - intros Hm Hmsmall. unfold sc_can_bulk_in. cbv zeta.
    set (done := usb_can.set_tx_offsets
                   (bank_set (usb_can.tx_offsets stored)
                             (negb (usb_can.tx_bank stored)) 0) stored).
    assert (usb_can.tx_bank done = negb b) as Hdbank by exact Hbank.
    assert (bank_get (usb_can.tx_offsets done) (negb b) = m) as Hdm.
    { subst done stored.
      cbn [usb_can.tx_offsets usb_can.set_tx_offsets usb_can.tx_bank].
      rewrite Hbank, negb_involutive.
      replace (negb b) with (negb (negb (negb b))) at 2
        by (rewrite negb_involutive; reflexivity).
      rewrite negb_involutive.
      destruct (usb_can.tx_offsets u1) as [o0 o1]. destruct b; reflexivity. }
    assert (bank_get (usb_can.tx_offsets done) b = 0) as Hd0.
    { subst done stored.
      cbn [usb_can.tx_offsets usb_can.set_tx_offsets usb_can.tx_bank].
      rewrite Hbank, negb_involutive. apply bank_get_set_same. }
    assert (usb_can.pipe done = usb_can.pipe u) as Hdpipe by exact Hpipe.
    rewrite Hdbank, Hdm.
    unfold truthy. rewrite (proj2 (Z.eqb_neq m 0) ltac:(lia)). cbn [negb].
    destruct (sc_can_bulk_in_submit_flips done)
      as (Hbank2 & _ & _ & Hother2 & pad & Hev2 & _).
    cbv zeta in Hbank2, Hother2, Hev2.
    pose proof (sc_can_bulk_in_submit_sent done) as Hsent2.
    cbv zeta in Hsent2.
    rewrite Hdbank in Hbank2, Hother2, Hev2, Hsent2.
    rewrite negb_involutive in Hbank2, Hother2.
    rewrite Hdm in Hsent2. rewrite Hd0 in Hother2. rewrite Hdpipe in Hev2.
    assert (bank_get (usb_can.tx_offsets (fst (sc_can_bulk_in_submit done)))
                     (negb b) = m \/
            bank_get (usb_can.tx_offsets (fst (sc_can_bulk_in_submit done)))
                     (negb b) = m + 4) as Hlen.
    { destruct Hsent2 as [E|E]; [left; exact E|right].
      rewrite E. unfold wrap16. apply Z.mod_small. lia. }
    split; [exact Hbank2|]. split; [exact Hother2|].
    split.
    + unfold sc_can_bulk_in_ep_ready. rewrite Hbank2.
      apply Z.eqb_neq. lia.
    + exists pad, (bank_get (usb_can.tx_offsets
                               (fst (sc_can_bulk_in_submit done))) (negb b)).
      split; [exact Hev2 | exact Hlen].
Qed.

End can_endpoint.

Section can_endpoint_samples.
#[local] Existing Instance sample_h.
#[local] Existing Instance sample_layout.

(** A TX frame arrives at a channel without a free slot whose active bank 0
    holds 508 of 512 bytes: bank 0 is sent and then written at offset 0. *)
Lemma dropped_txr_after_submit_witness :
  exists ch' pad len,
    sc_process_msg_can_tx 2 1000 12 can_tx_request channel_full_ready
    = Ok (ch', pad ++ [Xfer (Z.lor 0x80 2) (can_tx_buffer false) len;
                       Store (can_tx_buffer false) 0
                             (Msg_can_txr {| txr_track_id := 7;
                                             txr_flags := 0x20;
                                             txr_timestamp_us := 1000 |})]) /\
    usb_can.tx_bank (ch_usb_can ch') = true /\
    bank_get (usb_can.tx_offsets (ch_usb_can ch')) false = len /\
    bank_get (usb_can.tx_offsets (ch_usb_can ch')) true = 8.
Proof.
  destruct (dropped_txr_after_submit 0 1000 12 can_tx_request
              channel_full_ready)
    as (ch' & pad & len & Hr & _ & Hbank & Hlen & Hoff & _);
    [reflexivity | reflexivity | reflexivity | reflexivity
    | vm_compute; split; discriminate | reflexivity|].
  exists ch', pad, len.
  split; [exact Hr|]. split; [exact Hbank|]. split; [exact Hlen | exact Hoff].
Defined.

(** Bank 0 is submitted with 128 bytes; the transfer completes with nothing
    pending, or with 16 bytes pending in bank 1. *)
Lemma in_endpoint_banks_take_turns_witness :
  let u1 := fst (sc_can_bulk_in_submit (usb_can_filled 128)) in
  let stored :=
    usb_can.set_tx_offsets (bank_set (usb_can.tx_offsets u1) true 16) u1 in
  sc_can_bulk_in_ep_ready u1 = false /\
  usb_can.tx_offsets (fst (sc_can_bulk_in u1)) = (0, 0) /\
  sc_can_bulk_in_ep_ready (fst (sc_can_bulk_in u1)) = true /\
  usb_can.tx_bank (fst (sc_can_bulk_in stored)) = false /\
  sc_can_bulk_in_ep_ready (fst (sc_can_bulk_in stored)) = false.
Proof.
  destruct (in_endpoint_banks_take_turns (usb_can_filled 128) 16)
    as (Hbusy & (_ & _ & Hempty & Hready) & Hpending);
    [reflexivity | reflexivity | reflexivity|].
  destruct Hpending as (Hbank & _ & Hbusy2 & _); [reflexivity | reflexivity|].
  split; [exact Hbusy|]. split; [exact Hempty|]. split; [exact Hready|].
  split; [exact Hbank | exact Hbusy2].
Defined.

End can_endpoint_samples.

(** ** The command processor: bit timing, hello, receive banks *)

Section cmd_more.
Context `{supercan_h} `{supercan_layout} `{main_c_rest}.

Lemma cmd_ids_neq :
  cmd_ids_distinct ->
  forall i j x y,
    [SC_MSG_EOF; SC_MSG_HELLO_DEVICE; SC_MSG_DEVICE_INFO; SC_MSG_CAN_INFO;
     SC_MSG_NM_BITTIMING; SC_MSG_DT_BITTIMING; SC_MSG_FEATURES; SC_MSG_BUS]
      !! i = Some x ->
    [SC_MSG_EOF; SC_MSG_HELLO_DEVICE; SC_MSG_DEVICE_INFO; SC_MSG_CAN_INFO;
     SC_MSG_NM_BITTIMING; SC_MSG_DT_BITTIMING; SC_MSG_FEATURES; SC_MSG_BUS]
      !! j = Some y ->
    i <> j -> (x =? y) = false.
Proof.
  intros Hd i j x y Hi Hj Hne. apply Z.eqb_neq. intros ->.
  apply Hne. exact (NoDup_lookup _ _ _ _ Hd Hi Hj).
Qed.

Lemma wrap16_range x : 0 <= wrap16 x < 2 ^ 16.
Proof. unfold wrap16. apply Z.mod_pos_bound. lia. Qed.

Lemma tu_clamp16 (lo hi x : Z) :
  0 <= lo <= hi -> hi < 2 ^ 16 ->
  tu_max16 lo (tu_min16 x hi) = Z.max lo (Z.min (wrap16 x) hi).
Proof.
  intros Hlo Hhi. unfold tu_max16, tu_min16.
  pose proof (wrap16_range x).
  rewrite (wrap16_small lo), (wrap16_small hi) by lia.
  rewrite wrap16_small by lia. reflexivity.
Qed.

Lemma tu_clamp8 (lo hi x : Z) :
  0 <= lo <= hi -> hi < 2 ^ 8 ->
  tu_max8 lo (tu_min8 x hi) = Z.max lo (Z.min (wrap8 x) hi).
Proof.
  intros Hlo Hhi. unfold tu_max8, tu_min8.
  pose proof (wrap8_range x). change (2 ^ 8) with 256 in *.
  rewrite (wrap8_small lo), (wrap8_small hi) by lia.
  rewrite wrap8_small by lia. reflexivity.
Qed.

Lemma clamp_range (lo hi x : Z) :
  lo <= hi ->
  lo <= Z.max lo (Z.min x hi) <= hi /\
  (lo <= x <= hi -> Z.max lo (Z.min x hi) = x) /\
  (hi < x -> Z.max lo (Z.min x hi) = hi) /\
  (x < lo -> Z.max lo (Z.min x hi) = lo).
Proof. intros. repeat split; lia. Qed.

(** A nominal bit timing request of sufficient length is never rejected:
    each of [brp], [sjw], [tseg1], [tseg2], taken as a value of its field
    type, is clamped on its own into the range of
    [sc_board_can_nm_bit_timing_range], the result is handed to
    [sc_board_can_nm_bit_timing_set], and the reply carries
    [SC_CAN_ERROR_NONE]; a field inside the range is applied as requested,
    and a [brp] above the maximum is applied as the maximum. *)
Theorem nm_bittiming_clamped (fuel : nat) (rx : list Z)
    (msg msg_len in_ptr in_end : Z) (ch : channel) :
  cmd_ids_distinct ->
  bit_timing_range_ok nm_range ->
  wrap8 sizeof_sc_msg_error <= CMD_BUFFER_SIZE ->
  sizeof_sc_msg_bittiming <= msg_len ->
  let tmsg := read_bittiming (bytes_at rx msg sizeof_sc_msg_bittiming) in
  let clamp lo hi x := Z.max lo (Z.min x hi) in
  let bt :=
    {| brp := clamp (brp (min nm_range)) (brp (max nm_range))
                    (wrap16 (bt_brp tmsg));
       tseg1 := clamp (tseg1 (min nm_range)) (tseg1 (max nm_range))
                      (wrap16 (bt_tseg1 tmsg));
       tseg2 := clamp (tseg2 (min nm_range)) (tseg2 (max nm_range))
                      (wrap8 (bt_tseg2 tmsg));
       sjw := clamp (sjw (min nm_range)) (sjw (max nm_range))
                    (wrap8 (bt_sjw tmsg)) |} in
  exists cmd' ev,
    sc_cmd_dispatch (S (S fuel)) rx msg SC_MSG_NM_BITTIMING msg_len
                    in_ptr in_end ch
    = Ok (set_ch_cmd cmd' ch, in_ptr,
          Board (board_can_nm_bit_timing_set bt) :: ev) /\
    sc_cmd_place_error_reply (S (S fuel)) SC_CAN_ERROR_NONE (ch_cmd ch)
    = Ok (cmd', ev) /\
    (brp (min nm_range) <= brp bt <= brp (max nm_range)) /\
    (tseg1 (min nm_range) <= tseg1 bt <= tseg1 (max nm_range)) /\
    (tseg2 (min nm_range) <= tseg2 bt <= tseg2 (max nm_range)) /\
    (sjw (min nm_range) <= sjw bt <= sjw (max nm_range)) /\
    (brp (min nm_range) <= bt_brp tmsg <= brp (max nm_range) ->
     brp bt = bt_brp tmsg) /\
    (brp (max nm_range) < wrap16 (bt_brp tmsg) ->
     brp bt = brp (max nm_range)).
Proof.
  intros Hd (Hbrp & Htseg1 & Htseg2 & Hsjw) Herr Hlen tmsg clamp bt.
  pose proof (wrap8_range sizeof_sc_msg_error) as Herr0.
  assert (0 <= wrap8 sizeof_sc_msg_error <= CMD_BUFFER_SIZE) as Hfits by lia.
  destruct (cmd_place_reply_ok fuel (wrap8 sizeof_sc_msg_error)
              (Msg_error SC_CAN_ERROR_NONE) (ch_cmd ch) Hfits)
    as [[cmd' ev] Hreply].
  exists cmd', ev.
  assert (bt = clamp_bittiming nm_range tmsg) as Hbt.
  { subst bt clamp. unfold clamp_bittiming. cbv beta.
    rewrite !tu_clamp16, !tu_clamp8 by lia. reflexivity. }
  split.
  - unfold sc_cmd_dispatch.
    rewrite (cmd_ids_neq Hd 4 0 _ _ eq_refl eq_refl ltac:(lia)).
    rewrite (cmd_ids_neq Hd 4 1 _ _ eq_refl eq_refl ltac:(lia)).
    rewrite (cmd_ids_neq Hd 4 2 _ _ eq_refl eq_refl ltac:(lia)).
    rewrite (cmd_ids_neq Hd 4 3 _ _ eq_refl eq_refl ltac:(lia)).
    rewrite Z.eqb_refl, (proj2 (Z.ltb_ge _ _) Hlen).
    cbv zeta. fold tmsg. rewrite <- Hbt.
    unfold sc_cmd_place_error_reply. rewrite Hreply. reflexivity.
  - split; [exact Hreply|].
    subst bt clamp. cbn [brp tseg1 tseg2 sjw].
    pose proof (wrap16_range (bt_brp tmsg)).
    repeat split; try lia.
    intros Hin. rewrite wrap16_small by lia. lia.
Qed.

(** A [SC_MSG_HELLO_DEVICE] message ends the processing of its buffer:
    whatever follows it in the buffer is not looked at.  The board is
    reset, the active bank of the CAN data endpoint is sent as it is, and
    the hello reply is stored at the start of the active command bank,
    whose fill offset becomes the size of the reply whatever it was. *)
Theorem hello_device_ends_parsing (fuel : nat) (rx : list Z)
    (in_ptr in_end : Z) (ch : channel) :
  SC_MSG_HELLO_DEVICE <> SC_MSG_EOF ->
  in_ptr + SC_MSG_HEADER_LEN <= in_end ->
  aget 0 rx in_ptr = SC_MSG_HELLO_DEVICE ->
  0 < aget 0 rx (in_ptr + 1) ->
  in_ptr + aget 0 rx (in_ptr + 1) <= in_end ->
  let cmd := ch_cmd ch in
  let ucan := ch_usb_can ch in
  sc_cmd_bulk_out_loop (S (S fuel)) rx in_ptr in_end ch
  = Ok (set_ch_cmd
          (usb_cmd.set_tx_offsets
             (bank_set (usb_cmd.tx_offsets cmd) (usb_cmd.tx_bank cmd)
                       (wrap8 sizeof_sc_msg_hello)) cmd) ch,
        [Board board_can_reset;
         Xfer (Z.lor 0x80 (usb_can.pipe ucan))
              (can_tx_buffer (usb_can.tx_bank ucan))
              (bank_get (usb_can.tx_offsets ucan) (usb_can.tx_bank ucan));
         Store (cmd_tx_buffer (usb_cmd.tx_bank cmd)) 0
               (Msg_hello CMD_BUFFER_SIZE)]).
Proof.
  intros Hne Hhdr Hid Hlen Hfit cmd ucan.
  cbn [sc_cmd_bulk_out_loop].
  rewrite (proj2 (Z.leb_le _ _) Hhdr).
  rewrite (proj2 (Z.ltb_ge _ _) Hfit).
  assert (aget 0 rx (in_ptr + 1) <> 0) as Hnz by lia.
  rewrite (proj2 (Z.eqb_neq _ _) Hnz).
  unfold sc_cmd_dispatch. rewrite Hid.
  rewrite (proj2 (Z.eqb_neq _ _) Hne), Z.eqb_refl.
  cbv zeta. cbn [rbind].
  unfold SC_MSG_HEADER_LEN.
  assert (in_end < in_end + 2) as Hend by lia.
  rewrite (proj2 (Z.leb_gt _ _) Hend).
  cbn [rbind app]. reflexivity.
Qed.

Lemma cmd_place_reply_keeps (bytes : Z) (m : wire_msg) (fuel : nat) :
  forall cmd cmd' ev,
    cmd_place_reply fuel bytes m cmd = Ok (cmd', ev) ->
    usb_cmd.rx_bank cmd' = usb_cmd.rx_bank cmd /\
    usb_cmd.pipe cmd' = usb_cmd.pipe cmd /\
    Forall (fun e => arms_out e = false) ev.
Proof.
  induction fuel as [|fuel IH]; intros cmd cmd' ev Hr;
    cbn [cmd_place_reply] in Hr; [discriminate|].
  destruct (_ <=? _).
  - inversion Hr; subst. repeat split. repeat constructor.
  - destruct (sc_cmd_bulk_in_ep_ready cmd).
    + unfold sc_cmd_bulk_in_submit in Hr.
      destruct (cmd_place_reply fuel _ m _) as [[c2 ev2]| | |] eqn:E;
        cbn [rbind] in Hr; try discriminate.
      inversion Hr; subst; clear Hr.
      apply IH in E. destruct E as (Hb & Hp & Hev).
      repeat split; [exact Hb | exact Hp|].
      constructor; [reflexivity | exact Hev].
    + inversion Hr; subst. repeat split. constructor.
Qed.

Lemma sc_cmd_dispatch_keeps fuel rx msg msg_id msg_len in_ptr in_end
    ch ch' in_ptr' ev :
  sc_cmd_dispatch fuel rx msg msg_id msg_len in_ptr in_end ch
  = Ok (ch', in_ptr', ev) ->
  usb_cmd.rx_bank (ch_cmd ch') = usb_cmd.rx_bank (ch_cmd ch) /\
  usb_cmd.pipe (ch_cmd ch') = usb_cmd.pipe (ch_cmd ch) /\
  ch_usb_can ch' = ch_usb_can ch /\
  Forall (fun e => arms_out e = false) ev.
Proof.
  unfold sc_cmd_dispatch, sc_cmd_place_error_reply. cbv zeta.
  repeat match goal with
  | |- context [dt_range] => destruct dt_range
  | |- context [if ?b then _ else _] => destruct b
  | |- context [let '(_, _) := sc_cmd_bus ?a ?b ?c in _] =>
      let Hbus := fresh "Hbus" in
      pose proof (sc_cmd_bus_cases a b c) as Hbus;
      destruct (sc_cmd_bus a b c) as [[? ?] ?]; cbn [fst snd] in Hbus
  | |- context [let '(_, _) := ?p in _] => destruct p
  end;
  try discriminate;
  try match goal with
  | |- rbind (cmd_place_can_info fuel ?c) _ = _ -> _ =>
      let E := fresh "E" in
      destruct (cmd_place_can_info fuel c) as [[c2 ev2]| | |] eqn:E;
      cbn [rbind]; try discriminate;
      apply cmd_place_can_info_ok in E; destruct E as [dt E];
      destruct (cmd_place_reply_keeps _ _ fuel _ _ _ E) as (Hb & Hp & Hev2)
  | |- rbind (cmd_place_reply fuel ?b ?m ?c) _ = _ -> _ =>
      let E := fresh "E" in
      destruct (cmd_place_reply fuel b m c) as [[c2 ev2]| | |] eqn:E;
      cbn [rbind]; try discriminate;
      destruct (cmd_place_reply_keeps b m fuel _ _ _ E) as (Hb & Hp & Hev2)
  end;
  intros Hr; inversion Hr; subst; clear Hr;
  cbn [ch_cmd ch_usb_can set_ch_cmd set_ch_can usb_cmd.rx_bank usb_cmd.pipe
       usb_cmd.set_tx_offsets];
  (repeat split; try assumption; try reflexivity);
  repeat first [ assumption
               | exact I
               | apply Forall_nil
               | apply Forall_cons_2; [reflexivity|]
               | match goal with
                 | Hbus : _ \/ _ |- Forall _ (?l ++ _) =>
                     apply Forall_app; split;
                     [destruct Hbus as [[-> _]|[->| ->]]; repeat constructor|]
                 end ].
Qed.

Lemma sc_cmd_bulk_out_loop_keeps rx in_end (fuel : nat) :
  forall in_ptr ch ch' ev,
    sc_cmd_bulk_out_loop fuel rx in_ptr in_end ch = Ok (ch', ev) ->
    usb_cmd.rx_bank (ch_cmd ch') = usb_cmd.rx_bank (ch_cmd ch) /\
    usb_cmd.pipe (ch_cmd ch') = usb_cmd.pipe (ch_cmd ch) /\
    ch_usb_can ch' = ch_usb_can ch /\
    Forall (fun e => arms_out e = false) ev.
Proof.
  induction fuel as [|fuel IH]; intros in_ptr ch ch' ev;
    cbn [sc_cmd_bulk_out_loop]; destruct (_ <=? _);
    try discriminate;
    try (intros Hr; inversion Hr; subst; repeat split; constructor).
  destruct (_ <? _);
    [intros Hr; inversion Hr; subst; repeat split; constructor|].
  destruct (_ =? 0);
    [intros Hr; inversion Hr; subst; repeat split; constructor|].
  destruct (sc_cmd_dispatch _ _ _ _ _ _ _ _) as [[[ch1 p1] ev1]| | |] eqn:E;
    cbn [rbind]; try discriminate.
  destruct (sc_cmd_dispatch_keeps _ _ _ _ _ _ _ _ _ _ _ E)
    as (Hb1 & Hp1 & Hu1 & Hev1).
  destruct (sc_cmd_bulk_out_loop fuel _ _ _ ch1) as [[ch2 ev2]| | |] eqn:E2;
    cbn [rbind]; try discriminate.
  intros Hr; inversion Hr; subst; clear Hr.
  destruct (IH _ _ _ _ E2) as (Hb2 & Hp2 & Hu2 & Hev2).
  repeat split; [congruence | congruence | congruence|].
  apply Forall_app. split; assumption.
Qed.

Lemma sc_can_bulk_in_submit_keeps ucan :
  usb_can.rx_bank (fst (sc_can_bulk_in_submit ucan)) = usb_can.rx_bank ucan /\
  usb_can.pipe (fst (sc_can_bulk_in_submit ucan)) = usb_can.pipe ucan /\
  Forall (fun e => arms_out e = false) (snd (sc_can_bulk_in_submit ucan)).
Proof.
  unfold sc_can_bulk_in_submit. cbv zeta.
  destruct (_ && _); cbn [fst snd app usb_can.rx_bank usb_can.pipe
                          usb_can.set_tx_bank usb_can.set_tx_offsets];
    repeat split; repeat constructor.
Qed.

Lemma send_txr_keeps (fuel : nat) (ts track_id : Z) (tx_beg : bool) :
  forall ucan c ucan' c' ev,
    send_txr fuel ts track_id tx_beg ucan c = Ok (ucan', c', ev) ->
    usb_can.rx_bank ucan' = usb_can.rx_bank ucan /\
    usb_can.pipe ucan' = usb_can.pipe ucan /\
    Forall (fun e => arms_out e = false) ev.
Proof.
  induction fuel as [|fuel IH]; intros ucan c ucan' c' ev Hr;
    cbn [send_txr] in Hr; [discriminate|].
  destruct (_ <=? _).
  - inversion Hr; subst. repeat split. repeat constructor.
  - destruct (sc_can_bulk_in_ep_ready ucan).
    + destruct (sc_can_bulk_in_submit_keeps ucan) as (Hb1 & Hp1 & Hev1).
      destruct (sc_can_bulk_in_submit ucan) as [u1 ev1]. cbn [fst snd] in *.
      destruct (send_txr fuel ts track_id tx_beg u1 c)
        as [[[u2 c2] ev2]| | |] eqn:E; cbn [rbind] in Hr; try discriminate.
      inversion Hr; subst; clear Hr.
      destruct (IH _ _ _ _ _ E) as (Hb2 & Hp2 & Hev2).
      repeat split; [congruence | congruence|].
      apply Forall_app. split; assumption.
    + inversion Hr; subst. repeat split. constructor.
Qed.

Lemma sc_process_msg_can_tx_keeps fuel ts msg_len image ch ch' ev :
  sc_process_msg_can_tx fuel ts msg_len image ch = Ok (ch', ev) ->
  usb_can.rx_bank (ch_usb_can ch') = usb_can.rx_bank (ch_usb_can ch) /\
  usb_can.pipe (ch_usb_can ch') = usb_can.pipe (ch_usb_can ch) /\
  ch_cmd ch' = ch_cmd ch /\
  Forall (fun e => arms_out e = false) ev.
Proof.
  unfold sc_process_msg_can_tx. cbv zeta.
  destruct (_ <? _);
    [intros Hr; inversion Hr; subst; repeat split; constructor|].
  destruct (_ && _);
    [intros Hr; inversion Hr; subst; repeat split; constructor|].
  destruct (truthy _).
  - intros Hr; inversion Hr; subst. repeat split. constructor.
  - destruct (send_txr _ _ _ _ _ _) as [[[u c] ev1]| | |] eqn:E; cbn [rbind];
      try discriminate.
    intros Hr; inversion Hr; subst; clear Hr.
    destruct (send_txr_keeps _ _ _ _ _ _ _ _ _ E) as (Hb & Hp & Hev).
    repeat split; assumption.
Qed.

Lemma sc_can_bulk_out_loop_keeps ts rx in_end (fuel : nat) :
  forall in_ptr ch ch' ev,
    sc_can_bulk_out_loop fuel ts rx in_ptr in_end ch = Ok (ch', ev) ->
    usb_can.rx_bank (ch_usb_can ch') = usb_can.rx_bank (ch_usb_can ch) /\
    usb_can.pipe (ch_usb_can ch') = usb_can.pipe (ch_usb_can ch) /\
    ch_cmd ch' = ch_cmd ch /\
    Forall (fun e => arms_out e = false) ev.
Proof.
  induction fuel as [|fuel IH]; intros in_ptr ch ch' ev;
    cbn [sc_can_bulk_out_loop]; destruct (_ <=? _);
    try discriminate;
    try (intros Hr; inversion Hr; subst; repeat split; constructor).
  destruct (_ <? _);
    [intros Hr; inversion Hr; subst; repeat split; constructor|].
  destruct (_ || _);
    [intros Hr; inversion Hr; subst; repeat split; constructor|].
  destruct (_ =? SC_MSG_CAN_TX).
  - destruct (sc_process_msg_can_tx _ _ _ _ _) as [[ch1 ev1]| | |] eqn:E;
      cbn [rbind]; try discriminate.
    destruct (sc_process_msg_can_tx_keeps _ _ _ _ _ _ _ E)
      as (Hb1 & Hp1 & Hc1 & Hev1).
    destruct (sc_can_bulk_out_loop fuel _ _ _ _ ch1) as [[ch2 ev2]| | |] eqn:E2;
      cbn [rbind]; try discriminate.
    intros Hr; inversion Hr; subst; clear Hr.
    destruct (IH _ _ _ _ E2) as (Hb2 & Hp2 & Hc2 & Hev2).
    repeat split; [congruence | congruence | congruence|].
    apply Forall_app. split; assumption.
  - cbn [rbind].
    destruct (sc_can_bulk_out_loop fuel _ _ _ _ ch) as [[ch2 ev2]| | |] eqn:E2;
      cbn [rbind]; try discriminate.
    intros Hr; inversion Hr; subst; clear Hr.
    exact (IH _ _ _ _ E2).
Qed.

(** Every completed OUT transfer re-arms its endpoint exactly once, and
    first of all: [sc_can_bulk_out] returns on every buffer of bytes, and
    so does [sc_cmd_bulk_out] on a board that provides a data bit timing
    range (otherwise a command may read through the [NULL] pointer); their
    first action is to hand the other receive bank to the USB layer in full
    size, no further receive bank is handed over while the buffer is
    processed, and the receive bank of the endpoint is flipped while that
    of the other endpoint stays. *)
Theorem out_endpoints_rearmed (fuel : nat) (ts n : Z) (rx : list Z)
    (ch : channel) :
  buffers_ok -> is_bytes rx -> 0 <= n < 2 ^ 32 -> n < Z.of_nat fuel ->
  (board_has_dt_range ->
   exists ch' ev,
     sc_cmd_bulk_out fuel rx n ch
     = Ok (ch', Xfer (usb_cmd.pipe (ch_cmd ch))
                     (cmd_rx_buffer (negb (usb_cmd.rx_bank (ch_cmd ch))))
                     CMD_BUFFER_SIZE :: ev) /\
     Forall (fun e => arms_out e = false) ev /\
     usb_cmd.rx_bank (ch_cmd ch') = negb (usb_cmd.rx_bank (ch_cmd ch)) /\
     usb_cmd.pipe (ch_cmd ch') = usb_cmd.pipe (ch_cmd ch) /\
     usb_can.rx_bank (ch_usb_can ch') = usb_can.rx_bank (ch_usb_can ch)) /\
  (exists ch' ev,
     sc_can_bulk_out fuel ts rx n ch
     = Ok (ch', Xfer (usb_can.pipe (ch_usb_can ch))
                     (can_rx_buffer (negb (usb_can.rx_bank (ch_usb_can ch))))
                     MSG_BUFFER_SIZE :: ev) /\
     Forall (fun e => arms_out e = false) ev /\
     usb_can.rx_bank (ch_usb_can ch')
     = negb (usb_can.rx_bank (ch_usb_can ch)) /\
     usb_can.pipe (ch_usb_can ch') = usb_can.pipe (ch_usb_can ch) /\
     usb_cmd.rx_bank (ch_cmd ch') = usb_cmd.rx_bank (ch_cmd ch)).
Proof.
  intros Hok Hb Hn Hfuel.
  assert (wrap32 n = n) as Hw by (apply wrap32_small; exact Hn).
  split.
  - intros Hhas. unfold sc_cmd_bulk_out. cbv zeta. rewrite Hw.
    match goal with |- context [sc_cmd_bulk_out_loop _ _ _ _ ?c] =>
      assert (n - 0 < Z.of_nat fuel) as Hfuel0 by lia;
      destruct (sc_cmd_bulk_out_loop_ok rx n Hok Hhas Hb fuel 0 c Hfuel0)
        as [[ch1 ev1] Hr];
      destruct (sc_cmd_bulk_out_loop_keeps _ _ _ _ _ _ _ Hr)
        as (Hb1 & Hp1 & Hu1 & Hev1) end.
    rewrite Hr. cbn [rbind].
    cbn [ch_cmd ch_usb_can set_ch_cmd usb_cmd.rx_bank usb_cmd.pipe
         usb_cmd.set_rx_bank] in *.
    destruct (_ && _).
    + unfold sc_cmd_bulk_in_submit.
      eexists _, _. split; [reflexivity|].
      cbn [ch_cmd ch_usb_can set_ch_cmd usb_cmd.rx_bank usb_cmd.pipe
           usb_cmd.set_tx_bank].
      repeat split; try assumption; try (rewrite Hu1; reflexivity).
      apply Forall_app. split; [exact Hev1 | repeat constructor].
    + eexists _, _. split; [reflexivity|].
      repeat split; try assumption; rewrite Hu1; reflexivity.
  - unfold sc_can_bulk_out. cbv zeta. rewrite Hw.
    destruct (n =? 0).
    { eexists _, _. split; [reflexivity|]. repeat split. constructor. }
    match goal with |- context [sc_can_bulk_out_loop _ _ _ _ _ ?c] =>
      assert (n - 0 < Z.of_nat fuel) as Hfuel0 by lia;
      destruct (sc_can_bulk_out_loop_ok ts rx n Hok Hb fuel 0 c Hfuel0)
        as [[ch1 ev1] Hr];
      destruct (sc_can_bulk_out_loop_keeps _ _ _ _ _ _ _ _ Hr)
        as (Hb1 & Hp1 & Hc1 & Hev1) end.
    rewrite Hr. cbn [rbind].
    cbn [ch_cmd ch_usb_can set_ch_usb_can usb_can.rx_bank usb_can.pipe
         usb_can.set_rx_bank] in *.
    destruct (_ && _).
    + destruct (sc_can_bulk_in_submit_keeps (ch_usb_can ch1))
        as (Hb2 & Hp2 & Hev2).
      destruct (sc_can_bulk_in_submit (ch_usb_can ch1)) as [u2 ev2].
      cbn [fst snd] in *.
      eexists _, _. split; [reflexivity|].
      cbn [ch_cmd ch_usb_can set_ch_usb_can].
      repeat split; try congruence.
      apply Forall_app. split; assumption.
    + eexists _, _. split; [reflexivity|].
      repeat split; try assumption. congruence.
Qed.

(** A feature request of sufficient length: [SC_FEAT_OP_CLEAR] resets the
    active features to the permanent ones and is answered with
    [SC_ERROR_NONE]; [SC_FEAT_OP_OR] with more than one of the three mode
    flags in its argument is answered with [SC_ERROR_PARAM] and leaves the
    channel as it is, whatever the other bits of the argument. *)
Theorem features_clear_and_param (fuel : nat) (rx : list Z)
    (msg msg_len in_ptr in_end : Z) (ch : channel) :
  cmd_ids_distinct ->
  wrap8 sizeof_sc_msg_error <= CMD_BUFFER_SIZE ->
  sizeof_sc_msg_features <= msg_len ->
  let tmsg := read_features (bytes_at rx msg sizeof_sc_msg_features) in
  let mode_bits :=
    Z.land (feat_arg tmsg)
           (Z.lor (Z.lor SC_FEATURE_FLAG_MON_MODE SC_FEATURE_FLAG_RES_MODE)
                  SC_FEATURE_FLAG_EXT_LOOP_MODE) in
  (feat_op tmsg = SC_FEAT_OP_CLEAR ->
   exists ch' ev,
     sc_cmd_dispatch (S (S fuel)) rx msg SC_MSG_FEATURES msg_len
                     in_ptr in_end ch = Ok (ch', in_ptr, ev) /\
     features (ch_can ch') = sc_board_can_feat_perm /\
     sc_cmd_place_error_reply (S (S fuel)) SC_ERROR_NONE (ch_cmd ch)
     = Ok (ch_cmd ch', ev)) /\
  (feat_op tmsg = SC_FEAT_OP_OR -> SC_FEAT_OP_OR <> SC_FEAT_OP_CLEAR ->
   1 < popcount mode_bits ->
   exists ch' ev,
     sc_cmd_dispatch (S (S fuel)) rx msg SC_MSG_FEATURES msg_len
                     in_ptr in_end ch = Ok (ch', in_ptr, ev) /\
     ch_can ch' = ch_can ch /\ ch_usb_can ch' = ch_usb_can ch /\
     sc_cmd_place_error_reply (S (S fuel)) SC_ERROR_PARAM (ch_cmd ch)
     = Ok (ch_cmd ch', ev)).
Proof.
  intros Hd Herr Hlen tmsg mode_bits.
  pose proof (wrap8_range sizeof_sc_msg_error) as Herr0.
  assert (0 <= wrap8 sizeof_sc_msg_error <= CMD_BUFFER_SIZE) as Hfits by lia.
  assert (forall error c,
            exists cmd' ev,
              sc_cmd_place_error_reply (S (S fuel)) error (ch_cmd ch)
              = Ok (cmd', ev) /\
              (let '(c0, e0) := (c, error) in
               do (usb_cmd', ev0) <-
                 sc_cmd_place_error_reply (S (S fuel)) e0 (ch_cmd ch);
               Ok (set_ch_cmd usb_cmd' (set_ch_can c0 ch), in_ptr, ev0))
              = Ok (set_ch_cmd cmd' (set_ch_can c ch), in_ptr, ev)) as Hreply.
  { intros error c.
    destruct (cmd_place_reply_ok fuel (wrap8 sizeof_sc_msg_error)
                (Msg_error error) (ch_cmd ch) Hfits) as [[cmd' ev] Hr].
    exists cmd', ev. unfold sc_cmd_place_error_reply. rewrite Hr.
    split; reflexivity. }
  assert (sc_cmd_dispatch (S (S fuel)) rx msg SC_MSG_FEATURES msg_len
                          in_ptr in_end ch
          = (let '(c, error) :=
               sc_cmd_features msg_len
                 (bytes_at rx msg sizeof_sc_msg_features) (ch_can ch) in
             do (usb_cmd', ev) <-
               sc_cmd_place_error_reply (S (S fuel)) error (ch_cmd ch);
             Ok (set_ch_cmd usb_cmd' (set_ch_can c ch), in_ptr, ev)))
    as Hdispatch.
  { unfold sc_cmd_dispatch.
    rewrite (cmd_ids_neq Hd 6 0 _ _ eq_refl eq_refl ltac:(lia)).
    rewrite (cmd_ids_neq Hd 6 1 _ _ eq_refl eq_refl ltac:(lia)).
    rewrite (cmd_ids_neq Hd 6 2 _ _ eq_refl eq_refl ltac:(lia)).
    rewrite (cmd_ids_neq Hd 6 3 _ _ eq_refl eq_refl ltac:(lia)).
    rewrite (cmd_ids_neq Hd 6 4 _ _ eq_refl eq_refl ltac:(lia)).
    rewrite (cmd_ids_neq Hd 6 5 _ _ eq_refl eq_refl ltac:(lia)).
    rewrite Z.eqb_refl. reflexivity. }
  split.
  - intros Hop.
    destruct (Hreply SC_ERROR_NONE
                (set_features sc_board_can_feat_perm (ch_can ch)))
      as (cmd' & ev & Hr & Hk).
    eexists _, ev. rewrite Hdispatch. unfold sc_cmd_features.
    rewrite (proj2 (Z.ltb_ge _ _) Hlen). fold tmsg. cbv zeta.
    rewrite Hop, Z.eqb_refl. split; [exact Hk|].
    split; [reflexivity | exact Hr].
  - intros Hop Hne Hpop.
    destruct (Hreply SC_ERROR_PARAM (ch_can ch)) as (cmd' & ev & Hr & Hk).
    eexists _, ev. rewrite Hdispatch. unfold sc_cmd_features.
    rewrite (proj2 (Z.ltb_ge _ _) Hlen). fold tmsg. cbv zeta.
    rewrite Hop, (proj2 (Z.eqb_neq _ _) Hne), Z.eqb_refl.
    fold mode_bits. rewrite (proj2 (Z.ltb_lt _ _) Hpop).
    split; [exact Hk|]. repeat split. exact Hr.
Qed.

End cmd_more.

Section cmd_more_samples.
#[local] Existing Instance sample_h.
#[local] Existing Instance sample_layout.
#[local] Existing Instance sample_rest.

Lemma sample_cmd_ids_distinct : cmd_ids_distinct.
Proof. apply (bool_decide_unpack _). vm_compute. exact I. Qed.

Lemma sample_nm_range_ok : bit_timing_range_ok nm_range.
Proof. vm_compute. repeat split; (discriminate || reflexivity). Qed.

(** A request for brp 2000 on a board whose largest nominal brp is 1024. *)
Lemma nm_bittiming_clamped_witness :
  exists cmd' ev,
    sc_cmd_dispatch 2 nm_bittiming_request 0 SC_MSG_NM_BITTIMING 8 8 8
                    blank_channel
    = Ok (set_ch_cmd cmd' blank_channel, 8,
          Board (board_can_nm_bit_timing_set
                   {| brp := 1024; tseg1 := 5; tseg2 := 2; sjw := 1 |})
          :: ev).
Proof.
  destruct (nm_bittiming_clamped 0 nm_bittiming_request 0 8 8 8 blank_channel
              sample_cmd_ids_distinct sample_nm_range_ok)
    as (cmd' & ev & Hr & _);
    [vm_compute; discriminate | vm_compute; discriminate|].
  exists cmd', ev. exact Hr.
Defined.

(** A hello message with a command behind it, on a channel after reset. *)
Lemma hello_device_ends_parsing_witness :
  sc_cmd_bulk_out_loop 2 hello_then_unknown 0 4 blank_channel
  = Ok (set_ch_cmd
          (usb_cmd.set_tx_offsets (8, 0) (ch_cmd blank_channel)) blank_channel,
        [Board board_can_reset;
         Xfer (Z.lor 0x80 2) (can_tx_buffer false) 0;
         Store (cmd_tx_buffer false) 0 (Msg_hello 64)]).
Proof.
  refine (hello_device_ends_parsing 0 hello_then_unknown 0 4 blank_channel
            _ _ _ _ _).
  - vm_compute. discriminate.
  - vm_compute. discriminate.
  - reflexivity.
  - reflexivity.
  - vm_compute. discriminate.
Defined.

(** A feature request of eight bytes received on either endpoint. *)
Lemma out_endpoints_rearmed_witness :
  (exists ch' ev,
     sc_cmd_bulk_out 9 features_or_mon_mode 8 blank_channel
     = Ok (ch', Xfer 1 (cmd_rx_buffer true) 64 :: ev) /\
     usb_cmd.rx_bank (ch_cmd ch') = true) /\
  (exists ch' ev,
     sc_can_bulk_out 9 1000 features_or_mon_mode 8 blank_channel
     = Ok (ch', Xfer 2 (can_rx_buffer true) 512 :: ev) /\
     usb_can.rx_bank (ch_usb_can ch') = true).
Proof.
  destruct (out_endpoints_rearmed 9 1000 8 features_or_mon_mode blank_channel
              sample_buffers_ok)
    as [Hcmd (ch2 & ev2 & Hr2 & _ & Hb2 & _)].
  - unfold is_bytes, features_or_mon_mode. repeat (constructor; [lia|]).
    constructor.
  - lia.
  - lia.
  - destruct Hcmd as (ch1 & ev1 & Hr1 & _ & Hb1 & _);
      [vm_compute; discriminate|].
    split; [exists ch1, ev1 | exists ch2, ev2]; split; assumption.
Defined.

(** A request for monitor mode together with external loopback, and a
    request to clear the features. *)
Lemma features_clear_and_param_witness :
  (exists ch' ev,
     sc_cmd_dispatch 2 features_or_two_modes 0 SC_MSG_FEATURES 8 8 8
                     blank_channel = Ok (ch', 8, ev) /\
     ch_can ch' = ch_can blank_channel /\
     sc_cmd_place_error_reply 2 SC_ERROR_PARAM (ch_cmd blank_channel)
     = Ok (ch_cmd ch', ev)) /\
  (exists ch' ev,
     sc_cmd_dispatch 2 features_clear 0 SC_MSG_FEATURES 8 8 8
                     blank_channel = Ok (ch', 8, ev) /\
     features (ch_can ch') = 1).
Proof.
  split.
  - destruct (features_clear_and_param 0 features_or_two_modes 0 8 8 8
                blank_channel sample_cmd_ids_distinct) as [_ Hparam];
      [vm_compute; discriminate | vm_compute; discriminate|].
    destruct Hparam as (ch' & ev & Hr & Hc & _ & Hreply);
      [reflexivity | vm_compute; discriminate | reflexivity|].
    exists ch', ev. split; [exact Hr|]. split; [exact Hc | exact Hreply].
  - destruct (features_clear_and_param 0 features_clear 0 8 8 8
                blank_channel sample_cmd_ids_distinct) as [Hclear _];
      [vm_compute; discriminate | vm_compute; discriminate|].
    destruct Hclear as (ch' & ev & Hr & Hf & _); [reflexivity|].
    exists ch', ev. split; [exact Hr | exact Hf].
Defined.

End cmd_more_samples.

(** ** [can_poll]: the TX events of a batch *)

Section tx_batch.
Context `{supercan_h}.
Variable k : Z.
Hypothesis size_pow2 : CAN_TX_FIFO_SIZE = 2 ^ k.
Hypothesis k_range : 0 <= k <= 8.

Lemma tx_size_bounds : 0 < CAN_TX_FIFO_SIZE <= 256.
Proof using size_pow2 k_range.
  rewrite size_pow2. split; [apply Z.pow_pos_nonneg; lia|].
  change 256 with (2 ^ 8). apply Z.pow_le_mono_r; lia.
Qed.

Lemma tx_index_mod x :
  wrap8 (Z.land x (CAN_TX_FIFO_SIZE - 1)) = x mod CAN_TX_FIFO_SIZE.
Proof using size_pow2 k_range.
  pose proof tx_size_bounds as Hs. rewrite size_pow2 in *.
  rewrite land_mask by lia. apply wrap8_small.
  pose proof (Z.mod_pos_bound x (2 ^ k)). lia.
Qed.

Lemma tx_index_range x :
  0 <= wrap8 (Z.land x (CAN_TX_FIFO_SIZE - 1)) < CAN_TX_FIFO_SIZE.
Proof using size_pow2 k_range.
  rewrite tx_index_mod. apply Z.mod_pos_bound. apply tx_size_bounds.
Qed.

Lemma tx_index_inj x y :
  - CAN_TX_FIFO_SIZE < x - y < CAN_TX_FIFO_SIZE ->
  wrap8 (Z.land x (CAN_TX_FIFO_SIZE - 1))
  = wrap8 (Z.land y (CAN_TX_FIFO_SIZE - 1)) ->
  x = y.
Proof using size_pow2 k_range.
  intros Hwin. rewrite !tx_index_mod. intros Heq.
  pose proof tx_size_bounds. apply mod_inj_window in Heq; lia.
Qed.

Lemma tx_index_wrap8 a b :
  wrap8 (Z.land (wrap8 a + b) (CAN_TX_FIFO_SIZE - 1))
  = wrap8 (Z.land (a + b) (CAN_TX_FIFO_SIZE - 1)).
Proof using size_pow2 k_range.
  rewrite !tx_index_mod. pose proof tx_size_bounds as Hs.
  rewrite (Z.add_mod (wrap8 a) b), (Z.add_mod a b) by lia.
  f_equal. f_equal. unfold wrap8. rewrite size_pow2.
  apply Z.mod_mod_divide.
  exists (2 ^ (8 - k)). rewrite <- Z.pow_add_r by lia. f_equal. lia.
Qed.

Lemma tx_ts_loop_S n i gio count txp c ts tsv :
  tx_ts_loop (S n) i gio count txp c ts tsv =
  tx_ts_loop n (i + 1) gio count txp c
    (wrap32 (ts - tx_element_time_us c txp
                    (aget zero_tx_event_fifo_element (tx_event_fifo c)
                          (tx_fifo_index gio (count - 1 - i)))))
    (aset tsv (tx_fifo_index gio (count - 1 - i)) (Z.land ts CLOCK_MAX)).
Proof using Type.
  cbn [tx_ts_loop]. unfold tx_fifo_index.
  replace (gio + (count - 1 - i)) with (gio + count - 1 - i) by ring.
  reflexivity.
Qed.

Lemma tx_youngest_first_ts_range c tsc m :
  0 <= tsc < 2 ^ 32 -> 0 <= tx_youngest_first_ts c tsc m < 2 ^ 32.
Proof using Type.
  intros Htsc. destruct m as [|m]; cbn [tx_youngest_first_ts];
    [exact Htsc | apply wrap32_range].
Qed.

(** The reverse loop leaves in [tsv] the timestamp of each event of the
    batch. *)
Lemma tx_ts_loop_spec c tsc :
  0 <= tsc < 2 ^ 32 ->
  tx_batch_count c <= CAN_TX_FIFO_SIZE ->
  forall (n m : nat) (tsv : list Z),
    Z.of_nat m + Z.of_nat n <= tx_batch_count c ->
    (Z.to_nat CAN_TX_FIFO_SIZE <= length tsv)%nat ->
    (forall m', (m' < m)%nat ->
       aget 0 tsv (tx_fifo_index (tx_batch_gio c)
                                 (tx_batch_count c - 1 - Z.of_nat m'))
       = tx_youngest_first_ts c tsc m') ->
    let r := tx_ts_loop n (Z.of_nat m) (tx_batch_gio c) (tx_batch_count c)
                        (tx_batch_txp c) c
                        (tx_youngest_first_ts c tsc m) tsv in
    forall m', (m' < m + n)%nat ->
      aget 0 (snd r) (tx_fifo_index (tx_batch_gio c)
                                    (tx_batch_count c - 1 - Z.of_nat m'))
      = tx_youngest_first_ts c tsc m'.
Proof using size_pow2 k_range.
  intros Htsc Hcount. induction n as [|n IH]; intros m tsv Hmn Hlen Hinv r.
  - subst r. cbn [tx_ts_loop snd]. intros m' Hm'. apply Hinv. lia.
  - subst r. rewrite tx_ts_loop_S.
    replace (Z.of_nat m + 1) with (Z.of_nat (S m)) by lia.
    change (wrap32 _) with (tx_youngest_first_ts c tsc (S m)).
    intros m' Hm'.
    apply (IH (S m)); [lia | rewrite length_aset; exact Hlen | | lia].
    intros m'' Hm''.
    destruct (decide (m'' = m)) as [->|Hne].
    + rewrite aget_aset_eq.
      * apply land_clock_max, tx_youngest_first_ts_range, Htsc.
      * unfold tx_fifo_index.
        pose proof (tx_index_range (tx_batch_gio c
                                    + (tx_batch_count c - 1 - Z.of_nat m))).
        lia.
    + rewrite aget_aset_ne; [apply Hinv; lia | | | ].
      * apply tx_index_range.
      * apply tx_index_range.
      * unfold tx_fifo_index. intros Heq.
        apply tx_index_inj in Heq; lia.
Qed.

End tx_batch.

Lemma wrap8_add_l a b : wrap8 (wrap8 a + b) = wrap8 (a + b).
Proof. unfold wrap8. apply Z.add_mod_idemp_l. lia. Qed.

Lemma wrap32_add_l a b : wrap32 (wrap32 a + b) = wrap32 (a + b).
Proof. unfold wrap32. apply Z.add_mod_idemp_l. lia. Qed.

Section tx_store.
Context `{supercan_h}.
Variable k : Z.
Hypothesis size_pow2 : CAN_TX_FIFO_SIZE = 2 ^ k.
Hypothesis k_range : 0 <= k <= 8.

Lemma tx_ring_slot_wrap8 f a b :
  tx_ring_slot f (wrap8 a + b) = tx_ring_slot f (a + b).
Proof using size_pow2 k_range.
  unfold tx_ring_slot. rewrite (tx_index_wrap8 k size_pow2 k_range).
  reflexivity.
Qed.

Lemma tx_ring_slot_plus_size f a :
  tx_ring_slot f (a + CAN_TX_FIFO_SIZE) = tx_ring_slot f a.
Proof using size_pow2 k_range.
  unfold tx_ring_slot. rewrite !(tx_index_mod k size_pow2 k_range).
  f_equal. rewrite <- (Z.mul_1_l CAN_TX_FIFO_SIZE) at 1.
  apply Z.mod_add. pose proof (tx_size_bounds k size_pow2 k_range). lia.
Qed.

(** The forward loop of the TX half: it stores every event it visits, in
    consecutive slots of the ring, and leaves the other slots alone. *)
Lemma tx_store_loop_spec gio tsv (n : nat) :
  forall i c pi ev g c' pi' ev' g',
    Z.of_nat n <= CAN_TX_FIFO_SIZE ->
    length (tx_frames c) = Z.to_nat CAN_TX_FIFO_SIZE ->
    tx_store_loop n i gio tsv c pi ev g = (c', pi', ev', g') ->
    pi' = match n with O => pi | S _ => wrap8 (pi + Z.of_nat n) end /\
    ev' = match n with O => ev | S _ => wrap32 (ev + Z.of_nat n) end /\
    g' = match n with
         | O => g
         | S _ => tx_fifo_index gio (i + Z.of_nat n - 1)
         end /\
    tx_event_fifo c' = tx_event_fifo c /\
    m_can c' = m_can c /\
    tx_get_index c' = tx_get_index c /\
    tx_put_index c' = tx_put_index c /\
    length (tx_frames c') = Z.to_nat CAN_TX_FIFO_SIZE /\
    (forall j, 0 <= j < Z.of_nat n ->
       tx_ring_slot (tx_frames c') (pi + j)
       = let e := aget zero_tx_event_fifo_element (tx_event_fifo c)
                       (tx_fifo_index gio (i + j)) in
         {| txf_T0 := txe_T0 e; txf_T1 := txe_T1 e;
            txf_ts := aget 0 tsv (tx_fifo_index gio (i + j)) |}) /\
    (forall j, Z.of_nat n <= j < CAN_TX_FIFO_SIZE ->
       tx_ring_slot (tx_frames c') (pi + j) = tx_ring_slot (tx_frames c) (pi + j)).
Proof using size_pow2 k_range.
  pose proof (tx_size_bounds k size_pow2 k_range) as Hs.
  induction n as [|n IH]; intros i c pi ev g c' pi' ev' g' Hn Hlen Heq.
  - cbn [tx_store_loop] in Heq. inversion Heq; subst.
    repeat split; try reflexivity; try assumption.
    intros j Hj. lia.
  - cbn [tx_store_loop] in Heq.
    apply IH in Heq; [| lia | cbn [set_tx_frames tx_frames];
                               rewrite length_aset; exact Hlen].
    cbn [set_tx_frames tx_frames tx_event_fifo m_can tx_get_index
         tx_put_index] in Heq.
    destruct Heq as (Hpi & Hev & Hg & Hfifo & Hm & Hget & Hput & Hlen'
                     & Hnew & Hold).
    repeat split; try assumption.
    + rewrite Hpi. destruct n; [f_equal; lia|].
      rewrite wrap8_add_l. f_equal. lia.
    + rewrite Hev. destruct n; [f_equal; lia|].
      rewrite wrap32_add_l. f_equal. lia.
    + rewrite Hg. destruct n; unfold tx_fifo_index; do 2 f_equal; lia.
    + intros j Hj. destruct (decide (j = 0)) as [->|Hne].
      * rewrite <- (tx_ring_slot_plus_size _ (pi + 0)).
        replace (pi + 0 + CAN_TX_FIFO_SIZE)
          with (pi + 1 + (CAN_TX_FIFO_SIZE - 1)) by ring.
        rewrite <- tx_ring_slot_wrap8, Hold by lia.
        rewrite tx_ring_slot_wrap8.
        replace (pi + 1 + (CAN_TX_FIFO_SIZE - 1))
          with (pi + CAN_TX_FIFO_SIZE) by ring.
        rewrite tx_ring_slot_plus_size. unfold tx_ring_slot.
        rewrite aget_aset_eq.
        -- rewrite Z.add_0_r. reflexivity.
        -- rewrite Hlen.
           pose proof (tx_index_range k size_pow2 k_range pi). lia.
      * replace (pi + j) with (pi + 1 + (j - 1)) by ring.
        rewrite <- tx_ring_slot_wrap8, Hnew by lia.
        cbv zeta. replace (i + 1 + (j - 1)) with (i + j) by ring.
        reflexivity.
    + intros j Hj.
      replace (pi + j) with (pi + 1 + (j - 1)) by ring.
      rewrite <- tx_ring_slot_wrap8, Hold by lia.
      rewrite tx_ring_slot_wrap8. unfold tx_ring_slot.
      apply aget_aset_ne; try apply (tx_index_range k size_pow2 k_range).
      intros Hidx. apply (tx_index_inj k size_pow2 k_range) in Hidx; lia.
Qed.

End tx_store.

Section tx_batch_stored.
Context `{supercan_h}.

(** When [can_poll] finds [n] events in the TX event FIFO (TX FIFO size a
    power of two up to 256, [n] at most that size, and the local array
    [tsv], which is declared with [CAN_RX_FIFO_SIZE] entries, has at least
    [CAN_TX_FIFO_SIZE] of them), it reports work, counts
    [n] events, advances the put index of the TX ring by [n] modulo 256
    without looking at the consumer's get index, acknowledges the last
    event of the batch, and stores event [j] of the batch in ring slot
    [tx_put_index + j] with its registers [T0], [T1] and a timestamp that is
    [tsc] for the youngest event and, for every other event, the timestamp
    of the next event minus that event's on-wire duration (transmit pause
    included) in 32-bit arithmetic.  The other slots of the ring keep their
    contents. *)
Theorem can_poll_tx_stores_batch (c : can) (events tsc k : Z) (tsv : list Z) :
  CAN_TX_FIFO_SIZE = 2 ^ k -> 0 <= k <= 8 ->
  0 < tx_batch_count c <= CAN_TX_FIFO_SIZE ->
  0 <= tsc < 2 ^ 32 ->
  (Z.to_nat CAN_TX_FIFO_SIZE <= length tsv)%nat ->
  length (tx_frames c) = Z.to_nat CAN_TX_FIFO_SIZE ->
  let n := tx_batch_count c in
  let duration j :=
    tx_element_time_us c (tx_batch_txp c) (tx_batch_event c j) in
  exists c',
    can_poll_tx c events tsc tsv = (c', wrap32 (events + n), true) /\
    tx_put_index c' = wrap8 (tx_put_index c + n) /\
    tx_get_index c' = tx_get_index c /\
    TXEFA (m_can c') = tx_fifo_index (tx_batch_gio c) (n - 1) /\
    (forall j, 0 <= j < n ->
       tx_ring_slot (tx_frames c') (tx_put_index c + j) = tx_stored c tsc j) /\
    (forall j, n <= j < CAN_TX_FIFO_SIZE ->
       tx_ring_slot (tx_frames c') (tx_put_index c + j)
       = tx_ring_slot (tx_frames c) (tx_put_index c + j)) /\
    tx_event_ts c tsc (n - 1) = tsc /\
    (forall j, 0 <= j < n - 1 ->
       tx_event_ts c tsc j
       = wrap32 (tx_event_ts c tsc (j + 1) - duration (j + 1))).
Proof.
  intros Hsize Hk Hcount Htsc Hlen Hflen n duration.
  unfold can_poll_tx. cbv zeta.
  change (wrap8 (TXEFS_EFFL (m_can c))) with (tx_batch_count c).
  change (wrap8 (TXEFS_EFGI (m_can c))) with (tx_batch_gio c).
  change (wrap32 (CCCR_TXP (m_can c) * 2)) with (tx_batch_txp c).
  assert (truthy (tx_batch_count c) = true) as Ht.
  { unfold truthy. destruct (Z.eqb_spec (tx_batch_count c) 0); [lia|].
    reflexivity. }
  rewrite Ht.
  pose proof (tx_ts_loop_spec k Hsize Hk c tsc Htsc (proj2 Hcount)
                (Z.to_nat (tx_batch_count c)) 0%nat tsv) as Hts.
  cbn zeta in Hts. cbn [tx_youngest_first_ts Z.of_nat] in Hts.
  destruct (tx_ts_loop _ _ _ _ _ _ _ _) as [ts2 tsv2]. cbn [snd] in Hts.
  specialize (Hts ltac:(lia) Hlen ltac:(intros; lia)).
  destruct (tx_store_loop _ _ _ _ _ _ _ _) as [[[c2 pi2] ev2] g2] eqn:E.
  apply (tx_store_loop_spec k Hsize Hk) in E; [| lia | exact Hflen].
  destruct E as (Hpi & Hev & Hg & Hfifo & Hm & Hget & Hput & Hlen'
                 & Hnew & Hold).
  rewrite Z2Nat.id in * by lia.
  destruct (Z.to_nat (tx_batch_count c)) as [|m] eqn:Em; [lia|].
  subst pi2 ev2 g2.
  eexists. split; [reflexivity|].
  cbn [set_tx_put_index set_m_can set_TXEFA tx_put_index tx_get_index m_can
       TXEFA tx_frames].
  split; [reflexivity|]. split; [exact Hget|].
  split; [unfold tx_fifo_index; do 2 f_equal; subst n; lia|].
  split.
  { intros j Hj. rewrite Hnew by exact Hj. cbv zeta. rewrite Z.add_0_l.
    unfold tx_stored, tx_batch_event. f_equal.
    unfold tx_event_ts.
    replace j with (tx_batch_count c - 1
                    - Z.of_nat (Z.to_nat (tx_batch_count c - 1 - j)))
      at 1 by lia.
    apply Hts. subst n. lia. }
  split; [exact Hold|].
  split.
  { unfold tx_event_ts. subst n.
    replace (tx_batch_count c - 1 - (tx_batch_count c - 1)) with 0 by lia.
    reflexivity. }
  intros j Hj. unfold tx_event_ts. subst n duration. cbv beta.
  replace (Z.to_nat (tx_batch_count c - 1 - j))
    with (S (Z.to_nat (tx_batch_count c - 1 - (j + 1)))) by lia.
  cbn [tx_youngest_first_ts]. do 4 f_equal. lia.
Qed.

End tx_batch_stored.

Section tx_batch_samples.
#[local] Existing Instance sample_h.

(** Two events in FIFO slots 31 and 0, stored in ring slots 31 and 0 while
    the put index wraps from 255 to 1. *)
Lemma can_poll_tx_stores_batch_witness :
  let c := two_tx_events_waiting in
  let duration j :=
    tx_element_time_us c (tx_batch_txp c) (tx_batch_event c j) in
  exists c',
    can_poll_tx c 7 1000000 (replicate 32 9) = (c', wrap32 (7 + 2), true) /\
    tx_put_index c' = wrap8 (255 + 2) /\
    tx_get_index c' = 255 /\
    TXEFA (m_can c') = tx_fifo_index 31 (2 - 1) /\
    (forall j, 0 <= j < 2 ->
       tx_ring_slot (tx_frames c') (255 + j) = tx_stored c 1000000 j) /\
    (forall j, 2 <= j < 32 ->
       tx_ring_slot (tx_frames c') (255 + j)
       = tx_ring_slot (tx_frames c) (255 + j)) /\
    tx_event_ts c 1000000 (2 - 1) = 1000000 /\
    (forall j, 0 <= j < 2 - 1 ->
       tx_event_ts c 1000000 j
       = wrap32 (tx_event_ts c 1000000 (j + 1) - duration (j + 1))).
Proof.
  refine (can_poll_tx_stores_batch two_tx_events_waiting 7 1000000 5
            (replicate 32 9) _ _ _ _ _ _).
  - reflexivity.
  - lia.
  - vm_compute. split; [reflexivity | discriminate].
  - lia.
  - vm_compute. lia.
  - reflexivity.
Defined.

End tx_batch_samples.

(** ** The board's queue of TXR track ids *)

Lemma board_set_txr_get_index_id (c : board.can) :
  board.set_txr_get_index (board.txr_get_index c) c = c.
Proof. destruct c. reflexivity. Qed.

Lemma aset_aset {A} (a : list A) (i : Z) (v w : A) :
  aset (aset a i v) i w = aset a i w.
Proof. unfold aset. apply list_insert_insert_eq. Qed.

Lemma aset_aget {A} (d : A) (a : list A) (i : Z) :
  0 <= i < Z.of_nat (length a) -> aset a i (aget d a i) = a.
Proof.
  intros Hi. unfold aset, aget. apply list_insert_id.
  destruct (lookup_lt_is_Some_2 a (Z.to_nat i)) as [x Hx]; [lia|].
  rewrite Hx. reflexivity.
Qed.

Lemma board_used_pop pi gi :
  0 < wrap8 (pi - gi) ->
  wrap8 (pi - wrap8 (gi + 1)) = wrap8 (pi - gi) - 1.
Proof.
  intros Hused. pose proof (wrap8_range (pi - gi)) as Hu.
  unfold wrap8 at 1 2. rewrite Zminus_mod_idemp_r.
  replace (pi - (gi + 1)) with (pi - gi - 1) by lia.
  rewrite <- Zminus_mod_idemp_l. fold (wrap8 (pi - gi)).
  apply Z.mod_small. lia.
Qed.

Section board_queue.
Context `{supercan_h}.
Variable k : Z.
Hypothesis size_pow2 : SC_BOARD_CAN_TX_FIFO_SIZE = 2 ^ k.
Hypothesis k_range : 0 <= k <= 7.

Lemma board_size_bounds : 0 < SC_BOARD_CAN_TX_FIFO_SIZE <= 128.
Proof using size_pow2 k_range.
  rewrite size_pow2. split; [apply Z.pow_pos_nonneg; lia|].
  change 128 with (2 ^ 7). apply Z.pow_le_mono_r; lia.
Qed.

Lemma board_slot_mod x : board_slot x = x mod SC_BOARD_CAN_TX_FIFO_SIZE.
Proof using size_pow2 k_range.
  pose proof board_size_bounds as Hs. unfold board_slot.
  apply wrap8_small.
  pose proof (Z.mod_pos_bound x SC_BOARD_CAN_TX_FIFO_SIZE). lia.
Qed.

Lemma board_slot_range x : 0 <= board_slot x < SC_BOARD_CAN_TX_FIFO_SIZE.
Proof using size_pow2 k_range.
  rewrite board_slot_mod. apply Z.mod_pos_bound. apply board_size_bounds.
Qed.

Lemma board_slot_wrap8_inj gi a b :
  - SC_BOARD_CAN_TX_FIFO_SIZE < a - b < SC_BOARD_CAN_TX_FIFO_SIZE ->
  board_slot (wrap8 (gi + a)) = board_slot (wrap8 (gi + b)) -> a = b.
Proof using size_pow2 k_range.
  intros Hwin. rewrite !board_slot_mod, size_pow2.
  rewrite !(wrap8_mod_size k k_range). intros Heq.
  pose proof board_size_bounds as Hs. rewrite size_pow2 in *.
  apply mod_inj_window in Heq; lia.
Qed.

Lemma board_used_push pi gi :
  wrap8 (pi - gi) < SC_BOARD_CAN_TX_FIFO_SIZE ->
  wrap8 (wrap8 (pi + 1) - gi) = wrap8 (pi - gi) + 1.
Proof using size_pow2 k_range.
  intros Hused. pose proof board_size_bounds as Hs.
  pose proof (wrap8_range (pi - gi)) as Hu.
  unfold wrap8 at 1 2. rewrite Zminus_mod_idemp_l.
  replace (pi + 1 - gi) with (pi - gi + 1) by lia.
  rewrite <- Zplus_mod_idemp_l. fold (wrap8 (pi - gi)).
  apply Z.mod_small. lia.
Qed.

(** An accepted track id is appended to the waiting ones. *)
Lemma board_queue_push index msg cans :
  board_queue_ok index cans ->
  board_used index cans < SC_BOARD_CAN_TX_FIFO_SIZE ->
  exists cans',
    sc_board_can_tx_queue index msg cans
    = (cans', [board.Notify_task_def index 1], true) /\
    board_queue_ok index cans' /\
    board_used index cans' = board_used index cans + 1 /\
    board_pending index index cans'
    = board_pending index index cans ++ [wrap8 (tx_track_id msg)] /\
    length cans' = length cans /\
    (forall i, 0 <= i -> i <> index ->
       aget board.zero_can cans' i = aget board.zero_can cans i).
Proof using size_pow2 k_range.
  intros (Hidx & Hgi & Hpi & Hlen & Hle) Hused.
  pose proof board_size_bounds as Hs.
  unfold sc_board_can_tx_queue. cbv zeta.
  unfold board_used in Hused, Hle.
  set (can := aget board.zero_can cans index) in *.
  destruct (Z.ltb_spec (wrap8 (board.txr_put_index can
                               - board.txr_get_index can))
                       SC_BOARD_CAN_TX_FIFO_SIZE) as [_|Hge]; [|lia].
  eexists. split; [reflexivity|].
  assert (forall v, aget board.zero_can (aset cans index v) index = v)
    as Hsame.
  { intros v. apply aget_aset_eq. lia. }
  unfold board_queue_ok, board_pending, board_entry, board_used. cbv zeta.
  rewrite !Hsame.
  cbn [board.set_txr_put_index board.set_txr_buffer board.txr_buffer
       board.txr_get_index board.txr_put_index].
  rewrite length_aset.
  rewrite (board_used_push _ _ Hused).
  fold can.
  pose proof (wrap8_range (board.txr_put_index can
                           - board.txr_get_index can)) as Hu.
  set (u := wrap8 (board.txr_put_index can - board.txr_get_index can)) in *.
  fold (board_slot (board.txr_put_index can)).
  split; [|split; [reflexivity|split]].
  - repeat split; try lia; try apply wrap8_range.
    rewrite length_aset. exact Hlen.
  - rewrite seqZ_app by lia. rewrite fmap_app. f_equal.
    + apply Forall_fmap_ext, Forall_forall. intros m Hm.
      apply elem_of_seqZ in Hm.
      apply aget_aset_ne; try apply board_slot_range.
      replace (board.txr_put_index can)
        with (wrap8 (board.txr_get_index can + u)).
      * intros Heq. apply board_slot_wrap8_inj in Heq; lia.
      * subst u. rewrite wrap8_sub_add. apply wrap8_small. exact Hpi.
    + rewrite seqZ_cons, seqZ_nil by lia. cbn [fmap list_fmap].
      f_equal. rewrite Z.add_0_l.
      replace (wrap8 (board.txr_get_index can + u))
        with (board.txr_put_index can).
      * apply aget_aset_eq. rewrite Hlen.
        pose proof (board_slot_range (board.txr_put_index can)). lia.
      * subst u. rewrite wrap8_sub_add. symmetry. apply wrap8_small.
        exact Hpi.
  - split; [reflexivity|]. intros i Hi Hne.
    apply aget_aset_ne; lia.
Qed.

Lemma wrap8_eq_of_used_0 pi gi :
  0 <= gi < 256 -> 0 <= pi < 256 -> wrap8 (pi - gi) = 0 -> gi = pi.
Proof using Type.
  clear size_pow2 k_range k. intros Hgi Hpi Hu. unfold wrap8 in Hu.
  change (2 ^ 8) with 256 in Hu.
  symmetry. apply (mod_inj_window 256); [lia | | lia].
  rewrite <- (Z.sub_add gi pi) at 1.
  rewrite <- Zplus_mod_idemp_l, Hu. reflexivity.
Qed.

(** The loop of [sc_board_can_retrieve] reports [r] track ids when [r] of
    them wait and fit, and either no more wait or no more fit. *)
Lemma board_retrieve_loop_spec index tx_end clock (r : nat) :
  forall fuel cans tx_ptr res have calls out,
    let can := aget board.zero_can cans index in
    let bytes := wrap8 sizeof_sc_msg_can_txr in
    0 <= index < Z.of_nat (length cans) ->
    0 <= board.txr_get_index can < 256 ->
    0 <= board.txr_put_index can < 256 ->
    0 < bytes ->
    0 <= tx_end - tx_ptr < 2 ^ 32 ->
    Z.of_nat r <= board_used index cans ->
    Z.of_nat r * bytes <= tx_end - tx_ptr ->
    (Z.of_nat r = board_used index cans \/
     tx_end - tx_ptr - Z.of_nat r * bytes < bytes) ->
    (r < fuel)%nat ->
    sc_board_can_retrieve_loop fuel index tx_end clock cans tx_ptr res have
                               calls out
    = Ok (aset cans index
               (board.set_txr_get_index
                  (wrap8 (board.txr_get_index can + Z.of_nat r)) can),
          res + Z.of_nat r * bytes,
          (if board_used index cans =? 0 then have else true),
          out ++ (board_txr index tx_ptr calls clock cans
                    <$> seqZ 0 (Z.of_nat r))).
Proof using Type.
  clear size_pow2 k_range k.
  induction r as [|r IH];
    intros fuel cans tx_ptr res have calls out can bytes
           Hidx Hgi Hpi Hbytes Hroom Hr Hfit Hstop Hfuel.
  - destruct fuel as [|fuel]; [lia|]. cbn [sc_board_can_retrieve_loop].
    fold can. fold bytes. unfold board_used in *. fold can in Hr, Hstop |- *.
    change (Z.of_nat 0) with 0 in *. rewrite Z.add_0_r, Z.mul_0_l, Z.add_0_r.
    rewrite (wrap8_small (board.txr_get_index can)) by exact Hgi.
    rewrite board_set_txr_get_index_id.
    subst can. rewrite aset_aget by exact Hidx.
    set (can := aget board.zero_can cans index) in *.
    cbn [seqZ]. rewrite seqZ_nil by lia. cbn [fmap list_fmap].
    rewrite app_nil_r.
    destruct (Z.eqb_spec (board.txr_get_index can) (board.txr_put_index can))
      as [Heq|Hne]; cbn [negb].
    + rewrite Heq, Z.sub_diag. reflexivity.
    + destruct (Z.eqb_spec (wrap8 (board.txr_put_index can
                                   - board.txr_get_index can)) 0)
        as [Hu|Hu].
      * apply wrap8_eq_of_used_0 in Hu; [contradiction | lia | lia].
      * destruct Hstop as [Hstop|Hstop]; [congruence|].
        rewrite wrap32_small by lia.
        destruct (Z.leb_spec bytes (tx_end - tx_ptr)); [lia|reflexivity].
  - destruct fuel as [|fuel]; [lia|]. cbn [sc_board_can_retrieve_loop].
    fold can. fold bytes.
    pose proof (wrap8_range (board.txr_put_index can
                             - board.txr_get_index can)) as Hurange.
    assert (0 < board_used index cans) as Hupos by lia.
    unfold board_used in Hupos, Hr, Hstop |- *.
    fold can in Hupos, Hr, Hstop |- *.
    destruct (Z.eqb_spec (board.txr_get_index can) (board.txr_put_index can))
      as [Heq|Hne]; cbn [negb].
    { rewrite Heq, Z.sub_diag in Hupos. vm_compute in Hupos. discriminate. }
    assert (bytes <= tx_end - tx_ptr) as Hone by nia.
    rewrite wrap32_small by lia.
    destruct (Z.leb_spec bytes (tx_end - tx_ptr)) as [_|]; [|lia].
    destruct (Z.eqb_spec (wrap8 (board.txr_put_index can
                                 - board.txr_get_index can)) 0)
      as [Hu|Hu]; [lia|].
    set (can1 := board.set_txr_get_index
                   (wrap8 (board.txr_get_index can + 1)) can).
    assert (aget board.zero_can (aset cans index can1) index = can1)
      as Hcan1 by (apply aget_aset_eq; lia).
    assert (board.txr_buffer (aget board.zero_can (aset cans index can1) 0)
            = board.txr_buffer (aget board.zero_can cans 0)) as Hbuf.
    { destruct (decide (index = 0)) as [Hz|Hz].
      - rewrite <- Hz at 1. rewrite Hcan1. subst can1 can. rewrite Hz.
        reflexivity.
      - rewrite aget_aset_ne by lia. reflexivity. }
    assert (board_used index (aset cans index can1)
            = wrap8 (board.txr_put_index can - board.txr_get_index can) - 1)
      as Hused1.
    { unfold board_used. rewrite Hcan1. subst can1.
      cbn [board.set_txr_get_index board.txr_get_index board.txr_put_index].
      apply board_used_pop. exact Hupos. }
    rewrite (IH fuel (aset cans index can1)).
    + rewrite Hcan1, aset_aset, Hused1. f_equal. f_equal; [f_equal; [f_equal|]|].
      * f_equal. subst can1.
        cbn [board.set_txr_get_index board.txr_get_index board.txr_put_index
             board.txr_buffer].
        rewrite wrap8_add_l. unfold board.set_txr_get_index at 1.
        cbn [board.txr_buffer board.txr_put_index board.set_txr_get_index].
        unfold board.set_txr_get_index. do 2 f_equal. lia.
      * fold bytes. lia.
      * destruct (_ =? 0); reflexivity.
      * rewrite <- app_assoc. f_equal.
        rewrite (seqZ_cons 0 (Z.of_nat (S r))) by lia.
        cbn [fmap list_fmap app]. f_equal.
        -- unfold board_txr, board_entry. fold can. fold bytes.
           rewrite Z.mul_0_l, !Z.add_0_r.
           rewrite (wrap8_small (board.txr_get_index can)) by exact Hgi.
           reflexivity.
        -- replace (Z.pred (Z.of_nat (S r))) with (Z.of_nat r) by lia.
           change (Z.succ 0) with (1 + 0).
           rewrite <- fmap_add_seqZ, <- list_fmap_compose.
           apply Forall_fmap_ext, Forall_forall. intros j Hj.
           apply elem_of_seqZ in Hj. cbn [compose].
           unfold board_txr, board_entry. rewrite Hcan1, Hbuf. fold can.
           fold bytes. subst can1. cbn [board.set_txr_get_index
                                        board.txr_get_index].
           rewrite wrap8_add_l. f_equal; [lia | | ].
           ++ do 3 f_equal. lia.
           ++ do 2 f_equal. lia.
    + rewrite length_aset. exact Hidx.
    + rewrite Hcan1. subst can1. cbn [board.set_txr_get_index
                                      board.txr_get_index].
      apply wrap8_range.
    + rewrite Hcan1. exact Hpi.
    + exact Hbytes.
    + fold bytes. lia.
    + rewrite Hused1. lia.
    + fold bytes. lia.
    + rewrite Hused1. fold bytes. lia.
    + lia.
Qed.

End board_queue.

Lemma take_seqZ_prefix m r n :
  0 <= r <= n -> take (Z.to_nat r) (seqZ m n) = seqZ m r.
Proof.
  intros Hr. replace n with (r + (n - r)) by lia.
  rewrite seqZ_app by lia. apply take_app_length'.
  rewrite length_seqZ. reflexivity.
Qed.

Lemma drop_seqZ_prefix m r n :
  0 <= r <= n -> drop (Z.to_nat r) (seqZ m n) = seqZ (m + r) (n - r).
Proof.
  intros Hr. replace n with (r + (n - r)) at 1 by lia.
  rewrite seqZ_app by lia. apply drop_app_length'.
  rewrite length_seqZ. reflexivity.
Qed.

Section board_retrieve.
Context `{supercan_h}.

(** One call of [sc_board_can_retrieve] on a channel with [used] track ids
    waiting and room for [(tx_end - tx_ptr) / bytes] messages. *)
Lemma board_retrieve_spec (fuel : nat) (index tx_ptr tx_end : Z)
    (clock : Z -> Z) (cans : list board.can) :
  let can := aget board.zero_can cans index in
  let bytes := wrap8 sizeof_sc_msg_can_txr in
  let used := board_used index cans in
  let r := Z.min used ((tx_end - tx_ptr) / bytes) in
  0 <= index < Z.of_nat (length cans) ->
  0 <= board.txr_get_index can < 256 ->
  0 <= board.txr_put_index can < 256 ->
  0 < bytes ->
  0 <= tx_end - tx_ptr < 2 ^ 32 ->
  used < Z.of_nat fuel ->
  exists cans',
    sc_board_can_retrieve fuel index tx_ptr tx_end clock cans
    = Ok (cans', (if used =? 0 then -1 else r * bytes),
          board_txr index tx_ptr 0 clock cans <$> seqZ 0 r) /\
    0 <= r /\
    length cans' = length cans /\
    board_used index cans' = used - r /\
    board.txr_put_index (aget board.zero_can cans' index)
    = board.txr_put_index can /\
    0 <= board.txr_get_index (aget board.zero_can cans' index) < 256 /\
    (forall i, 0 <= i ->
       board.txr_buffer (aget board.zero_can cans' i)
       = board.txr_buffer (aget board.zero_can cans i)) /\
    (forall src, 0 <= src ->
       board_pending src index cans'
       = drop (Z.to_nat r) (board_pending src index cans)) /\
    board.w_track_id <$> (board_txr index tx_ptr 0 clock cans <$> seqZ 0 r)
    = take (Z.to_nat r) (board_pending 0 index cans).
Proof.
  intros can bytes used r Hidx Hgi Hpi Hbytes Hroom Hfuel.
  assert (0 <= used < 256) as Hu
    by (subst used; unfold board_used; apply wrap8_range).
  pose proof (Z.div_mod (tx_end - tx_ptr) bytes ltac:(lia)) as Hdm.
  pose proof (Z.mod_pos_bound (tx_end - tx_ptr) bytes Hbytes) as Hmod.
  assert (0 <= (tx_end - tx_ptr) / bytes) as Hq
    by (apply Z.div_pos; lia).
  set (q := (tx_end - tx_ptr) / bytes) in *.
  assert (0 <= r <= used) as Hr by (subst r; lia).
  assert (r <= q) as Hrq by (subst r; lia).
  assert (r * bytes <= tx_end - tx_ptr) as Hfit.
  { assert (r * bytes <= q * bytes)
      by (apply Z.mul_le_mono_nonneg_r; lia). lia. }
  assert (r = used \/ tx_end - tx_ptr - r * bytes < bytes) as Hstop.
  { destruct (Z.min_spec used q) as [[_ Hm]|[_ Hm]]; fold r in Hm.
    - left. exact Hm.
    - right. rewrite Hm. lia. }
  pose proof (board_retrieve_loop_spec index tx_end clock (Z.to_nat r)
                fuel cans tx_ptr 0 false 0 []) as Hloop.
  cbv zeta in Hloop. rewrite Z2Nat.id in Hloop by lia.
  fold can in Hloop. fold bytes in Hloop. fold used in Hloop.
  specialize (Hloop Hidx Hgi Hpi Hbytes Hroom ltac:(lia) Hfit Hstop
                    ltac:(lia)).
  set (can' := board.set_txr_get_index
                 (wrap8 (board.txr_get_index can + r)) can) in *.
  assert (aget board.zero_can (aset cans index can') index = can') as Hcan'
    by (apply aget_aset_eq; lia).
  assert (forall i, 0 <= i ->
            board.txr_buffer (aget board.zero_can (aset cans index can') i)
            = board.txr_buffer (aget board.zero_can cans i)) as Hbuf.
  { intros i Hi. destruct (decide (i = index)) as [->|Hne].
    - rewrite Hcan'. reflexivity.
    - rewrite aget_aset_ne by lia. reflexivity. }
  assert (board_used index (aset cans index can') = used - r) as Hused'.
  { unfold board_used. rewrite Hcan'. subst can'.
    cbn [board.set_txr_get_index board.txr_get_index board.txr_put_index].
    unfold wrap8 at 1 2. rewrite Zminus_mod_idemp_r.
    replace (board.txr_put_index can - (board.txr_get_index can + r))
      with (board.txr_put_index can - board.txr_get_index can - r) by lia.
    rewrite <- Zminus_mod_idemp_l.
    fold (wrap8 (board.txr_put_index can - board.txr_get_index can)).
    fold (board_used index cans). fold used.
    apply Z.mod_small. lia. }
  exists (aset cans index can').
  split.
  { unfold sc_board_can_retrieve. rewrite Hloop. cbn [rbind].
    rewrite Z.add_0_l, app_nil_l.
    destruct (Z.ltb_spec 0 (r * bytes)) as [Hpos|Hzero].
    - destruct (Z.eqb_spec used 0) as [Hz|_]; [nia|reflexivity].
    - assert (r = 0) as Hr0 by nia. rewrite Hr0.
      destruct (Z.eqb_spec used 0); reflexivity. }
  split; [lia|]. split; [apply length_aset|]. split; [exact Hused'|].
  split; [rewrite Hcan'; reflexivity|].
  split.
  { rewrite Hcan'. subst can'.
    cbn [board.set_txr_get_index board.txr_get_index]. apply wrap8_range. }
  split; [exact Hbuf|].
  split.
  - intros src Hsrc. unfold board_pending. rewrite Hused'.
    rewrite <- fmap_drop. fold used.
    rewrite drop_seqZ_prefix by lia. rewrite (Z.add_comm 0 r).
    rewrite <- fmap_add_seqZ, <- list_fmap_compose.
    apply Forall_fmap_ext, Forall_forall. intros j Hj. cbn [compose].
    unfold board_entry. rewrite Hcan', (Hbuf src Hsrc). fold can.
    subst can'. cbn [board.set_txr_get_index board.txr_get_index].
    rewrite wrap8_add_l. do 3 f_equal. lia.
  - rewrite <- list_fmap_compose. unfold board_pending.
    rewrite <- fmap_take. fold used.
    rewrite take_seqZ_prefix by lia. reflexivity.
Qed.

End board_retrieve.

Section board_fifo.
Context `{supercan_h}.
Variable k : Z.
Hypothesis size_pow2 : SC_BOARD_CAN_TX_FIFO_SIZE = 2 ^ k.
Hypothesis k_range : 0 <= k <= 7.

(** Queueing a list of messages that fits appends their track ids. *)
Lemma board_queue_all_spec index (msgs : list sc_msg_can_tx) :
  forall cans,
    board_queue_ok index cans ->
    board_used index cans + Z.of_nat (length msgs)
    <= SC_BOARD_CAN_TX_FIFO_SIZE ->
    exists cans',
      board_queue_all index msgs cans
      = (cans', replicate (length msgs) true) /\
      board_queue_ok index cans' /\
      board_used index cans'
      = board_used index cans + Z.of_nat (length msgs) /\
      board_pending index index cans'
      = board_pending index index cans
        ++ ((fun m => wrap8 (tx_track_id m)) <$> msgs).
Proof using size_pow2 k_range.
  induction msgs as [|msg rest IH]; intros cans Hok Hfit.
  - exists cans. cbn [board_queue_all length replicate fmap list_fmap].
    rewrite app_nil_r, Z.add_0_r. repeat split; try assumption; apply Hok.
  - cbn [length] in Hfit.
    destruct (board_queue_push k size_pow2 k_range index msg cans Hok)
      as (cans1 & Hq & Hok1 & Hused1 & Hpend1 & _); [lia|].
    destruct (IH cans1 Hok1) as (cans2 & Hall & Hok2 & Hused2 & Hpend2);
      [lia|].
    exists cans2. cbn [board_queue_all]. rewrite Hq, Hall.
    cbn [length replicate fmap list_fmap].
    split; [reflexivity|]. split; [exact Hok2|].
    split; [lia|]. rewrite Hpend2, Hpend1, <- app_assoc. reflexivity.
Qed.

End board_fifo.

Section board_claims.
Context `{supercan_h}.

(** [sc_board_can_tx_queue] (ring size a power of two up to 128): while
    fewer track ids wait than the ring has slots, the track id of the
    message is accepted, appended behind the waiting ones, the task is
    notified once, and the other channels are not touched; when the ring is
    full the message is refused and nothing changes. *)
Theorem board_tx_queue_accepts_until_full (index k : Z) (msg : sc_msg_can_tx)
    (cans : list board.can) :
  SC_BOARD_CAN_TX_FIFO_SIZE = 2 ^ k -> 0 <= k <= 7 ->
  board_queue_ok index cans ->
  (board_used index cans < SC_BOARD_CAN_TX_FIFO_SIZE ->
   exists cans',
     sc_board_can_tx_queue index msg cans
     = (cans', [board.Notify_task_def index 1], true) /\
     board_queue_ok index cans' /\
     board_pending index index cans'
     = board_pending index index cans ++ [wrap8 (tx_track_id msg)] /\
     (forall i, 0 <= i -> i <> index ->
        aget board.zero_can cans' i = aget board.zero_can cans i)) /\
  (board_used index cans = SC_BOARD_CAN_TX_FIFO_SIZE ->
   sc_board_can_tx_queue index msg cans = (cans, [], false)).
Proof.
  intros Hsize Hk Hok. split.
  - intros Hused.
    destruct (board_queue_push k Hsize Hk index msg cans Hok Hused)
      as (cans' & Hq & Hok' & _ & Hpend & _ & Hother).
    exists cans'. repeat split; try assumption; apply Hok'.
  - intros Hfull. unfold sc_board_can_tx_queue. cbv zeta.
    unfold board_used in Hfull. rewrite Hfull, Z.ltb_irrefl. reflexivity.
Qed.

(** [sc_board_can_retrieve] on a channel where [used] track ids wait, with
    room for [q] TXR messages between [tx_ptr] and [tx_end]: it returns -1
    when nothing waits, 0 when something waits and not one message fits,
    and otherwise the number of bytes of the [min used q] messages it
    wrote.  The messages lie one behind the other from [tx_ptr] on and
    inside the room; message [j] carries the [j]-th reading of the clock
    and the byte that the [j]-th waiting slot of the channel selects in the
    ring of the first channel ([cans->txr_buffer]).  The reported slots are
    removed from the waiting ones and no ring content changes. *)
Theorem board_retrieve_reports_oldest_first (fuel : nat)
    (index tx_ptr tx_end : Z) (clock : Z -> Z) (cans : list board.can) :
  let can := aget board.zero_can cans index in
  let bytes := wrap8 sizeof_sc_msg_can_txr in
  let used := board_used index cans in
  let r := Z.min used ((tx_end - tx_ptr) / bytes) in
  0 <= index < Z.of_nat (length cans) ->
  0 <= board.txr_get_index can < 256 ->
  0 <= board.txr_put_index can < 256 ->
  0 < bytes ->
  0 <= tx_end - tx_ptr < 2 ^ 32 ->
  used < Z.of_nat fuel ->
  exists cans' out,
    sc_board_can_retrieve fuel index tx_ptr tx_end clock cans
    = Ok (cans', (if used =? 0 then -1 else r * bytes), out) /\
    out = board_txr index tx_ptr 0 clock cans <$> seqZ 0 r /\
    board.w_track_id <$> out = take (Z.to_nat r) (board_pending 0 index cans) /\
    Forall (fun w => tx_ptr <= board.w_at w /\ board.w_at w + bytes <= tx_end)
           out /\
    (forall src, 0 <= src ->
       board_pending src index cans'
       = drop (Z.to_nat r) (board_pending src index cans)) /\
    (forall i, 0 <= i ->
       board.txr_buffer (aget board.zero_can cans' i)
       = board.txr_buffer (aget board.zero_can cans i)).
Proof.
  intros can bytes used r Hidx Hgi Hpi Hbytes Hroom Hfuel.
  destruct (board_retrieve_spec fuel index tx_ptr tx_end clock cans
              Hidx Hgi Hpi Hbytes Hroom Hfuel)
    as (cans' & Hret & Hr0 & _ & _ & _ & _ & Hbuf & Hpend & Hids).
  exists cans', (board_txr index tx_ptr 0 clock cans <$> seqZ 0 r).
  split; [exact Hret|]. split; [reflexivity|]. split; [exact Hids|].
  split; [|split; assumption].
  apply Forall_fmap, Forall_forall. intros j Hj.
  apply elem_of_seqZ in Hj. cbn [compose board_txr board.w_at].
  fold bytes.
  assert (r <= (tx_end - tx_ptr) / bytes) as Hrq by (subst r; lia).
  assert ((j + 1) * bytes <= ((tx_end - tx_ptr) / bytes) * bytes) as Hle
    by (apply Z.mul_le_mono_nonneg_r; lia).
  pose proof (Z.div_mod (tx_end - tx_ptr) bytes ltac:(lia)) as Hdm.
  pose proof (Z.mod_pos_bound (tx_end - tx_ptr) bytes Hbytes) as Hmod.
  assert (0 <= j * bytes) by (apply Z.mul_nonneg_nonneg; lia).
  lia.
Qed.

(** On the first channel the track ids come back in the order in which
    they were queued: after queueing the messages of a list that fits the
    empty ring (all of them are accepted), one call of
    [sc_board_can_retrieve] with room for all of them returns the number of
    bytes of as many TXR messages, which carry the track ids of the list in
    order, and leaves the ring empty. *)
Theorem board_txr_round_trip (fuel : nat) (k tx_ptr tx_end : Z)
    (clock : Z -> Z) (msgs : list sc_msg_can_tx) (cans : list board.can) :
  let bytes := wrap8 sizeof_sc_msg_can_txr in
  let n := Z.of_nat (length msgs) in
  SC_BOARD_CAN_TX_FIFO_SIZE = 2 ^ k -> 0 <= k <= 7 ->
  board_queue_ok 0 cans ->
  board_used 0 cans = 0 ->
  0 < n <= SC_BOARD_CAN_TX_FIFO_SIZE ->
  0 < bytes ->
  n * bytes <= tx_end - tx_ptr < 2 ^ 32 ->
  (length msgs < fuel)%nat ->
  exists cans1 cans2 out,
    board_queue_all 0 msgs cans = (cans1, replicate (length msgs) true) /\
    sc_board_can_retrieve fuel 0 tx_ptr tx_end clock cans1
    = Ok (cans2, n * bytes, out) /\
    board.w_track_id <$> out = (fun m => wrap8 (tx_track_id m)) <$> msgs /\
    board_used 0 cans2 = 0.
Proof.
  intros bytes n Hsize Hk Hok Hempty Hn Hbytes Hroom Hfuel.
  destruct (board_queue_all_spec k Hsize Hk 0 msgs cans Hok)
    as (cans1 & Hall & Hok1 & Hused1 & Hpend1); [lia|].
  assert (board_pending 0 0 cans = []) as Hnil.
  { unfold board_pending. rewrite Hempty. reflexivity. }
  rewrite Hnil, app_nil_l in Hpend1. rewrite Hempty, Z.add_0_l in Hused1.
  destruct Hok1 as (Hidx1 & Hgi1 & Hpi1 & _ & _).
  destruct (board_retrieve_spec fuel 0 tx_ptr tx_end clock cans1
              Hidx1 Hgi1 Hpi1 Hbytes ltac:(fold bytes; nia)
              ltac:(rewrite Hused1; lia))
    as (cans2 & Hret & _ & _ & Hused2 & _ & _ & _ & _ & Hids).
  cbv zeta in Hret, Hused2, Hids. rewrite Hused1 in Hret, Hused2, Hids.
  fold n in Hret, Hused2, Hids. fold bytes in Hret, Hused2, Hids.
  assert (n <= (tx_end - tx_ptr) / bytes) as Hq.
  { apply Z.div_le_lower_bound; lia. }
  rewrite Z.min_l in Hret, Hused2, Hids by exact Hq.
  destruct (Z.eqb_spec n 0) as [Hz|_]; [lia|].
  exists cans1, cans2, (board_txr 0 tx_ptr 0 clock cans1 <$> seqZ 0 n).
  split; [exact Hall|]. split; [exact Hret|].
  split; [|lia].
  rewrite Hids, Hpend1. apply take_ge.
  rewrite length_fmap. subst n. lia.
Qed.

End board_claims.

Section board_samples.
#[local] Existing Instance sample_h.

(** A track id queued on the second sample channel, behind 7, 8 and 9. *)
Lemma board_tx_queue_accepts_until_full_witness :
  (board_used 1 board_two_channels < 32 ->
   exists cans',
     sc_board_can_tx_queue 1 (tx_request 10) board_two_channels
     = (cans', [board.Notify_task_def 1 1], true) /\
     board_queue_ok 1 cans' /\
     board_pending 1 1 cans'
     = board_pending 1 1 board_two_channels ++ [wrap8 10] /\
     (forall i, 0 <= i -> i <> 1 ->
        aget board.zero_can cans' i
        = aget board.zero_can board_two_channels i)) /\
  (board_used 1 board_two_channels = 32 ->
   sc_board_can_tx_queue 1 (tx_request 10) board_two_channels
   = (board_two_channels, [], false)).
Proof.
  refine (board_tx_queue_accepts_until_full 1 5 (tx_request 10)
            board_two_channels _ _ _).
  - reflexivity.
  - lia.
  - vm_compute. repeat split; (discriminate || reflexivity).
Defined.

(** The second sample channel, with room for two of its three waiting
    track ids. *)
Lemma board_retrieve_reports_oldest_first_witness :
  exists cans' out,
    sc_board_can_retrieve 4 1 100 120 sample_clock board_two_channels
    = Ok (cans', 16, out) /\
    out = board_txr 1 100 0 sample_clock board_two_channels <$> seqZ 0 2 /\
    board.w_track_id <$> out
    = take 2 (board_pending 0 1 board_two_channels) /\
    Forall (fun w => 100 <= board.w_at w /\ board.w_at w + 8 <= 120) out /\
    (forall src, 0 <= src ->
       board_pending src 1 cans'
       = drop 2 (board_pending src 1 board_two_channels)) /\
    (forall i, 0 <= i ->
       board.txr_buffer (aget board.zero_can cans' i)
       = board.txr_buffer (aget board.zero_can board_two_channels i)).
Proof.
  refine (board_retrieve_reports_oldest_first 4 1 100 120 sample_clock
            board_two_channels _ _ _ _ _ _).
  - vm_compute. split; [discriminate | reflexivity].
  - vm_compute. split; [discriminate | reflexivity].
  - vm_compute. split; [discriminate | reflexivity].
  - reflexivity.
  - vm_compute. split; [discriminate | reflexivity].
  - vm_compute. reflexivity.
Defined.

(** Three track ids through the first sample channel, across the
    wrap-around of its indices. *)
Lemma board_txr_round_trip_witness :
  exists cans1 cans2 out,
    board_queue_all 0 [tx_request 1; tx_request 2; tx_request 3]
                    board_two_channels
    = (cans1, replicate 3 true) /\
    sc_board_can_retrieve 4 0 0 64 sample_clock cans1
    = Ok (cans2, 3 * 8, out) /\
    board.w_track_id <$> out
    = (fun m => wrap8 (tx_track_id m))
        <$> [tx_request 1; tx_request 2; tx_request 3] /\
    board_used 0 cans2 = 0.
Proof.
  refine (board_txr_round_trip 4 5 0 64 sample_clock
            [tx_request 1; tx_request 2; tx_request 3] board_two_channels
            _ _ _ _ _ _ _ _).
  - reflexivity.
  - lia.
  - vm_compute. repeat split; (discriminate || reflexivity).
  - reflexivity.
  - vm_compute. split; [reflexivity | discriminate].
  - reflexivity.
  - vm_compute. split; [discriminate | reflexivity].
  - vm_compute. lia.
Defined.

End board_samples.

(** ** [can_usb_task]: an RX ring slot marked both remote and FD *)

Section rx_overrun.
Context `{supercan_h} `{supercan_layout}.

(** For a slot of the RX ring that is marked both as a remote frame and as
    an FD frame, [can_usb_task] reserves the struct alone (rounded up to the
    length multiple), because the slot is a remote frame, and copies the
    payload all the same, because the slot is an FD frame: the message
    stored has the length of the struct in its [len] field and [tx_ptr]
    advances by that, while [dlc_to_len] payload bytes are written behind
    the struct; placed near the end of the bank they are written past the
    end of the bank. *)
Theorem fd_remote_payload_not_reserved (s : task_state) (k : Z) :
  struct_sizes_ok k ->
  rx_get_index (t_can s) <> rx_put_index (t_can s) ->
  wrap8 (rx_put_index (t_can s) - rx_get_index (t_can s))
  <= CAN_RX_FIFO_SIZE ->
  let c := t_can s in
  let f := aget zero_rx_frame (rx_frames c)
                (wrap8 (Z.land (rx_get_index c) (CAN_RX_FIFO_SIZE - 1))) in
  let payload := dlc_to_len (R1_DLC (rxf_R1 f)) in
  let bytes := can_rx_msg_bytes f in
  let buf := can_tx_buffer (usb_can.tx_bank (t_usb_can s)) in
  truthy (R0_RTR (rxf_R0 f)) = true -> truthy (R1_FDF (rxf_R1 f)) = true ->
  payload <= Z.of_nat (length (rxf_data f)) ->
  tx_room s bytes = true ->
  sizeof_sc_msg_can_rx <= bytes
  < sizeof_sc_msg_can_rx + SC_MSG_CAN_LEN_MULTIPLE /\
  exists s' m,
    task_rx_part s = Ok (Next, s') /\
    t_events s' = t_events s ++ [Store buf (t_tx_ptr s) (Msg_can_rx m)] /\
    rx_len m = bytes /\
    written_bytes (Msg_can_rx m) = sizeof_sc_msg_can_rx + payload /\
    t_tx_ptr s' = t_tx_ptr s + bytes /\
    (MSG_BUFFER_SIZE < t_tx_ptr s + sizeof_sc_msg_can_rx + payload ->
     ~ event_in_bounds (Store buf (t_tx_ptr s) (Msg_can_rx m))).
Proof.
  intros (_ & _ & _ & _ & Hm & Hk & Hsize & Hfit) Hne Hcount c f payload
         bytes buf Hrtr Hfdf Hdata Hroom.
  subst c.
  destruct (can_rx_msg_bytes_rounded f k Hm Hk Hsize Hfit) as [_ Hbounds].
  unfold can_rx_msg_raw_bytes in Hbounds. rewrite Hrtr in Hbounds.
  rewrite Z.add_0_r in Hbounds. fold bytes in Hbounds.
  split; [exact Hbounds|].
  pose proof (dlc_to_len_bounds (R1_DLC (rxf_R1 f))) as Hlen.
  fold payload in Hlen.
  assert (written_bytes (Msg_can_rx (can_rx_msg bytes f))
          = sizeof_sc_msg_can_rx + payload) as Hwritten.
  { cbn [written_bytes can_rx_msg rx_data]. rewrite Hfdf. cbn [orb].
    fold payload. rewrite length_take. lia. }
  exists (set_t_can (set_rx_get_index (wrap8 (rx_get_index (t_can s) + 1))
                                      (t_can s))
            (tx_store bytes (Msg_can_rx (can_rx_msg bytes f))
                      (set_t_done false s))),
         (can_rx_msg bytes f).
  split.
  { unfold task_rx_part. cbv zeta.
    rewrite (proj2 (Z.eqb_neq _ _) Hne).
    rewrite (proj2 (Z.ltb_ge _ _) Hcount). cbn [rbind].
    fold f. change (if truthy (Z.land _ _) then _ else _)
              with (can_rx_msg_bytes f) at 1.
    fold bytes. rewrite Hroom. reflexivity. }
  split; [reflexivity|]. split; [reflexivity|].
  split; [exact Hwritten|]. split; [reflexivity|].
  intros Hpast (_ & _ & Hin). rewrite Hwritten in Hin.
  cbn [buffer_size] in Hin. subst buf. cbn [buffer_size] in Hin. lia.
Qed.

End rx_overrun.

Section rx_overrun_samples.
#[local] Existing Instance sample_h.
#[local] Existing Instance sample_layout.

(** The slot with DLC 15 when bank 0 holds 500 of 512 bytes: twelve bytes
    are reserved, and the 64 payload bytes end at offset 576. *)
Lemma fd_remote_payload_not_reserved_witness :
  exists s' m,
    task_rx_part task_fd_remote_at_end = Ok (Next, s') /\
    t_events s' = [Store (can_tx_buffer false) 500 (Msg_can_rx m)] /\
    rx_len m = 12 /\
    written_bytes (Msg_can_rx m) = 12 + 64 /\
    t_tx_ptr s' = 512 /\
    ~ event_in_bounds (Store (can_tx_buffer false) 500 (Msg_can_rx m)).
Proof.
  destruct (fd_remote_payload_not_reserved task_fd_remote_at_end 2)
    as (_ & s' & m & Hr & Hev & Hlen & Hw & Hptr & Hout);
    [ exact sample_struct_sizes_ok | vm_compute; discriminate
    | vm_compute; discriminate | reflexivity | reflexivity
    | vm_compute; discriminate | reflexivity |].
  exists s', m. split; [exact Hr|]. split; [exact Hev|].
  split; [exact Hlen|]. split; [exact Hw|]. split; [exact Hptr|].
  apply Hout. vm_compute. reflexivity.
Defined.

End rx_overrun_samples.
